(* ===== verification/_CoqProject ===== *)
-Q . S2P
Prelude.v
Rust.v
Text.v
Identifiers.v
Images.v
Guest.v
Hot.v
Allocation.v
Config.v
ConfigValidate.v
ConfigReload.v
Claims.v
Sizing.v
Admission.v
HotSelect.v
Reaper.v
Convert.v
History.v
Sessions.v
Wire.v
Futures.v
Forgejo.v
Manager.v
Supervise.v
HotPool.v
Lifecycle.v
WarmImages.v
Sweep.v
Tart.v
Promotion.v
Service.v
Recovery.v
System.v
Pool.v
Virt.v
VirtSpec.v
VirtWorker.v
VirtAuthority.v
VirtWarm.v
VirtWarmSpec.v
VirtGenerations.v
VirtGenerationsSpec.v
