(* ===== verification/Prelude.v ===== *)
(** * flanforge: a verification of the allocation daemon

    [flanforged] hands Forgejo workflow jobs one disposable virtual machine
    each.  A request carries a signed token; the daemon checks it against the
    policy of a configured profile, decides whether the host has room, records
    an allocation, drives a backend (Tart or libvirt) to boot the guest, and
    tears it down.  Guests may be kept for reuse (the hot pool) and base images
    regenerated by designated workflows (warm images); a reaper deletes what
    nothing claims, and a restart recovers what a crash interrupted.

    ** Parts and files

    Paths are under [src/crates/].

    - This file: results, booleans and lists shared by every component, and
      the automation.  [Rust]: byte strings, decimal rendering and the
      iteration orders of [HashMap] and [BTreeMap].
    - [Text] ([flanforge-utils]): glob matching, Git refs, libvirt URIs, UTF-8
      bounding.
    - [Identifiers], [Images], [Guest], [Hot], [Allocation], [Sizing], [Claims]
      ([flanforge-core]): the records, their validators and state machines,
      what a request may select beneath its profile, and the policy check.
    - [Config], [ConfigValidate], [ConfigReload] ([flanforge-core/src/config]):
      the document, every validation step in its order, and what a reload
      changes.
    - [Admission], [HotSelect], [Reaper] ([flanforge-manager]): the decisions
      taken on a snapshot: the capacity fold, the choice of pool machines, the
      plan of a sweep.
    - [Convert] ([flanforge-orm/src/convert]): records as database rows.
    - [Manager] ([flanforge-manager/src/{service,state,shutdown}.rs] and
      [flanforge-orm/src/stores]): the daemon's whole state, the stores, the
      backend as an interface, and the monad every operation runs in.
    - [HotPool], [Lifecycle], [WarmImages], [Sweep], [Service], [Recovery]
      ([flanforge-manager]): the operations with their effects.
    - [System], [Pool]: all operations as one step relation with crashes and
      restarts, and what holds in every reachable state.
    - [Sessions], [History] ([flanforge-orm/src/services], [stores/prune.rs]):
      the web interface's accounts and sessions, the history pages and the
      retention of the tables.
    - [Futures]: steps that wait on other processes, under timeouts and a
      cancellation token, and a program logic for them.
    - [Forgejo] ([flanforge-forgejo]): the client's requests, retries and
      pages, the choice of a job and the reconciling of runners.
    - [Supervise] ([flanforge-runtime]): the runner's registration, its start
      in the guest and the supervision of its job.
    - [Tart], [Promotion] ([flanforge-runtime-tart]): the Tart backend over a
      host of disks and processes, and the promotion of a warm image.
    - [Wire] ([flanforge-libvirt-wire]): every document and message of the
      libvirt backend.
    - [Virt], [VirtSpec] ([flanforge-runtime-libvirt/src/{actor,domain,
      checkpoint}]): the privileged helper's work on volumes and domains, and
      its theorems.  [VirtWorker], [VirtAuthority] (its [worker], [manifest]
      and [seed]): the worker around it, and what its ownership manifest
      guarantees.  [VirtWarm], [VirtWarmSpec]: the helper's work on warm
      volumes; [VirtGenerations], [VirtGenerationsSpec] (its [warm]): the
      worker's, with the documents it keeps of them.

    ** How the code is represented

    A [Result] is [result], with [x ←? e; k] for the question mark.  Integers
    are [Z]; a wrap, a saturation or a checked operation is written out where
    the code has one, and theorems about sums are stated for the true,
    unbounded value.  A [str] is its byte sequence.  A [HashMap] is a [gmap]
    with an iteration order that is a parameter ([HashOrder]): no theorem
    depends on which order it is.  A [BTreeMap] iterates in byte order of its
    keys.

    An operation of the manager is a function of the whole state [Manager W],
    where [W] is the world of the backend.  The backend is the class [Backend],
    one field per call of the [AllocationWorker] trait, together with the
    clocks, fresh identifiers and a fault oracle: every store call may fail,
    at any time, before it takes effect.  What the trait's documentation
    promises is stated as further classes ([PoolBackend], [HostBackend]) next to
    the theorems that need it, and [Sim] is an executable backend that keeps
    them, on which the witnesses run.  The hypervisor is treated the same way:
    [LibvirtHost] and [LibvirtVolumes] are its interface, [LawfulLibvirt] and
    [LawfulVolumes] what libvirt documents (no one else writes to the pool
    meanwhile), and a call may fail, be cut off halfway or be the helper's
    last.  The worker's lock on its warm documents makes each of their
    operations one sequence of steps.

    ** What is proved

    - The system: two live allocations never share a run attempt, a produced
      image or a pool machine, whatever interleaving of operations, failures
      and restarts led there; each step is at most one acquisition of a free
      machine's lock; every machine in the pool has a record.
    - A request: it is answered only to a caller the policy authorizes, once
      per attempt, within the host's capacity, and leaves one resident entry
      with its row or nothing at all.  Admission accepts exactly what fits.
    - Ending: with a store that answers, every allocation that is torn down
      reaches a terminal state, on disk too; cleanup stops after a bounded
      number of attempts.
    - Deletion: a sweep plans exactly what nothing protects and never destroys
      a machine in use, a template or an image; a dry run destroys nothing.
    - The pool and warm images: which machine is claimed, which are retired,
      when a warm image may be booted or promoted, and how a restart settles an
      interrupted promotion.
    - Policy and configuration: the authorization check, the protected lane,
      reserved names, unique labels, ceilings on sizes and lifetimes.
    - Waiting: supervision of a job ends within its lifetime and reports
      success only on evidence of it; a backend's teardown always answers.
    - The Tart backend keeps the contracts the manager's theorems ask of a
      backend, destroys only what its caller is entitled to, and wherever a
      promotion stops that started from a settled record, a restart settles on
      the disk that is live, but for two moments that are shown to mislabel it.
    - The libvirt backend: a boot makes nothing its manifest on disk does not
      name, a creation can be taken back wherever it was cut off unless a
      volume's key is longer than a manifest holds, a cleanup removes only what
      the manifest names and while the keys agree, and the manifest is given up
      only once nothing it names is left.
    - Warm volumes of libvirt: a capture only adds, what is verified stands on
      its own, retirement spares whatever an overlay or a domain rests on, and
      sweep and recovery delete only what their documents entitle them to, the
      sweep only what is an hour older than its own reading of the clock.  A
      promotion the manager does not record leaves a document of a deleted
      volume.
    - The web interface: a login grants until its reading of the clock plus the
      configured time, an identity is a grant beyond the reading taken for it,
      and revoking is exact.
    - Data: glob matching against its declarative meaning, UTF-8 bounding,
      round trips of names, fingerprints, rows and page cursors.

    ** Bounds and fuel

    The glob matcher runs on fuel one more than the product its measure bounds,
    and [is_glob_match_spec] shows it never runs out.  The cleanup loop takes
    the number of attempts the source fixes.  Loops that wait run on fuel that
    their deadline bounds: supervision takes the rounds the job's timeout has
    room for and three more, the wait for a domain to stop the polls its
    deadline has room for and two more ([stop_fuel]), and their theorems show
    that it is enough.  An upload sends at least a byte per turn and a download
    that goes on receives one, so the length is enough ([receive_ends]).  Every other recursion is structural.

    ** Choices and limits

    Operations are atomic steps, except where the code itself works from an
    older snapshot: [create_locked] is the section under the entries lock and takes an
    arbitrary listing and pool snapshot, and a sweep deletes from a plan that
    may be stale.  One task drives an allocation, and recovery runs before
    anything is served, as in the daemon.  Between two steps the host may
    change on its own ([drift]).  A clock is read once per operation that
    stamps a record, as the code does.

    Event payloads, log lines and the watch channels are left out, as is the
    text of database errors.  Writes of the state directory are atomic, so the
    temporaries an interrupted write leaves, and their removal with its bound
    on their number, are left out; so are the modes and owners of files.  A
    refresh of a storage pool sees what is there, since nobody else writes to
    the pool.  The history handler is modelled over a database that answers.
    The two branches of the libvirt teardown that run under one join are taken one
    after the other: they touch the guest and the runner's registration, which
    share nothing.  Third-party code is a parameter: the word
    splitter of shell commands, URL parsing, password hashing.

    ** Not modelled

    Of the Tart backend its boot and ssh sessions; of the libvirt backend the
    import and verification of images, the inventory, the guest agent channel
    with what runs in the guest, and the wait for an address.  The HTTP surface and its
    extractors, token signatures, the OIDC relying party, TOML loading and
    editing, the import of the former JSON state, schema migrations, native
    service units, logging and the command line: they are input and output
    around the operations above. *)

From Stdlib Require Export ZArith Lia Bool Ascii.
From Stdlib Require String.
From stdpp Require Export base gmap sets list strings sorting option.

#[export] Set Default Goal Selector "!".
#[export] Set Warnings "-clear-no-such-hyp,-postfix-notation-not-level-1".
Open Scope Z_scope.

(** ** Results

    Rust's [Result<A, E>]; the type arguments are in monad order, so that
    stdpp's [x ← e; k] is the [?] operator. *)

Inductive result (E A : Type) : Type :=
| Ok (a : A)
| Err (e : E).

Arguments Ok {E A} a.
Arguments Err {E A} e.

#[export] Instance result_ret E : MRet (result E) := fun _ a => Ok a.

#[export] Instance result_bind E : MBind (result E) := fun _ _ f r =>
  match r with Ok a => f a | Err e => Err e end.

#[export] Instance result_fmap E : FMap (result E) := fun _ _ f r =>
  match r with Ok a => Ok (f a) | Err e => Err e end.

#[export] Instance result_eq_dec E A
  `{!EqDecision E, !EqDecision A} : EqDecision (result E A).
Proof. solve_decision. Defined.

(** [Result::map_err]. *)
Definition map_err {E F A} (f : E -> F) (r : result E A) : result F A :=
  match r with Ok a => Ok a | Err e => Err (f e) end.

(** [Option::ok_or]. *)
Definition ok_or {E A} (o : option A) (e : E) : result E A :=
  match o with Some a => Ok a | None => Err e end.

(** [Result::ok]. *)
Definition ok {E A} (r : result E A) : option A :=
  match r with Ok a => Some a | Err _ => None end.

Definition is_ok {E A} (r : result E A) : bool :=
  match r with Ok _ => true | Err _ => false end.

(** The shape [if !condition { return Err(e) }]. *)
Definition ensure {E} (condition : bool) (e : E) : result E unit :=
  if condition then Ok tt else Err e.

(** A [for] loop whose body is fallible and stops at the first error. *)
Fixpoint try_for_each {E A} (f : A -> result E unit) (l : list A) : result E unit :=
  match l with
  | [] => Ok tt
  | x :: l => _ ← f x; try_for_each f l
  end.

(** [iter.map(f).collect::<Result<Vec<_>, _>>()]. *)
Fixpoint try_collect {E A B} (f : A -> result E B) (l : list A) : result E (list B) :=
  match l with
  | [] => Ok []
  | x :: l => y ← f x; ys ← try_collect f l; Ok (y :: ys)
  end.

Section results.
Context {E : Type}.

Lemma result_bind_ok {A B} (r : result E A) (f : A -> result E B) b :
  (x ← r; f x) = Ok b <-> exists a, r = Ok a /\ f a = Ok b.
Proof. destruct r; simpl; naive_solver. Qed.

Lemma result_bind_err {A B} (r : result E A) (f : A -> result E B) e :
  (x ← r; f x) = Err e <-> r = Err e \/ exists a, r = Ok a /\ f a = Err e.
Proof. destruct r; simpl; naive_solver. Qed.

Lemma ensure_ok (b : bool) (e : E) u : ensure b e = Ok u <-> b = true.
Proof. destruct b, u; simpl; naive_solver. Qed.

Lemma ensure_err (b : bool) (e e' : E) : ensure b e = Err e' <-> b = false /\ e = e'.
Proof. destruct b; simpl; naive_solver. Qed.

Lemma ok_or_ok {A} (o : option A) (e : E) a : ok_or o e = Ok a <-> o = Some a.
Proof. destruct o; simpl; naive_solver. Qed.

Lemma ok_or_err {A} (o : option A) (e e' : E) :
  ok_or o e = Err e' <-> o = None /\ e = e'.
Proof. destruct o; simpl; naive_solver. Qed.

Lemma map_err_ok {F A} (f : E -> F) (r : result E A) a :
  map_err f r = Ok a <-> r = Ok a.
Proof. destruct r; simpl; naive_solver. Qed.

Lemma map_err_err {F A} (f : E -> F) (r : result E A) e :
  map_err f r = Err e <-> exists e', r = Err e' /\ f e' = e.
Proof. destruct r; simpl; naive_solver. Qed.

Lemma try_for_each_ok {A} (f : A -> result E unit) l u :
  try_for_each f l = Ok u <-> Forall (fun x => f x = Ok tt) l.
Proof.
  destruct u. induction l as [|x l IH]; simpl; [split; eauto|].
  split.
  - intros ([] & ? & ?%IH)%result_bind_ok. eauto.
  - inversion 1; subst. apply result_bind_ok. exists tt. split; [done | by apply IH].
Qed.

Lemma try_for_each_err {A} (f : A -> result E unit) l e :
  try_for_each f l = Err e ->
  exists l1 x l2, l = l1 ++ x :: l2 /\ Forall (fun y => f y = Ok tt) l1 /\ f x = Err e.
Proof.
  induction l as [|x l IH]; simpl; [done|].
  intros [Hx|([] & Hx & Hl)]%result_bind_err.
  - exists [], x, l. auto.
  - destruct (IH Hl) as (l1 & y & l2 & -> & ? & ?).
    exists (x :: l1), y, l2. auto.
Qed.

Lemma try_collect_ok {A B} (f : A -> result E B) l l' :
  try_collect f l = Ok l' <-> Forall2 (fun x y => f x = Ok y) l l'.
Proof.
  revert l'. induction l as [|x l IH]; intros l'; simpl.
  - split; [intros [= <-]; constructor | by inversion 1].
  - split.
    + intros (y & Hy & (ys & Hys & [= <-])%result_bind_ok)%result_bind_ok.
      constructor; [done | by apply IH].
    + inversion 1; subst. apply result_bind_ok. eexists; split; [done|].
      apply result_bind_ok. eexists; split; [by apply IH | done].
Qed.
End results.

(** Rewrites every hypothesis and goal about a monadic result into the facts
    its success or failure stands for. *)
Ltac simplify_result :=
  repeat match goal with
  | H : (_ ← _; _) = Ok _ |- _ => apply result_bind_ok in H as (? & ? & ?)
  | H : ensure _ _ = Ok _ |- _ => apply ensure_ok in H
  | H : ensure _ _ = Err _ |- _ => apply ensure_err in H as [? ?]
  | H : ok_or _ _ = Ok _ |- _ => apply ok_or_ok in H
  | H : ok_or _ _ = Err _ |- _ => apply ok_or_err in H as [? ?]
  | H : map_err _ _ = Ok _ |- _ => apply map_err_ok in H
  | H : map_err _ _ = Err _ |- _ => apply map_err_err in H as (? & ? & ?)
  | H : Ok _ = Ok _ |- _ => injection H as H
  | H : Err _ = Err _ |- _ => injection H as H
  | H : Ok _ = Err _ |- _ => discriminate H
  | H : Err _ = Ok _ |- _ => discriminate H
  | u : unit |- _ => destruct u
  end; simplify_eq.

(** ** Lists *)

Lemma filter_bool_sublist {A} (p : A -> bool) (l : list A) : List.filter p l `sublist_of` l.
Proof.
  induction l as [|x l IH]; simpl; [constructor|]. destruct (p x); by constructor.
Qed.

Lemma existsb_false {A} (f : A -> bool) l : existsb f l = false <-> forall x, x ∈ l -> f x = false.
Proof.
  rewrite <- not_true_iff_false, existsb_exists. split.
  - intros Hn x Hx. apply not_true_iff_false. intros Hf. apply Hn. exists x. by rewrite <- list_elem_of_In.
  - intros Hf (x & Hx%list_elem_of_In & Ht). rewrite Hf in Ht; done.
Qed.

(** ** Machine integers

    A [w]-bit unsigned integer is a [Z] in [0, max w]; saturating and wrapping
    arithmetic are written out where the source uses them. *)

Definition u8_max : Z := 255.
Definition u16_max : Z := 65535.
Definition u32_max : Z := 4294967295.
Definition u64_max : Z := 18446744073709551615.
Definition i32_max : Z := 2147483647.
Definition i64_max : Z := 9223372036854775807.
(** The daemon's targets are 64-bit. *)
Definition usize_max : Z := u64_max.

Definition in_u32 (x : Z) : bool := (0 <=? x) && (x <=? u32_max).
Definition in_u64 (x : Z) : bool := (0 <=? x) && (x <=? u64_max).
Definition in_i64 (x : Z) : bool := (- i64_max - 1 <=? x) && (x <=? i64_max).

Definition sat_add (max a b : Z) : Z := Z.min max (a + b).
Definition sat_mul (max a b : Z) : Z := Z.min max (a * b).
(** Unsigned [saturating_sub]: the floor is zero at every width. *)
Definition sat_sub (a b : Z) : Z := Z.max 0 (a - b).

Definition in_range (lo hi x : Z) : bool := (lo <=? x) && (x <=? hi).

Lemma in_range_spec lo hi x : in_range lo hi x = true <-> lo <= x <= hi.
Proof. unfold in_range. rewrite andb_true_iff, !Z.leb_le. done. Qed.

Lemma in_u32_spec x : in_u32 x = true <-> 0 <= x <= u32_max.
Proof. apply in_range_spec. Qed.

Lemma in_u64_spec x : in_u64 x = true <-> 0 <= x <= u64_max.
Proof. apply in_range_spec. Qed.

(** A saturating sum stays below a bound under the maximum exactly when the
    true sum does: saturation cannot make an overflowing request look small. *)
Lemma sat_add_le max a b limit :
  limit < max -> (sat_add max a b <= limit <-> a + b <= limit).
Proof. unfold sat_add. lia. Qed.

Lemma sat_add_le_max max a b : sat_add max a b <= max.
Proof. unfold sat_add. lia. Qed.

Lemma sat_add_nonneg max a b :
  0 <= max -> 0 <= a -> 0 <= b -> 0 <= sat_add max a b.
Proof. unfold sat_add. lia. Qed.

(** Rewrites boolean connectives and comparisons to propositions everywhere. *)
Ltac simplify_bool :=
  repeat match goal with
  | H : _ && _ = true |- _ => apply andb_true_iff in H as [? ?]
  | H : _ || _ = false |- _ => apply orb_false_iff in H as [? ?]
  | H : negb _ = true |- _ => apply negb_true_iff in H
  | H : negb _ = false |- _ => apply negb_false_iff in H
  | H : (_ <=? _) = true |- _ => apply Z.leb_le in H
  | H : (_ <=? _) = false |- _ => apply Z.leb_gt in H
  | H : (_ <? _) = true |- _ => apply Z.ltb_lt in H
  | H : (_ <? _) = false |- _ => apply Z.ltb_ge in H
  | H : (_ =? _) = true |- _ => apply Z.eqb_eq in H
  | H : (_ =? _) = false |- _ => apply Z.eqb_neq in H
  | H : in_range _ _ _ = true |- _ => apply in_range_spec in H
  | H : bool_decide _ = true |- _ => apply bool_decide_eq_true in H
  | H : bool_decide _ = false |- _ => apply bool_decide_eq_false in H
  end.

(** Steps past the early error returns of a body known to succeed. *)
Ltac pass_guards :=
  repeat match goal with
  | |- (if ?g then Err _ else _) = Ok _ -> _ =>
      let H := fresh "Hguard" in destruct g eqn:H; [done|]
  end.

(** ** Struct update

    [r <| field := v |>] is the assignment [r.field = v] on a copy of [r].  A
    record supports it once its eta expansion is an instance of [Eta]. *)

Class Eta (R : Type) := eta : R -> R.

Class Setter {R T : Type} (field : R -> T) := mkSetter { set_field : (T -> T) -> R -> R }.

Arguments set_field {R T} field {_} _ !_ /.

Ltac derive_setter field :=
  let R := lazymatch type of field with ?R -> _ => R end in
  let inst := constr:(_ : Eta R) in
  let body := eval hnf in inst in
  lazymatch eval pattern field in body with
  | (fun _ => ?whole) _ => fail "the record does not hold the field"
  | ?build _ => exact (mkSetter _ _ field (fun f => build (fun r => f (field r))))
  end.

#[export] Hint Extern 1 (Setter ?field) => derive_setter field : typeclass_instances.

Declare Scope struct_scope.
Delimit Scope struct_scope with struct.
Open Scope struct_scope.

Notation "r <| field := v |>" := (set_field field (fun _ => v) r)
  (at level 12, left associativity, field at level 8, v at level 100,
   format "r  <| field  :=  v |>") : struct_scope.
