(* ===== verification/Rust.v ===== *)
(** * The pieces of Rust's standard library the daemon relies on

    Byte strings and the [str] methods the sources call, the decimal
    rendering of [format!], and the iteration order of [HashMap] and
    [BTreeMap].  A [str] is a Stdlib [string]: a sequence of 8-bit characters,
    which is exactly the UTF-8 byte sequence Rust compares, measures and
    indexes. *)

From S2P Require Import Prelude.
From stdpp Require Export pretty.

#[export] Set Default Goal Selector "!".
Open Scope Z_scope.
Open Scope stdpp_scope.

(** ** Bytes *)

Definition byte_val (c : ascii) : Z := Z.of_N (N_of_ascii c).

Definition is_ascii_digit (c : ascii) : bool := in_range 48 57 (byte_val c).
Definition is_ascii_lowercase (c : ascii) : bool := in_range 97 122 (byte_val c).
Definition is_ascii_uppercase (c : ascii) : bool := in_range 65 90 (byte_val c).
Definition is_ascii_alphanumeric (c : ascii) : bool :=
  is_ascii_digit c || is_ascii_lowercase c || is_ascii_uppercase c.
Definition is_ascii_graphic (c : ascii) : bool := in_range 33 126 (byte_val c).
Definition is_ascii_control (c : ascii) : bool :=
  in_range 0 31 (byte_val c) || (byte_val c =? 127).
Definition is_ascii_hexdigit (c : ascii) : bool :=
  is_ascii_digit c || in_range 97 102 (byte_val c) || in_range 65 70 (byte_val c).

Definition to_lower (c : ascii) : ascii :=
  if is_ascii_uppercase c then ascii_of_N (N_of_ascii c + 32) else c.

(** [matches!(byte, b'x' | b'y' | ..)]. *)
Definition one_of (set : string) (c : ascii) : bool :=
  existsb (Ascii.eqb c) (String.list_ascii_of_string set).

(** A decidable fact about bytes holds of all of them when it computes to
    [true] on each of the 256. *)
Definition every_byte (P : ascii -> bool) : bool :=
  forallb (fun n => P (ascii_of_nat n)) (seq 0 256).

Lemma every_byte_spec P : every_byte P = true -> forall c, P c = true.
Proof.
  unfold every_byte. intros H c. rewrite forallb_forall in H.
  rewrite <- (ascii_nat_embedding c). apply H, in_seq.
  pose proof (nat_ascii_bounded c). lia.
Qed.

(** ** Strings *)

Definition bytes (s : string) : list ascii := String.list_ascii_of_string s.
Definition text (l : list ascii) : string := String.string_of_list_ascii l.
Definition len (s : string) : Z := Z.of_nat (String.length s).
Definition is_empty (s : string) : bool := (len s =? 0).
Definition all_bytes (p : ascii -> bool) (s : string) : bool := forallb p (bytes s).
Definition any_byte (p : ascii -> bool) (s : string) : bool := existsb p (bytes s).

(** [value.as_bytes().first().is_some_and(p)]. *)
Definition first_byte (p : ascii -> bool) (s : string) : bool :=
  match s with EmptyString => false | String c _ => p c end.

Definition starts_with (s pre : string) : bool :=
  bool_decide (bytes pre `prefix_of` bytes s).
Definition ends_with (s suf : string) : bool :=
  bool_decide (bytes suf `suffix_of` bytes s).
Definition strip_prefix (s pre : string) : option string :=
  if starts_with s pre then Some (text (drop (String.length pre) (bytes s))) else None.
Definition strip_suffix (s suf : string) : option string :=
  if ends_with s suf
  then Some (text (take (String.length s - String.length suf) (bytes s))) else None.

Fixpoint contains (s pat : string) : bool :=
  starts_with s pat
  || match s with EmptyString => false | String _ s => contains s pat end.

Definition to_ascii_lowercase (s : string) : string := text (map to_lower (bytes s)).

(** [str::split] on one character: always at least one piece. *)
Fixpoint split (sep : ascii) (s : string) : list string :=
  match s with
  | EmptyString => [""]
  | String c s =>
      if Ascii.eqb c sep then "" :: split sep s
      else match split sep s with
           | [] => [String c ""]
           | p :: ps => String c p :: ps
           end
  end.

Fixpoint split_once (sep : ascii) (s : string) : option (string * string) :=
  match s with
  | EmptyString => None
  | String c s =>
      if Ascii.eqb c sep then Some ("", s)
      else match split_once sep s with
           | Some (a, b) => Some (String c a, b)
           | None => None
           end
  end.

(** [str::rsplit_once]: at the last occurrence. *)
Fixpoint rsplit_once (sep : ascii) (s : string) : option (string * string) :=
  match s with
  | EmptyString => None
  | String c s =>
      match rsplit_once sep s with
      | Some (a, b) => Some (String c a, b)
      | None => if Ascii.eqb c sep then Some ("", s) else None
      end
  end.

(** [str::split_once] on a string pattern. *)
Fixpoint split_once_str (pat s : string) : option (string * string) :=
  match strip_prefix s pat with
  | Some rest => Some ("", rest)
  | None =>
      match s with
      | EmptyString => None
      | String c s =>
          match split_once_str pat s with
          | Some (a, b) => Some (String c a, b)
          | None => None
          end
      end
  end.

(** [str::trim_end], from the last byte on: the characters of Unicode's
    [White_Space] by their encodings. *)
Definition is_space_byte (c : ascii) : bool := (byte_val c =? 32) || in_range 9 13 (byte_val c).
Definition is_space_pair (a b : ascii) : bool :=
  (byte_val a =? 194) && ((byte_val b =? 133) || (byte_val b =? 160)).
Definition is_space_triple (a b c : ascii) : bool :=
  match byte_val a, byte_val b with
  | 225, 154 => byte_val c =? 128
  | 226, 128 => in_range 128 138 (byte_val c) || (byte_val c =? 168) || (byte_val c =? 169)
                || (byte_val c =? 175)
  | 226, 129 => byte_val c =? 159
  | 227, 128 => byte_val c =? 128
  | _, _ => false
  end.

Fixpoint trim_reversed (l : list ascii) : list ascii :=
  match l with
  | [] => []
  | c :: l1 =>
      if is_space_byte c then trim_reversed l1
      else match l1 with
           | [] => l
           | b :: l2 =>
               if is_space_pair b c then trim_reversed l2
               else match l2 with
                    | [] => l
                    | a :: l3 => if is_space_triple a b c then trim_reversed l3 else l
                    end
           end
  end.

Definition trim_end (s : string) : string := text (rev (trim_reversed (rev (bytes s)))).

(** [trim().is_empty()]. *)
Definition is_blank (s : string) : bool := is_empty (trim_end s).

(** Decimal rendering of an unsigned integer by [format!]. *)
Definition decimal (n : Z) : string := pretty (Z.to_N n).

(** *** Lemmas on strings *)

Lemma text_bytes s : text (bytes s) = s.
Proof. apply String.string_of_list_ascii_of_string. Qed.

Lemma bytes_text l : bytes (text l) = l.
Proof. apply String.list_ascii_of_string_of_list_ascii. Qed.

#[export] Instance bytes_inj : Inj (=) (=) bytes.
Proof. intros s t H. by rewrite <- (text_bytes s), H, text_bytes. Qed.

Lemma bytes_app s t : bytes (s +:+ t) = bytes s ++ bytes t.
Proof. unfold bytes. induction s as [|c s IH]; [done|]. simpl. congruence. Qed.

Lemma string_cons_app c s t : String c s +:+ t = String c (s +:+ t).
Proof. done. Qed.

Lemma string_nil_app s : "" +:+ s = s.
Proof. done. Qed.

Lemma text_app l k : text (l ++ k) = text l +:+ text k.
Proof.
  unfold text. induction l as [|c l IH]; [done|]. simpl.
  rewrite string_cons_app. congruence.
Qed.

Lemma length_bytes s : Datatypes.length (bytes s) = String.length s.
Proof. unfold bytes. induction s as [|c s IH]; simpl; congruence. Qed.

Lemma length_string_app s t :
  String.length (s +:+ t) = (String.length s + String.length t)%nat.
Proof. by rewrite <- !length_bytes, bytes_app, length_app. Qed.

Lemma len_app s t : len (s +:+ t) = len s + len t.
Proof. unfold len. rewrite length_string_app. lia. Qed.

Lemma len_nonneg s : 0 <= len s.
Proof. unfold len. lia. Qed.

Lemma string_app_assoc (a b c : string) : a +:+ (b +:+ c) = (a +:+ b) +:+ c.
Proof. apply (inj bytes). by rewrite !bytes_app, app_assoc. Qed.

Lemma string_app_inj_r (a b c : string) : a +:+ c = b +:+ c -> a = b.
Proof.
  intros H. apply (f_equal bytes) in H. rewrite !bytes_app in H.
  apply app_inv_tail in H. by apply (inj bytes).
Qed.

Lemma string_app_inj_l (a b c : string) : c +:+ a = c +:+ b -> a = b.
Proof. apply String.app_inj. Qed.

Lemma string_app_nil_r (a : string) : a +:+ "" = a.
Proof. apply (inj bytes). by rewrite bytes_app, app_nil_r. Qed.

Lemma all_bytes_app p s t : all_bytes p (s +:+ t) = all_bytes p s && all_bytes p t.
Proof. unfold all_bytes. by rewrite bytes_app, forallb_app. Qed.

Lemma all_bytes_elem p s c : all_bytes p s = true -> c ∈ bytes s -> p c = true.
Proof.
  unfold all_bytes. rewrite forallb_forall. intros H Hc.
  apply H. by apply list_elem_of_In.
Qed.

Lemma all_bytes_mono (p q : ascii -> bool) s :
  (forall c, p c = true -> q c = true) -> all_bytes p s = true -> all_bytes q s = true.
Proof. unfold all_bytes. rewrite !forallb_forall. naive_solver. Qed.

(** Monotonicity when the inclusion of alphabets is checked by evaluation. *)
Lemma all_bytes_weaken (p q : ascii -> bool) s :
  every_byte (fun c => implb (p c) (q c)) = true ->
  all_bytes p s = true -> all_bytes q s = true.
Proof.
  intros H. apply all_bytes_mono. intros c Hp.
  pose proof (every_byte_spec _ H c) as Hc. simpl in Hc. by rewrite Hp in Hc.
Qed.

Lemma starts_with_spec s pre :
  starts_with s pre = true <-> exists rest, s = pre +:+ rest.
Proof.
  unfold starts_with. rewrite bool_decide_eq_true. split.
  - intros [k Hk]. exists (text k). apply (inj bytes).
    by rewrite bytes_app, bytes_text.
  - intros [rest ->]. exists (bytes rest). apply bytes_app.
Qed.

Lemma ends_with_spec s suf :
  ends_with s suf = true <-> exists rest, s = rest +:+ suf.
Proof.
  unfold ends_with. rewrite bool_decide_eq_true. split.
  - intros [k Hk]. exists (text k). apply (inj bytes).
    by rewrite bytes_app, bytes_text.
  - intros [rest ->]. exists (bytes rest). apply bytes_app.
Qed.

Lemma strip_prefix_spec s pre rest :
  strip_prefix s pre = Some rest <-> s = pre +:+ rest.
Proof.
  unfold strip_prefix. destruct (starts_with s pre) eqn:H.
  - apply starts_with_spec in H as [k ->].
    rewrite bytes_app, <- length_bytes, drop_app_length, text_bytes. split.
    + by intros [= ->].
    + by intros ->%string_app_inj_l.
  - split; [done|]. intros ->.
    by rewrite (proj2 (starts_with_spec _ _) (ex_intro _ rest eq_refl)) in H.
Qed.

Lemma strip_suffix_spec s suf rest : strip_suffix s suf = Some rest <-> s = rest +:+ suf.
Proof.
  unfold strip_suffix. destruct (ends_with s suf) eqn:He.
  - apply ends_with_spec in He as [r ->]. rewrite length_string_app.
    replace (String.length r + String.length suf - String.length suf)%nat with (String.length r) by lia.
    rewrite bytes_app, <- length_bytes, take_app_length, text_bytes.
    split; [by intros [= ->]|]. intros H%string_app_inj_r. by subst.
  - split; [done|]. intros ->. assert (ends_with (rest +:+ suf) suf = true); [|congruence].
    apply ends_with_spec. eauto.
Qed.

Lemma split_once_some_1 sep s a b :
  split_once sep s = Some (a, b) -> s = a +:+ String sep b /\ sep ∉ bytes a.
Proof.
  revert a b. induction s as [|c s IH]; intros a b; simpl; [done|].
  destruct (Ascii.eqb_spec c sep) as [->|Hne].
  - intros [= <- <-]. split; [done|]. apply not_elem_of_nil.
  - destruct (split_once sep s) as [[a' b']|]; [|done].
    intros [= <- <-]. destruct (IH a' b' eq_refl) as [-> Hni].
    split; [done|]. unfold bytes in *. simpl. set_solver.
Qed.

Lemma split_once_app sep a b :
  sep ∉ bytes a -> split_once sep (a +:+ String sep b) = Some (a, b).
Proof.
  induction a as [|c a IH]; intros Hni; [rewrite string_nil_app | rewrite string_cons_app]; simpl.
  - by rewrite Ascii.eqb_refl.
  - unfold bytes in *. simpl in Hni. destruct (Ascii.eqb_spec c sep) as [->|Hne].
    + set_solver.
    + rewrite IH; set_solver.
Qed.

Lemma split_once_some sep s a b :
  split_once sep s = Some (a, b) <-> s = a +:+ String sep b /\ sep ∉ bytes a.
Proof.
  split; [apply split_once_some_1|]. intros [-> Hni]. by apply split_once_app.
Qed.

Lemma split_once_none sep s : split_once sep s = None <-> sep ∉ bytes s.
Proof.
  induction s as [|c s IH]; simpl.
  - split; [intros _; apply not_elem_of_nil | done].
  - destruct (Ascii.eqb_spec c sep) as [->|Hne].
    + split; [done|]. intros H. destruct H. unfold bytes; simpl. left.
    + destruct (split_once sep s) as [[a b]|]; unfold bytes in *; simpl; set_solver.
Qed.

Lemma is_empty_spec s : is_empty s = true <-> s = "".
Proof. unfold is_empty, len. rewrite Z.eqb_eq. destruct s; simpl; split; done || lia. Qed.

(** Whether a string with a separator-free start can be re-parsed uniquely. *)
Lemma app_sep_inj (sep : ascii) (a a' b b' : string) :
  sep ∉ bytes a -> sep ∉ bytes a' ->
  a +:+ String sep b = a' +:+ String sep b' -> a = a' /\ b = b'.
Proof.
  intros Ha Ha' H.
  assert (split_once sep (a +:+ String sep b) = Some (a, b)) as H1
    by (by apply split_once_some).
  assert (split_once sep (a +:+ String sep b) = Some (a', b')) as H2
    by (rewrite H; by apply split_once_some).
  by simplify_eq.
Qed.

(** A decimal rendering only holds digits, so no separator can hide in it. *)
Lemma pretty_N_char_digit n : is_ascii_digit (pretty_N_char n) = true.
Proof. unfold pretty_N_char. by repeat case_match. Qed.

Lemma pretty_N_go_digits n s :
  all_bytes is_ascii_digit s = true -> all_bytes is_ascii_digit (pretty_N_go n s) = true.
Proof.
  revert s. induction (N.lt_wf_0 n) as [n _ IH]; intros s Hs.
  destruct (decide (n = 0)%N) as [->|Hn]; [by rewrite pretty_N_go_0|].
  rewrite pretty_N_go_step by lia. apply IH; [apply N.div_lt; lia|].
  unfold all_bytes, bytes in *. simpl. by rewrite pretty_N_char_digit.
Qed.

Lemma decimal_digits n : all_bytes is_ascii_digit (decimal n) = true.
Proof.
  unfold decimal, pretty, pretty_N. case_decide; [done|].
  by apply pretty_N_go_digits.
Qed.

Lemma decimal_inj n m : 0 <= n -> 0 <= m -> decimal n = decimal m -> n = m.
Proof. unfold decimal. intros ? ? H. apply (inj pretty) in H. lia. Qed.

(** The number of digits a value below a power of ten takes. *)
Lemma pretty_N_go_length k n s :
  (n < 10 ^ N.of_nat k)%N ->
  (String.length (pretty_N_go n s) <= k + String.length s)%nat.
Proof.
  revert n s. induction k as [|k IH]; intros n s Hn.
  - replace n with 0%N by (simpl in Hn; lia). by rewrite pretty_N_go_0.
  - destruct (decide (n = 0)%N) as [->|Hn0]; [rewrite pretty_N_go_0; lia|].
    rewrite pretty_N_go_step by lia.
    assert (n / 10 < 10 ^ N.of_nat k)%N as Hdiv.
    { apply N.Div0.div_lt_upper_bound. rewrite Nat2N.inj_succ, N.pow_succ_r' in Hn. lia. }
    specialize (IH _ (String (pretty_N_char (n `mod` 10)) s) Hdiv). simpl in IH. lia.
Qed.

Lemma len_decimal (k : nat) n :
  (0 < k)%nat -> 0 <= n < 10 ^ Z.of_nat k -> 1 <= len (decimal n) <= Z.of_nat k.
Proof.
  intros Hk Hn. unfold len, decimal, pretty, pretty_N. case_decide; [simpl; lia|].
  split.
  - assert (forall m s, (0 < String.length s)%nat ->
      (0 < String.length (pretty_N_go m s))%nat) as Hpos.
    { intros m. induction (N.lt_wf_0 m) as [m _ IH]; intros s Hs.
      destruct (decide (m = 0)%N) as [->|]; [by rewrite pretty_N_go_0|].
      rewrite pretty_N_go_step by lia. apply IH; [apply N.div_lt; lia | simpl; lia]. }
    rewrite pretty_N_go_step by lia.
    match goal with |- _ <= Z.of_nat (String.length (pretty_N_go ?m ?s)) =>
      pose proof (Hpos m s) end. simpl in *. lia.
  - pose proof (pretty_N_go_length k (Z.to_N n) "") as H'. simpl in H'.
    assert (Z.to_N n < 10 ^ N.of_nat k)%N.
    { apply N2Z.inj_lt. rewrite N2Z.inj_pow, nat_N_Z, Z2N.id; simpl; lia. }
    lia.
Qed.

(** ** Maps

    A [HashMap] iterates in an order that is no part of its contract, so a
    definition that walks one takes the order from this interface, and a
    theorem about it holds for every order.  [BTreeMap] and [BTreeSet] iterate
    by ascending key. *)

Class HashOrder := {
  hash_order : forall V, gmap string V -> list (string * V);
  hash_order_perm : forall V (m : gmap string V), hash_order V m ≡ₚ map_to_list m;
}.
Arguments hash_order {_ V} m.
Arguments hash_order_perm {_ V} m.

Definition key_le {V} : relation (string * V) := fun x y => String.le x.1 y.1.

#[export] Instance key_le_dec {V} : RelDecision (@key_le V).
Proof. unfold key_le. intros x y. apply _. Defined.

#[export] Instance key_le_total {V} : Total (@key_le V).
Proof. intros x y. apply (total String.le). Qed.

#[export] Instance key_le_trans {V} : Transitive (@key_le V).
Proof. unfold key_le. intros x y z Hxy Hyz. by transitivity y.1. Qed.

Definition btree_list {V} (m : gmap string V) : list (string * V) :=
  merge_sort key_le (map_to_list m).

Definition btree_elements (s : gset string) : list string :=
  merge_sort String.le (elements s).

#[export] Instance sorted_hash_order : HashOrder | 100.
Proof.
  refine {| hash_order V m := btree_list m |}.
  intros V m. apply merge_sort_Permutation.
Defined.

Definition hash_values {HO : HashOrder} {V} (m : gmap string V) : list V :=
  (hash_order m).*2.

Section maps.
Context {V : Type}.
Implicit Types m : gmap string V.

Lemma elem_of_btree_list m k v : (k, v) ∈ btree_list m <-> m !! k = Some v.
Proof.
  unfold btree_list. rewrite merge_sort_Permutation. apply elem_of_map_to_list.
Qed.

Lemma elem_of_hash_order {HO : HashOrder} m k v :
  (k, v) ∈ hash_order m <-> m !! k = Some v.
Proof. rewrite hash_order_perm. apply elem_of_map_to_list. Qed.

Lemma elem_of_hash_values {HO : HashOrder} m v :
  v ∈ hash_values m <-> exists k, m !! k = Some v.
Proof.
  unfold hash_values. rewrite list_elem_of_fmap. split.
  - intros ([k v'] & -> & H). exists k. by apply elem_of_hash_order.
  - intros [k H]. exists (k, v). split; [done|]. by apply elem_of_hash_order.
Qed.

Lemma btree_list_perm m : btree_list m ≡ₚ map_to_list m.
Proof. apply merge_sort_Permutation. Qed.

Lemma btree_list_sorted m : StronglySorted key_le (btree_list m).
Proof. apply StronglySorted_merge_sort; apply _. Qed.

Lemma NoDup_btree_keys m : NoDup (btree_list m).*1.
Proof. rewrite btree_list_perm. apply NoDup_fst_map_to_list. Qed.
End maps.

Lemma elem_of_btree_elements (s : gset string) x : x ∈ btree_elements s <-> x ∈ s.
Proof. unfold btree_elements. rewrite merge_sort_Permutation. apply elem_of_elements. Qed.
