(* ===== verification/Text.v ===== *)
(** * Text utilities ([crates/flanforge-utils/src/lib.rs])

    [bounded_text], the allowlist glob matcher [is_glob_match], the Git-ref
    shape predicates and the libvirt URI filter, with: the declarative meaning
    of a glob and the proof that the iterative matcher with one backtrack point
    decides it (and always terminates without a slice panic); that bounding a
    text keeps a valid UTF-8 prefix and drops at most three extra bytes; and
    what a safe ref cannot contain. *)

From S2P Require Import Prelude Rust.

Open Scope Z_scope.
Open Scope stdpp_scope.

(** ** Bounding a text by bytes *)

(** A UTF-8 continuation byte: [(byte as i8) < -0x40]. *)
Definition is_continuation (c : ascii) : bool := in_range 128 191 (byte_val c).

(** [str::is_char_boundary]. *)
Definition is_char_boundary (l : list ascii) (index : nat) : bool :=
  match index with
  | O => true
  | _ =>
      match l !! index with
      | Some c => negb (is_continuation c)
      | None => (index =? Datatypes.length l)%nat
      end
  end.

(** The loop [while !is_char_boundary(boundary) { boundary -= 1 }]: index zero
    is always a boundary, so it stops there at the latest. *)
Fixpoint floor_boundary (l : list ascii) (boundary : nat) : nat :=
  if is_char_boundary l boundary then boundary
  else match boundary with O => O | S b => floor_boundary l b end.

Definition bounded_text (value : string) (max_bytes : nat) : string :=
  if (String.length value <=? max_bytes)%nat then value
  else text (take (floor_boundary (bytes value) max_bytes) (bytes value)).

(** ** Glob matching *)

Definition star : ascii := "*"%char.
Definition question : ascii := "?"%char.

Record glob_state := GlobState {
  gs_p : nat;
  gs_v : nat;
  gs_star : option nat;
  gs_resume : nat;
}.

(** One iteration of the [while v < value.len()] loop: [inl] continues,
    [inr] is the early [return]. *)
Definition glob_step (pattern value : list ascii) (s : glob_state) : glob_state + bool :=
  let backtrack :=
    match gs_star s with
    | Some index =>
        inl (GlobState (index + 1) (gs_resume s + 1) (Some index) (gs_resume s + 1))
    | None => inr false
    end in
  match pattern !! gs_p s with
  | Some byte =>
      if Ascii.eqb byte star
      then inl (GlobState (gs_p s + 1) (gs_v s) (Some (gs_p s)) (gs_v s))
      else if Ascii.eqb byte question || bool_decide (value !! gs_v s = Some byte)
      then inl (GlobState (gs_p s + 1) (gs_v s + 1) (gs_star s) (gs_resume s))
      else backtrack
  | None => backtrack
  end.

(** [None] stands for a panic of the final slice [pattern[p..]] or for running
    out of [fuel]; [glob_spec] shows neither happens. *)
Fixpoint glob_loop (fuel : nat) (pattern value : list ascii) (s : glob_state) : option bool :=
  match fuel with
  | O => None
  | S fuel =>
      if (gs_v s <? Datatypes.length value)%nat then
        match glob_step pattern value s with
        | inl s' => glob_loop fuel pattern value s'
        | inr b => Some b
        end
      else if (gs_p s <=? Datatypes.length pattern)%nat
      then Some (forallb (Ascii.eqb star) (drop (gs_p s) pattern))
      else None
  end.

(** The number of iterations is below the product of the two lengths: every
    iteration either advances the pattern or advances the resume point. *)
Definition glob_fuel (pattern value : list ascii) : nat :=
  S (S (Datatypes.length value) * S (Datatypes.length pattern)).

Definition glob_run (pattern value : string) : option bool :=
  glob_loop (glob_fuel (bytes pattern) (bytes value)) (bytes pattern) (bytes value)
    (GlobState 0 0 None 0).

Definition is_glob_match (pattern value : string) : bool :=
  default false (glob_run pattern value).

(** ** Git refs *)

Definition is_ref_byte (wildcards : bool) (byte : ascii) : bool :=
  is_ascii_alphanumeric byte || one_of "/-_." byte || (wildcards && one_of "*?" byte).

Definition is_ref_segment (segment : string) : bool :=
  negb (is_empty segment)
  && negb (starts_with segment ".")
  && negb (ends_with (to_ascii_lowercase segment) ".lock").

Definition is_safe_ref_shape (value : string) (wildcards : bool) : bool :=
  if negb (starts_with value "refs/")
     || (256 <? len value)
     || (ends_with value "/" || ends_with value ".")
     || contains value "//"
     || contains value ".."
     || contains value "@{"
     || negb (all_bytes (is_ref_byte wildcards) value)
  then false
  else forallb is_ref_segment (drop 1 (split "/" value)).

Definition is_safe_git_ref (value : string) : bool := is_safe_ref_shape value false.
Definition is_safe_git_ref_pattern (value : string) : bool := is_safe_ref_shape value true.

(** ** libvirt URIs *)

(** [str::parse::<u16>] on a digits-only text. *)
Fixpoint digits_value (acc : Z) (s : string) : Z :=
  match s with
  | EmptyString => acc
  | String c s => digits_value (acc * 10 + (byte_val c - 48)) s
  end.

Definition is_user_byte (byte : ascii) : bool :=
  is_ascii_alphanumeric byte || one_of "-_." byte.
Definition is_host_byte (byte : ascii) : bool :=
  is_ascii_alphanumeric byte || one_of "-." byte.

Definition is_libvirt_host (host : string) : bool :=
  negb (is_empty host)
  && (len host <=? 253)
  && negb (starts_with host ".")
  && negb (ends_with host ".")
  && negb (contains host "..")
  && all_bytes is_host_byte host.

Definition is_libvirt_authority (authority : string) : bool :=
  let checked_user :=
    match split_once "@" authority with
    | Some (user, host) =>
        if is_empty user || negb (all_bytes is_user_byte user) then None else Some host
    | None => Some authority
    end in
  match checked_user with
  | None => false
  | Some host =>
      match rsplit_once ":" host with
      | Some (host, port) =>
          if is_empty port || negb (all_bytes is_ascii_digit port)
             || (u16_max <? digits_value 0 port)
          then false
          else is_libvirt_host host
      | None => is_libvirt_host host
      end
  end.

Definition is_supported_libvirt_uri (uri : string) (is_insecure_allowed : bool) : bool :=
  if is_empty uri || (255 <? len uri)
     || any_byte (one_of "?# ") uri
     || negb (all_bytes is_ascii_graphic uri)
  then false
  else
    match split_once_str "://" uri with
    | None => false
    | Some (scheme, rest) =>
        let transport :=
          if bool_decide (scheme = "qemu") then Some "unix"
          else strip_prefix scheme "qemu+" in
        match transport, split_once "/" rest with
        | Some transport, Some (authority, path) =>
            if negb (bool_decide (path = "system" \/ path = "session")) then false
            else if bool_decide (transport = "unix") then is_empty authority
            else if bool_decide (transport = "tcp") && negb is_insecure_allowed then false
            else if bool_decide (transport = "ssh" \/ transport = "tls" \/ transport = "tcp")
            then is_libvirt_authority authority
            else false
        | _, _ => false
        end
    end.

(** ** What a glob means

    The relation the documentation of [is_glob_match] describes: [*] stands
    for any run of bytes, [?] for exactly one, every other byte for itself,
    and the whole value is consumed. *)

Inductive glob : list ascii -> list ascii -> Prop :=
| glob_nil : glob [] []
| glob_star_skip p v : glob p v -> glob (star :: p) v
| glob_star_take p c v : glob (star :: p) v -> glob (star :: p) (c :: v)
| glob_question p c v : glob p v -> glob (question :: p) (c :: v)
| glob_literal p c v : c <> star -> glob p v -> glob (c :: p) (c :: v).

#[local] Hint Constructors glob : core.

(** *** Lemmas on the relation *)

Lemma glob_star_inv p v :
  glob (star :: p) v <-> exists k, (k <= Datatypes.length v)%nat /\ glob p (drop k v).
Proof.
  split.
  - intros H. remember (star :: p) as q eqn:Hq.
    induction H; simplify_eq/=.
    + exists 0%nat. auto with lia.
    + destruct IHglob as (k & ? & ?); [done|]. exists (S k). simpl. auto with lia.
  - intros (k & Hk & H). revert v Hk H. induction k as [|k IH]; intros v Hk H.
    + rewrite drop_0 in H. auto.
    + destruct v as [|c v]; simpl in *; [lia|]. apply glob_star_take, IH; auto with lia.
Qed.

Lemma glob_star_suffix p v k :
  (k <= Datatypes.length v)%nat -> glob (star :: p) (drop k v) -> glob (star :: p) v.
Proof.
  intros Hk (j & Hj & H)%glob_star_inv. apply glob_star_inv.
  rewrite drop_drop in H. rewrite length_drop in Hj. exists (k + j)%nat. auto with lia.
Qed.

Lemma glob_cons_inv c p v :
  c <> star -> glob (c :: p) v ->
  exists d w, v = d :: w /\ (c = question \/ c = d) /\ glob p w.
Proof. intros Hc H. inversion H; simplify_eq; eauto 8. Qed.

Lemma glob_nil_inv v : glob [] v -> v = [].
Proof. by inversion 1. Qed.

(** A wildcard-run-free stretch consumes exactly its own length. *)
Lemma glob_segment seg p v :
  star ∉ seg -> glob (seg ++ p) v ->
  (Datatypes.length seg <= Datatypes.length v)%nat
  /\ glob p (drop (Datatypes.length seg) v).
Proof.
  revert v. induction seg as [|c seg IH]; intros v Hs H; simpl in *.
  - rewrite drop_0. auto with lia.
  - apply glob_cons_inv in H as (d & w & -> & _ & H); [|set_solver].
    apply IH in H as [? ?]; [|set_solver]. simpl. auto with lia.
Qed.

Lemma glob_all_stars p : forallb (Ascii.eqb star) p = true <-> glob p [].
Proof.
  induction p as [|c p IH]; [naive_solver|]. cbn [forallb].
  rewrite andb_true_iff, Ascii.eqb_eq, IH. split.
  - intros [<- ?]. auto.
  - inversion 1; naive_solver.
Qed.

(** ** The matcher decides the relation *)

(** What the loop maintains.  After a [*] at [index], the bytes of the pattern
    past it up to [p] are literal and have consumed exactly [resume..v]. *)
Definition glob_inv (pattern value : list ascii) (s : glob_state) : Prop :=
  (gs_p s <= Datatypes.length pattern)%nat /\
  (gs_v s <= Datatypes.length value)%nat /\
  (gs_resume s <= gs_v s)%nat /\
  match gs_star s with
  | None => gs_resume s = 0%nat
  | Some i => exists seg,
      pattern !! i = Some star /\
      drop (i + 1) pattern = seg ++ drop (gs_p s) pattern /\
      (Datatypes.length seg + gs_resume s = gs_v s)%nat /\
      (gs_p s = i + 1 + Datatypes.length seg)%nat /\
      star ∉ seg
  end.

(** The value matches from here, or from a later resume point of the star. *)
Definition glob_from (pattern value : list ascii) (s : glob_state) : Prop :=
  glob (drop (gs_p s) pattern) (drop (gs_v s) value) \/
  exists i k, gs_star s = Some i /\
    (gs_resume s < k <= Datatypes.length value)%nat /\
    glob (drop (i + 1) pattern) (drop k value).

Definition glob_measure (pattern value : list ascii) (s : glob_state) : nat :=
  ((Datatypes.length value - gs_resume s) * S (Datatypes.length pattern)
   + (Datatypes.length pattern - gs_p s))%nat.

Section glob_loop.
Variables pattern value : list ascii.
Local Abbreviation inv := (glob_inv pattern value).
Local Abbreviation from := (glob_from pattern value).

Lemma drop_lookup_some (l : list ascii) i c :
  l !! i = Some c -> drop i l = c :: drop (i + 1) l.
Proof. intros H. rewrite (drop_S l c i H). do 2 f_equal. lia. Qed.

(** Meeting a [*]: every match an older star could still find is found by the
    new one. *)
Lemma glob_step_star s :
  inv s -> pattern !! gs_p s = Some star ->
  let s' := GlobState (gs_p s + 1) (gs_v s) (Some (gs_p s)) (gs_v s) in
  inv s' /\ (from s <-> from s').
Proof.
  intros (Hp & Hv & Hr & Hstar) Hlk s'. pose proof (lookup_lt_Some _ _ _ Hlk).
  split.
  { repeat split; simpl; try lia. exists []. simpl.
    repeat split; done || lia || set_solver. }
  unfold from, glob_from; simpl. rewrite (drop_lookup_some _ _ _ Hlk).
  assert (glob (star :: drop (gs_p s + 1) pattern) (drop (gs_v s) value) <->
    glob (drop (gs_p s + 1) pattern) (drop (gs_v s) value) \/
    exists i k, Some (gs_p s) = Some i /\ (gs_v s < k <= Datatypes.length value)%nat /\
      glob (drop (i + 1) pattern) (drop k value)) as <-.
  { rewrite glob_star_inv. split.
    - intros ([|k] & Hk & H'); rewrite drop_drop in H'.
      + left. by rewrite Nat.add_0_r in H'.
      + right. eexists _, (gs_v s + S k)%nat. rewrite length_drop in Hk.
        repeat split; done || lia.
    - intros [H'|(i & k & [= <-] & Hk & H')].
      + exists 0%nat. rewrite drop_0. auto with lia.
      + exists (k - gs_v s)%nat. rewrite drop_drop, length_drop.
        replace (gs_v s + (k - gs_v s))%nat with k by lia. auto with lia. }
  split; [|by left]. intros [H'|(i & k & Hi & Hk & H')]; [done|].
  rewrite Hi in Hstar. destruct Hstar as (seg & _ & Hseg & Hlen & Hpi & Hns).
  rewrite Hseg in H'. apply glob_segment in H' as [Hl H']; [|done].
  rewrite drop_drop in H'. rewrite (drop_lookup_some _ _ _ Hlk) in H'.
  rewrite length_drop in Hl.
  apply glob_star_suffix with (k := (k + Datatypes.length seg - gs_v s)%nat).
  - rewrite length_drop. lia.
  - rewrite drop_drop.
    by replace (gs_v s + (k + Datatypes.length seg - gs_v s))%nat
      with (k + Datatypes.length seg)%nat by lia.
Qed.

(** Consuming one byte under [?] or a literal. *)
Lemma glob_step_byte s c d :
  inv s -> pattern !! gs_p s = Some c -> c <> star ->
  value !! gs_v s = Some d -> (c = question \/ c = d) ->
  let s' := GlobState (gs_p s + 1) (gs_v s + 1) (gs_star s) (gs_resume s) in
  inv s' /\ (from s <-> from s').
Proof.
  intros (Hp & Hv & Hr & Hstar) Hlk Hc Hvl Hcd s'.
  pose proof (lookup_lt_Some _ _ _ Hlk). pose proof (lookup_lt_Some _ _ _ Hvl).
  split.
  { repeat split; simpl; try lia. destruct (gs_star s) as [i|]; [|done].
    destruct Hstar as (seg & Hi & Hseg & Hlen & Hpi & Hns).
    exists (seg ++ [c]). rewrite length_app, Hseg, (drop_lookup_some _ _ _ Hlk).
    rewrite <- app_assoc. simpl. repeat split; done || lia || set_solver. }
  unfold from, glob_from; simpl.
  rewrite (drop_lookup_some _ _ _ Hlk), (drop_lookup_some _ _ _ Hvl).
  assert (glob (c :: drop (gs_p s + 1) pattern) (d :: drop (gs_v s + 1) value) <->
    glob (drop (gs_p s + 1) pattern) (drop (gs_v s + 1) value)) as ->; [|done].
  split.
  - intros H'. by apply glob_cons_inv in H' as (d' & w & [= <- <-] & _ & ?).
  - destruct Hcd as [->| ->]; auto.
Qed.

(** A mismatch falls back to the star, one byte further. *)
Lemma glob_step_backtrack s i :
  inv s -> (gs_v s < Datatypes.length value)%nat -> gs_star s = Some i ->
  ~ glob (drop (gs_p s) pattern) (drop (gs_v s) value) ->
  let s' := GlobState (i + 1) (gs_resume s + 1) (Some i) (gs_resume s + 1) in
  inv s' /\ (from s <-> from s').
Proof.
  intros (Hp & Hv & Hr & Hstar) Hlt Hi Hno s'. rewrite Hi in Hstar.
  destruct Hstar as (seg & Hlk & Hseg & Hlen & Hpi & Hns).
  pose proof (lookup_lt_Some _ _ _ Hlk). split.
  { repeat split; simpl; try lia. exists []. simpl.
    repeat split; done || lia || set_solver. }
  unfold from, glob_from; simpl. rewrite Hi. split.
  - intros [?|(? & k & [= <-] & Hk & H')]; [done|].
    destruct (decide (k = gs_resume s + 1)%nat) as [->|]; [by left|].
    right. exists i, k. repeat split; done || lia.
  - intros [H'|(? & k & [= <-] & Hk & H')]; right.
    + exists i, (gs_resume s + 1)%nat. repeat split; done || lia.
    + exists i, k. repeat split; done || lia.
Qed.

(** One iteration either keeps the answer and lowers the measure, or
    returns the right answer. *)
Lemma glob_step_sound s :
  inv s -> (gs_v s < Datatypes.length value)%nat ->
  match glob_step pattern value s with
  | inl s' => inv s' /\ (from s <-> from s')
              /\ (glob_measure pattern value s' < glob_measure pattern value s)%nat
  | inr b => b = false /\ ~ from s
  end.
Proof.
  intros Hinv Hlt. destruct (lookup_lt_is_Some_2 _ _ Hlt) as [d Hd].
  assert (~ glob (drop (gs_p s) pattern) (drop (gs_v s) value) ->
    match match gs_star s with
          | Some index => inl (GlobState (index + 1) (gs_resume s + 1) (Some index) (gs_resume s + 1))
          | None => inr false
          end with
    | inl s' => inv s' /\ (from s <-> from s')
                /\ (glob_measure pattern value s' < glob_measure pattern value s)%nat
    | inr b => b = false /\ ~ from s
    end) as Hback.
  { intros Hno. destruct (gs_star s) as [i|] eqn:Hi.
    - destruct (glob_step_backtrack s i Hinv Hlt Hi Hno) as [H1 H2]. split; [done|].
      split; [done|]. unfold glob_measure; simpl.
      destruct Hinv as (? & ? & ? & ?). nia.
    - split; [done|]. intros [?|(? & ? & ? & _)]; [done | congruence]. }
  unfold glob_step. destruct (pattern !! gs_p s) as [c|] eqn:Hc; [|apply Hback].
  - pose proof (lookup_lt_Some _ _ _ Hc).
    destruct (Ascii.eqb_spec c star) as [->|Hcs].
    { destruct (glob_step_star s Hinv Hc) as [H1 H2]. split; [done|]. split; [done|].
      unfold glob_measure; simpl. destruct Hinv as (? & ? & ? & ?). nia. }
    destruct (Ascii.eqb c question || bool_decide (value !! gs_v s = Some c)) eqn:Hm.
    + assert (c = question \/ c = d) as Hcd.
      { apply orb_true_iff in Hm as [?%Ascii.eqb_eq|Hm]; [by left|].
        apply bool_decide_eq_true in Hm. right. congruence. }
      destruct (glob_step_byte s c d Hinv Hc Hcs Hd Hcd) as [H1 H2].
      split; [done|]. split; [done|]. unfold glob_measure; simpl. nia.
    + apply Hback. intros H'. rewrite (drop_lookup_some _ _ _ Hc) in H'.
      apply glob_cons_inv in H' as (d' & w & Hw & Hcd & _); [|done].
      rewrite (drop_lookup_some _ _ _ Hd) in Hw. simplify_eq.
      apply orb_false_iff in Hm as [Hm1%Ascii.eqb_neq Hm2%bool_decide_eq_false].
      destruct Hcd; congruence.
  - intros H'. rewrite drop_ge in H' by (by apply lookup_ge_None).
    apply glob_nil_inv in H'. apply (f_equal Datatypes.length) in H'.
    rewrite length_drop in H'. simpl in H'. lia.
Qed.

Lemma glob_loop_spec fuel s :
  inv s -> (glob_measure pattern value s < fuel)%nat ->
  exists b, glob_loop fuel pattern value s = Some b /\ (b = true <-> from s).
Proof.
  revert s. induction fuel as [|fuel IH]; intros s Hinv Hf; [lia|]. simpl.
  destruct (Nat.ltb_spec (gs_v s) (Datatypes.length value)) as [Hlt|Hge].
  - pose proof (glob_step_sound s Hinv Hlt) as Hstep.
    destruct (glob_step pattern value s) as [s'|b].
    + destruct Hstep as (Hinv' & Hfrom & Hm).
      destruct (IH s' Hinv') as (b & ? & ?); [lia|]. exists b. by rewrite Hfrom.
    + destruct Hstep as [-> Hno]. exists false. naive_solver.
  - destruct Hinv as (Hp & Hv & Hr & Hstar).
    rewrite (proj2 (Nat.leb_le _ _) Hp). eexists; split; [done|].
    unfold from, glob_from. rewrite glob_all_stars, (drop_ge value) by lia.
    split; [by left|]. intros [?|(i & k & Hi & Hk & Hg)]; [done|].
    rewrite Hi in Hstar. destruct Hstar as (seg & _ & Hseg & Hlen & Hpi & Hns).
    rewrite Hseg in Hg. apply glob_segment in Hg as [Hl _]; [|done].
    rewrite length_drop in Hl. lia.
Qed.
End glob_loop.

Lemma glob_run_spec pattern value :
  exists b, glob_run pattern value = Some b /\ (b = true <-> glob (bytes pattern) (bytes value)).
Proof.
  destruct (glob_loop_spec (bytes pattern) (bytes value)
    (glob_fuel (bytes pattern) (bytes value)) (GlobState 0 0 None 0)) as (b & Hb & Hfrom).
  - repeat split; simpl; lia.
  - unfold glob_measure, glob_fuel; simpl. nia.
  - exists b. split; [done|]. rewrite Hfrom. unfold glob_from; simpl.
    rewrite !drop_0. naive_solver.
Qed.

Lemma is_glob_match_glob pattern value :
  is_glob_match pattern value = true <-> glob (bytes pattern) (bytes value).
Proof.
  destruct (glob_run_spec pattern value) as (b & Hb & Hg).
  unfold is_glob_match. by rewrite Hb.
Qed.

(** ** What bounding keeps

    [utf8_char] is what a UTF-8 encoded character looks like to a byte index:
    a byte that is no continuation byte, then continuation bytes only, four
    bytes at most. *)

Definition utf8_char (c : list ascii) : Prop :=
  exists lead rest, c = lead :: rest /\ is_continuation lead = false /\
    Forall (fun b => is_continuation b = true) rest /\ (Datatypes.length rest <= 3)%nat.

Lemma floor_boundary_spec l b :
  (floor_boundary l b <= b)%nat /\ is_char_boundary l (floor_boundary l b) = true /\
  (forall k, (floor_boundary l b < k <= b)%nat -> is_char_boundary l k = false).
Proof.
  induction b as [|b (IH1 & IH2 & IH3)].
  - simpl. repeat split; lia.
  - cbn [floor_boundary]. destruct (is_char_boundary l (S b)) eqn:H.
    + repeat split; [lia | done | lia].
    + repeat split; [lia | done |]. intros k Hk.
      destruct (decide (k = S b)) as [->|]; [done | apply IH3; lia].
Qed.

Lemma utf8_starts_boundary cs :
  Forall utf8_char cs ->
  match concat cs !! 0%nat with
  | Some c => negb (is_continuation c) = true
  | None => concat cs = []
  end.
Proof. destruct 1 as [|c cs (x & r & -> & Hx & _) _]; simpl; [done | by rewrite Hx]. Qed.

Lemma is_char_boundary_skip c l k :
  c <> [] -> (Datatypes.length c < k)%nat ->
  is_char_boundary (c ++ l) k = is_char_boundary l (k - Datatypes.length c).
Proof.
  intros Hc Hk. unfold is_char_boundary.
  destruct k as [|k]; [lia|].
  destruct (S k - Datatypes.length c)%nat as [|j] eqn:Hj; [lia|].
  rewrite lookup_app_r, Hj, length_app by lia.
  destruct (l !! S j); [done|].
  destruct (Nat.eqb_spec (S k) (Datatypes.length c + Datatypes.length l)),
    (Nat.eqb_spec (S j) (Datatypes.length l)); done || lia.
Qed.

(** The boundaries of a UTF-8 text are the ends of its characters. *)
Lemma is_char_boundary_concat cs k :
  Forall utf8_char cs ->
  is_char_boundary (concat cs) k = true <->
  exists n, (n <= Datatypes.length cs)%nat /\ k = Datatypes.length (concat (take n cs)).
Proof.
  intros Hcs. revert k. induction Hcs as [|c cs Hc Hcs IH]; intros k.
  - destruct k as [|k]; simpl.
    + split; [|done]. exists 0%nat. auto.
    + split; [done|]. intros ([|n] & ? & Hk); simpl in *; lia.
  - destruct Hc as (lead & rest & -> & Hlead & Hrest & Hlen).
    set (c := lead :: rest) in *. assert (c <> []) as Hne by done.
    destruct (Nat.lt_trichotomy k (Datatypes.length c)) as [Hlt|[->|Hgt]].
    + destruct k as [|k].
      { split; [|done]. exists 0%nat. simpl. auto with lia. }
      cbn [concat]. unfold is_char_boundary. rewrite lookup_app_l by done.
      unfold c in *. simpl in *. destruct (lookup_lt_is_Some_2 rest k) as [b Hb]; [lia|].
      rewrite Hb, (proj1 (Forall_lookup _ _) Hrest k b Hb). split; [done|].
      intros ([|n] & ? & Hk); simpl in Hk; [lia|]. rewrite length_app in Hk. lia.
    + split; [|intros _].
      * intros _. exists 1%nat. simpl. rewrite app_nil_r. auto with lia.
      * cbn [concat]. unfold is_char_boundary. change (Datatypes.length c) with (S (Datatypes.length rest)).
        cbn match. rewrite lookup_app_r by (unfold c; simpl; lia).
        replace (S (Datatypes.length rest) - Datatypes.length c)%nat with 0%nat by (unfold c; simpl; lia).
        pose proof (utf8_starts_boundary cs Hcs) as Hb.
        destruct (concat cs !! 0%nat); [done|].
        rewrite Hb, app_nil_r. apply Nat.eqb_refl.
    + cbn [concat]. rewrite is_char_boundary_skip by done. rewrite IH. split.
      * intros (n & Hn & Hk). exists (S n). cbn [take concat Datatypes.length].
        rewrite length_app. simpl in *. auto with lia.
      * intros ([|n] & Hn & Hk); cbn [take concat Datatypes.length] in *; [simpl in Hk; lia|].
        rewrite length_app in Hk. exists n. auto with lia.
Qed.

Lemma concat_take_app (cs : list (list ascii)) n :
  concat (take n cs) ++ concat (drop n cs) = concat cs.
Proof. by rewrite <- concat_app, take_drop. Qed.

Lemma take_concat_take (cs : list (list ascii)) n :
  take (Datatypes.length (concat (take n cs))) (concat cs) = concat (take n cs).
Proof. by rewrite <- (concat_take_app cs n) at 1; rewrite take_app_length. Qed.

(** Bounding a text keeps the longest run of whole characters that fits. *)
Lemma bounded_text_chars value max_bytes cs :
  Forall utf8_char cs -> bytes value = concat cs ->
  exists n, bytes (bounded_text value max_bytes) = concat (take n cs) /\
    (String.length (bounded_text value max_bytes) <= max_bytes)%nat /\
    ((n < Datatypes.length cs)%nat ->
      (max_bytes < Datatypes.length (concat (take (S n) cs)))%nat).
Proof.
  intros Hcs Hv. unfold bounded_text.
  destruct (Nat.leb_spec (String.length value) max_bytes) as [Hle|Hgt].
  { exists (Datatypes.length cs). rewrite take_ge by lia. repeat split; [done | lia | lia]. }
  destruct (floor_boundary_spec (bytes value) max_bytes) as (Hfl & Hb & Hmax).
  rewrite Hv in Hb. apply is_char_boundary_concat in Hb as (n & Hn & Hk); [|done].
  rewrite Hv in *. exists n. rewrite bytes_text, Hk, take_concat_take.
  repeat split.
  - rewrite <- length_bytes, bytes_text. lia.
  - intros Hlt. destruct (decide (Datatypes.length (concat (take (S n) cs)) <= max_bytes)%nat)
      as [Hc|]; [|lia].
    exfalso. enough (is_char_boundary (concat cs)
      (Datatypes.length (concat (take (S n) cs))) = false) as Hf.
    { rewrite (proj2 (is_char_boundary_concat cs _ Hcs)) in Hf; [done|]. eauto with lia. }
    apply Hmax. rewrite Hk. split; [|done].
    destruct (lookup_lt_is_Some_2 cs n Hlt) as [c Hc'].
    rewrite (take_S_r _ _ _ Hc'), concat_app, length_app. simpl.
    rewrite app_nil_r. pose proof (proj1 (Forall_lookup _ _) Hcs n c Hc')
      as (? & ? & -> & _). simpl. lia.
Qed.

Lemma bounded_text_le value max_bytes :
  (String.length (bounded_text value max_bytes) <= max_bytes)%nat.
Proof.
  unfold bounded_text. case_match eqn:H; [by apply Nat.leb_le|].
  destruct (floor_boundary_spec (bytes value) max_bytes) as (Hfl & _).
  rewrite <- length_bytes, bytes_text, length_take. lia.
Qed.

Lemma bounded_text_id value max_bytes :
  (String.length value <= max_bytes)%nat -> bounded_text value max_bytes = value.
Proof. intros H. unfold bounded_text. by rewrite (proj2 (Nat.leb_le _ _) H). Qed.

(** ** Refs and URIs *)

Lemma glob_literal_only p v : star ∉ p -> question ∉ p -> glob p v <-> p = v.
Proof.
  intros Hs Hq. split.
  - intros H. induction H; try set_solver.
  - intros <-. induction p as [|c p IH]; [done|].
    apply glob_literal; [set_solver | apply IH; set_solver].
Qed.

Lemma is_safe_ref_shape_true value wildcards :
  is_safe_ref_shape value wildcards = true ->
  starts_with value "refs/" = true /\ len value <= 256 /\
  all_bytes (is_ref_byte wildcards) value = true /\
  forallb is_ref_segment (drop 1 (split "/" value)) = true /\
  contains value ".." = false /\ contains value "@{" = false.
Proof.
  unfold is_safe_ref_shape. case_match eqn:H; [done|]. intros ?.
  simplify_bool. repeat split; done || lia.
Qed.

Lemma is_safe_git_ref_no_wildcard value c :
  is_safe_git_ref value = true -> one_of "*?" c = true -> c ∉ bytes value.
Proof.
  intros (_ & _ & H & _)%is_safe_ref_shape_true Hc Hin.
  pose proof (all_bytes_elem _ _ _ H Hin) as Hb.
  pose proof (every_byte_spec
    (fun c => implb (one_of "*?" c) (negb (is_ref_byte false c))) eq_refl c) as Ht.
  cbv beta in Ht. by rewrite Hc, Hb in Ht.
Qed.

Lemma split_once_str_some pat s a b :
  split_once_str pat s = Some (a, b) -> s = a +:+ pat +:+ b.
Proof.
  revert a b. induction s as [|c s IH]; intros a b; cbn [split_once_str];
    destruct (strip_prefix _ pat) as [rest|] eqn:Hs.
  - apply strip_prefix_spec in Hs. intros [= <- <-]. by rewrite string_nil_app.
  - done.
  - apply strip_prefix_spec in Hs. intros [= <- <-]. by rewrite string_nil_app.
  - destruct (split_once_str pat s) as [[a' b']|]; [|done].
    intros [= <- <-]. rewrite string_cons_app. f_equal. by apply IH.
Qed.

(** The transports a URI can name without the operator's opt-in. *)
Lemma is_supported_libvirt_uri_secure uri :
  is_supported_libvirt_uri uri false = true ->
  exists scheme authority path,
    uri = scheme +:+ "://" +:+ authority +:+ "/" +:+ path /\
    (path = "system" \/ path = "session") /\
    ((scheme = "qemu" \/ scheme = "qemu+unix") /\ authority = ""
     \/ (scheme = "qemu+ssh" \/ scheme = "qemu+tls") /\ is_libvirt_authority authority = true).
Proof.
  unfold is_supported_libvirt_uri. case_match eqn:Hg; [done|].
  destruct (split_once_str "://" uri) as [[scheme rest]|] eqn:Hs; [|done].
  apply split_once_str_some in Hs as ->.
  destruct (if bool_decide (scheme = "qemu") then _ else _) as [transport|] eqn:Ht; [|done].
  destruct (split_once "/" rest) as [[authority path]|] eqn:Hr; [|done].
  apply split_once_some in Hr as [-> _].
  destruct (bool_decide (path = _ \/ _)) eqn:Hp; [simpl|done].
  apply bool_decide_eq_true in Hp. intros H.
  exists scheme, authority, path. split; [done|]. split; [done|].
  destruct (bool_decide (scheme = "qemu")) eqn:Hq.
  - injection Ht as <-. apply bool_decide_eq_true in Hq as ->.
    left. split; [by left|]. by apply is_empty_spec.
  - apply strip_prefix_spec in Ht as ->.
    destruct (bool_decide (transport = "unix")) eqn:Hu.
    { apply bool_decide_eq_true in Hu as ->. left. split; [by right|by apply is_empty_spec]. }
    destruct (bool_decide (transport = "tcp")) eqn:Htcp; [done|]. simpl in H.
    apply bool_decide_eq_false in Htcp.
    case_bool_decide as Hsel; [|done]. right. split; [|done].
    destruct Hsel as [->|[->| ->]]; naive_solver.
Qed.

(** ** Properties *)

(** C25: the iterative matcher with a single backtrack point always terminates
    within [glob_fuel] iterations without a slice panic, and it accepts exactly
    the values the declarative glob relation matches in full. *)
Theorem is_glob_match_spec pattern value :
  exists b, glob_run pattern value = Some b
    /\ is_glob_match pattern value = b
    /\ (b = true <-> glob (bytes pattern) (bytes value)).
Proof.
  destruct (glob_run_spec pattern value) as (b & Hb & Hg).
  exists b. unfold is_glob_match. by rewrite Hb.
Qed.

(** On a text that is a sequence of UTF-8 characters, [bounded_text] keeps
    whole characters only, never exceeds the byte bound, and stops only where
    the next character would not fit. *)
Theorem bounded_text_spec value max_bytes cs :
  Forall utf8_char cs -> bytes value = concat cs ->
  exists n, bytes (bounded_text value max_bytes) = concat (take n cs) /\
    (String.length (bounded_text value max_bytes) <= max_bytes)%nat /\
    ((n < Datatypes.length cs)%nat ->
      (max_bytes < Datatypes.length (concat (take (S n) cs)))%nat).
Proof. apply bounded_text_chars. Qed.

(** The two-byte character U+00E9 after one ASCII letter, bounded at two. *)
Definition e_acute : list ascii := [ascii_of_nat 195; ascii_of_nat 169].

Lemma bounded_text_spec_witness :
  bounded_text (text ("a"%char :: e_acute)) 2 = "a" /\
  exists n, bytes (bounded_text (text ("a"%char :: e_acute)) 2)
      = concat (take n [["a"%char]; e_acute]) /\
    (String.length (bounded_text (text ("a"%char :: e_acute)) 2) <= 2)%nat /\
    ((n < 2)%nat -> (2 < Datatypes.length (concat (take (S n) [["a"%char]; e_acute])))%nat).
Proof.
  split; [reflexivity|].
  refine (bounded_text_spec (text ("a"%char :: e_acute)) 2 [["a"%char]; e_acute] _ _).
  - repeat constructor.
    + exists "a"%char, []. repeat split; [constructor | simpl; lia].
    + exists (ascii_of_nat 195), [ascii_of_nat 169]. repeat split; [by repeat constructor | simpl; lia].
  - reflexivity.
Defined.

(** A safe Git ref used as an allowlist entry authorises itself and no
    other ref, since it cannot contain a wildcard. *)
Theorem safe_ref_matches_itself_only ref value :
  is_safe_git_ref ref = true ->
  is_glob_match ref value = true <-> value = ref.
Proof.
  intros H. rewrite is_glob_match_glob, glob_literal_only.
  - split; [by intros ?%(inj bytes) | by intros ->].
  - by apply (is_safe_git_ref_no_wildcard ref).
  - by apply (is_safe_git_ref_no_wildcard ref).
Qed.

Lemma safe_ref_matches_itself_only_witness :
  is_glob_match "refs/heads/main" "refs/heads/main" = true <->
  "refs/heads/main" = "refs/heads/main".
Proof. apply safe_ref_matches_itself_only. vm_compute. reflexivity. Defined.

(** Without the operator's opt-in, an accepted libvirt URI has the local
    socket with no authority, or the ssh or tls transport with a checked
    authority; the clear-text tcp transport and any query string are refused. *)
Theorem libvirt_uri_secure uri :
  is_supported_libvirt_uri uri false = true ->
  exists scheme authority path,
    uri = scheme +:+ "://" +:+ authority +:+ "/" +:+ path /\
    (path = "system" \/ path = "session") /\
    ((scheme = "qemu" \/ scheme = "qemu+unix") /\ authority = ""
     \/ (scheme = "qemu+ssh" \/ scheme = "qemu+tls") /\ is_libvirt_authority authority = true).
Proof. apply is_supported_libvirt_uri_secure. Qed.

Lemma libvirt_uri_secure_witness :
  exists scheme authority path,
    "qemu+ssh://root@vmhost:22/system" = scheme +:+ "://" +:+ authority +:+ "/" +:+ path /\
    (path = "system" \/ path = "session") /\
    ((scheme = "qemu" \/ scheme = "qemu+unix") /\ authority = ""
     \/ (scheme = "qemu+ssh" \/ scheme = "qemu+tls") /\ is_libvirt_authority authority = true).
Proof. apply libvirt_uri_secure. vm_compute. reflexivity. Defined.
