(* ===== verification/Identifiers.v ===== *)
(** * Identifiers ([crates/flanforge-core/src/identifiers/names.rs])

    The [identifier!] macro's constructors, VM-name suffixes, the VM prefix
    rule and [owner/repository] names.  An identifier is modelled by its text;
    that it was built by its constructor is the boolean [is_<kind>], which is
    also what its [Validate] implementation re-checks. *)

From S2P Require Import Prelude Rust.

Open Scope Z_scope.
Open Scope stdpp_scope.

Inductive IdentifierError :=
| Length (kind : string) (min max : Z)
| Character (kind : string)
| Repository
| VmPrefixError.

#[export] Instance IdentifierError_eq_dec : EqDecision IdentifierError.
Proof. solve_decision. Defined.

(** The [Display] of an identifier error. *)
Definition identifier_text (e : IdentifierError) : string :=
  match e with
  | Length kind min max =>
      kind +:+ " must be between " +:+ decimal min +:+ " and " +:+ decimal max +:+
      " ASCII characters"
  | Character kind => kind +:+ " contains an invalid character"
  | Repository => "repository must have the form owner/name"
  | VmPrefixError => "VM prefix must end with '-'"
  end.

Abbreviation ProfileName := string (only parsing).
Abbreviation RunnerLabel := string (only parsing).
Abbreviation VmName := string (only parsing).
Abbreviation VmPrefix := string (only parsing).
Abbreviation RepositoryName := string (only parsing).

(** The body of [identifier!]'s [new]. *)
Definition identifier_new (kind : string) (min max : Z) (valid : ascii -> bool)
    (value : string) : result IdentifierError string :=
  if negb (in_range min max (len value)) then Err (Length kind min max)
  else if negb (first_byte is_ascii_alphanumeric value) || negb (all_bytes valid value)
  then Err (Character kind)
  else Ok value.

Definition is_name_byte (byte : ascii) : bool :=
  is_ascii_alphanumeric byte || one_of "-_." byte.

Definition is_profile_byte (byte : ascii) : bool :=
  is_ascii_lowercase byte || is_ascii_digit byte || one_of "_" byte || one_of "-" byte.

Definition profile_name_new := identifier_new "profile name" 1 32 is_profile_byte.
Definition runner_label_new := identifier_new "runner label" 1 64 is_name_byte.
Definition vm_name_new := identifier_new "VM name" 1 80 is_name_byte.
Definition vm_prefix_new := identifier_new "VM prefix" 3 24 is_name_byte.

(** The [Validate] implementation of each identifier: rebuild and discard. *)
Definition is_profile_name (value : string) : bool := is_ok (profile_name_new value).
Definition is_runner_label (value : string) : bool := is_ok (runner_label_new value).
Definition is_vm_name (value : string) : bool := is_ok (vm_name_new value).
Definition is_vm_prefix (value : string) : bool := is_ok (vm_prefix_new value).

(** [VmName::with_suffix]. *)
Definition with_suffix (name suffix : string) : result IdentifierError VmName :=
  vm_name_new (name +:+ suffix).

(** [VmPrefix::ensure_valid]. *)
Definition vm_prefix_ensure_valid (prefix : VmPrefix) : result IdentifierError unit :=
  if ends_with prefix "-" then Ok tt else Err VmPrefixError.

(** [RepositoryName::new]: [parts.next()] three times on [value.split('/')]. *)
Definition repository_name_new (value : string) : result IdentifierError RepositoryName :=
  if 201 <? len value then Err Repository
  else
    let parts := split "/" value in
    let owner := default "" (parts !! 0%nat) in
    let repository := default "" (parts !! 1%nat) in
    if bool_decide (is_Some (parts !! 2%nat))
       || is_empty owner || is_empty repository
       || (100 <? len owner) || (100 <? len repository)
       || bool_decide (owner = "." \/ owner = "..")
       || bool_decide (repository = "." \/ repository = "..")
       || negb (first_byte is_ascii_alphanumeric owner)
       || negb (first_byte is_ascii_alphanumeric repository)
       || negb (all_bytes is_name_byte owner)
       || negb (all_bytes is_name_byte repository)
    then Err Repository
    else Ok value.

Definition is_repository_name (value : string) : bool := is_ok (repository_name_new value).

Definition owner (value : RepositoryName) : string :=
  match split_once "/" value with Some (owner, _) => owner | None => "" end.

Definition repository (value : RepositoryName) : string :=
  match split_once "/" value with Some (_, repository) => repository | None => "" end.

(** ** Lemmas *)

Lemma identifier_new_ok kind min max valid value v :
  identifier_new kind min max valid value = Ok v <->
  v = value /\ min <= len value <= max /\
  first_byte is_ascii_alphanumeric value = true /\ all_bytes valid value = true.
Proof.
  unfold identifier_new.
  destruct (in_range min max (len value)) eqn:Hl; simpl.
  - apply in_range_spec in Hl.
    destruct (first_byte _ value), (all_bytes valid value); simpl; naive_solver.
  - split; [done|]. intros (_ & H & _). apply in_range_spec in H. congruence.
Qed.

Lemma is_ok_identifier kind min max valid value :
  is_ok (identifier_new kind min max valid value) = true <->
  min <= len value <= max /\ first_byte is_ascii_alphanumeric value = true /\
  all_bytes valid value = true.
Proof.
  destruct (identifier_new _ _ _ _ value) eqn:H; simpl.
  - apply identifier_new_ok in H. naive_solver.
  - split; [done|]. intros ?. enough (Err e = Ok value) by done.
    rewrite <- H. apply identifier_new_ok. naive_solver.
Qed.

Lemma is_vm_name_spec value :
  is_vm_name value = true <->
  1 <= len value <= 80 /\ first_byte is_ascii_alphanumeric value = true /\
  all_bytes is_name_byte value = true.
Proof. apply is_ok_identifier. Qed.

Lemma is_vm_prefix_spec value :
  is_vm_prefix value = true <->
  3 <= len value <= 24 /\ first_byte is_ascii_alphanumeric value = true /\
  all_bytes is_name_byte value = true.
Proof. apply is_ok_identifier. Qed.

Lemma is_profile_name_spec value :
  is_profile_name value = true <->
  1 <= len value <= 32 /\ first_byte is_ascii_alphanumeric value = true /\
  all_bytes is_profile_byte value = true.
Proof. apply is_ok_identifier. Qed.

Lemma is_runner_label_spec value :
  is_runner_label value = true <->
  1 <= len value <= 64 /\ first_byte is_ascii_alphanumeric value = true /\
  all_bytes is_name_byte value = true.
Proof. apply is_ok_identifier. Qed.

Lemma profile_bytes_are_name_bytes s :
  all_bytes is_profile_byte s = true -> all_bytes is_name_byte s = true.
Proof. apply all_bytes_weaken. vm_compute. reflexivity. Qed.

Lemma digits_are_name_bytes s :
  all_bytes is_ascii_digit s = true -> all_bytes is_name_byte s = true.
Proof. apply all_bytes_weaken. vm_compute. reflexivity. Qed.

Lemma first_byte_app p s t : first_byte p s = true -> first_byte p (s +:+ t) = true.
Proof. by destruct s. Qed.

(** Pieces of a [split] and [split_once] agree on where the first cut is. *)
Lemma split_cons sep s a b :
  split_once sep s = Some (a, b) -> split sep s = a :: split sep b.
Proof.
  revert a b. induction s as [|c s IH]; intros a b; simpl; [done|].
  destruct (Ascii.eqb c sep); [by intros [= <- <-]|].
  destruct (split_once sep s) as [[a' b']|]; [|done].
  intros [= <- <-]. by rewrite (IH a' b').
Qed.

Lemma split_none sep s : split_once sep s = None -> split sep s = [s].
Proof.
  induction s as [|c s IH]; simpl; [done|].
  destruct (Ascii.eqb c sep); [done|].
  destruct (split_once sep s) as [[a' b']|]; [done|]. intros _. by rewrite IH.
Qed.

Lemma split_nonempty sep s : split sep s <> [].
Proof.
  destruct (split_once sep s) as [[a b]|] eqn:H.
  - by rewrite (split_cons _ _ _ _ H).
  - by rewrite (split_none _ _ H).
Qed.

Lemma repository_name_new_ok value v :
  repository_name_new value = Ok v ->
  v = value /\
  exists o r, value = o +:+ "/" +:+ r /\ owner value = o /\ repository value = r /\
    1 <= len o <= 100 /\ 1 <= len r <= 100 /\
    all_bytes is_name_byte o = true /\ all_bytes is_name_byte r = true.
Proof.
  unfold repository_name_new. case_match; [done|].
  destruct (split_once "/" value) as [[o rest]|] eqn:Ho.
  - rewrite (split_cons _ _ _ _ Ho). cbn -[split].
    destruct (split_once "/" rest) as [[r more]|] eqn:Hr.
    + rewrite (split_cons _ _ _ _ Hr). cbn -[split].
      destruct (split "/" more) eqn:Hs; [by apply split_nonempty in Hs|].
      rewrite bool_decide_true by eauto. done.
    + rewrite (split_none _ _ Hr). cbn -[split]. case_match eqn:Hg; [done|].
      intros [= <-]. split; [done|]. simplify_bool.
      exists o, rest. unfold owner, repository. rewrite Ho.
      apply split_once_some in Ho as [-> _]. unfold is_empty in *. simplify_bool.
      pose proof (len_nonneg o). pose proof (len_nonneg rest).
      repeat split; done || lia.
  - rewrite (split_none _ _ Ho). cbn -[split].
    replace (is_empty "") with true by done. by rewrite !orb_true_r.
Qed.

(** ** Properties *)

(** An accepted repository name is exactly [owner/repository] for its own
    [owner] and [repository] projections, each between one and a hundred bytes
    of the name alphabet, so neither can hold a second separator. *)
Theorem repository_name_roundtrip value v :
  repository_name_new value = Ok v ->
  v = value /\ value = owner value +:+ "/" +:+ repository value /\
  1 <= len (owner value) <= 100 /\ 1 <= len (repository value) <= 100 /\
  all_bytes is_name_byte (owner value) = true /\
  all_bytes is_name_byte (repository value) = true.
Proof.
  intros (-> & o & r & Hv & Ho & Hr & H)%repository_name_new_ok.
  rewrite Ho, Hr. naive_solver.
Qed.

Lemma repository_name_roundtrip_witness :
  "acme/site" = owner "acme/site" +:+ "/" +:+ repository "acme/site".
Proof. apply (repository_name_roundtrip "acme/site" "acme/site"). vm_compute. reflexivity. Defined.
