(* ===== verification/Images.v ===== *)
(** * Warm images ([crates/flanforge-core/src/image])

    The base fingerprint and its lossless encoding ([fingerprint.rs]), the warm
    image record with its reserved names ([record.rs]) and the retention
    outcome ([outcome.rs]). *)

From S2P Require Import Prelude Rust Text Identifiers.

Open Scope Z_scope.
Open Scope stdpp_scope.

(** An [AllocationId] is a UUID; it is modelled by its canonical text, which is
    what the daemon compares, prints and stores. *)
Abbreviation AllocationId := string (only parsing).
Abbreviation BaseFingerprint := string (only parsing).

(** ** Fingerprints *)

Record FileStat := {
  fs_len : Z;          (* u64 *)
  fs_mtime_secs : Z;   (* u64 *)
  fs_mtime_nanos : Z;  (* u32 *)
}.

Definition is_file_stat (s : FileStat) : bool :=
  in_u64 (fs_len s) && in_u64 (fs_mtime_secs s) && in_u32 (fs_mtime_nanos s).

Definition fingerprint_max_len : Z := 128.

Definition base_fingerprint_new (value : string) : result IdentifierError BaseFingerprint :=
  if negb (in_range 1 fingerprint_max_len (len value))
  then Err (Length "base fingerprint" 1 fingerprint_max_len)
  else if negb (all_bytes is_ascii_hexdigit value)
  then Err (Character "base fingerprint")
  else Ok value.

Definition is_base_fingerprint (value : string) : bool := is_ok (base_fingerprint_new value).

Definition hex_digit (n : Z) : ascii :=
  ascii_of_N (Z.to_N (if n <? 10 then 48 + n else 87 + n)).

(** [{:0<width>x}] of a value of at most [width] hexadecimal digits, which a
    [u64] is for sixteen and a [u32] for eight. *)
Fixpoint hex_padded (width : nat) (n : Z) : string :=
  match width with
  | O => ""
  | S w => hex_padded w (n / 16) +:+ String (hex_digit (n `mod` 16)) ""
  end.

Definition from_stats (disk config : FileStat) : BaseFingerprint :=
  hex_padded 16 (fs_len disk) +:+ hex_padded 16 (fs_mtime_secs disk)
  +:+ hex_padded 8 (fs_mtime_nanos disk)
  +:+ hex_padded 16 (fs_len config) +:+ hex_padded 16 (fs_mtime_secs config)
  +:+ hex_padded 8 (fs_mtime_nanos config).

Definition is_fingerprint_match (recorded current : option BaseFingerprint) : bool :=
  match recorded, current with
  | Some recorded, Some current => bool_decide (recorded = current)
  | _, _ => false
  end.

(** ** Warm image records *)

Definition STAGING_SUFFIX : string := ".staging".
Definition PREVIOUS_SUFFIX : string := ".previous".

Inductive WarmImageState := Staging | Promoted.

#[export] Instance WarmImageState_eq_dec : EqDecision WarmImageState.
Proof. solve_decision. Defined.

Record WarmGeneration := {
  wg_generation : Z;
  wg_base_fingerprint : BaseFingerprint;
  wg_produced_by : AllocationId;
  wg_produced_at_unix : Z;
}.

Record WarmImageRecord := mkWarmImageRecord {
  wi_profile : ProfileName;
  wi_warm_template : VmName;
  wi_generation : Z;
  wi_base_fingerprint : BaseFingerprint;
  wi_produced_by : AllocationId;
  wi_produced_at_unix : Z;
  wi_state : WarmImageState;
  wi_previous : option WarmGeneration;
}.

#[export] Instance WarmImageRecord_eta : Eta WarmImageRecord := fun r =>
  mkWarmImageRecord (wi_profile r) (wi_warm_template r) (wi_generation r)
    (wi_base_fingerprint r) (wi_produced_by r) (wi_produced_at_unix r)
    (wi_state r) (wi_previous r).

#[export] Instance WarmGeneration_eq_dec : EqDecision WarmGeneration.
Proof. solve_decision. Defined.
#[export] Instance WarmImageRecord_eq_dec : EqDecision WarmImageRecord.
Proof. solve_decision. Defined.

Definition validate_warm_generation (g : WarmGeneration) : bool :=
  (1 <=? wg_generation g) && is_base_fingerprint (wg_base_fingerprint g).

Definition validate_warm_image (r : WarmImageRecord) : bool :=
  is_profile_name (wi_profile r) && is_vm_name (wi_warm_template r)
  && (1 <=? wi_generation r) && is_base_fingerprint (wi_base_fingerprint r)
  && match wi_previous r with Some g => validate_warm_generation g | None => true end.

Definition staging_name (r : WarmImageRecord) : result IdentifierError VmName :=
  with_suffix (wi_warm_template r) STAGING_SUFFIX.

Definition previous_name (r : WarmImageRecord) : result IdentifierError VmName :=
  with_suffix (wi_warm_template r) PREVIOUS_SUFFIX.

(** ** Retention outcomes *)

Inductive RetentionResult :=
| RPromoted | RolledBack | Skipped | Rejected | RFailed.

Inductive RetentionPhase := Strip | Stop | Stage | Verify | Retire | Promote.

Record RetentionOutcome := {
  ro_outcome : RetentionResult;
  ro_phase : RetentionPhase;
  ro_reason : string;
  ro_generation : option Z;
  ro_duration_ms : option Z;
}.

#[export] Instance RetentionResult_eq_dec : EqDecision RetentionResult.
Proof. solve_decision. Defined.
#[export] Instance RetentionPhase_eq_dec : EqDecision RetentionPhase.
Proof. solve_decision. Defined.
#[export] Instance RetentionOutcome_eq_dec : EqDecision RetentionOutcome.
Proof. solve_decision. Defined.

Definition MAX_REASON_LEN : nat := 256.

Definition retention_outcome_new (outcome : RetentionResult) (phase : RetentionPhase)
    (reason : string) (generation : option Z) : RetentionOutcome :=
  {| ro_outcome := outcome; ro_phase := phase;
     ro_reason := bounded_text reason MAX_REASON_LEN;
     ro_generation := generation; ro_duration_ms := None |}.

(** [duration.as_millis()] is a [u128]; the conversion to [u64] saturates. *)
Definition with_duration (o : RetentionOutcome) (millis : Z) : RetentionOutcome :=
  {| ro_outcome := ro_outcome o; ro_phase := ro_phase o; ro_reason := ro_reason o;
     ro_generation := ro_generation o; ro_duration_ms := Some (Z.min u64_max millis) |}.

Definition NUL : ascii := ascii_of_nat 0.

Definition validate_reason (value : string) : bool :=
  (len value <=? Z.of_nat MAX_REASON_LEN) && negb (any_byte (Ascii.eqb NUL) value).

Definition validate_retention (o : RetentionOutcome) : bool := validate_reason (ro_reason o).

(** ** Lemmas *)

Lemma hex_digit_hexdigit n : 0 <= n < 16 -> is_ascii_hexdigit (hex_digit n) = true.
Proof.
  intros H.
  assert (Forall (fun m => is_ascii_hexdigit (hex_digit m) = true) (seqZ 0 16)) as Hall
    by (vm_compute; by repeat constructor).
  rewrite Forall_forall in Hall. apply Hall, elem_of_seqZ. lia.
Qed.

Lemma hex_digit_inj n m : 0 <= n < 16 -> 0 <= m < 16 -> hex_digit n = hex_digit m -> n = m.
Proof.
  unfold hex_digit. intros Hn Hm H. apply (f_equal N_of_ascii) in H.
  rewrite !N_ascii_embedding in H by (repeat case_match; lia).
  repeat case_match; simplify_bool; lia.
Qed.

Lemma length_hex_padded w n : String.length (hex_padded w n) = w.
Proof.
  revert n. induction w as [|w IH]; intros n; [done|].
  cbn [hex_padded]. rewrite length_string_app, IH. simpl. lia.
Qed.

Lemma hex_padded_hex w n : all_bytes is_ascii_hexdigit (hex_padded w n) = true.
Proof.
  revert n. induction w as [|w IH]; intros n; [done|].
  cbn [hex_padded]. rewrite all_bytes_app, IH. unfold all_bytes, bytes. simpl.
  rewrite hex_digit_hexdigit; [done|]. apply Z.mod_pos_bound. lia.
Qed.

Lemma string_app_inj_length (a b c d : string) :
  String.length a = String.length b -> a +:+ c = b +:+ d -> a = b /\ c = d.
Proof.
  intros Hl H. apply (f_equal bytes) in H. rewrite !bytes_app in H.
  apply app_inj_1 in H as [? ?]; [|by rewrite !length_bytes].
  split; by apply (inj bytes).
Qed.

(** A value of at most [width] digits is recovered from its padded form. *)
Lemma hex_padded_inj w n m :
  0 <= n < 16 ^ Z.of_nat w -> 0 <= m < 16 ^ Z.of_nat w ->
  hex_padded w n = hex_padded w m -> n = m.
Proof.
  revert n m. induction w as [|w IH]; intros n m Hn Hm H.
  { simpl in *. lia. }
  rewrite Nat2Z.inj_succ, Z.pow_succ_r in Hn, Hm by lia. cbn [hex_padded] in H.
  apply string_app_inj_length in H as [H1 H2]; [|by rewrite !length_hex_padded].
  apply IH in H1.
  - injection H2 as H2. apply hex_digit_inj in H2; try (apply Z.mod_pos_bound; lia).
    rewrite (Z.div_mod n 16), (Z.div_mod m 16) by lia. lia.
  - split; [apply Z.div_pos; lia | apply Z.div_lt_upper_bound; lia].
  - split; [apply Z.div_pos; lia | apply Z.div_lt_upper_bound; lia].
Qed.

Lemma is_file_stat_spec s :
  is_file_stat s = true ->
  0 <= fs_len s < 16 ^ 16 /\ 0 <= fs_mtime_secs s < 16 ^ 16 /\ 0 <= fs_mtime_nanos s < 16 ^ 8.
Proof.
  unfold is_file_stat, in_u64, in_u32, u64_max, u32_max. intros H. simplify_bool. lia.
Qed.

Lemma from_stats_valid disk config : is_base_fingerprint (from_stats disk config) = true.
Proof.
  unfold is_base_fingerprint, base_fingerprint_new.
  assert (len (from_stats disk config) = 80) as ->.
  { unfold from_stats. rewrite !len_app. unfold len. by rewrite !length_hex_padded. }
  replace (all_bytes _ _) with true; [done|].
  unfold from_stats. by rewrite !all_bytes_app, !hex_padded_hex.
Qed.

Lemma hex_field_inj w n m a b :
  0 <= n < 16 ^ Z.of_nat w -> 0 <= m < 16 ^ Z.of_nat w ->
  hex_padded w n +:+ a = hex_padded w m +:+ b -> n = m /\ a = b.
Proof.
  intros Hn Hm H.
  apply string_app_inj_length in H as [H ?]; [|by rewrite !length_hex_padded].
  split; [|done]. by apply (hex_padded_inj w).
Qed.

Opaque hex_padded.

Lemma from_stats_inj disk config disk' config' :
  is_file_stat disk = true -> is_file_stat config = true ->
  is_file_stat disk' = true -> is_file_stat config' = true ->
  from_stats disk config = from_stats disk' config' -> disk = disk' /\ config = config'.
Proof.
  unfold from_stats. intros (? & ? & ?)%is_file_stat_spec (? & ? & ?)%is_file_stat_spec
    (? & ? & ?)%is_file_stat_spec (? & ? & ?)%is_file_stat_spec Heq.
  do 5 (apply hex_field_inj in Heq as [? Heq]; [|assumption..]).
  apply hex_padded_inj in Heq; [|assumption..].
  destruct disk, config, disk', config'; simpl in *. by subst.
Qed.

Transparent hex_padded.

(** ** Properties *)

(** A fingerprint derived from two file stats is always a valid
    fingerprint, and equal fingerprints come from equal sizes and
    modification times of both files: no difference of the base image can be
    lost in the encoding. *)
Theorem from_stats_lossless disk config disk' config' :
  is_file_stat disk = true -> is_file_stat config = true ->
  is_file_stat disk' = true -> is_file_stat config' = true ->
  base_fingerprint_new (from_stats disk config) = Ok (from_stats disk config) /\
  (is_fingerprint_match (Some (from_stats disk config)) (Some (from_stats disk' config')) = true
   <-> disk = disk' /\ config = config').
Proof.
  intros Hd Hc Hd' Hc'. split.
  - pose proof (from_stats_valid disk config) as H.
    unfold is_base_fingerprint, base_fingerprint_new in *. by repeat case_match.
  - unfold is_fingerprint_match. rewrite bool_decide_eq_true. split; [by apply from_stats_inj | by intros [-> ->]].
Qed.

Definition stat_a : FileStat :=
  {| fs_len := 42949672960; fs_mtime_secs := 1700000000; fs_mtime_nanos := 7 |}.
Definition stat_b : FileStat :=
  {| fs_len := 42949672960; fs_mtime_secs := 1700000000; fs_mtime_nanos := 8 |}.

Lemma from_stats_lossless_witness :
  base_fingerprint_new (from_stats stat_a stat_b) = Ok (from_stats stat_a stat_b) /\
  (is_fingerprint_match (Some (from_stats stat_a stat_b)) (Some (from_stats stat_a stat_a)) = true
   <-> stat_a = stat_a /\ stat_b = stat_a).
Proof. apply from_stats_lossless; reflexivity. Defined.
