(* ===== verification/Guest.v ===== *)
(** * What an allocation asks for and boots from
    ([crates/flanforge-core/src/allocation/{source,size,origin,outcome}.rs],
     [crates/flanforge-core/src/hot/{lane,refusal,request}.rs])

    The enumerations and small records shared by allocations and hot guests. *)

From S2P Require Import Prelude Rust Text Identifiers Images.

Open Scope Z_scope.
Open Scope stdpp_scope.

(** ** Boot sources *)

Inductive AllocationMode := Cold | Warm | Regenerate.
Inductive CloneKind := KTemplate | KWarm.

Inductive FallbackReason :=
| NotDeclared | NoRecord | Repointed | Absent | NotStopped | StaleBaseFallback | Unclaimed
| Quarantined | NotPromoted | FingerprintUnavailable | UnsupportedFallback
| StorageTooSmall | UnknownReason.

#[export] Instance AllocationMode_eq_dec : EqDecision AllocationMode.
Proof. solve_decision. Defined.
#[export] Instance CloneKind_eq_dec : EqDecision CloneKind.
Proof. solve_decision. Defined.
#[export] Instance FallbackReason_eq_dec : EqDecision FallbackReason.
Proof. solve_decision. Defined.

Definition FALLBACK_NAMES : list (string * FallbackReason) :=
  [ ("not_declared", NotDeclared); ("no_record", NoRecord); ("repointed", Repointed);
    ("absent", Absent); ("not_stopped", NotStopped); ("stale_base", StaleBaseFallback);
    ("unclaimed", Unclaimed); ("quarantined", Quarantined);
    ("not_promoted", NotPromoted); ("fingerprint_unavailable", FingerprintUnavailable);
    ("unsupported", UnsupportedFallback); ("storage_too_small", StorageTooSmall) ].

(** The tolerant [Deserialize]: an unknown name is carried, not an error. *)
Definition fallback_reason_deserialize (value : string) : FallbackReason :=
  match List.find (fun entry => bool_decide (entry.1 = value)) FALLBACK_NAMES with
  | Some (_, reason) => reason
  | None => UnknownReason
  end.

(** The derived [Serialize] with [rename_all = "snake_case"]. *)
Definition fallback_reason_serialize (reason : FallbackReason) : string :=
  match reason with
  | NotDeclared => "not_declared"
  | NoRecord => "no_record"
  | Repointed => "repointed"
  | Absent => "absent"
  | NotStopped => "not_stopped"
  | StaleBaseFallback => "stale_base"
  | Unclaimed => "unclaimed"
  | Quarantined => "quarantined"
  | NotPromoted => "not_promoted"
  | FingerprintUnavailable => "fingerprint_unavailable"
  | UnsupportedFallback => "unsupported"
  | StorageTooSmall => "storage_too_small"
  | UnknownReason => "unknown"
  end.

Record CloneSource := {
  cs_name : VmName;
  cs_kind : CloneKind;
  cs_base_fingerprint : option BaseFingerprint;
  cs_fallback_reason : option FallbackReason;
}.

#[export] Instance CloneSource_eq_dec : EqDecision CloneSource.
Proof. solve_decision. Defined.

Definition validate_clone_source (s : CloneSource) : bool :=
  is_vm_name (cs_name s)
  && match cs_base_fingerprint s with Some f => is_base_fingerprint f | None => true end.

(** ** Sizes *)

Record GuestSize := {
  cpu_count : Z;   (* u8 *)
  memory_mb : Z;   (* u32 *)
  storage_mb : Z;  (* u64 *)
}.

#[export] Instance GuestSize_eq_dec : EqDecision GuestSize.
Proof. solve_decision. Defined.

Definition MAX_STORAGE_MB : Z := 1048576.
Definition default_storage_mb : Z := 40960.

Definition validate_size (s : GuestSize) : bool :=
  in_range 1 64 (cpu_count s) && in_range 2048 131072 (memory_mb s)
  && in_range 16384 MAX_STORAGE_MB (storage_mb s).

(** ** Hot lanes, refusals and requests *)

Inductive HotLane := Protected | Unprotected.
Inductive HotLanePolicy := LanesNone | LanesProtected | LanesAny.

#[export] Instance HotLane_eq_dec : EqDecision HotLane.
Proof. solve_decision. Defined.
#[export] Instance HotLanePolicy_eq_dec : EqDecision HotLanePolicy.
Proof. solve_decision. Defined.

Definition from_ref_protected (is_ref_protected : bool) : HotLane :=
  if is_ref_protected then Protected else Unprotected.

Definition is_lane_admitted (policy : HotLanePolicy) (lane : HotLane) : bool :=
  match policy with
  | LanesNone => false
  | LanesProtected => bool_decide (lane = Protected)
  | LanesAny => true
  end.

Inductive HotRefusal :=
| NotEnabled | LaneNotAdmitted | Regeneration | Unsupported | PoolFull.

#[export] Instance HotRefusal_eq_dec : EqDecision HotRefusal.
Proof. solve_decision. Defined.

Inductive HotRequest :=
| Untouched
| Retain (age_seconds : option Z)
| Evict.

Definition is_retaining (r : HotRequest) : bool :=
  match r with Retain _ => true | _ => false end.

Definition is_evicting (r : HotRequest) : bool :=
  match r with Evict => true | _ => false end.

(** ** Origins and terminal reasons *)

Inductive AllocationOrigin :=
| Cloned
| HotReuse (vm_name : VmName) (jobs_served booted_at_unix : Z).

#[export] Instance AllocationOrigin_eq_dec : EqDecision AllocationOrigin.
Proof. solve_decision. Defined.

Definition is_hot_reuse (o : AllocationOrigin) : bool :=
  match o with HotReuse _ _ _ => true | Cloned => false end.

Definition hot_vm_name (o : AllocationOrigin) : option VmName :=
  match o with Cloned => None | HotReuse vm_name _ _ => Some vm_name end.

Definition validate_origin (o : AllocationOrigin) : bool :=
  match o with Cloned => true | HotReuse vm_name _ _ => is_vm_name vm_name end.

Inductive TerminalReason := Capacity.

#[export] Instance TerminalReason_eq_dec : EqDecision TerminalReason.
Proof. solve_decision. Defined.

(** Every reason survives the wire, an unknown one as [UnknownReason]. *)
Lemma fallback_reason_roundtrip reason :
  fallback_reason_deserialize (fallback_reason_serialize reason) = reason.
Proof. by destruct reason. Qed.
