(* ===== verification/Hot.v ===== *)
(** * Hot guests ([crates/flanforge-core/src/hot/{state,record}.rs])

    The record of one retained machine, its state machine, the three
    operations that move it and the cross-field rule [validate_claim]. *)

From S2P Require Import Prelude Rust Text Identifiers Images Guest.

Open Scope Z_scope.
Open Scope stdpp_scope.

Inductive HotState := Provisioning | Idle | Claimed | Recycling | Draining | Evicted.

#[export] Instance HotState_eq_dec : EqDecision HotState.
Proof. solve_decision. Defined.

Definition hot_is_terminal (s : HotState) : bool :=
  match s with Evicted => true | _ => false end.

Definition is_holding_machine (s : HotState) : bool := negb (hot_is_terminal s).

Definition is_claim_bearing (s : HotState) : bool :=
  match s with Claimed => true | _ => false end.

Definition hot_can_transition_to (s next : HotState) : bool :=
  if bool_decide (s = next) then true
  else match s with
       | Provisioning => match next with Idle | Evicted => true | _ => false end
       | Idle => match next with Claimed | Draining | Evicted => true | _ => false end
       | Claimed => match next with Recycling | Draining => true | _ => false end
       | Recycling => match next with Idle | Evicted => true | _ => false end
       | Draining => match next with Evicted => true | _ => false end
       | Evicted => false
       end.

Inductive HotDrainReason :=
| EvictRequested | CapacityPressure | MaxLifetime | MaxJobs | MaxIdle | IdleTtl
| ResetFailed | StaleBase | ConfigReloaded | MachineGone | Unverifiable | OperatorRequest.

#[export] Instance HotDrainReason_eq_dec : EqDecision HotDrainReason.
Proof. solve_decision. Defined.

Record HotTransitionError := { hte_from : HotState; hte_to : HotState }.

Record HotGuest := mkHotGuest {
  hg_vm_name : VmName;
  hg_profile : ProfileName;
  hg_lane : HotLane;
  hg_state : HotState;
  hg_size : GuestSize;
  hg_source : CloneSource;
  hg_warm_generation : option Z;
  hg_age_limit_seconds : option Z;
  hg_booted_at_unix : Z;
  hg_updated_at_unix : Z;
  hg_jobs_served : Z;
  hg_claimed_by : option AllocationId;
  hg_drain_reason : option HotDrainReason;
}.

#[export] Instance HotGuest_eta : Eta HotGuest := fun g =>
  mkHotGuest (hg_vm_name g) (hg_profile g) (hg_lane g) (hg_state g) (hg_size g)
    (hg_source g) (hg_warm_generation g) (hg_age_limit_seconds g) (hg_booted_at_unix g)
    (hg_updated_at_unix g) (hg_jobs_served g) (hg_claimed_by g) (hg_drain_reason g).

#[export] Instance HotTransitionError_eq_dec : EqDecision HotTransitionError.
Proof. solve_decision. Defined.
#[export] Instance HotGuest_eq_dec : EqDecision HotGuest.
Proof. solve_decision. Defined.

(** [now] is the clock reading [unix_time()]. *)
Definition hot_guest_new (now : Z) (vm_name : VmName) (profile : ProfileName)
    (lane : HotLane) (size : GuestSize) (source : CloneSource)
    (warm_generation age_limit_seconds : option Z) : HotGuest :=
  {| hg_vm_name := vm_name; hg_profile := profile; hg_lane := lane;
     hg_state := Provisioning; hg_size := size; hg_source := source;
     hg_warm_generation := warm_generation; hg_age_limit_seconds := age_limit_seconds;
     hg_booted_at_unix := now; hg_updated_at_unix := now; hg_jobs_served := 0;
     hg_claimed_by := None; hg_drain_reason := None |}.

Definition ensure_state (now : Z) (next : HotState) (g : HotGuest) :
    result HotTransitionError HotGuest :=
  if negb (hot_can_transition_to (hg_state g) next)
  then Err {| hte_from := hg_state g; hte_to := next |}
  else Ok (g <| hg_state := next |> <| hg_updated_at_unix := now |>).

Definition ensure_claimed (now : Z) (id : AllocationId) (g : HotGuest) :
    result HotTransitionError HotGuest :=
  if negb (bool_decide (hg_state g = Idle))
  then Err {| hte_from := hg_state g; hte_to := Claimed |}
  else g ← ensure_state now Claimed g;
       Ok (g <| hg_claimed_by := Some id |>).

Definition ensure_released (now : Z) (g : HotGuest) : result HotTransitionError HotGuest :=
  if negb (bool_decide (hg_state g = Claimed))
  then Err {| hte_from := hg_state g; hte_to := Recycling |}
  else g ← ensure_state now Recycling g;
       Ok (g <| hg_claimed_by := None |>
             <| hg_jobs_served := sat_add u32_max (hg_jobs_served g) 1 |>).

Definition is_serving (g : HotGuest) (profile : ProfileName) (lane : HotLane) : bool :=
  bool_decide (hg_state g = Idle) && bool_decide (hg_profile g = profile)
  && bool_decide (hg_lane g = lane).

Definition validate_claim (g : HotGuest) : bool :=
  bool_decide (bool_decide (is_Some (hg_claimed_by g)) = is_claim_bearing (hg_state g)).

Definition positive_option (o : option Z) : bool :=
  match o with Some n => 1 <=? n | None => true end.

(** The derived [Validate] with its schema rule. *)
Definition validate_hot_guest (g : HotGuest) : bool :=
  is_vm_name (hg_vm_name g) && is_profile_name (hg_profile g)
  && validate_size (hg_size g) && validate_clone_source (hg_source g)
  && positive_option (hg_warm_generation g) && positive_option (hg_age_limit_seconds g)
  && validate_claim g.

(** ** Lemmas *)

Lemma validate_claim_spec g :
  validate_claim g = true <->
  (hg_state g = Claimed <-> is_Some (hg_claimed_by g)).
Proof.
  unfold validate_claim. rewrite bool_decide_eq_true.
  destruct (hg_claimed_by g) as [id|].
  - rewrite bool_decide_true by eauto. destruct (hg_state g); simpl; naive_solver.
  - rewrite bool_decide_false by (by intros [? ?]). unfold is_Some.
    destruct (hg_state g); simpl; naive_solver.
Qed.

Lemma ensure_state_ok now next g g' :
  ensure_state now next g = Ok g' <->
  hot_can_transition_to (hg_state g) next = true /\
  g' = g <| hg_state := next |> <| hg_updated_at_unix := now |>.
Proof.
  unfold ensure_state. destruct (hot_can_transition_to _ _); simpl; naive_solver.
Qed.

Lemma ensure_claimed_ok now id g g' :
  ensure_claimed now id g = Ok g' <->
  hg_state g = Idle /\
  g' = g <| hg_state := Claimed |> <| hg_updated_at_unix := now |>
         <| hg_claimed_by := Some id |>.
Proof.
  unfold ensure_claimed, ensure_state. case_bool_decide as H; simpl; [|naive_solver].
  rewrite H. simpl. naive_solver.
Qed.

Lemma ensure_released_ok now g g' :
  ensure_released now g = Ok g' <->
  hg_state g = Claimed /\
  g' = g <| hg_state := Recycling |> <| hg_updated_at_unix := now |>
         <| hg_claimed_by := None |>
         <| hg_jobs_served := sat_add u32_max (hg_jobs_served g) 1 |>.
Proof.
  unfold ensure_released, ensure_state. case_bool_decide as H; simpl; [|naive_solver].
  rewrite H. simpl. naive_solver.
Qed.

(** ** The edges a record takes in operation

    [hot_step] is every move the manager makes on a stored record through
    these three operations. *)

Inductive hot_step : HotGuest -> HotGuest -> Prop :=
| hot_step_state now next g g' : ensure_state now next g = Ok g' -> hot_step g g'
| hot_step_claimed now id g g' : ensure_claimed now id g = Ok g' -> hot_step g g'
| hot_step_released now g g' : ensure_released now g = Ok g' -> hot_step g g'.

(** How far along its life a record is: claims and releases cycle between the
    working states, draining and eviction only move forward. *)
Definition hot_phase (s : HotState) : Z :=
  match s with
  | Provisioning => 0
  | Idle | Claimed | Recycling => 1
  | Draining => 2
  | Evicted => 3
  end.

Lemma hot_step_phase g g' :
  hot_step g g' -> hot_phase (hg_state g) <= hot_phase (hg_state g').
Proof.
  intros [now next ? ? [H ->]%ensure_state_ok
         |now id ? ? [H ->]%ensure_claimed_ok
         |now ? ? [H ->]%ensure_released_ok]; simpl.
  - destruct (hg_state g0), next; try discriminate H; simpl; lia.
  - rewrite H. simpl. lia.
  - rewrite H. simpl. lia.
Qed.

Lemma hot_step_identity g g' :
  hot_step g g' ->
  hg_vm_name g' = hg_vm_name g /\ hg_profile g' = hg_profile g /\ hg_lane g' = hg_lane g /\
  hg_size g' = hg_size g /\ hg_source g' = hg_source g /\
  hg_booted_at_unix g' = hg_booted_at_unix g /\
  hg_warm_generation g' = hg_warm_generation g /\
  hg_age_limit_seconds g' = hg_age_limit_seconds g.
Proof.
  intros [now next ? ? [H ->]%ensure_state_ok
         |now id ? ? [H ->]%ensure_claimed_ok
         |now ? ? [H ->]%ensure_released_ok]; simpl; repeat split.
Qed.

(** ** Properties *)

(** Binding and releasing keep the record's cross-field rule (exactly the
    [Claimed] records carry a claimant), whatever the record was, and a bare
    state move keeps it exactly when it neither enters nor leaves [Claimed]. *)
Theorem hot_claim_rule_preserved now id g :
  validate_claim g = true ->
  (forall g', ensure_claimed now id g = Ok g' ->
     validate_claim g' = true /\ hg_claimed_by g = None /\ hg_claimed_by g' = Some id) /\
  (forall g', ensure_released now g = Ok g' ->
     validate_claim g' = true /\ hg_claimed_by g' = None /\
     hg_jobs_served g' = Z.min u32_max (hg_jobs_served g + 1)) /\
  (forall next g', ensure_state now next g = Ok g' ->
     validate_claim g' = true <-> (hg_state g = Claimed <-> next = Claimed)).
Proof.
  rewrite validate_claim_spec. intros Hv. split; [|split].
  - intros g' [Hs ->]%ensure_claimed_ok. rewrite validate_claim_spec. simpl.
    rewrite Hs in Hv. destruct (hg_claimed_by g); naive_solver.
  - intros g' [Hs ->]%ensure_released_ok. rewrite validate_claim_spec. simpl.
    unfold is_Some. naive_solver.
  - intros next g' [Hs ->]%ensure_state_ok. rewrite validate_claim_spec. simpl. naive_solver.
Qed.

Definition idle_guest : HotGuest :=
  {| hg_vm_name := "ff-linux-7-1"; hg_profile := "linux"; hg_lane := Protected;
     hg_state := Idle;
     hg_size := {| cpu_count := 4; memory_mb := 8192; storage_mb := 40960 |};
     hg_source := {| cs_name := "linux-template"; cs_kind := KTemplate;
                     cs_base_fingerprint := None; cs_fallback_reason := None |};
     hg_warm_generation := None; hg_age_limit_seconds := None;
     hg_booted_at_unix := 1000; hg_updated_at_unix := 2000; hg_jobs_served := 1;
     hg_claimed_by := None; hg_drain_reason := None |}.

Lemma hot_claim_rule_preserved_witness :
  validate_claim idle_guest = true /\
  (forall g', ensure_claimed 3000 "id" idle_guest = Ok g' ->
     validate_claim g' = true /\ hg_claimed_by idle_guest = None /\ hg_claimed_by g' = Some "id").
Proof. split; [reflexivity|]. apply hot_claim_rule_preserved. reflexivity. Defined.

(** Along any sequence of record operations the machine's identity,
    profile, lane, size, source and boot time never change, its phase never
    moves back, and an evicted record stays evicted. *)
Theorem hot_guest_lifecycle g g' :
  rtc hot_step g g' ->
  hg_vm_name g' = hg_vm_name g /\ hg_profile g' = hg_profile g /\
  hg_lane g' = hg_lane g /\ hg_size g' = hg_size g /\ hg_source g' = hg_source g /\
  hg_booted_at_unix g' = hg_booted_at_unix g /\
  hot_phase (hg_state g) <= hot_phase (hg_state g') /\
  (hg_state g = Evicted -> hg_state g' = Evicted).
Proof.
  induction 1 as [g|g1 g2 g3 Hs _ IH]; [repeat split; done || lia|].
  pose proof (hot_step_phase _ _ Hs) as Hp.
  pose proof (hot_step_identity _ _ Hs) as (? & ? & ? & ? & ? & ? & _).
  destruct IH as (? & ? & ? & ? & ? & ? & ? & He). repeat split; try congruence; [lia|].
  intros Hev. apply He. rewrite Hev in Hp. simpl in Hp. destruct (hg_state g2); simpl in *; done || lia.
Qed.

Lemma hot_guest_lifecycle_witness :
  hot_phase (hg_state idle_guest) <= hot_phase Evicted.
Proof.
  refine (proj1 (proj2 (proj2 (proj2 (proj2 (proj2 (proj2
    (hot_guest_lifecycle idle_guest
      (idle_guest <| hg_state := Evicted |> <| hg_updated_at_unix := 9 |>) _)))))))).
  apply rtc_once. apply (hot_step_state 9 Evicted). reflexivity.
Defined.
