(* ===== verification/Allocation.v ===== *)
(** * Allocations ([crates/flanforge-core/src/allocation/{state,model}.rs])

    The allocation record, its lifecycle state machine and every setter, with
    the timestamps they write ([now] is the reading of [unix_time()]). *)

From S2P Require Import Prelude Rust Text Identifiers Images Guest Hot.

Open Scope Z_scope.
Open Scope stdpp_scope.

Inductive AllocationState :=
| Requested | Preparing | Booting | Registering | WaitingForJob | Ready | Running
| Cleaning | Completed | Failed | Cancelled.

#[export] Instance AllocationState_eq_dec : EqDecision AllocationState.
Proof. solve_decision. Defined.

Definition is_terminal (s : AllocationState) : bool :=
  match s with Completed | Failed | Cancelled => true | _ => false end.

Definition can_transition_to (s next : AllocationState) : bool :=
  if bool_decide (s = next) then true
  else match s with
       | Requested => match next with Preparing | Cleaning => true | _ => false end
       | Preparing =>
           match next with Booting | Registering | Cleaning => true | _ => false end
       | Booting => match next with Registering | Cleaning => true | _ => false end
       | Registering => match next with WaitingForJob | Cleaning => true | _ => false end
       | WaitingForJob =>
           match next with Ready | Running | Cleaning => true | _ => false end
       | Ready => match next with Running | Cleaning => true | _ => false end
       | Running => match next with Cleaning => true | _ => false end
       | Cleaning => match next with Completed | Failed | Cancelled => true | _ => false end
       | Completed | Failed | Cancelled => false
       end.

Record StateTransitionError := { ste_from : AllocationState; ste_to : AllocationState }.

Record AllocationRequest := {
  rq_profile : ProfileName;
  rq_repository : RepositoryName;
  rq_run_id : Z;       (* u64 *)
  rq_run_attempt : Z;  (* u32 *)
}.

#[export] Instance StateTransitionError_eq_dec : EqDecision StateTransitionError.
Proof. solve_decision. Defined.
#[export] Instance AllocationRequest_eq_dec : EqDecision AllocationRequest.
Proof. solve_decision. Defined.

Definition is_same_attempt (a b : AllocationRequest) : bool :=
  bool_decide (rq_repository a = rq_repository b)
  && (rq_run_id a =? rq_run_id b)
  && (rq_run_attempt a =? rq_run_attempt b)
  && bool_decide (rq_profile a = rq_profile b).

Definition validate_request (r : AllocationRequest) : bool :=
  is_profile_name (rq_profile r) && is_repository_name (rq_repository r)
  && (1 <=? rq_run_id r) && (1 <=? rq_run_attempt r).

Record Allocation := mkAllocation {
  a_id : AllocationId;
  a_request : AllocationRequest;
  a_state : AllocationState;
  a_vm_name : VmName;
  a_runner_label : RunnerLabel;
  a_vm_created : bool;
  a_runner_id : option Z;          (* i64 *)
  a_created_at_unix : Z;           (* u64 *)
  a_updated_at_unix : Z;           (* u64 *)
  a_error : option string;
  a_mode : AllocationMode;
  a_size : option GuestSize;
  a_source : option CloneSource;
  a_origin : AllocationOrigin;
  a_hot_lane : option HotLane;
  a_hot_refusal : option HotRefusal;
  a_hot_age_seconds : option Z;    (* u64 *)
  a_warm_generation : option Z;    (* u64 *)
  a_retention : option RetentionOutcome;
  a_terminal_reason : option TerminalReason;
}.

#[export] Instance Allocation_eta : Eta Allocation := fun a =>
  mkAllocation (a_id a) (a_request a) (a_state a) (a_vm_name a) (a_runner_label a)
    (a_vm_created a) (a_runner_id a) (a_created_at_unix a) (a_updated_at_unix a)
    (a_error a) (a_mode a) (a_size a) (a_source a) (a_origin a) (a_hot_lane a)
    (a_hot_refusal a) (a_hot_age_seconds a) (a_warm_generation a) (a_retention a)
    (a_terminal_reason a).

#[export] Instance Allocation_eq_dec : EqDecision Allocation.
Proof. solve_decision. Defined.

Definition validate_error (value : string) : bool :=
  (len value <=? 512) && negb (any_byte (Ascii.eqb NUL) value).

Definition option_all {A} (p : A -> bool) (o : option A) : bool :=
  match o with Some a => p a | None => true end.

(** The derived [Validate] of [Allocation]. *)
Definition validate_allocation (a : Allocation) : bool :=
  validate_request (a_request a) && is_vm_name (a_vm_name a)
  && is_runner_label (a_runner_label a)
  && positive_option (a_runner_id a) && option_all validate_error (a_error a)
  && option_all validate_size (a_size a) && option_all validate_clone_source (a_source a)
  && validate_origin (a_origin a) && positive_option (a_hot_age_seconds a)
  && positive_option (a_warm_generation a) && option_all validate_retention (a_retention a).

(** [id] is the fresh [AllocationId::new()]. *)
Definition allocation_new (now : Z) (id : AllocationId) (request : AllocationRequest)
    (vm_name : VmName) (runner_label : RunnerLabel) (mode : AllocationMode)
    (size : GuestSize) : Allocation :=
  {| a_id := id; a_request := request; a_state := Requested; a_vm_name := vm_name;
     a_runner_label := runner_label; a_vm_created := false; a_runner_id := None;
     a_created_at_unix := now; a_updated_at_unix := now; a_error := None;
     a_mode := mode; a_size := Some size; a_source := None; a_origin := Cloned;
     a_hot_lane := None; a_hot_refusal := None; a_hot_age_seconds := None;
     a_warm_generation := None; a_retention := None; a_terminal_reason := None |}.

Definition transition (now : Z) (state : AllocationState) (a : Allocation) :
    result StateTransitionError Allocation :=
  if negb (can_transition_to (a_state a) state)
  then Err {| ste_from := a_state a; ste_to := state |}
  else Ok (a <| a_state := state |> <| a_updated_at_unix := now |>).

Definition set_runner_id (now runner_id : Z) (a : Allocation) : Allocation :=
  a <| a_runner_id := Some runner_id |> <| a_updated_at_unix := now |>.

Definition set_vm_created (now : Z) (a : Allocation) : Allocation :=
  a <| a_vm_created := true |> <| a_updated_at_unix := now |>.

Definition set_error (now : Z) (error : string) (a : Allocation) : Allocation :=
  a <| a_error := Some (bounded_text error 512) |> <| a_updated_at_unix := now |>.

Definition set_source (now : Z) (source : CloneSource) (a : Allocation) : Allocation :=
  let a := if bool_decide (cs_kind source = KWarm) then a
           else a <| a_warm_generation := None |> in
  a <| a_source := Some source |> <| a_updated_at_unix := now |>.

Definition set_clone_source (now : Z) (source : CloneSource) (warm_generation : option Z)
    (a : Allocation) : Allocation :=
  a <| a_warm_generation := (if bool_decide (cs_kind source = KWarm)
                             then warm_generation else None) |>
    <| a_source := Some source |> <| a_updated_at_unix := now |>.

Definition set_hot (now : Z) (lane : option HotLane) (origin : AllocationOrigin)
    (source : option CloneSource) (age_seconds : option Z) (a : Allocation) : Allocation :=
  let a := match source with Some source => a <| a_source := Some source |> | None => a end in
  a <| a_origin := origin |> <| a_hot_lane := lane |>
    <| a_hot_age_seconds := age_seconds |> <| a_hot_refusal := None |>
    <| a_updated_at_unix := now |>.

Definition set_hot_refused (now : Z) (refusal : HotRefusal) (a : Allocation) : Allocation :=
  a <| a_hot_lane := None |> <| a_hot_refusal := Some refusal |>
    <| a_updated_at_unix := now |>.

Definition is_hot (a : Allocation) : bool :=
  bool_decide (is_Some (a_hot_lane a)) || is_hot_reuse (a_origin a).

Definition set_retention (now : Z) (outcome : RetentionOutcome) (a : Allocation) : Allocation :=
  a <| a_retention := Some outcome |> <| a_updated_at_unix := now |>.

Definition set_capacity_busy (now : Z) (a : Allocation) : Allocation :=
  a <| a_terminal_reason := Some Capacity |> <| a_updated_at_unix := now |>.

Definition is_capacity_busy (a : Allocation) : bool :=
  bool_decide (a_terminal_reason a = Some Capacity).

Definition is_retention_eligible (a : Allocation) : bool :=
  bool_decide (a_mode a = Regenerate) && a_vm_created a.

(** ** Lemmas *)

Lemma is_same_attempt_spec a b : is_same_attempt a b = true <-> a = b.
Proof.
  unfold is_same_attempt. destruct a, b; simpl.
  rewrite !andb_true_iff, !bool_decide_eq_true, !Z.eqb_eq. naive_solver.
Qed.

Lemma transition_ok now state a a' :
  transition now state a = Ok a' <->
  can_transition_to (a_state a) state = true /\
  a' = a <| a_state := state |> <| a_updated_at_unix := now |>.
Proof. unfold transition. destruct (can_transition_to _ _); simpl; naive_solver. Qed.

Lemma transition_err now state a e :
  transition now state a = Err e <->
  can_transition_to (a_state a) state = false /\ e = {| ste_from := a_state a; ste_to := state |}.
Proof. unfold transition. destruct (can_transition_to _ _); simpl; naive_solver. Qed.

(** The rank of a state along the lifecycle; a move never lowers it and a real
    move raises it. *)
Definition state_rank (s : AllocationState) : Z :=
  match s with
  | Requested => 0 | Preparing => 1 | Booting => 2 | Registering => 3
  | WaitingForJob => 4 | Ready => 5 | Running => 6 | Cleaning => 7
  | Completed | Failed | Cancelled => 8
  end.

Lemma can_transition_rank s next :
  can_transition_to s next = true -> s = next \/ state_rank s < state_rank next.
Proof. destruct s, next; simpl; intros; try discriminate; auto with lia. Qed.

Lemma can_transition_terminal s next :
  is_terminal s = true -> can_transition_to s next = true <-> s = next.
Proof. destruct s, next; simpl; intros; try discriminate; done. Qed.

(** Every state that is not terminal can still be cleaned up, and a cleaned-up
    one can reach each terminal state. *)
Lemma cleaning_reachable s :
  is_terminal s = false -> can_transition_to s Cleaning = true.
Proof. by destruct s. Qed.

Lemma terminal_from_cleaning s :
  is_terminal s = true -> can_transition_to Cleaning s = true.
Proof. by destruct s. Qed.

(** Terminal states are entered from [Cleaning] only. *)
Lemma terminal_entered_from_cleaning s next :
  can_transition_to s next = true -> is_terminal next = true -> s <> next -> s = Cleaning.
Proof. destruct s, next; simpl; intros; done || congruence. Qed.

(** ** Properties *)

(** The lifecycle is monotonic: along any sequence of accepted transitions
    an allocation never returns to an earlier phase, a terminal state is final,
    and every terminal state is entered through [Cleaning]. *)
Theorem allocation_lifecycle_monotonic (path : list AllocationState) (s t : AllocationState) :
  path !! 0%nat = Some s -> last path = Some t ->
  (forall i x y, path !! i = Some x -> path !! S i = Some y -> can_transition_to x y = true) ->
  state_rank s <= state_rank t /\
  (is_terminal s = true -> t = s) /\
  (is_terminal s = false -> is_terminal t = true -> Cleaning ∈ path).
Proof.
  revert s. induction path as [|x path IH]; intros s Hs Ht Hstep; [done|].
  injection Hs as ->. destruct path as [|y path].
  { simpl in Ht. simplify_eq. repeat split; [lia | congruence]. }
  assert (can_transition_to s y = true) as Hsy by (by apply (Hstep 0%nat)).
  destruct (IH y) as (Hr & Hterm & Hc); [done | by rewrite last_cons_cons in Ht | |].
  { intros i. apply (Hstep (S i)). }
  destruct (can_transition_rank _ _ Hsy) as [->|Hlt].
  - repeat split; [done | done |]. intros ? ?. right. auto.
  - assert (s <> y) as Hne by (intros ->; lia). repeat split; [lia | |].
    + intros H. by apply (can_transition_terminal s y) in Hsy.
    + intros Hns Hnt. destruct (is_terminal y) eqn:Hy.
      * rewrite (terminal_entered_from_cleaning s y Hsy Hy Hne). left.
      * right. auto.
Qed.

Lemma allocation_lifecycle_monotonic_witness :
  state_rank Requested <= state_rank Failed /\
  (is_terminal Requested = true -> Failed = Requested) /\
  (is_terminal Requested = false -> is_terminal Failed = true ->
    Cleaning ∈ [Requested; Cleaning; Failed]).
Proof.
  apply allocation_lifecycle_monotonic; [reflexivity | reflexivity |].
  intros [|[|[|i]]] x y; simpl; intros; simplify_eq; reflexivity.
Defined.
