(* ===== verification/Config.v ===== *)
(** * The configuration model
    ([crates/flanforge-core/src/config/model], [crates/flanforge-paths/src])

    Every table of the configuration document as a record, its defaults, and
    the two places where a table is resolved while it is deserialized: the
    runtime table (legacy Tart fields, the manifest directory and the
    per-backend [max_running_vms]) and the guest table (the channel default of
    the backend).

    A [PathBuf] is its text; the [Path] methods the sources use are defined on
    it.  A [Url] is a value of the [url] crate: the record holds what its
    accessors return. *)

From S2P Require Import Prelude Rust Text Identifiers Images Guest Hot.

Open Scope Z_scope.
Open Scope stdpp_scope.

(** ** Paths *)

Abbreviation PathBuf := string (only parsing).

Definition is_absolute (p : PathBuf) : bool := starts_with p "/".

(** [Path::components] on Unix: the root, then the segments between
    separators; a [.] survives only at the start of a relative path. *)
Definition path_components (p : PathBuf) : list string :=
  let segments := split "/" p in
  let kept := List.filter (fun s => negb (is_empty s) && negb (bool_decide (s = "."))) in
  if is_absolute p then "/" :: kept segments
  else match segments with
       | "." :: rest => "." :: kept rest
       | _ => kept segments
       end.

(** [PathBuf] compares by components, [Path::starts_with] too. *)
Definition path_eqb (p q : PathBuf) : bool :=
  bool_decide (path_components p = path_components q).

Definition path_starts_with (p base : PathBuf) : bool :=
  bool_decide (path_components base `prefix_of` path_components p).

(** [Path::join] with a relative segment. *)
Definition join (p segment : PathBuf) : PathBuf :=
  if is_empty p || ends_with p "/" then p +:+ segment else p +:+ "/" +:+ segment.

Definition is_absolute_normalized (p : PathBuf) : bool :=
  is_absolute p
  && negb (contains p "//")
  && negb (existsb (fun c => bool_decide (c = "." \/ c = "..")) (path_components p))
  && negb (existsb (fun s => bool_decide (s = "." \/ s = "..")) (split "/" p)).

Inductive PathError := PathNotAbsolute | PathNotNormalized.

Definition ensure_absolute_normalized (p : PathBuf) : result PathError unit :=
  if negb (is_absolute p) then Err PathNotAbsolute
  else if negb (is_absolute_normalized p) then Err PathNotNormalized
  else Ok tt.

Inductive Platform := Macos | Linux.

Definition default_ssh_path : PathBuf := "/usr/bin/ssh".
Definition default_scp_path : PathBuf := "/usr/bin/scp".
Definition default_tart_path : PathBuf := "/opt/homebrew/bin/tart".
Definition default_runner_host_path (platform : Platform) : PathBuf :=
  match platform with
  | Macos => "~/Library/Application Support/flanforge/bin/forgejo-runner"
  | Linux => "/usr/local/libexec/flanforge/forgejo-runner"
  end.
Definition default_qemu_img_path : PathBuf := "/usr/bin/qemu-img".
Definition default_virsh_path : PathBuf := "/usr/bin/virsh".

Record LibvirtStatePaths := {
  lsp_root : PathBuf;
  lsp_service_instance : PathBuf;
  lsp_allocations : PathBuf;
  lsp_imports : PathBuf;
  lsp_published_bases : PathBuf;
  lsp_warm : PathBuf;
}.

Definition libvirt_state_paths (state_dir : PathBuf) : LibvirtStatePaths :=
  let root := join state_dir "libvirt" in
  {| lsp_root := root;
     lsp_service_instance := join root "service-instance-id";
     lsp_allocations := join root "allocations";
     lsp_imports := join root "imports";
     lsp_published_bases := join root "published-bases";
     lsp_warm := join root "warm" |}.

Definition warm_record_dir (state_dir : PathBuf) : PathBuf := join state_dir "images".

(** ** URLs and socket addresses *)

Record Url := {
  url_serialization : string;
  url_scheme : string;
  url_username : string;
  url_password : option string;
  url_host_str : option string;
  url_path : string;
  url_query : option string;
  url_fragment : option string;
}.

(** [Url] compares by its serialization. *)
Definition url_eqb (a b : Url) : bool :=
  bool_decide (url_serialization a = url_serialization b).

Record SocketAddr := {
  sa_text : string;
  sa_is_loopback : bool;
}.

#[export] Instance SocketAddr_eq_dec : EqDecision SocketAddr.
Proof. solve_decision. Defined.

(** ** Backends *)

Record TartConfig := {
  tart_path : PathBuf;
  tart_home : option PathBuf;
  tart_runner_host_path : option PathBuf;
}.

Definition tart_default : TartConfig :=
  {| tart_path := default_tart_path; tart_home := None; tart_runner_host_path := None |}.

Inductive ImageReimport := Refuse | Supersede.

#[export] Instance ImageReimport_eq_dec : EqDecision ImageReimport.
Proof. solve_decision. Defined.

Record LibvirtConfig := mkLibvirtConfig {
  lv_uri : string;
  lv_pool : string;
  lv_network : string;
  lv_image_manifest_dir : PathBuf;
  lv_qemu_img_path : PathBuf;
  lv_virsh_path : PathBuf;
  lv_min_storage_free_mb : Z;
  lv_warm_capture_timeout_seconds : Z;
  lv_allow_insecure_transport : bool;
  lv_image_import_dir : option PathBuf;
  lv_image_reimport : ImageReimport;
}.

#[export] Instance LibvirtConfig_eta : Eta LibvirtConfig := fun c =>
  mkLibvirtConfig (lv_uri c) (lv_pool c) (lv_network c) (lv_image_manifest_dir c)
    (lv_qemu_img_path c) (lv_virsh_path c) (lv_min_storage_free_mb c)
    (lv_warm_capture_timeout_seconds c) (lv_allow_insecure_transport c)
    (lv_image_import_dir c) (lv_image_reimport c).

Definition LIBVIRT_SYSTEM_URI : string := "qemu:///system".
Definition default_min_storage_free_mb : Z := 32768.
Definition default_warm_capture_timeout_seconds : Z := 1800.

Definition libvirt_default : LibvirtConfig :=
  {| lv_uri := LIBVIRT_SYSTEM_URI; lv_pool := "flanforge"; lv_network := "flanforge-ci";
     lv_image_manifest_dir := ""; lv_qemu_img_path := default_qemu_img_path;
     lv_virsh_path := default_virsh_path;
     lv_min_storage_free_mb := default_min_storage_free_mb;
     lv_warm_capture_timeout_seconds := default_warm_capture_timeout_seconds;
     lv_allow_insecure_transport := false; lv_image_import_dir := None;
     lv_image_reimport := Refuse |}.

Definition is_clear_text_transport (c : LibvirtConfig) : bool :=
  starts_with (lv_uri c) "qemu+tcp://".

Inductive RuntimeBackendConfig :=
| Tart (config : TartConfig)
| Libvirt (config : LibvirtConfig).

Inductive RuntimeBackendKind := TartKind | LibvirtKind.

#[export] Instance RuntimeBackendKind_eq_dec : EqDecision RuntimeBackendKind.
Proof. solve_decision. Defined.

(** [Default] depends on the host the daemon was built for. *)
Definition backend_default (platform : Platform) : RuntimeBackendConfig :=
  match platform with
  | Macos => Tart tart_default
  | Linux => Libvirt libvirt_default
  end.

Definition backend_kind_of (b : RuntimeBackendConfig) : RuntimeBackendKind :=
  match b with Tart _ => TartKind | Libvirt _ => LibvirtKind end.

(** ** The runtime table *)

Record RuntimeConfig := mkRuntimeConfig {
  rt_state_dir : PathBuf;
  rt_backend : RuntimeBackendConfig;
  rt_ssh_path : PathBuf;
  rt_scp_path : PathBuf;
  rt_vm_prefix : VmPrefix;
  rt_max_running_vms : Z;          (* u8 *)
  rt_max_hot_vms : Z;              (* u8 *)
  rt_poll_seconds : Z;
  rt_reap_interval_hours : Z;
  rt_host_cpu_count : option Z;    (* u8 *)
  rt_host_memory_mb : option Z;    (* u32 *)
  rt_host_storage_mb : option Z;   (* u64 *)
}.

#[export] Instance RuntimeConfig_eta : Eta RuntimeConfig := fun c =>
  mkRuntimeConfig (rt_state_dir c) (rt_backend c) (rt_ssh_path c) (rt_scp_path c)
    (rt_vm_prefix c) (rt_max_running_vms c) (rt_max_hot_vms c) (rt_poll_seconds c)
    (rt_reap_interval_hours c) (rt_host_cpu_count c) (rt_host_memory_mb c)
    (rt_host_storage_mb c).

Definition default_max_running_vms : Z := 2.
Definition default_poll_seconds : Z := 2.
Definition default_reap_interval_hours : Z := 168.

(** The document as written, its [serde] defaults already applied. *)
Record RuntimeConfigDocument := {
  rd_state_dir : PathBuf;
  rd_backend : option RuntimeBackendConfig;
  rd_tart_path : option PathBuf;
  rd_ssh_path : PathBuf;
  rd_scp_path : PathBuf;
  rd_forgejo_runner_host_path : option PathBuf;
  rd_vm_prefix : VmPrefix;
  rd_tart_home : option PathBuf;
  rd_max_running_vms : option Z;
  rd_max_hot_vms : option Z;
  rd_poll_seconds : Z;
  rd_reap_interval_hours : Z;
  rd_host_cpu_count : option Z;
  rd_host_memory_mb : option Z;
  rd_host_storage_mb : option Z;
}.

Definition has_legacy_tart (d : RuntimeConfigDocument) : bool :=
  bool_decide (is_Some (rd_tart_path d))
  || bool_decide (is_Some (rd_forgejo_runner_host_path d))
  || bool_decide (is_Some (rd_tart_home d)).

Definition document_backend (platform : Platform) (d : RuntimeConfigDocument) :
    RuntimeBackendConfig :=
  let backend :=
    match rd_backend d with
    | Some backend => backend
    | None =>
        if has_legacy_tart d then
          Tart {| tart_path := default default_tart_path (rd_tart_path d);
                  tart_home := rd_tart_home d;
                  tart_runner_host_path :=
                    Some (default (default_runner_host_path platform)
                            (rd_forgejo_runner_host_path d)) |}
        else backend_default platform
    end in
  match backend with
  | Libvirt c =>
      if is_empty (lv_image_manifest_dir c)
      then Libvirt (c <| lv_image_manifest_dir :=
                           lsp_published_bases (libvirt_state_paths (rd_state_dir d)) |>)
      else Libvirt c
  | Tart c => Tart c
  end.

Definition LEGACY_TART_ERROR : string :=
  "legacy Tart fields cannot be combined with runtime.backend".

(** [RuntimeConfig::deserialize] past the field-by-field parse. *)
Definition runtime_config_resolve (platform : Platform) (d : RuntimeConfigDocument) :
    result string RuntimeConfig :=
  if bool_decide (is_Some (rd_backend d)) && has_legacy_tart d
  then Err LEGACY_TART_ERROR
  else
    let backend := document_backend platform d in
    Ok {| rt_state_dir := rd_state_dir d;
          rt_backend := backend;
          rt_ssh_path := rd_ssh_path d;
          rt_scp_path := rd_scp_path d;
          rt_vm_prefix := rd_vm_prefix d;
          rt_max_running_vms :=
            default (match backend with Tart _ => default_max_running_vms | Libvirt _ => 1 end)
              (rd_max_running_vms d);
          rt_max_hot_vms := default 0 (rd_max_hot_vms d);
          rt_poll_seconds := rd_poll_seconds d;
          rt_reap_interval_hours := rd_reap_interval_hours d;
          rt_host_cpu_count := rd_host_cpu_count d;
          rt_host_memory_mb := rd_host_memory_mb d;
          rt_host_storage_mb := rd_host_storage_mb d |}.

Definition backend_kind (r : RuntimeConfig) : RuntimeBackendKind := backend_kind_of (rt_backend r).

Definition libvirt (r : RuntimeConfig) : option LibvirtConfig :=
  match rt_backend r with Tart _ => None | Libvirt config => Some config end.

Definition tart (r : RuntimeConfig) : option TartConfig :=
  match rt_backend r with Tart config => Some config | Libvirt _ => None end.

(** ** The guest table *)

Inductive GuestChannelKind := Ssh | Agent.

#[export] Instance GuestChannelKind_eq_dec : EqDecision GuestChannelKind.
Proof. solve_decision. Defined.

Definition for_backend (backend : RuntimeBackendConfig) : GuestChannelKind :=
  match backend with
  | Tart _ => Ssh
  | Libvirt c => if is_clear_text_transport c then Ssh else Agent
  end.

Record GuestSshConfig := mkGuestSshConfig {
  ssh_identity_file : PathBuf;
  ssh_privileged_identity_file : option PathBuf;
  ssh_known_hosts_file : option PathBuf;
  ssh_host_key_alias : option string;
  ssh_connect_timeout_seconds : Z;
  ssh_verify_host_key : bool;
}.

#[export] Instance GuestSshConfig_eta : Eta GuestSshConfig := fun c =>
  mkGuestSshConfig (ssh_identity_file c) (ssh_privileged_identity_file c)
    (ssh_known_hosts_file c) (ssh_host_key_alias c) (ssh_connect_timeout_seconds c)
    (ssh_verify_host_key c).

Record GuestConfig := mkGuestConfig {
  gc_channel : GuestChannelKind;
  gc_runner_user : string;
  gc_privileged_user : string;
  gc_forgejo_runner_path : PathBuf;
  gc_ssh : option GuestSshConfig;
}.

#[export] Instance GuestConfig_eta : Eta GuestConfig := fun c =>
  mkGuestConfig (gc_channel c) (gc_runner_user c) (gc_privileged_user c)
    (gc_forgejo_runner_path c) (gc_ssh c).

Record GuestDocument := {
  gd_channel : option GuestChannelKind;
  gd_runner_user : string;
  gd_privileged_user : string;
  gd_forgejo_runner_path : PathBuf;
  gd_ssh : option GuestSshConfig;
}.

Definition default_privileged_user : string := "prunner".
Definition default_connect_timeout_seconds : Z := 5.
Definition default_verify_host_key : bool := true.

Definition guest_resolve (d : GuestDocument) (backend : RuntimeBackendConfig) : GuestConfig :=
  {| gc_channel := default (for_backend backend) (gd_channel d);
     gc_runner_user := gd_runner_user d;
     gc_privileged_user := gd_privileged_user d;
     gc_forgejo_runner_path := gd_forgejo_runner_path d;
     gc_ssh := gd_ssh d |}.

(** ** Profiles *)

Inductive SimulatorReset := ResetNone | ResetApps | ResetErase.

#[export] Instance SimulatorReset_eq_dec : EqDecision SimulatorReset.
Proof. solve_decision. Defined.

Record HotConfig := {
  hc_enabled : bool;
  hc_lanes : HotLanePolicy;
  hc_max_idle : Z;               (* u8 *)
  hc_max_lifetime_seconds : Z;   (* u64 *)
  hc_max_jobs : Z;               (* u32 *)
  hc_idle_ttl_seconds : Z;       (* u64 *)
  hc_reset_timeout_seconds : Z;  (* u64 *)
  hc_simulator_reset : SimulatorReset;
}.

#[export] Instance HotConfig_eq_dec : EqDecision HotConfig.
Proof. solve_decision. Defined.

Definition hot_config_default : HotConfig :=
  {| hc_enabled := false; hc_lanes := LanesProtected; hc_max_idle := 1;
     hc_max_lifetime_seconds := 14400; hc_max_jobs := 20; hc_idle_ttl_seconds := 900;
     hc_reset_timeout_seconds := 120; hc_simulator_reset := ResetApps |}.

Inductive NetworkMode := NetworkDefault | Softnet.

#[export] Instance NetworkMode_eq_dec : EqDecision NetworkMode.
Proof. solve_decision. Defined.

Record Profile := mkProfile {
  p_repository : RepositoryName;
  p_template : VmName;
  p_runner_label : RunnerLabel;
  p_job_name : string;
  p_allowed_workflows : gset string;
  p_allowed_events : gset string;
  p_allowed_refs : gset string;
  p_require_protected_ref : bool;
  p_network : NetworkMode;
  p_cpu_count : Z;                (* u8 *)
  p_memory_mb : Z;                (* u32 *)
  p_storage_mb : Z;               (* u64 *)
  p_boot_timeout_seconds : Z;
  p_idle_timeout_seconds : Z;
  p_job_timeout_seconds : Z;
  p_cleanup_timeout_seconds : Z;
  p_warm_template : option VmName;
  p_regeneration_workflow : option string;
  p_hot : option HotConfig;
  p_reap : bool;
}.

#[export] Instance Profile_eta : Eta Profile := fun p =>
  mkProfile (p_repository p) (p_template p) (p_runner_label p) (p_job_name p)
    (p_allowed_workflows p) (p_allowed_events p) (p_allowed_refs p)
    (p_require_protected_ref p) (p_network p) (p_cpu_count p) (p_memory_mb p)
    (p_storage_mb p) (p_boot_timeout_seconds p) (p_idle_timeout_seconds p)
    (p_job_timeout_seconds p) (p_cleanup_timeout_seconds p) (p_warm_template p)
    (p_regeneration_workflow p) (p_hot p) (p_reap p).

Definition default_reap : bool := true.
Definition default_profile_storage_mb : Z := 40960.

(** ** The remaining tables *)

Record TailscaleConfig := {
  ts_enabled : bool;
  ts_preauth_key_file : option PathBuf;
  ts_login_server : option Url;
  ts_hostname : option string;
  ts_extra_args : string;
}.

Record WebuiOidcConfig := {
  wo_enabled : bool;
  wo_issuer : option Url;
  wo_client_id : option string;
  wo_client_secret_file : option PathBuf;
  wo_redirect_url : option Url;
  wo_scopes : list string;
}.

Definition webui_oidc_default : WebuiOidcConfig :=
  {| wo_enabled := false; wo_issuer := None; wo_client_id := None;
     wo_client_secret_file := None; wo_redirect_url := None;
     wo_scopes := ["openid"; "profile"; "email"] |}.

Record WebuiConfig := {
  wu_enabled : bool;
  wu_public_read_only : bool;
  wu_session_ttl_seconds : Z;
  wu_request_body_limit_bytes : Z;
  wu_dev_dist_dir : option PathBuf;
  wu_authdb_enabled : bool;
  wu_oidc : WebuiOidcConfig;
}.

Definition webui_default : WebuiConfig :=
  {| wu_enabled := true; wu_public_read_only := false; wu_session_ttl_seconds := 604800;
     wu_request_body_limit_bytes := 65536; wu_dev_dist_dir := None;
     wu_authdb_enabled := true; wu_oidc := webui_oidc_default |}.

Record LoggingConfig := { lg_level : string; lg_path : option PathBuf }.
Definition logging_default : LoggingConfig := {| lg_level := "info"; lg_path := None |}.

Record ServerConfig := {
  sv_listen : SocketAddr;
  sv_request_body_limit_bytes : Z;
  sv_allocation_wait_seconds : Z;
  sv_shutdown_grace_seconds : Z;
}.

Definition server_default : ServerConfig :=
  {| sv_listen := {| sa_text := "127.0.0.1:9843"; sa_is_loopback := true |};
     sv_request_body_limit_bytes := 4096; sv_allocation_wait_seconds := 600;
     sv_shutdown_grace_seconds := 30 |}.

Record OidcConfig := {
  oi_issuer : Url;
  oi_audience : string;
  oi_jwks_url : Url;
  oi_jwks_cache_seconds : Z;
  oi_clock_skew_seconds : Z;
}.

Record ForgejoConfig := {
  fj_api_url : Url;
  fj_api_token_file : PathBuf;
  fj_http_timeout_seconds : Z;
}.

Record DbConfig := { db_path : option PathBuf }.

Record Config := mkConfig {
  c_logging : LoggingConfig;
  c_server : ServerConfig;
  c_db : DbConfig;
  c_webui : WebuiConfig;
  c_oidc : OidcConfig;
  c_forgejo : ForgejoConfig;
  c_runtime : RuntimeConfig;
  c_guest : GuestConfig;
  c_tailscale : TailscaleConfig;
  c_profiles : gmap string Profile;
}.

#[export] Instance Config_eta : Eta Config := fun c =>
  mkConfig (c_logging c) (c_server c) (c_db c) (c_webui c) (c_oidc c) (c_forgejo c)
    (c_runtime c) (c_guest c) (c_tailscale c) (c_profiles c).

(** ** Lemmas *)

(** A resolved default channel is never the agent over clear text. *)
Lemma for_backend_not_clear_text c :
  for_backend (Libvirt c) = Agent -> is_clear_text_transport c = false.
Proof. simpl. by destruct (is_clear_text_transport c). Qed.
