(* ===== verification/ConfigValidate.v ===== *)
(** * Configuration validation
    ([crates/flanforge-core/src/config/{validate,runtime,profile,images,hot,
      guest,tailscale,webui,logging,db,libvirt}.rs])

    [ensure_valid] and every check it runs, in the order it runs them, with
    the error each one reports.  [shell_words::split] is the only third-party
    code involved and is a parameter. *)

From S2P Require Import Prelude Rust Text Identifiers Images Guest Hot Config.

Open Scope Z_scope.
Open Scope stdpp_scope.

Inductive ConfigError :=
| NoProfiles
| OutOfRange (field : string)
| InvalidPath (field : string)
| InsecureUrl (field : string)
| InvalidForgejoApiUrl
| UnsafeValue (field : string)
| InvalidProfile (profile message : string)
| DuplicateRunnerLabel
| MissingTailscaleSetting (field : string)
| MissingGuestSetting (field : string)
| MissingGuestTable (table : string) (backend : RuntimeBackendKind) (channel : GuestChannelKind)
| InsecureGuestChannelTransport
| MissingRuntimeSetting (field : string)
| UnsupportedBackendCapability (backend capability : string) (profile : option string)
| InvalidTailscaleArguments
| MissingWebuiOidcSetting (field : string)
| InvalidWebuiRedirectUrl.

#[export] Instance ConfigError_eq_dec : EqDecision ConfigError.
Proof. solve_decision. Defined.

Abbreviation check := (result ConfigError unit) (only parsing).

(** ** Field checks *)

Definition ensure_range (field : string) (value min max : Z) : check :=
  if in_range min max value then Ok tt else Err (OutOfRange field).

Definition is_quotable_byte (byte : ascii) : bool :=
  negb (is_ascii_control byte)
  && negb (Ascii.eqb byte (ascii_of_nat 34)) && negb (Ascii.eqb byte "\"%char).

Definition ensure_path (field : string) (path : PathBuf) : check :=
  let is_safe_text :=
    negb (is_empty path) && (len path <=? 1024) && all_bytes is_quotable_byte path in
  if negb is_safe_text || negb (is_ok (ensure_absolute_normalized path))
  then Err (InvalidPath field) else Ok tt.

Definition ensure_url (field : string) (url : Url) : check :=
  let is_loopback_http :=
    bool_decide (url_scheme url = "http")
    && match url_host_str url with
       | Some host => bool_decide (host = "localhost" \/ host = "127.0.0.1" \/ host = "::1")
       | None => false
       end in
  if negb (bool_decide (url_scheme url = "https")) && negb is_loopback_http
  then Err (InsecureUrl field)
  else if negb (bool_decide (url_username url = "")) || bool_decide (is_Some (url_password url))
          || bool_decide (is_Some (url_fragment url))
  then Err (UnsafeValue field)
  else Ok tt.

Definition ensure_safe_text (field value : string) (min max : Z) : check :=
  if negb (in_range min max (len value)) || any_byte is_ascii_control value
  then Err (UnsafeValue field) else Ok tt.

Definition ensure_safe_name (field value : string) (min max : Z) : check :=
  if negb (in_range min max (len value))
     || negb (first_byte is_ascii_alphanumeric value)
     || negb (all_bytes is_name_byte value)
     || contains value ".."
  then Err (UnsafeValue field) else Ok tt.

(** [if let Some(x) = o { f(x)? }]. *)
Definition when_some {A} (o : option A) (f : A -> check) : check :=
  match o with Some a => f a | None => Ok tt end.

(** ** Logging, database, web UI *)

(** The UTF-8 encodings of the characters [str::trim] removes: Unicode
    [White_Space]. *)
Definition white_space : list (list ascii) :=
  map (map ascii_of_nat)
    ([[9]; [10]; [11]; [12]; [13]; [32]; [194; 133]; [194; 160]; [225; 154; 128];
      [226; 128; 128]; [226; 128; 129]; [226; 128; 130]; [226; 128; 131]; [226; 128; 132];
      [226; 128; 133]; [226; 128; 134]; [226; 128; 135]; [226; 128; 136]; [226; 128; 137];
      [226; 128; 138]; [226; 128; 168]; [226; 128; 169]; [226; 128; 175];
      [226; 129; 159]; [227; 128; 128]])%nat.

Fixpoint trim_bytes (fuel : nat) (spaces : list (list ascii)) (l : list ascii) : list ascii :=
  match fuel with
  | O => l
  | S fuel =>
      match List.find (fun w => bool_decide (w `prefix_of` l)) spaces with
      | Some w => trim_bytes fuel spaces (drop (Datatypes.length w) l)
      | None => l
      end
  end.

Definition trim (s : string) : string :=
  let start l := trim_bytes (Datatypes.length l) white_space l in
  let finish l := reverse (trim_bytes (Datatypes.length l) (map reverse white_space) (reverse l)) in
  text (finish (start (bytes s))).

Definition LOG_LEVELS : list string := ["trace"; "debug"; "info"; "warn"; "error"; "off"].

Definition ensure_logging_valid (logging : LoggingConfig) : check :=
  if negb (bool_decide (to_ascii_lowercase (trim (lg_level logging)) ∈ LOG_LEVELS))
  then Err (UnsafeValue "logging.level")
  else when_some (lg_path logging) (ensure_path "logging.path").

Definition ensure_db_valid (db : DbConfig) : check :=
  when_some (db_path db) (ensure_path "db.db_path").

Definition WEBUI_OIDC_CALLBACK_PATH : string := "/api/v1/oidc/callback".

Definition ensure_client_id (client_id : string) : check :=
  if is_empty client_id || (256 <? len client_id)
     || negb (all_bytes is_ascii_graphic client_id)
  then Err (UnsafeValue "webui.oidc.client_id") else Ok tt.

Definition ensure_scopes (scopes : list string) : check :=
  if bool_decide (scopes = []) || (16 <? Z.of_nat (Datatypes.length scopes))
     || existsb (fun scope => is_empty scope || (64 <? len scope)
                              || negb (all_bytes is_ascii_graphic scope)) scopes
  then Err (UnsafeValue "webui.oidc.scopes") else Ok tt.

Definition ensure_redirect_url (redirect_url : Url) : check :=
  _ ← ensure_url "webui.oidc.redirect_url" redirect_url;
  if negb (bool_decide (url_path redirect_url = WEBUI_OIDC_CALLBACK_PATH))
     || bool_decide (is_Some (url_query redirect_url))
  then Err InvalidWebuiRedirectUrl else Ok tt.

Definition is_none {A} (o : option A) : bool := match o with None => true | Some _ => false end.

Definition ensure_webui_oidc_valid (oidc : WebuiOidcConfig) : check :=
  _ ← when_some (wo_issuer oidc) (ensure_url "webui.oidc.issuer");
  _ ← when_some (wo_client_id oidc) ensure_client_id;
  _ ← when_some (wo_client_secret_file oidc) (ensure_path "webui.oidc.client_secret_file");
  _ ← when_some (wo_redirect_url oidc) ensure_redirect_url;
  _ ← ensure_scopes (wo_scopes oidc);
  if wo_enabled oidc then
    _ ← try_for_each (fun entry : string * bool =>
          if entry.2 then Err (MissingWebuiOidcSetting entry.1) else Ok tt)
        [ ("issuer", is_none (wo_issuer oidc));
          ("client_id", is_none (wo_client_id oidc));
          ("client_secret_file", is_none (wo_client_secret_file oidc));
          ("redirect_url", is_none (wo_redirect_url oidc)) ];
    if negb (bool_decide ("openid" ∈ wo_scopes oidc))
    then Err (UnsafeValue "webui.oidc.scopes") else Ok tt
  else Ok tt.

Definition ensure_webui_valid (webui : WebuiConfig) : check :=
  _ ← ensure_range "webui.session_ttl_seconds" (wu_session_ttl_seconds webui) 300 31536000;
  _ ← ensure_range "webui.request_body_limit_bytes" (wu_request_body_limit_bytes webui)
        4096 1048576;
  _ ← when_some (wu_dev_dist_dir webui) (ensure_path "webui.dev_dist_dir");
  ensure_webui_oidc_valid (wu_oidc webui).

(** ** Server and endpoints *)

Definition ensure_server_valid (c : Config) : check :=
  let server := c_server c in
  _ ← ensure_range "server.request_body_limit_bytes" (sv_request_body_limit_bytes server)
        512 65536;
  _ ← ensure_range "server.allocation_wait_seconds" (sv_allocation_wait_seconds server) 5 1800;
  _ ← ensure_range "server.shutdown_grace_seconds" (sv_shutdown_grace_seconds server) 1 300;
  Ok tt.

Definition ensure_endpoints_valid (c : Config) : check :=
  _ ← ensure_url "oidc.issuer" (oi_issuer (c_oidc c));
  _ ← ensure_url "oidc.jwks_url" (oi_jwks_url (c_oidc c));
  _ ← ensure_url "forgejo.api_url" (fj_api_url (c_forgejo c));
  if negb (ends_with (url_path (fj_api_url (c_forgejo c))) "/api/v1/")
  then Err InvalidForgejoApiUrl
  else
    _ ← ensure_safe_text "oidc.audience" (oi_audience (c_oidc c)) 1 256;
    _ ← ensure_range "oidc.jwks_cache_seconds" (oi_jwks_cache_seconds (c_oidc c)) 30 86400;
    _ ← ensure_range "oidc.clock_skew_seconds" (oi_clock_skew_seconds (c_oidc c)) 0 300;
    _ ← ensure_range "forgejo.http_timeout_seconds" (fj_http_timeout_seconds (c_forgejo c))
          1 120;
    ensure_path "forgejo.api_token_file" (fj_api_token_file (c_forgejo c)).

(** ** Runtime *)

Definition LIBVIRT_CLEANUP_PARENT_SLACK_SECONDS : Z := 5.
Definition LIBVIRT_MIN_CLEANUP_TIMEOUT_SECONDS : Z := LIBVIRT_CLEANUP_PARENT_SLACK_SECONDS + 1.

Definition paths_overlap (left right : PathBuf) : bool :=
  path_starts_with left right || path_starts_with right left.

Definition ensure_tart_valid (tart : TartConfig) : check :=
  _ ← ensure_path "runtime.backend.path" (tart_path tart);
  _ ← when_some (tart_runner_host_path tart) (ensure_path "runtime.backend.runner_host_path");
  _ ← when_some (tart_home tart) (ensure_path "runtime.backend.home");
  Ok tt.

Definition ensure_import_dir (runtime : RuntimeConfig) (libvirt : LibvirtConfig)
    (import_dir : PathBuf) : check :=
  _ ← ensure_path "runtime.backend.image_import_dir" import_dir;
  if paths_overlap import_dir (rt_state_dir runtime)
     || paths_overlap import_dir (lv_image_manifest_dir libvirt)
  then Err (UnsafeValue "runtime.backend.image_import_dir") else Ok tt.

Definition ensure_libvirt_profile (entry : string * Profile) : check :=
  let '(name, profile) := entry in
  if p_cleanup_timeout_seconds profile <? LIBVIRT_MIN_CLEANUP_TIMEOUT_SECONDS
  then Err (InvalidProfile name
              "libvirt cleanup timeout cannot reserve helper completion slack")
  else if bool_decide (p_network profile = Softnet)
  then Err (UnsupportedBackendCapability "libvirt" "softnet networking" (Some name))
  else Ok tt.

Definition reserved_state_paths (state_dir : PathBuf) : list PathBuf :=
  let state := libvirt_state_paths state_dir in
  [ lsp_allocations state; lsp_imports state; lsp_service_instance state; lsp_warm state;
    warm_record_dir state_dir ].

Definition ensure_libvirt_valid (c : Config) (libvirt : LibvirtConfig) : check :=
  let runtime := c_runtime c in
  _ ← ensure (is_supported_libvirt_uri (lv_uri libvirt) (lv_allow_insecure_transport libvirt))
        (UnsafeValue "runtime.backend.uri");
  _ ← ensure_safe_name "runtime.backend.pool" (lv_pool libvirt) 1 80;
  _ ← ensure_safe_name "runtime.backend.network" (lv_network libvirt) 1 80;
  _ ← ensure_path "runtime.backend.image_manifest_dir" (lv_image_manifest_dir libvirt);
  _ ← try_for_each (fun reserved =>
        if paths_overlap (lv_image_manifest_dir libvirt) reserved
        then Err (UnsafeValue "runtime.backend.image_manifest_dir") else Ok tt)
      (reserved_state_paths (rt_state_dir runtime));
  _ ← when_some (lv_image_import_dir libvirt) (ensure_import_dir runtime libvirt);
  _ ← ensure_path "runtime.backend.qemu_img_path" (lv_qemu_img_path libvirt);
  _ ← ensure_path "runtime.backend.virsh_path" (lv_virsh_path libvirt);
  _ ← ensure_range "runtime.backend.min_storage_free_mb" (lv_min_storage_free_mb libvirt)
        1024 16777216;
  _ ← ensure_range "runtime.backend.warm_capture_timeout_seconds"
        (lv_warm_capture_timeout_seconds libvirt) 60 7200;
  try_for_each ensure_libvirt_profile (btree_list (c_profiles c)).

Definition ensure_backend_valid (c : Config) : check :=
  match rt_backend (c_runtime c) with
  | Tart tart => ensure_tart_valid tart
  | Libvirt libvirt => ensure_libvirt_valid c libvirt
  end.

Definition HOST_BUDGET_MESSAGE : string :=
  "profile is larger than the host budget and can never be admitted".
Definition STORAGE_RESERVE_MESSAGE : string :=
  "profile plus the storage reserve is larger than the host budget and can never be admitted".

(** [profile.storage_mb.checked_add(min_free).is_none_or(required > available)]. *)
Definition exceeds_reserved_storage (runtime : RuntimeConfig) (profile : Profile) : bool :=
  match libvirt runtime with
  | None => false
  | Some lv =>
      let required := p_storage_mb profile + lv_min_storage_free_mb lv in
      if u64_max <? required then true
      else match rt_host_storage_mb runtime with
           | None => true
           | Some available => available <? required
           end
  end.

Definition ensure_profile_fits (runtime : RuntimeConfig) (cpu_count memory_mb : Z)
    (entry : string * Profile) : check :=
  let '(name, profile) := entry in
  if (cpu_count <? p_cpu_count profile) || (memory_mb <? p_memory_mb profile)
     || match rt_host_storage_mb runtime with
        | Some host => host <? p_storage_mb profile
        | None => false
        end
  then Err (InvalidProfile name HOST_BUDGET_MESSAGE)
  else if exceeds_reserved_storage runtime profile
  then Err (InvalidProfile name STORAGE_RESERVE_MESSAGE)
  else Ok tt.

Definition ensure_host_budget_valid (c : Config) : check :=
  let runtime := c_runtime c in
  let is_libvirt := negb (is_none (libvirt runtime)) in
  if is_none (rt_host_cpu_count runtime) && is_none (rt_host_memory_mb runtime)
     && is_none (rt_host_storage_mb runtime) && negb is_libvirt
  then Ok tt
  else if negb (bool_decide (is_none (rt_host_cpu_count runtime)
                             = is_none (rt_host_memory_mb runtime)))
  then Err (OutOfRange (if is_none (rt_host_cpu_count runtime)
                        then "runtime.host_memory_mb" else "runtime.host_cpu_count"))
  else
    cpu_count ← ok_or (rt_host_cpu_count runtime) (OutOfRange "runtime.host_cpu_count");
    memory_mb ← ok_or (rt_host_memory_mb runtime) (OutOfRange "runtime.host_memory_mb");
    if is_libvirt && is_none (rt_host_storage_mb runtime)
    then Err (OutOfRange "runtime.host_storage_mb")
    else
      _ ← ensure_range "runtime.host_cpu_count" cpu_count 1 255;
      _ ← ensure_range "runtime.host_memory_mb" memory_mb 2048 1048576;
      _ ← when_some (rt_host_storage_mb runtime) (fun storage_mb =>
            ensure_range "runtime.host_storage_mb" storage_mb 16384 16777216);
      _ ← try_for_each (ensure_profile_fits runtime cpu_count memory_mb)
            (btree_list (c_profiles c));
      when_some (libvirt runtime) (fun lv =>
        if default 0 (rt_host_storage_mb runtime) <=? lv_min_storage_free_mb lv
        then Err (OutOfRange "runtime.backend.min_storage_free_mb") else Ok tt).

(** [profiles.values().any(|profile| profile.warm_template.is_some())]. *)
Definition any_warm_template (c : Config) : bool :=
  existsb (fun entry => negb (is_none (p_warm_template entry.2))) (btree_list (c_profiles c)).

Definition ensure_tart_home_present (c : Config) : check :=
  if match tart (c_runtime c) with Some t => is_none (tart_home t) | None => false end
     && any_warm_template c
  then Err (MissingRuntimeSetting "backend.home") else Ok tt.

Definition ensure_libvirt_warm_valid (c : Config) : check :=
  if negb (is_none (libvirt (c_runtime c))) && (rt_reap_interval_hours (c_runtime c) =? 0)
     && any_warm_template c
  then Err (MissingRuntimeSetting "reap_interval_hours") else Ok tt.

Definition ensure_runtime_valid (c : Config) : check :=
  let runtime := c_runtime c in
  _ ← ensure_path "runtime.state_dir" (rt_state_dir runtime);
  _ ← ensure_path "runtime.ssh_path" (rt_ssh_path runtime);
  _ ← ensure_path "runtime.scp_path" (rt_scp_path runtime);
  _ ← ensure_backend_valid c;
  _ ← map_err (fun _ => UnsafeValue "runtime.vm_prefix")
        (vm_prefix_ensure_valid (rt_vm_prefix runtime));
  _ ← ensure_range "runtime.max_running_vms" (rt_max_running_vms runtime) 1 255;
  _ ← ensure_range "runtime.poll_seconds" (rt_poll_seconds runtime) 1 30;
  _ ← (if negb (rt_reap_interval_hours runtime =? 0)
       then ensure_range "runtime.reap_interval_hours" (rt_reap_interval_hours runtime) 1 8760
       else Ok tt);
  _ ← ensure_host_budget_valid c;
  _ ← ensure_tart_home_present c;
  ensure_libvirt_warm_valid c.

(** ** Guest *)

Definition ensure_allocation_pinning_valid (ssh : GuestSshConfig) : check :=
  if negb (ssh_verify_host_key ssh)
  then Err (UnsafeValue "guest.ssh.verify_host_key")
  else if negb (is_none (ssh_known_hosts_file ssh)) || negb (is_none (ssh_host_key_alias ssh))
  then Err (UnsafeValue "guest allocation host-key anchor")
  else Ok tt.

Definition ensure_host_key_pinning_valid (ssh : GuestSshConfig) : check :=
  if negb (ssh_verify_host_key ssh) then Ok tt
  else
    alias ← ok_or (ssh_host_key_alias ssh) (MissingGuestSetting "host_key_alias");
    _ ← ensure_safe_name "guest.ssh.host_key_alias" alias 1 128;
    known_hosts ← ok_or (ssh_known_hosts_file ssh) (MissingGuestSetting "known_hosts_file");
    ensure_path "guest.ssh.known_hosts_file" known_hosts.

Definition ensure_ssh_valid (backend : RuntimeBackendKind) (ssh : GuestSshConfig) : check :=
  _ ← ensure_path "guest.ssh.identity_file" (ssh_identity_file ssh);
  _ ← ensure_range "guest.ssh.connect_timeout_seconds" (ssh_connect_timeout_seconds ssh) 1 60;
  match backend with
  | TartKind => ensure_host_key_pinning_valid ssh
  | LibvirtKind => ensure_allocation_pinning_valid ssh
  end.

Definition ensure_channel_supported (c : Config) : check :=
  match gc_channel (c_guest c) with
  | Ssh => Ok tt
  | Agent =>
      match rt_backend (c_runtime c) with
      | Tart _ =>
          Err (UnsupportedBackendCapability "tart" "the QEMU guest agent channel" None)
      | Libvirt lv =>
          if is_clear_text_transport lv then Err InsecureGuestChannelTransport else Ok tt
      end
  end.

Definition ensure_guest_valid (c : Config) : check :=
  let guest := c_guest c in
  _ ← ensure_safe_name "guest.runner_user" (gc_runner_user guest) 1 64;
  _ ← ensure_safe_name "guest.privileged_user" (gc_privileged_user guest) 1 64;
  if bool_decide (gc_privileged_user guest = "root")
     || bool_decide (gc_privileged_user guest = gc_runner_user guest)
  then Err (UnsafeValue "guest.privileged_user")
  else
    _ ← ensure_path "guest.forgejo_runner_path" (gc_forgejo_runner_path guest);
    _ ← ensure_channel_supported c;
    let backend := backend_kind (c_runtime c) in
    match gc_ssh guest, gc_channel guest with
    | Some ssh, _ => ensure_ssh_valid backend ssh
    | None, Agent => Ok tt
    | None, Ssh => Err (MissingGuestTable "guest.ssh" backend Ssh)
    end.

(** ** Tailscale *)

Definition RESERVED_ARGUMENTS : list string :=
  ["auth-key"; "authkey"; "login-server"; "operator"; "hostname"].

Definition is_reserved_argument (argument : string) : bool :=
  let option :=
    match strip_prefix argument "--" with
    | Some o => Some o
    | None => strip_prefix argument "-"
    end in
  match option with
  | None => false
  | Some option =>
      let name := match split_once "=" option with Some (name, _) => name | None => option end in
      bool_decide (name ∈ RESERVED_ARGUMENTS)
  end.

Definition last_byte (p : ascii -> bool) (s : string) : bool :=
  match last (bytes s) with Some c => p c | None => false end.

Definition ensure_hostname (value : string) : check :=
  if (253 <? len value)
     || existsb (fun segment =>
          is_empty segment || (63 <? len segment)
          || negb (first_byte is_ascii_alphanumeric segment)
          || negb (last_byte is_ascii_alphanumeric segment)
          || negb (all_bytes (fun b => is_ascii_alphanumeric b || one_of "-" b) segment))
        (split "." value)
  then Err (UnsafeValue "tailscale.hostname") else Ok tt.

Section tailscale.
(** [shell_words::split]: the words of a command line, or an error for
    malformed quoting. *)
Context (shell_words_split : string -> option (list string)).

Definition extra_arguments (ts : TailscaleConfig) : result ConfigError (list string) :=
  if (4096 <? len (ts_extra_args ts)) || any_byte is_ascii_control (ts_extra_args ts)
  then Err InvalidTailscaleArguments
  else
    arguments ← ok_or (shell_words_split (ts_extra_args ts)) InvalidTailscaleArguments;
    if (64 <? Z.of_nat (Datatypes.length arguments))
       || existsb (fun argument => (512 <? len argument)
                     || any_byte is_ascii_control argument || is_reserved_argument argument)
            arguments
    then Err InvalidTailscaleArguments
    else Ok arguments.

Definition ensure_login_server (login_server : Url) : check :=
  _ ← ensure_url "tailscale.login_server" login_server;
  if bool_decide (is_Some (url_query login_server))
  then Err (UnsafeValue "tailscale.login_server") else Ok tt.

Definition ensure_tailscale_valid (ts : TailscaleConfig) : check :=
  _ ← when_some (ts_preauth_key_file ts) (ensure_path "tailscale.preauth_key_file");
  _ ← when_some (ts_login_server ts) ensure_login_server;
  _ ← when_some (ts_hostname ts) ensure_hostname;
  _ ← extra_arguments ts;
  if ts_enabled ts then
    if is_none (ts_preauth_key_file ts)
    then Err (MissingTailscaleSetting "preauth_key_file")
    else if is_none (ts_login_server ts)
    then Err (MissingTailscaleSetting "login_server")
    else Ok tt
  else Ok tt.
End tailscale.

(** ** Profiles *)

Definition RESERVED_SUFFIX_LEN : Z := len PREVIOUS_SUFFIX.
Definition RUNNER_LABEL_MAX_LEN : Z := 64.
Definition VM_NAME_MAX_LEN : Z := 80.

Definition is_workflow_byte (wildcards : bool) (byte : ascii) : bool :=
  is_ascii_alphanumeric byte || one_of "-_." byte || (wildcards && one_of "*?" byte).

Definition is_safe_workflow_shape (value : string) (wildcards : bool) : bool :=
  negb (is_empty value) && negb (any_byte (Ascii.eqb "/"%char) value)
  && (len value <=? 128) && all_bytes (is_workflow_byte wildcards) value.

Definition is_safe_workflow (value : string) : bool := is_safe_workflow_shape value false.
Definition is_safe_workflow_pattern (value : string) : bool := is_safe_workflow_shape value true.

(** [iter().all(p)] and [iter().any(p)] over a [BTreeSet]. *)
Definition set_all (p : string -> bool) (s : gset string) : bool := forallb p (btree_elements s).
Definition set_any (p : string -> bool) (s : gset string) : bool := existsb p (btree_elements s).

Definition warm_rules (profile : Profile) (vm_prefix : string) : result string unit :=
  if negb (bool_decide (is_none (p_warm_template profile)
                        = is_none (p_regeneration_workflow profile)))
  then Err "warm_template and regeneration_workflow must be declared together"
  else
    _ ← match p_warm_template profile with
        | None => Ok tt
        | Some warm =>
            if starts_with warm vm_prefix
            then Err "warm_template cannot use the service-owned VM prefix"
            else if VM_NAME_MAX_LEN - RESERVED_SUFFIX_LEN <? len warm
            then Err "warm_template is too long for its reserved suffixes"
            else if bool_decide (warm = p_template profile)
            then Err "warm_template cannot be the profile template"
            else Ok tt
        end;
    match p_regeneration_workflow profile with
    | None => Ok tt
    | Some workflow =>
        if negb (is_safe_workflow workflow)
           || negb (set_any (fun pattern => is_glob_match pattern workflow)
                      (p_allowed_workflows profile))
        then Err "regeneration_workflow must be an allowed workflow"
        else Ok tt
    end.

Definition is_event_name (value : string) : bool :=
  negb (is_empty value) && (len value <=? 64)
  && all_bytes (fun b => is_ascii_alphanumeric b || one_of "_" b) value.

Definition profile_timeouts (profile : Profile) : list (string * Z * Z) :=
  [ ("boot", p_boot_timeout_seconds profile, 1800);
    ("idle", p_idle_timeout_seconds profile, 3600);
    ("job", p_job_timeout_seconds profile, 43200);
    ("cleanup", p_cleanup_timeout_seconds profile, 600) ].

Definition max_vm_name (name vm_prefix : string) : Z := len vm_prefix + len name + 1 + 20 + 1 + 10.

Definition ensure_profile (name : string) (profile : Profile) (vm_prefix : string) : check :=
  let invalid message := InvalidProfile name message in
  _ ← ensure (negb (starts_with (p_template profile) vm_prefix))
        (invalid "template cannot use the service-owned VM prefix");
  _ ← ensure (len (p_runner_label profile) + 1 + 36 <=? RUNNER_LABEL_MAX_LEN)
        (invalid "runner label is too long for a per-allocation suffix");
  _ ← ensure (max_vm_name name vm_prefix <=? VM_NAME_MAX_LEN)
        (invalid "generated VM name can exceed its maximum length");
  _ ← ensure (negb (bool_decide (p_allowed_workflows profile = ∅)
                    || bool_decide (p_allowed_events profile = ∅)
                    || bool_decide (p_allowed_refs profile = ∅)))
        (invalid "authorization allowlists cannot be empty");
  _ ← ensure (set_all is_safe_workflow_pattern (p_allowed_workflows profile))
        (invalid "workflow allowlist contains an unsafe name");
  _ ← map_err invalid (warm_rules profile vm_prefix);
  _ ← ensure (negb (is_empty (p_job_name profile) || (128 <? len (p_job_name profile))
                    || any_byte is_ascii_control (p_job_name profile)))
        (invalid "job name contains an unsafe value");
  _ ← ensure (set_all is_event_name (p_allowed_events profile))
        (invalid "event allowlist contains an unsafe name");
  _ ← ensure (set_all is_safe_git_ref_pattern (p_allowed_refs profile))
        (invalid "ref allowlist contains an unsafe value");
  _ ← ensure (in_range 1 64 (p_cpu_count profile) && in_range 2048 131072 (p_memory_mb profile)
              && in_range 16384 1048576 (p_storage_mb profile))
        (invalid "CPU, memory, or storage is outside the allowed range");
  try_for_each (fun '(label, timeout, max) =>
      ensure (in_range 5 max timeout) (invalid (label +:+ " timeout is outside the allowed range")))
    (profile_timeouts profile).

(** The loop of [ensure_profiles_valid] with the labels seen so far. *)
Fixpoint ensure_profiles (vm_prefix : string) (labels : gset string)
    (profiles : list (string * Profile)) : check :=
  match profiles with
  | [] => Ok tt
  | (name, profile) :: rest =>
      _ ← ensure_profile name profile vm_prefix;
      if bool_decide (p_runner_label profile ∈ labels) then Err DuplicateRunnerLabel
      else ensure_profiles vm_prefix ({[ p_runner_label profile ]} ∪ labels) rest
  end.

Definition ensure_profiles_valid (c : Config) : check :=
  ensure_profiles (rt_vm_prefix (c_runtime c)) ∅ (btree_list (c_profiles c)).

(** ** Images *)

Definition derived_image_names (warm : VmName) : result unit (list VmName) :=
  previous ← map_err (fun _ => tt) (with_suffix warm PREVIOUS_SUFFIX);
  staging ← map_err (fun _ => tt) (with_suffix warm STAGING_SUFFIX);
  Ok [warm; previous; staging].

(** The inner loop: the names reserved so far are threaded through. *)
Fixpoint reserve_names (name prefix : string) (templates reserved : gset string)
    (derived : list VmName) : result ConfigError (gset string) :=
  let invalid message := InvalidProfile name message in
  match derived with
  | [] => Ok reserved
  | d :: rest =>
      if starts_with d prefix
      then Err (invalid "warm image name cannot use the service VM prefix")
      else if bool_decide (d ∈ templates)
      then Err (invalid "warm image name collides with a configured template")
      else if bool_decide (d ∈ reserved)
      then Err (invalid "warm image name is already reserved by a profile")
      else reserve_names name prefix templates ({[ d ]} ∪ reserved) rest
  end.

Fixpoint ensure_images (prefix : string) (templates reserved : gset string)
    (profiles : list (string * Profile)) : check :=
  match profiles with
  | [] => Ok tt
  | (name, profile) :: rest =>
      match p_warm_template profile with
      | None => ensure_images prefix templates reserved rest
      | Some warm =>
          derived ← map_err (fun _ => InvalidProfile name "warm image name is too long")
                      (derived_image_names warm);
          reserved ← reserve_names name prefix templates reserved derived;
          ensure_images prefix templates reserved rest
      end
  end.

Definition template_names (c : Config) : gset string :=
  list_to_set (map (fun entry => p_template entry.2) (btree_list (c_profiles c))).

Definition ensure_images_valid (c : Config) : check :=
  ensure_images (rt_vm_prefix (c_runtime c)) (template_names c) ∅ (btree_list (c_profiles c)).

(** ** Hot bounds *)

Definition MAX_LIFETIME_SECONDS : Z * Z := (300, 604800).
Definition IDLE_TTL_SECONDS : Z * Z := (30, 86400).
Definition RESET_TIMEOUT_SECONDS : Z * Z := (5, 600).
Definition MAX_JOBS : Z * Z := (0, 1000).

Definition ensure_bounds (hot : HotConfig) : result string unit :=
  _ ← ensure (in_range MAX_LIFETIME_SECONDS.1 MAX_LIFETIME_SECONDS.2 (hc_max_lifetime_seconds hot))
        "hot.max_lifetime_seconds is outside the allowed range";
  _ ← ensure (in_range IDLE_TTL_SECONDS.1 IDLE_TTL_SECONDS.2 (hc_idle_ttl_seconds hot))
        "hot.idle_ttl_seconds is outside the allowed range";
  _ ← ensure (in_range RESET_TIMEOUT_SECONDS.1 RESET_TIMEOUT_SECONDS.2
                (hc_reset_timeout_seconds hot))
        "hot.reset_timeout_seconds is outside the allowed range";
  ensure (in_range MAX_JOBS.1 MAX_JOBS.2 (hc_max_jobs hot))
    "hot.max_jobs is outside the allowed range".

(** [profile.hot.filter(|hot| hot.enabled)]. *)
Definition enabled_hot (profile : Profile) : option HotConfig :=
  match p_hot profile with
  | Some hot => if hc_enabled hot then Some hot else None
  | None => None
  end.

Definition ensure_hot_valid (c : Config) : check :=
  if rt_max_running_vms (c_runtime c) <? rt_max_hot_vms (c_runtime c)
  then Err (OutOfRange "runtime.max_hot_vms")
  else try_for_each (fun '(name, profile) =>
         when_some (enabled_hot profile) (fun hot =>
           map_err (InvalidProfile name) (ensure_bounds hot)))
       (btree_list (c_profiles c)).

(** ** The whole document *)

Definition ensure_valid (shell_words_split : string -> option (list string)) (c : Config) : check :=
  if bool_decide (c_profiles c = ∅) then Err NoProfiles
  else
    _ ← ensure_logging_valid (c_logging c);
    _ ← ensure_server_valid c;
    _ ← ensure_db_valid (c_db c);
    _ ← ensure_webui_valid (c_webui c);
    _ ← ensure_endpoints_valid c;
    _ ← ensure_runtime_valid c;
    _ ← ensure_guest_valid c;
    _ ← ensure_tailscale_valid shell_words_split (c_tailscale c);
    _ ← ensure_profiles_valid c;
    _ ← ensure_images_valid c;
    ensure_hot_valid c.

(** ** What a document's types already guarantee

    The identifiers of a deserialized [Config] went through their constructors
    and its integers have their widths. *)

Definition profile_well_typed (entry : string * Profile) : bool :=
  let '(name, p) := entry in
  is_profile_name name && is_repository_name (p_repository p) && is_vm_name (p_template p)
  && is_runner_label (p_runner_label p)
  && match p_warm_template p with Some w => is_vm_name w | None => true end
  && in_range 0 255 (p_cpu_count p) && in_u32 (p_memory_mb p) && in_u64 (p_storage_mb p)
  && match p_hot p with
     | Some hot => in_range 0 255 (hc_max_idle hot) && in_u64 (hc_max_lifetime_seconds hot)
                   && in_u32 (hc_max_jobs hot) && in_u64 (hc_idle_ttl_seconds hot)
     | None => true
     end.

Definition config_well_typed (c : Config) : bool :=
  is_vm_prefix (rt_vm_prefix (c_runtime c))
  && in_range 0 255 (rt_max_running_vms (c_runtime c))
  && in_range 0 255 (rt_max_hot_vms (c_runtime c))
  && forallb profile_well_typed (btree_list (c_profiles c)).

(** ** Lemmas *)

Lemma ensure_valid_parts sw c u :
  ensure_valid sw c = Ok u ->
  c_profiles c <> ∅ /\ ensure_runtime_valid c = Ok tt /\ ensure_guest_valid c = Ok tt /\
  ensure_profiles_valid c = Ok tt /\ ensure_images_valid c = Ok tt /\ ensure_hot_valid c = Ok tt.
Proof.
  unfold ensure_valid. case_bool_decide; [done|]. intros H'. simplify_result. done.
Qed.

Lemma ensure_runtime_valid_prefix c u :
  ensure_runtime_valid c = Ok u -> ends_with (rt_vm_prefix (c_runtime c)) "-" = true.
Proof.
  unfold ensure_runtime_valid. intros H. simplify_result.
  unfold vm_prefix_ensure_valid in *. by repeat case_match.
Qed.

Lemma ensure_runtime_valid_max_running c u :
  ensure_runtime_valid c = Ok u -> 1 <= rt_max_running_vms (c_runtime c) <= 255.
Proof.
  unfold ensure_runtime_valid. intros H. simplify_result.
  unfold ensure_range in *.
  destruct (in_range 1 255 (rt_max_running_vms _)) eqn:Hr; [|done].
  by apply in_range_spec in Hr.
Qed.

Lemma ensure_profiles_ok prefix labels l u :
  ensure_profiles prefix labels l = Ok u ->
  Forall (fun e => ensure_profile e.1 e.2 prefix = Ok tt) l /\
  NoDup (map (fun e => p_runner_label e.2) l) /\
  Forall (fun e => p_runner_label e.2 ∉ labels) l.
Proof.
  revert labels. induction l as [|[name p] l IH]; intros labels; simpl.
  { repeat constructor. }
  intros H. simplify_result. case_bool_decide as Hin; [done|].
  apply IH in H0 as (Hall & Hnd & Hdis). repeat split.
  - by constructor.
  - constructor; [|done]. intros Hel.
    apply list_elem_of_fmap in Hel as (e & He & Hel).
    rewrite Forall_forall in Hdis. specialize (Hdis e Hel). set_solver.
  - constructor; [done|]. eapply Forall_impl; [done|]. simpl. set_solver.
Qed.

(** Every check of [ensure_profile], by name. *)
Record profile_valid (name : string) (p : Profile) (prefix : string) : Prop := {
  pv_template : starts_with (p_template p) prefix = false;
  pv_label : len (p_runner_label p) + 37 <= 64;
  pv_vm_name : max_vm_name name prefix <= 80;
  pv_workflows : set_all is_safe_workflow_pattern (p_allowed_workflows p) = true;
  pv_warm : warm_rules p prefix = Ok tt;
  pv_events : set_all is_event_name (p_allowed_events p) = true;
  pv_refs : set_all is_safe_git_ref_pattern (p_allowed_refs p) = true;
  pv_cpu : 1 <= p_cpu_count p <= 64;
  pv_memory : 2048 <= p_memory_mb p <= 131072;
  pv_storage : 16384 <= p_storage_mb p <= 1048576;
  pv_cleanup : 5 <= p_cleanup_timeout_seconds p <= 600;
}.

Lemma ensure_profile_valid name p prefix u :
  ensure_profile name p prefix = Ok u -> profile_valid name p prefix.
Proof.
  unfold ensure_profile, RUNNER_LABEL_MAX_LEN, VM_NAME_MAX_LEN. intros H. simplify_result.
  simplify_bool. repeat match goal with
    | H : try_for_each _ _ = _ |- _ => apply try_for_each_ok in H
    end.
  constructor; try done; try lia.
  match goal with H : Forall _ (profile_timeouts _) |- _ =>
    repeat (apply Forall_cons in H as [? H]) end.
  repeat match goal with H : _ = Ok tt |- _ => apply ensure_ok in H end.
  simplify_bool. lia.
Qed.

Lemma ensure_valid_profile sw c u name p :
  ensure_valid sw c = Ok u -> c_profiles c !! name = Some p ->
  profile_valid name p (rt_vm_prefix (c_runtime c)).
Proof.
  intros (_ & _ & _ & Hp & _)%ensure_valid_parts Hlk.
  apply ensure_profiles_ok in Hp as (Hall & _ & _). rewrite Forall_forall in Hall.
  apply (ensure_profile_valid name p _ tt).
  apply (Hall (name, p)). by apply elem_of_btree_list.
Qed.

Lemma config_well_typed_profile c name p :
  config_well_typed c = true -> c_profiles c !! name = Some p ->
  profile_well_typed (name, p) = true.
Proof.
  unfold config_well_typed. intros H Hlk. simplify_bool.
  rewrite forallb_forall in H0. apply H0, list_elem_of_In. by apply elem_of_btree_list.
Qed.

Lemma reserve_names_ok name prefix templates reserved derived out :
  reserve_names name prefix templates reserved derived = Ok out ->
  Forall (fun d => starts_with d prefix = false /\ (d ∉ templates) /\ (d ∉ reserved)) derived /\
  NoDup derived /\ out = list_to_set derived ∪ reserved.
Proof.
  revert reserved. induction derived as [|d l IH]; intros reserved; simpl.
  { intros [= <-]. repeat split; [constructor | constructor | set_solver]. }
  repeat (case_match || case_bool_decide); try done.
  intros (Hall & Hnd & ->)%IH. repeat split.
  - constructor; [done|]. eapply Forall_impl; [done|]. simpl. set_solver.
  - constructor; [|done]. intros Hin. rewrite Forall_forall in Hall.
    specialize (Hall d Hin). set_solver.
  - set_solver.
Qed.

(** The names a declared warm template reserves. *)
Definition reserved_by (p : Profile) : list VmName :=
  match p_warm_template p with
  | Some warm => [warm; warm +:+ PREVIOUS_SUFFIX; warm +:+ STAGING_SUFFIX]
  | None => []
  end.

Lemma derived_image_names_ok warm l :
  derived_image_names warm = Ok l ->
  l = [warm; warm +:+ PREVIOUS_SUFFIX; warm +:+ STAGING_SUFFIX] /\
  is_vm_name (warm +:+ PREVIOUS_SUFFIX) = true /\ is_vm_name (warm +:+ STAGING_SUFFIX) = true.
Proof.
  unfold derived_image_names, with_suffix. intros H. simplify_result.
  repeat match goal with H : vm_name_new _ = Ok _ |- _ =>
    pose proof H as ?H; apply identifier_new_ok in H as [-> _] end.
  unfold is_vm_name. repeat match goal with H : vm_name_new _ = Ok _ |- _ => rewrite H end.
  done.
Qed.

Lemma ensure_images_ok prefix templates reserved l u :
  ensure_images prefix templates reserved l = Ok u ->
  Forall (fun d => starts_with d prefix = false /\ (d ∉ templates) /\ (d ∉ reserved))
    (l ≫= (fun e => reserved_by e.2)) /\
  NoDup (l ≫= (fun e => reserved_by e.2)) /\
  Forall (fun e => forall warm, p_warm_template e.2 = Some warm ->
    is_ok (derived_image_names warm) = true) l.
Proof.
  revert reserved. induction l as [|[name p] l IH]; intros reserved; simpl.
  { repeat constructor. }
  unfold reserved_by at 1 3. simpl. destruct (p_warm_template p) as [warm|] eqn:Hw.
  - intros H. simplify_result.
    match goal with H : derived_image_names _ = Ok _ |- _ =>
      pose proof H as Hd; apply derived_image_names_ok in H as [-> _] end.
    match goal with H : reserve_names _ _ _ _ _ = Ok _ |- _ =>
      apply reserve_names_ok in H as (Hall & Hnd & ->) end.
    match goal with H : ensure_images _ _ _ _ = Ok _ |- _ =>
      apply IH in H as (Hall' & Hnd' & Hok) end.
    change (warm :: (warm +:+ PREVIOUS_SUFFIX) :: (warm +:+ STAGING_SUFFIX)
      :: (l ≫= fun e => reserved_by e.2)) with
      ([warm; warm +:+ PREVIOUS_SUFFIX; warm +:+ STAGING_SUFFIX]
        ++ (l ≫= fun e => reserved_by e.2)) in *.
    repeat split.
    + apply Forall_app. split; [done|]. eapply Forall_impl; [exact Hall'|]. set_solver.
    + apply NoDup_app. split; [done|]. split; [|done]. intros d Hd1 Hd2.
      rewrite Forall_forall in Hall'. specialize (Hall' d Hd2). set_solver.
    + constructor; [|done]. simpl. intros w Hw'. simplify_eq. by rewrite Hd.
  - intros (Hall & Hnd & Hok)%IH. simpl. repeat split; [done | done |].
    constructor; [|done]. simpl. congruence.
Qed.

Lemma reserved_name_valid sw c u name p d :
  ensure_valid sw c = Ok u -> c_profiles c !! name = Some p -> d ∈ reserved_by p ->
  starts_with d (rt_vm_prefix (c_runtime c)) = false /\
  (forall other q, c_profiles c !! other = Some q -> d <> p_template q).
Proof.
  intros (_ & _ & _ & _ & Hi & _)%ensure_valid_parts.
  apply ensure_images_ok in Hi as (Hall & _). intros Hlk Hd. rewrite Forall_forall in Hall.
  assert (d ∈ (btree_list (c_profiles c) ≫= (fun e => reserved_by e.2))) as Hin.
  { apply list_elem_of_bind. exists (name, p). split; [done|]. by apply elem_of_btree_list. }
  destruct (Hall d Hin) as (Hpre & Htem & _). split; [done|].
  intros other q Hq ->. apply Htem. unfold template_names.
  apply elem_of_list_to_set, list_elem_of_fmap. exists (other, q).
  split; [done|]. by apply elem_of_btree_list.
Qed.

(** ** A small valid document, for the concrete instances below *)

Definition https_url (serialization path : string) : Url :=
  {| url_serialization := serialization; url_scheme := "https"; url_username := "";
     url_password := None; url_host_str := Some "git.example"; url_path := path;
     url_query := None; url_fragment := None |}.

Definition example_profile : Profile :=
  {| p_repository := "acme/site"; p_template := "linux-base"; p_runner_label := "linux";
     p_job_name := "build"; p_allowed_workflows := {[ "ci.yml"; "warm.yml" ]};
     p_allowed_events := {[ "push" ]}; p_allowed_refs := {[ "refs/heads/*" ]};
     p_require_protected_ref := false; p_network := NetworkDefault; p_cpu_count := 4;
     p_memory_mb := 8192; p_storage_mb := 40960; p_boot_timeout_seconds := 120;
     p_idle_timeout_seconds := 300; p_job_timeout_seconds := 3600;
     p_cleanup_timeout_seconds := 60; p_warm_template := Some "linux-warm";
     p_regeneration_workflow := Some "warm.yml";
     p_hot := Some {| hc_enabled := true; hc_lanes := LanesProtected; hc_max_idle := 1;
                      hc_max_lifetime_seconds := 14400; hc_max_jobs := 20;
                      hc_idle_ttl_seconds := 900; hc_reset_timeout_seconds := 120;
                      hc_simulator_reset := ResetApps |};
     p_reap := true |}.

Definition example_config : Config :=
  {| c_logging := logging_default; c_server := server_default; c_db := {| db_path := None |};
     c_webui := webui_default;
     c_oidc := {| oi_issuer := https_url "https://git.example/api/actions" "/api/actions";
                  oi_audience := "flanforge";
                  oi_jwks_url := https_url "https://git.example/jwks" "/jwks";
                  oi_jwks_cache_seconds := 300; oi_clock_skew_seconds := 30 |};
     c_forgejo := {| fj_api_url := https_url "https://git.example/api/v1/" "/api/v1/";
                     fj_api_token_file := "/etc/flanforge/token";
                     fj_http_timeout_seconds := 15 |};
     c_runtime :=
       {| rt_state_dir := "/var/lib/flanforge";
          rt_backend := Libvirt (libvirt_default <| lv_image_manifest_dir :=
            "/var/lib/flanforge/libvirt/published-bases" |>);
          rt_ssh_path := default_ssh_path; rt_scp_path := default_scp_path;
          rt_vm_prefix := "ff-"; rt_max_running_vms := 4; rt_max_hot_vms := 2;
          rt_poll_seconds := 2; rt_reap_interval_hours := 168; rt_host_cpu_count := Some 16;
          rt_host_memory_mb := Some 32768; rt_host_storage_mb := Some 409600 |};
     c_guest := {| gc_channel := Agent; gc_runner_user := "runner";
                   gc_privileged_user := "prunner";
                   gc_forgejo_runner_path := "/usr/local/bin/forgejo-runner";
                   gc_ssh := Some {| ssh_identity_file := "/etc/flanforge/id";
                                     ssh_privileged_identity_file := None;
                                     ssh_known_hosts_file := None; ssh_host_key_alias := None;
                                     ssh_connect_timeout_seconds := 5;
                                     ssh_verify_host_key := true |} |};
     c_tailscale := {| ts_enabled := false; ts_preauth_key_file := None;
                       ts_login_server := None; ts_hostname := None; ts_extra_args := "" |};
     c_profiles := {[ "linux" := example_profile ]} |}.

(** [shell_words::split] on the empty text. *)
Definition no_words (s : string) : option (list string) :=
  if is_empty s then Some [] else None.

Lemma example_config_valid : ensure_valid no_words example_config = Ok tt.
Proof. vm_compute. reflexivity. Qed.

Lemma example_config_typed : config_well_typed example_config = true.
Proof. vm_compute. reflexivity. Qed.

(** ** Properties *)

(** In a valid document the names the warm images use (each declared warm
    template with its [.previous] and [.staging] names) never fall under the
    service's VM prefix, are never a configured template, and no two of them
    coincide, within or across profiles. *)
Theorem valid_config_reserved_names sw c u :
  ensure_valid sw c = Ok u ->
  NoDup (btree_list (c_profiles c) ≫= (fun e => reserved_by e.2)) /\
  forall name p d, c_profiles c !! name = Some p -> d ∈ reserved_by p ->
    starts_with d (rt_vm_prefix (c_runtime c)) = false /\
    (forall other q, c_profiles c !! other = Some q -> d <> p_template q).
Proof.
  intros Hv. split; [|intros name p d; by eapply reserved_name_valid].
  apply ensure_valid_parts in Hv as (_ & _ & _ & _ & Hi & _).
  by apply ensure_images_ok in Hi as (_ & Hnd & _).
Qed.

Lemma valid_config_reserved_names_witness :
  starts_with "linux-warm.staging" "ff-" = false.
Proof.
  refine (proj1 (proj2 (valid_config_reserved_names no_words example_config tt _)
    "linux" example_profile "linux-warm.staging" _ _)).
  - vm_compute. reflexivity.
  - vm_compute. reflexivity.
  - vm_compute. right. right. left.
Defined.

(** In a valid document a runner label selects at most one profile, and
    every profile's label leaves room for the per-allocation suffix. *)
Theorem valid_config_labels_unique sw c u name other p q :
  ensure_valid sw c = Ok u ->
  c_profiles c !! name = Some p -> c_profiles c !! other = Some q ->
  len (p_runner_label p) + 37 <= 64 /\
  (p_runner_label p = p_runner_label q -> name = other).
Proof.
  intros Hv Hp Hq. split; [exact (pv_label _ _ _ (ensure_valid_profile _ _ _ _ _ Hv Hp))|].
  intros Heq. apply ensure_valid_parts in Hv as (_ & _ & _ & Hv & _).
  apply ensure_profiles_ok in Hv as (_ & Hnd & _).
  apply elem_of_btree_list, list_elem_of_lookup in Hp as [i Hi].
  apply elem_of_btree_list, list_elem_of_lookup in Hq as [j Hj].
  assert (i = j) as ->.
  { eapply NoDup_lookup; [exact Hnd | |].
    - by rewrite list_lookup_fmap, Hi.
    - rewrite list_lookup_fmap, Hj. simpl. by rewrite Heq. }
  congruence.
Qed.

Lemma valid_config_labels_unique_witness :
  len (p_runner_label example_profile) + 37 <= 64 /\
  (p_runner_label example_profile = p_runner_label example_profile -> "linux" = "linux").
Proof.
  apply (valid_config_labels_unique no_words example_config tt "linux" "linux");
    vm_compute; reflexivity.
Defined.

Definition set_privileged_identity (path : option PathBuf) (c : Config) : Config :=
  c <| c_guest := (c_guest c) <| gc_ssh :=
    option_map (fun ssh => ssh <| ssh_privileged_identity_file := path |>)
      (gc_ssh (c_guest c)) |> |>.

(** No validation step reads [guest.ssh.privileged_identity_file]: any
    text there, relative, quoted or traversing, leaves the verdict on the
    document unchanged. *)
Theorem privileged_identity_unchecked sw c path :
  ensure_valid sw (set_privileged_identity path c) = ensure_valid sw c.
Proof.
  unfold ensure_valid. simpl.
  replace (ensure_guest_valid (set_privileged_identity path c))
    with (ensure_guest_valid c); [done|].
  unfold ensure_guest_valid. simpl. destruct (gc_ssh (c_guest c)) as [ssh|]; simpl; done.
Qed.
