(* ===== verification/ConfigReload.v ===== *)
(** * Reload, advisories and web-UI editing
    ([crates/flanforge-core/src/config/{reload,advisory,editable}.rs])

    Which fields a reload cannot apply, which profile changes drain hot
    machines, which risky choices are reported, and which keys the web UI may
    write. *)

From S2P Require Import Prelude Rust Text Identifiers Images Guest Hot Config ConfigValidate.

Open Scope Z_scope.
Open Scope stdpp_scope.

(** ** Comparison as [PartialEq] computes it

    Paths compare by components and URLs by serialization. *)

Definition option_eqb {A} (eqb : A -> A -> bool) (a b : option A) : bool :=
  match a, b with
  | Some a, Some b => eqb a b
  | None, None => true
  | _, _ => false
  end.

Definition text_eqb (a b : string) : bool := bool_decide (a = b).

Definition tart_eqb (a b : TartConfig) : bool :=
  path_eqb (tart_path a) (tart_path b)
  && option_eqb path_eqb (tart_home a) (tart_home b)
  && option_eqb path_eqb (tart_runner_host_path a) (tart_runner_host_path b).

Definition libvirt_eqb (a b : LibvirtConfig) : bool :=
  text_eqb (lv_uri a) (lv_uri b) && text_eqb (lv_pool a) (lv_pool b)
  && text_eqb (lv_network a) (lv_network b)
  && path_eqb (lv_image_manifest_dir a) (lv_image_manifest_dir b)
  && path_eqb (lv_qemu_img_path a) (lv_qemu_img_path b)
  && path_eqb (lv_virsh_path a) (lv_virsh_path b)
  && (lv_min_storage_free_mb a =? lv_min_storage_free_mb b)
  && (lv_warm_capture_timeout_seconds a =? lv_warm_capture_timeout_seconds b)
  && Bool.eqb (lv_allow_insecure_transport a) (lv_allow_insecure_transport b)
  && option_eqb path_eqb (lv_image_import_dir a) (lv_image_import_dir b)
  && bool_decide (lv_image_reimport a = lv_image_reimport b).

Definition backend_eqb (a b : RuntimeBackendConfig) : bool :=
  match a, b with
  | Tart a, Tart b => tart_eqb a b
  | Libvirt a, Libvirt b => libvirt_eqb a b
  | _, _ => false
  end.

Definition webui_oidc_eqb (a b : WebuiOidcConfig) : bool :=
  Bool.eqb (wo_enabled a) (wo_enabled b)
  && option_eqb url_eqb (wo_issuer a) (wo_issuer b)
  && option_eqb text_eqb (wo_client_id a) (wo_client_id b)
  && option_eqb path_eqb (wo_client_secret_file a) (wo_client_secret_file b)
  && option_eqb url_eqb (wo_redirect_url a) (wo_redirect_url b)
  && bool_decide (wo_scopes a = wo_scopes b).

(** ** Restart-only differences *)

Definition SERVICE_DEFINITION_FIELDS : list string :=
  ["server.shutdown_grace_seconds"; "db.db_path"].

Definition is_service_definition_field (field : string) : bool :=
  bool_decide (field ∈ SERVICE_DEFINITION_FIELDS).

Definition server_differences (old new : Config) : list (bool * string) :=
  let old := c_server old in
  let new := c_server new in
  [ (negb (bool_decide (sv_listen old = sv_listen new)), "server.listen");
    (negb (sv_request_body_limit_bytes old =? sv_request_body_limit_bytes new),
      "server.request_body_limit_bytes");
    (negb (sv_allocation_wait_seconds old =? sv_allocation_wait_seconds new),
      "server.allocation_wait_seconds");
    (negb (sv_shutdown_grace_seconds old =? sv_shutdown_grace_seconds new),
      "server.shutdown_grace_seconds") ].

Definition db_differences (old new : Config) : list (bool * string) :=
  [ (negb (option_eqb path_eqb (db_path (c_db old)) (db_path (c_db new))), "db.db_path") ].

Definition webui_differences (old new : Config) : list (bool * string) :=
  let old := c_webui old in
  let new := c_webui new in
  [ (negb (Bool.eqb (wu_enabled old) (wu_enabled new)), "webui.enabled");
    (negb (wu_session_ttl_seconds old =? wu_session_ttl_seconds new),
      "webui.session_ttl_seconds");
    (negb (wu_request_body_limit_bytes old =? wu_request_body_limit_bytes new),
      "webui.request_body_limit_bytes");
    (negb (option_eqb path_eqb (wu_dev_dist_dir old) (wu_dev_dist_dir new)),
      "webui.dev_dist_dir");
    (negb (Bool.eqb (wu_authdb_enabled old) (wu_authdb_enabled new)), "webui.authdb.enabled");
    (negb (webui_oidc_eqb (wu_oidc old) (wu_oidc new)), "webui.oidc") ].

Definition endpoint_differences (old new : Config) : list (bool * string) :=
  let old_oidc := c_oidc old in
  let new_oidc := c_oidc new in
  let old_forgejo := c_forgejo old in
  let new_forgejo := c_forgejo new in
  [ (negb (url_eqb (oi_issuer old_oidc) (oi_issuer new_oidc)), "oidc.issuer");
    (negb (text_eqb (oi_audience old_oidc) (oi_audience new_oidc)), "oidc.audience");
    (negb (url_eqb (oi_jwks_url old_oidc) (oi_jwks_url new_oidc)), "oidc.jwks_url");
    (negb (oi_jwks_cache_seconds old_oidc =? oi_jwks_cache_seconds new_oidc),
      "oidc.jwks_cache_seconds");
    (negb (oi_clock_skew_seconds old_oidc =? oi_clock_skew_seconds new_oidc),
      "oidc.clock_skew_seconds");
    (negb (url_eqb (fj_api_url old_forgejo) (fj_api_url new_forgejo)), "forgejo.api_url");
    (negb (path_eqb (fj_api_token_file old_forgejo) (fj_api_token_file new_forgejo)),
      "forgejo.api_token_file");
    (negb (fj_http_timeout_seconds old_forgejo =? fj_http_timeout_seconds new_forgejo),
      "forgejo.http_timeout_seconds") ].

Definition runtime_differences (old new : Config) : list (bool * string) :=
  let old := c_runtime old in
  let new := c_runtime new in
  [ (negb (path_eqb (rt_state_dir old) (rt_state_dir new)), "runtime.state_dir");
    (negb (backend_eqb (rt_backend old) (rt_backend new)), "runtime.backend");
    (negb (path_eqb (rt_ssh_path old) (rt_ssh_path new)), "runtime.ssh_path");
    (negb (path_eqb (rt_scp_path old) (rt_scp_path new)), "runtime.scp_path");
    (negb (text_eqb (rt_vm_prefix old) (rt_vm_prefix new)), "runtime.vm_prefix");
    (negb (rt_max_running_vms old =? rt_max_running_vms new), "runtime.max_running_vms");
    (negb (rt_poll_seconds old =? rt_poll_seconds new), "runtime.poll_seconds");
    ((rt_reap_interval_hours old =? 0) && negb (rt_reap_interval_hours new =? 0),
      "runtime.reap_interval_hours") ].

Definition is_ssh_field_changed {T} (eqb : T -> T -> bool) (old new : option GuestSshConfig)
    (field : GuestSshConfig -> T) : bool :=
  match old, new with
  | Some old, Some new => negb (eqb (field old) (field new))
  | _, _ => false
  end.

Definition guest_differences (old new : Config) : list (bool * string) :=
  let old_guest := c_guest old in
  let new_guest := c_guest new in
  let old_tailscale := c_tailscale old in
  let new_tailscale := c_tailscale new in
  let old_ssh := gc_ssh old_guest in
  let new_ssh := gc_ssh new_guest in
  [ (negb (bool_decide (gc_channel old_guest = gc_channel new_guest)), "guest.channel");
    (negb (text_eqb (gc_runner_user old_guest) (gc_runner_user new_guest)),
      "guest.runner_user");
    (negb (text_eqb (gc_privileged_user old_guest) (gc_privileged_user new_guest)),
      "guest.privileged_user");
    (negb (path_eqb (gc_forgejo_runner_path old_guest) (gc_forgejo_runner_path new_guest)),
      "guest.forgejo_runner_path");
    (negb (Bool.eqb (is_none old_ssh) (is_none new_ssh)), "guest.ssh");
    (is_ssh_field_changed path_eqb old_ssh new_ssh ssh_identity_file,
      "guest.ssh.identity_file");
    (is_ssh_field_changed (option_eqb path_eqb) old_ssh new_ssh ssh_privileged_identity_file,
      "guest.ssh.privileged_identity_file");
    (is_ssh_field_changed (option_eqb path_eqb) old_ssh new_ssh ssh_known_hosts_file,
      "guest.ssh.known_hosts_file");
    (is_ssh_field_changed (option_eqb text_eqb) old_ssh new_ssh ssh_host_key_alias,
      "guest.ssh.host_key_alias");
    (is_ssh_field_changed Z.eqb old_ssh new_ssh ssh_connect_timeout_seconds,
      "guest.ssh.connect_timeout_seconds");
    (is_ssh_field_changed Bool.eqb old_ssh new_ssh ssh_verify_host_key,
      "guest.ssh.verify_host_key");
    (negb (Bool.eqb (ts_enabled old_tailscale) (ts_enabled new_tailscale)),
      "tailscale.enabled");
    (negb (option_eqb path_eqb (ts_preauth_key_file old_tailscale)
             (ts_preauth_key_file new_tailscale)), "tailscale.preauth_key_file");
    (negb (option_eqb url_eqb (ts_login_server old_tailscale) (ts_login_server new_tailscale)),
      "tailscale.login_server");
    (negb (option_eqb text_eqb (ts_hostname old_tailscale) (ts_hostname new_tailscale)),
      "tailscale.hostname");
    (negb (text_eqb (ts_extra_args old_tailscale) (ts_extra_args new_tailscale)),
      "tailscale.extra_args") ].

Definition all_differences (old new : Config) : list (bool * string) :=
  server_differences old new ++ db_differences old new ++ webui_differences old new
  ++ endpoint_differences old new ++ runtime_differences old new ++ guest_differences old new.

Definition restart_only_differences (old new : Config) : list string :=
  omap (fun '(differs, field) => if (differs : bool) then Some field else None)
    (all_differences old new).

Definition is_hot_draining_change (old new : Profile) : bool :=
  negb (p_cpu_count old =? p_cpu_count new)
  || negb (p_memory_mb old =? p_memory_mb new)
  || negb (p_storage_mb old =? p_storage_mb new)
  || negb (bool_decide (p_network old = p_network new))
  || negb (bool_decide (p_template old = p_template new))
  || negb (bool_decide (p_warm_template old = p_warm_template new))
  || negb (bool_decide (p_hot old = p_hot new)).

(** ** Advisories *)

Definition FORK_EVENTS : list string := ["pull_request"; "pull_request_target"].

Inductive ConfigAdvisory :=
| HotOccupiesEveryRunningSlot (max_hot_vms max_running_vms : Z)
| HotDisabledByGlobalCap (profile : string)
| HotLaneAdmitsForkEvent (profile event : string)
| HotLaneAdmitsNothing (profile : string)
| HotIdlePoolEmpty (profile : string)
| HotJobBudgetEmpty (profile : string)
| HotIdleExceedsGlobalCap (profile : string) (max_idle max_hot_vms : Z)
| HotLifetimeBelowJobTimeout (profile : string) (max_lifetime_seconds job_timeout_seconds : Z)
| HotSimulatorStateRetained (profile : string)
| WebuiNoAuthSource
| WebuiPublicReadOnlyOffLoopback (listen : string).

(** [if condition { advisories.push(a) }]. *)
Definition advise (condition : bool) (a : ConfigAdvisory) : list ConfigAdvisory :=
  if condition then [a] else [].

Definition profile_advisories (name : string) (profile : Profile) (hot : HotConfig)
    (max_hot_vms : Z) : list ConfigAdvisory :=
  advise (max_hot_vms =? 0) (HotDisabledByGlobalCap name)
  ++ (if bool_decide (hc_lanes hot = LanesAny)
      then map (HotLaneAdmitsForkEvent name)
             (List.filter (fun event => bool_decide (event ∈ p_allowed_events profile)) FORK_EVENTS)
      else [])
  ++ advise (bool_decide (hc_lanes hot = LanesNone)) (HotLaneAdmitsNothing name)
  ++ advise (hc_max_idle hot =? 0) (HotIdlePoolEmpty name)
  ++ advise (hc_max_jobs hot =? 0) (HotJobBudgetEmpty name)
  ++ advise ((max_hot_vms <? hc_max_idle hot) && (0 <? max_hot_vms))
       (HotIdleExceedsGlobalCap name (hc_max_idle hot) max_hot_vms)
  ++ advise (hc_max_lifetime_seconds hot <? p_job_timeout_seconds profile)
       (HotLifetimeBelowJobTimeout name (hc_max_lifetime_seconds hot)
          (p_job_timeout_seconds profile))
  ++ advise (bool_decide (hc_simulator_reset hot = ResetNone)) (HotSimulatorStateRetained name).

Definition webui_advisories (c : Config) : list ConfigAdvisory :=
  let webui := c_webui c in
  if negb (wu_enabled webui) then []
  else
    advise (negb (wu_authdb_enabled webui) && negb (wo_enabled (wu_oidc webui))) WebuiNoAuthSource
    ++ advise (wu_public_read_only webui && negb (sa_is_loopback (sv_listen (c_server c))))
         (WebuiPublicReadOnlyOffLoopback (sa_text (sv_listen (c_server c)))).

Definition advisories (c : Config) : list ConfigAdvisory :=
  let runtime := c_runtime c in
  advise ((1 <=? rt_max_hot_vms runtime) && (rt_max_hot_vms runtime =? rt_max_running_vms runtime))
    (HotOccupiesEveryRunningSlot (rt_max_hot_vms runtime) (rt_max_running_vms runtime))
  ++ (btree_list (c_profiles c) ≫= fun '(name, profile) =>
       match enabled_hot profile with
       | Some hot => profile_advisories name profile hot (rt_max_hot_vms runtime)
       | None => []
       end)
  ++ webui_advisories c.

(** ** Web-UI editing *)

Definition UI_EDITABLE_FIXED : list string :=
  [ "forgejo.http_timeout_seconds"; "logging.level"; "runtime.max_hot_vms";
    "runtime.max_running_vms"; "runtime.poll_seconds"; "server.allocation_wait_seconds";
    "server.request_body_limit_bytes"; "server.shutdown_grace_seconds"; "webui.enabled" ].

Definition UI_EDITABLE_PREFIXES : list string := ["guest"; "profiles"; "tailscale"].

Definition is_ui_editable (segments : list string) : bool :=
  match segments with
  | root :: _ =>
      if bool_decide (root ∈ UI_EDITABLE_PREFIXES)
      then (2 <=? Z.of_nat (Datatypes.length segments))
      else bool_decide (String.concat "." segments ∈ UI_EDITABLE_FIXED)
  | [] => bool_decide (String.concat "." segments ∈ UI_EDITABLE_FIXED)
  end.

(** ** Lemmas *)

Lemma restart_only_in old new field :
  field ∈ restart_only_differences old new <-> (true, field) ∈ all_differences old new.
Proof.
  unfold restart_only_differences. rewrite list_elem_of_omap. split.
  - intros ([[] f] & Hin & Heq); simplify_eq. done.
  - intros Hin. by exists (true, field).
Qed.

(** Two profiles a hot machine cannot tell apart. *)
Definition hot_equivalent (old new : Profile) : Prop :=
  p_cpu_count old = p_cpu_count new /\ p_memory_mb old = p_memory_mb new /\
  p_storage_mb old = p_storage_mb new /\ p_network old = p_network new /\
  p_template old = p_template new /\ p_warm_template old = p_warm_template new /\
  p_hot old = p_hot new.

Lemma is_hot_draining_change_spec old new :
  is_hot_draining_change old new = false <-> hot_equivalent old new.
Proof.
  unfold is_hot_draining_change, hot_equivalent.
  rewrite !orb_false_iff, !negb_false_iff, !bool_decide_eq_true, !Z.eqb_eq. tauto.
Qed.

#[export] Instance hot_equivalent_equiv : Equivalence hot_equivalent.
Proof.
  unfold hot_equivalent. split.
  - by intros x.
  - intros x y (? & ? & ? & ? & ? & ? & ?). by repeat split.
  - intros x y z (? & ? & ? & ? & ? & ? & ?) (? & ? & ? & ? & ? & ? & ?).
    repeat split; congruence.
Qed.

(** ** Properties *)

(** A profile reload leaves hot machines alone exactly when the two
    profiles agree on everything a machine was built from (size, network,
    templates and hot policy); that agreement is an equivalence, so a chain of
    harmless reloads is harmless. *)
Theorem hot_draining_change_equivalence :
  Equivalence (fun old new => is_hot_draining_change old new = false) /\
  (forall old new, is_hot_draining_change old new = false <-> hot_equivalent old new) /\
  (forall p label, is_hot_draining_change p (p <| p_runner_label := label |>) = false).
Proof.
  split; [|split].
  - destruct hot_equivalent_equiv as [Hr Hs Ht].
    split; red; intros; rewrite is_hot_draining_change_spec in *; eauto.
  - apply is_hot_draining_change_spec.
  - intros p label. by apply is_hot_draining_change_spec.
Qed.
