(* ===== verification/Claims.v ===== *)
(** * Workflow claims ([crates/flanforge-core/src/claims/forgejo.rs])

    The signed claims of a Forgejo workflow token, their field validation, the
    expansion of a scheduled run's short ref ([normalized]) and the policy
    check [ensure_authorized] with the dimension it reports. *)

From S2P Require Import Prelude Rust Text Identifiers Images Guest Hot Allocation Config ConfigValidate.

Open Scope Z_scope.
Open Scope stdpp_scope.

Record ForgejoClaims := mkForgejoClaims {
  fc_actor : string;
  fc_aud : string;
  fc_event_name : string;
  fc_exp : Z;
  fc_iat : Z;
  fc_iss : string;
  fc_nbf : Z;
  fc_git_ref : string;
  fc_ref_protected : string;
  fc_ref_type : string;
  fc_repository : string;
  fc_repository_owner : string;
  fc_run_attempt : string;
  fc_run_id : string;
  fc_run_number : string;
  fc_sha : string;
  fc_sub : string;
  fc_workflow : string;
  fc_workflow_ref : string;
}.

#[export] Instance ForgejoClaims_eta : Eta ForgejoClaims := fun c =>
  mkForgejoClaims (fc_actor c) (fc_aud c) (fc_event_name c) (fc_exp c) (fc_iat c) (fc_iss c)
    (fc_nbf c) (fc_git_ref c) (fc_ref_protected c) (fc_ref_type c) (fc_repository c)
    (fc_repository_owner c) (fc_run_attempt c) (fc_run_id c) (fc_run_number c) (fc_sha c)
    (fc_sub c) (fc_workflow c) (fc_workflow_ref c).

Inductive AuthorizationError :=
| RepositoryDenied | RunIdentity | Workflow | Event | GitRef | ProtectedRef | Subject
| MalformedClaims.

#[export] Instance AuthorizationError_eq_dec : EqDecision AuthorizationError.
Proof. solve_decision. Defined.

(** ** Field validation *)

(** [validator]'s [length] counts characters: the bytes that start one. *)
Definition char_count (s : string) : Z :=
  Z.of_nat (Datatypes.length (List.filter (fun b => negb (is_continuation b)) (bytes s))).

Definition length_between (min max : Z) (s : string) : bool := in_range min max (char_count s).

Definition validate_text (value : string) : bool :=
  all_bytes (fun b => negb (is_ascii_control b)) value.

Definition validate_token (value : string) : bool :=
  all_bytes (fun b => is_ascii_alphanumeric b || one_of "_" b) value.

Definition validate_name (value : string) : bool :=
  first_byte is_ascii_alphanumeric value && all_bytes is_name_byte value.

Definition validate_git_ref (value : string) : bool := is_safe_git_ref value.

Definition validate_boolean (value : string) : bool :=
  bool_decide (value = "true" \/ value = "false").

Definition validate_repository (value : string) : bool := is_repository_name value.

(** [str::parse] of an unsigned integer: an optional [+], then digits, within
    the width. *)
Definition parse_unsigned (max : Z) (value : string) : option Z :=
  let digits := match value with
                | String "+" rest => rest
                | _ => value
                end in
  if is_empty digits || negb (all_bytes is_ascii_digit digits) then None
  else let n := digits_value 0 digits in
       if n <=? max then Some n else None.

(** [str::parse::<bool>]. *)
Definition parse_bool (value : string) : option bool :=
  if bool_decide (value = "true") then Some true
  else if bool_decide (value = "false") then Some false
  else None.

Definition validate_positive_decimal (value : string) : bool :=
  negb (is_empty value) && (len value <=? 20) && all_bytes is_ascii_digit value
  && match parse_unsigned u64_max value with Some n => 0 <? n | None => false end.

Definition validate_sha (value : string) : bool :=
  ((len value =? 40) || (len value =? 64)) && all_bytes is_ascii_hexdigit value.

Definition validate_claims (c : ForgejoClaims) : bool :=
  length_between 1 100 (fc_actor c) && validate_text (fc_actor c)
  && length_between 1 256 (fc_aud c) && validate_text (fc_aud c)
  && length_between 1 64 (fc_event_name c) && validate_token (fc_event_name c)
  && (1 <=? fc_exp c) && (1 <=? fc_iat c)
  && length_between 1 2048 (fc_iss c) && validate_text (fc_iss c)
  && (1 <=? fc_nbf c)
  && validate_git_ref (fc_git_ref c)
  && validate_boolean (fc_ref_protected c)
  && length_between 0 32 (fc_ref_type c) && validate_token (fc_ref_type c)
  && validate_repository (fc_repository c)
  && length_between 1 100 (fc_repository_owner c) && validate_name (fc_repository_owner c)
  && validate_positive_decimal (fc_run_attempt c)
  && validate_positive_decimal (fc_run_id c)
  && validate_positive_decimal (fc_run_number c)
  && validate_sha (fc_sha c)
  && length_between 1 512 (fc_sub c) && validate_text (fc_sub c)
  && length_between 1 128 (fc_workflow c) && validate_text (fc_workflow c)
  && length_between 1 512 (fc_workflow_ref c) && validate_text (fc_workflow_ref c).

(** ** Policy *)

Definition is_allowed (patterns : gset string) (value : string) : bool :=
  set_any (fun pattern => is_glob_match pattern value) patterns.

Definition workflow_identity (c : ForgejoClaims) : option (string * string) :=
  match strip_prefix (fc_workflow_ref c) (fc_repository c +:+ "/.forgejo/workflows/") with
  | Some rest => split_once "@" rest
  | None => None
  end.

Definition workflow_file (c : ForgejoClaims) : option string :=
  option_map fst (workflow_identity c).

Definition is_ref_protected (c : ForgejoClaims) : bool :=
  default false (parse_bool (fc_ref_protected c)).

Definition expected_subject (c : ForgejoClaims) : string :=
  if bool_decide (fc_event_name c = "pull_request")
  then "repo:" +:+ fc_repository c +:+ ":pull_request"
  else "repo:" +:+ fc_repository c +:+ ":ref:" +:+ fc_git_ref c.

Definition ensure_authorized (c : ForgejoClaims) (profile : Profile)
    (request : AllocationRequest) : result AuthorizationError unit :=
  if negb (validate_claims c) then Err MalformedClaims
  else if negb (validate_request request) then Err MalformedClaims
  else if negb (bool_decide (fc_repository c = rq_repository request))
          || negb (bool_decide (fc_repository c = p_repository profile))
          || negb (bool_decide (fc_repository_owner c = owner (rq_repository request)))
  then Err RepositoryDenied
  else if negb (bool_decide (parse_unsigned u64_max (fc_run_id c) = Some (rq_run_id request)))
          || negb (bool_decide (parse_unsigned u32_max (fc_run_attempt c)
                                = Some (rq_run_attempt request)))
          || (rq_run_id request =? 0) || (rq_run_attempt request =? 0)
  then Err RunIdentity
  else if negb match workflow_identity c with
               | Some (path, git_ref) =>
                   is_allowed (p_allowed_workflows profile) path
                   && bool_decide (git_ref = fc_git_ref c)
               | None => false
               end
  then Err Workflow
  else if negb (bool_decide (fc_event_name c ∈ p_allowed_events profile)) then Err Event
  else if negb (is_allowed (p_allowed_refs profile) (fc_git_ref c)) then Err GitRef
  else
    is_protected ← ok_or (parse_bool (fc_ref_protected c)) MalformedClaims;
    if p_require_protected_ref profile && negb is_protected then Err ProtectedRef
    else if negb (bool_decide (fc_sub c = expected_subject c)) then Err Subject
    else Ok tt.

(** ** Normalization *)

Definition normalized (c : ForgejoClaims) : ForgejoClaims :=
  if is_empty (fc_git_ref c) || starts_with (fc_git_ref c) "refs/" then c
  else
    let full := "refs/heads/" +:+ fc_git_ref c in
    let c' := match strip_suffix (fc_sub c) (":ref:" +:+ fc_git_ref c) with
              | Some stem => c <| fc_sub := stem +:+ ":ref:" +:+ full |>
              | None => c
              end in
    let c'' := match strip_suffix (fc_workflow_ref c) ("@" +:+ fc_git_ref c) with
               | Some stem => c' <| fc_workflow_ref := stem +:+ "@" +:+ full |>
               | None => c'
               end in
    c'' <| fc_git_ref := full |>.

(** ** Lemmas *)

Lemma is_allowed_spec patterns value :
  is_allowed patterns value = true <->
  exists pattern, pattern ∈ patterns /\ glob (bytes pattern) (bytes value).
Proof.
  unfold is_allowed, set_any. rewrite existsb_exists. split.
  - intros (p & Hp & Hg). exists p. split.
    + by apply elem_of_btree_elements, list_elem_of_In.
    + by apply is_glob_match_glob.
  - intros (p & Hp & Hg). exists p. split.
    + by apply list_elem_of_In, elem_of_btree_elements.
    + by apply is_glob_match_glob.
Qed.

Lemma workflow_identity_spec c file git_ref :
  workflow_identity c = Some (file, git_ref) <->
  fc_workflow_ref c = fc_repository c +:+ "/.forgejo/workflows/" +:+ file +:+ "@" +:+ git_ref /\
  "@"%char ∉ bytes file.
Proof.
  unfold workflow_identity. split.
  - destruct (strip_prefix _ _) as [rest|] eqn:Hs; [|done].
    apply strip_prefix_spec in Hs as ->. intros [-> ?]%split_once_some. split; [|done].
    by rewrite <- !string_app_assoc.
  - intros [-> Hni]. rewrite string_app_assoc.
    assert (strip_prefix ((fc_repository c +:+ "/.forgejo/workflows/") +:+ file +:+ "@" +:+ git_ref)
      (fc_repository c +:+ "/.forgejo/workflows/") = Some (file +:+ "@" +:+ git_ref)) as ->
      by (by apply strip_prefix_spec).
    by apply split_once_some.
Qed.

(** What the policy demands of a validated token and request. *)
Definition authorized (c : ForgejoClaims) (profile : Profile) (request : AllocationRequest) : Prop :=
  validate_claims c = true /\ validate_request request = true /\
  fc_repository c = rq_repository request /\ fc_repository c = p_repository profile /\
  fc_repository_owner c = owner (rq_repository request) /\
  parse_unsigned u64_max (fc_run_id c) = Some (rq_run_id request) /\
  parse_unsigned u32_max (fc_run_attempt c) = Some (rq_run_attempt request) /\
  (exists file pattern,
    fc_workflow_ref c = fc_repository c +:+ "/.forgejo/workflows/" +:+ file +:+ "@" +:+ fc_git_ref c
    /\ ("@"%char ∉ bytes file) /\ pattern ∈ p_allowed_workflows profile
    /\ glob (bytes pattern) (bytes file)) /\
  fc_event_name c ∈ p_allowed_events profile /\
  (exists pattern, pattern ∈ p_allowed_refs profile /\ glob (bytes pattern) (bytes (fc_git_ref c))) /\
  (p_require_protected_ref profile = true -> fc_ref_protected c = "true") /\
  fc_sub c = expected_subject c.

Lemma parse_bool_true s : parse_bool s = Some true <-> s = "true".
Proof. unfold parse_bool. repeat case_bool_decide; naive_solver. Qed.

Lemma validate_boolean_parses s : validate_boolean s = true -> is_Some (parse_bool s).
Proof.
  unfold validate_boolean, parse_bool. rewrite bool_decide_eq_true.
  intros [->| ->]; simpl; eauto.
Qed.

Lemma validate_claims_boolean c :
  validate_claims c = true -> validate_boolean (fc_ref_protected c) = true.
Proof. unfold validate_claims. intros H. by simplify_bool. Qed.

Lemma ensure_authorized_sound c profile request :
  ensure_authorized c profile request = Ok tt -> authorized c profile request.
Proof.
  unfold ensure_authorized, authorized.
  pass_guards. intros (prot & Hprot%ok_or_ok & Hlast)%result_bind_ok.
  revert Hlast. pass_guards. intros _. simplify_bool.
  destruct (workflow_identity c) as [[file git_ref]|] eqn:Hw; [|done].
  simplify_bool. subst git_ref. apply workflow_identity_spec in Hw as [Hw Hni].
  repeat match goal with H : is_allowed _ _ = true |- _ => apply is_allowed_spec in H end.
  repeat split; try done; [naive_solver|].
  intros Hreq. rewrite Hreq in *. simpl in *. simplify_bool. subst. by apply parse_bool_true.
Qed.

Lemma ensure_authorized_complete c profile request :
  authorized c profile request -> ensure_authorized c profile request = Ok tt.
Proof.
  intros (Hc & Hr & H1 & H2 & H3 & H4 & H5 & (file & pat & Hw & Hni & Hp & Hg) & He
    & (rp & Hrp & Hrg) & Hprot & Hsub).
  unfold ensure_authorized. rewrite Hc, Hr. simpl.
  rewrite !bool_decide_true by done. simpl.
  assert (1 <= rq_run_id request /\ 1 <= rq_run_attempt request) as [? ?].
  { unfold validate_request in Hr. simplify_bool. lia. }
  rewrite !(proj2 (Z.eqb_neq _ _)) by lia. simpl.
  rewrite (proj2 (workflow_identity_spec c file (fc_git_ref c))) by done.
  rewrite (proj2 (is_allowed_spec _ _)) by eauto. rewrite !bool_decide_true by done. simpl.
  rewrite (proj2 (is_allowed_spec _ _)) by eauto. simpl.
  destruct (validate_boolean_parses _ (validate_claims_boolean _ Hc)) as [b Hb].
  rewrite Hb. simpl. destruct (p_require_protected_ref profile); simpl.
  - rewrite (proj2 (parse_bool_true _)) in Hb by auto. by simplify_eq.
  - done.
Qed.

(** ** Properties *)

Definition example_claims : ForgejoClaims :=
  {| fc_actor := "dev"; fc_aud := "flanforge"; fc_event_name := "push"; fc_exp := 2000;
     fc_iat := 1000; fc_iss := "https://git.example/api/actions"; fc_nbf := 1000;
     fc_git_ref := "refs/heads/main"; fc_ref_protected := "true"; fc_ref_type := "branch";
     fc_repository := "acme/site"; fc_repository_owner := "acme"; fc_run_attempt := "1";
     fc_run_id := "77"; fc_run_number := "12";
     fc_sha := "0123456789abcdef0123456789abcdef01234567";
     fc_sub := "repo:acme/site:ref:refs/heads/main"; fc_workflow := "ci";
     fc_workflow_ref := "acme/site/.forgejo/workflows/ci.yml@refs/heads/main" |}.

Definition example_request : AllocationRequest :=
  {| rq_profile := "linux"; rq_repository := "acme/site"; rq_run_id := 77;
     rq_run_attempt := 1 |}.

(** C24: the authorization check accepts exactly the tokens the policy
    describes: both documents well formed, the repository, owner and run
    identity of the request, an allowed workflow file of that repository taken
    at the very ref of the token, an allowed event, an allowed ref, a protected
    ref where the profile demands one, and the subject of that event; there is
    no other way in and no policy-conforming token is refused. *)
Theorem ensure_authorized_spec c profile request :
  ensure_authorized c profile request = Ok tt <-> authorized c profile request.
Proof. split; [apply ensure_authorized_sound | apply ensure_authorized_complete]. Qed.

(** A lane is protected only on a signed [true]: for an authorized token
    the lane of a hot machine is [Protected] exactly when the claim says so,
    and a profile that requires a protected ref is never served in the
    unprotected lane. *)
Theorem authorized_lane c profile request :
  ensure_authorized c profile request = Ok tt ->
  (from_ref_protected (is_ref_protected c) = Protected <-> fc_ref_protected c = "true") /\
  (p_require_protected_ref profile = true -> from_ref_protected (is_ref_protected c) = Protected).
Proof.
  intros H%ensure_authorized_sound.
  assert (is_ref_protected c = true <-> fc_ref_protected c = "true") as Hp.
  { unfold is_ref_protected. rewrite <- parse_bool_true.
    destruct (parse_bool _) as [[]|]; simpl; naive_solver. }
  assert (from_ref_protected (is_ref_protected c) = Protected <-> is_ref_protected c = true) as ->
    by (by destruct (is_ref_protected c)).
  split; [done|]. intros Hr. apply Hp.
  destruct H as (_ & _ & _ & _ & _ & _ & _ & _ & _ & _ & Hprot & _). auto.
Qed.

Lemma authorized_lane_witness :
  from_ref_protected (is_ref_protected example_claims) = Protected <->
  fc_ref_protected example_claims = "true".
Proof.
  refine (proj1 (authorized_lane example_claims example_profile example_request _)).
  vm_compute. reflexivity.
Defined.

(** Normalization is idempotent, leaves a full ref alone, and rewrites a
    scheduled run's short branch name consistently in the ref, the subject and
    the workflow reference. *)
Theorem normalized_consistent c :
  normalized (normalized c) = normalized c /\
  (starts_with (fc_git_ref c) "refs/" = true -> normalized c = c) /\
  (forall branch stem repo file,
     fc_git_ref c = branch -> is_empty branch = false -> starts_with branch "refs/" = false ->
     fc_sub c = stem +:+ ":ref:" +:+ branch ->
     fc_workflow_ref c = repo +:+ "/.forgejo/workflows/" +:+ file +:+ "@" +:+ branch ->
     let full := "refs/heads/" +:+ branch in
     fc_git_ref (normalized c) = full /\
     fc_sub (normalized c) = stem +:+ ":ref:" +:+ full /\
     fc_workflow_ref (normalized c) = repo +:+ "/.forgejo/workflows/" +:+ file +:+ "@" +:+ full).
Proof.
  assert (Hfix : forall d, starts_with (fc_git_ref d) "refs/" = true -> normalized d = d).
  { intros d Hd. unfold normalized. by rewrite Hd, orb_true_r. }
  split; [|split; [apply Hfix|]].
  - destruct (is_empty (fc_git_ref c) || starts_with (fc_git_ref c) "refs/") eqn:Hg.
    { assert (normalized c = c) as -> by (unfold normalized; by rewrite Hg).
      unfold normalized. by rewrite Hg. }
    apply Hfix. unfold normalized. rewrite Hg. simpl.
    apply starts_with_spec. exists ("heads/" +:+ fc_git_ref c). done.
  - intros branch stem repo file Hb Hne Hnr Hsub Hwf. unfold normalized.
    rewrite Hb, Hne, Hnr. simpl.
    assert (strip_suffix (fc_sub c) (":ref:" +:+ branch) = Some stem) as ->
      by (by apply strip_suffix_spec).
    assert (strip_suffix (fc_workflow_ref c) ("@" +:+ branch)
      = Some (repo +:+ "/.forgejo/workflows/" +:+ file)) as ->.
    { apply strip_suffix_spec. by rewrite Hwf, <- !string_app_assoc. }
    simpl. repeat split. by rewrite <- !string_app_assoc.
Qed.
