(* ===== verification/Sizing.v ===== *)
(** * Sizing and mode
    ([crates/flanforge-core/src/allocation/sizing.rs],
     [crates/flanforge-core/src/hot/request.rs])

    What a request selects beneath its profile: the guest size, the boot mode
    and the lifetime of a retained machine.  Values above a ceiling are
    rejected, never clamped. *)

From S2P Require Import Prelude Rust Text Identifiers Images Guest Hot Allocation Config ConfigValidate.

Open Scope Z_scope.
Open Scope stdpp_scope.

Record RequestOptions := {
  ro_warm : bool;
  ro_hot : HotRequest;
  ro_cpu_count : option Z;
  ro_memory_mb : option Z;
}.

Inductive SizeCeilingError := SizeCeiling.
Inductive HotCeilingError := HotCeiling.

Definition resolve_size (options : RequestOptions) (profile : Profile) :
    result SizeCeilingError GuestSize :=
  let cpu := default (p_cpu_count profile) (ro_cpu_count options) in
  let memory := default (p_memory_mb profile) (ro_memory_mb options) in
  if (p_cpu_count profile <? cpu) || (p_memory_mb profile <? memory) then Err SizeCeiling
  else Ok {| cpu_count := cpu; memory_mb := memory; storage_mb := p_storage_mb profile |}.

Definition is_producer (profile : Profile) (workflow_file : string) : bool :=
  negb (is_none (p_warm_template profile))
  && match p_regeneration_workflow profile with
     | Some declared => bool_decide (declared = workflow_file)
     | None => false
     end.

Definition resolve_mode (options : RequestOptions) (profile : Profile) (workflow_file : string) :
    AllocationMode :=
  if is_producer profile workflow_file then Regenerate
  else if ro_warm options || is_retaining (ro_hot options) then Warm
  else Cold.

Definition resolve_hot_age (request : HotRequest) (profile : Profile) :
    result HotCeilingError (option Z) :=
  match request with
  | Retain (Some age_seconds) =>
      match enabled_hot profile with
      | Some hot =>
          if hc_max_lifetime_seconds hot <? age_seconds then Err HotCeiling
          else Ok (Some age_seconds)
      | None => Ok None
      end
  | Retain None | Untouched | Evict => Ok None
  end.

(** ** Lemmas *)

Lemma resolve_size_ok options profile size :
  resolve_size options profile = Ok size <->
  cpu_count size = default (p_cpu_count profile) (ro_cpu_count options) /\
  memory_mb size = default (p_memory_mb profile) (ro_memory_mb options) /\
  storage_mb size = p_storage_mb profile /\
  cpu_count size <= p_cpu_count profile /\ memory_mb size <= p_memory_mb profile.
Proof.
  unfold resolve_size. destruct size as [cpu mem sto]; simpl.
  destruct (p_cpu_count profile <? default _ _) eqn:H1; simpl;
    [| destruct (p_memory_mb profile <? default _ _) eqn:H2; simpl]; simplify_bool.
  - split; [done | lia].
  - split; [done | lia].
  - split; [intros [= <- <- <-]; auto | intros (-> & -> & -> & _); done].
Qed.

(** ** Properties *)

(** Sizing under a valid profile: an accepted request gets exactly what it
    named (the profile fills what it omitted), never more than the profile; a
    request above a ceiling is refused rather than clamped; and when the
    request names only values the API admits, the resolved size validates. *)
Theorem resolve_size_ceiling options name profile prefix :
  profile_valid name profile prefix ->
  (forall size, resolve_size options profile = Ok size ->
     cpu_count size = default (p_cpu_count profile) (ro_cpu_count options) /\
     memory_mb size = default (p_memory_mb profile) (ro_memory_mb options) /\
     cpu_count size <= p_cpu_count profile /\ memory_mb size <= p_memory_mb profile /\
     (option_all (Z.leb 1) (ro_cpu_count options) = true ->
      option_all (Z.leb 2048) (ro_memory_mb options) = true -> validate_size size = true)) /\
  (resolve_size options profile = Err SizeCeiling <->
     (exists cpu, ro_cpu_count options = Some cpu /\ p_cpu_count profile < cpu) \/
     (exists memory, ro_memory_mb options = Some memory /\ p_memory_mb profile < memory)).
Proof.
  intros Hp. destruct Hp as [_ _ _ _ _ _ _ Hcpu Hmem Hsto _]. split.
  - intros size (Hc & Hm & Hs & Hlc & Hlm)%resolve_size_ok. repeat split; try done.
    intros Hoc Hom. unfold validate_size, MAX_STORAGE_MB.
    rewrite !andb_true_iff, !in_range_spec, Hs.
    destruct (ro_cpu_count options), (ro_memory_mb options); simpl in *; simplify_bool; lia.
  - unfold resolve_size. split.
    + case_match eqn:Hg; [|done]. intros _. apply orb_true_iff in Hg.
      destruct (ro_cpu_count options) as [cpu|], (ro_memory_mb options) as [memory|];
        simpl in Hg; rewrite !Z.ltb_lt in Hg; try lia; naive_solver lia.
    + intros [(cpu & -> & Hlt)|(memory & -> & Hlt)]; simpl.
      * by rewrite (proj2 (Z.ltb_lt _ _) Hlt).
      * by rewrite (proj2 (Z.ltb_lt _ _) Hlt), orb_true_r.
Qed.

Definition small_options : RequestOptions :=
  {| ro_warm := false; ro_hot := Untouched; ro_cpu_count := Some 2; ro_memory_mb := None |}.

Lemma example_profile_valid : profile_valid "linux" example_profile "ff-".
Proof. apply (ensure_profile_valid _ _ _ tt). vm_compute. reflexivity. Qed.

Lemma resolve_size_ceiling_witness :
  resolve_size small_options example_profile = Err SizeCeiling <->
  (exists cpu, ro_cpu_count small_options = Some cpu /\ p_cpu_count example_profile < cpu) \/
  (exists memory, ro_memory_mb small_options = Some memory /\
     p_memory_mb example_profile < memory).
Proof.
  apply (resolve_size_ceiling small_options "linux" example_profile "ff-").
  exact example_profile_valid.
Defined.

(** The boot mode never lets a request choose regeneration: it is
    [Regenerate] exactly when the verified workflow file is the one the
    profile declares as the producer of its warm image, whatever the body
    says, and a regeneration therefore never boots warm. *)
Theorem resolve_mode_spec options profile workflow_file :
  (resolve_mode options profile workflow_file = Regenerate <->
     is_Some (p_warm_template profile) /\
     p_regeneration_workflow profile = Some workflow_file) /\
  (resolve_mode options profile workflow_file = Warm <->
     ~ (is_Some (p_warm_template profile) /\
        p_regeneration_workflow profile = Some workflow_file) /\
     (ro_warm options = true \/ exists age, ro_hot options = Retain age)).
Proof.
  unfold resolve_mode.
  assert (is_producer profile workflow_file = true <->
    is_Some (p_warm_template profile) /\
    p_regeneration_workflow profile = Some workflow_file) as Hp.
  { unfold is_producer. destruct (p_warm_template profile), (p_regeneration_workflow profile);
      simpl; unfold is_Some; try rewrite bool_decide_eq_true; naive_solver. }
  assert (is_retaining (ro_hot options) = true <-> exists age, ro_hot options = Retain age) as Hr.
  { destruct (ro_hot options); simpl; naive_solver. }
  destruct (is_producer profile workflow_file) eqn:Hpe.
  - naive_solver.
  - destruct (ro_warm options), (is_retaining (ro_hot options)) eqn:Hre; simpl; naive_solver.
Qed.

(** A run's own hot lifetime is granted exactly as asked or refused: on a
    profile with hot enabled it never exceeds the ceiling and is never
    clamped, and a profile without hot ignores it instead of failing. *)
Theorem resolve_hot_age_ceiling request profile :
  (forall age, resolve_hot_age request profile = Ok (Some age) <->
     request = Retain (Some age) /\
     exists hot, enabled_hot profile = Some hot /\ age <= hc_max_lifetime_seconds hot) /\
  (resolve_hot_age request profile = Err HotCeiling <->
     exists age hot, request = Retain (Some age) /\ enabled_hot profile = Some hot /\
       hc_max_lifetime_seconds hot < age).
Proof.
  unfold resolve_hot_age. destruct request as [|[age|]|]; try naive_solver.
  destruct (enabled_hot profile) as [hot|]; [|naive_solver].
  destruct (hc_max_lifetime_seconds hot <? age) eqn:H; simplify_bool; naive_solver lia.
Qed.
