(* ===== verification/Admission.v ===== *)
(** * Admission ([crates/flanforge-manager/src/admission],
    [worker/model.rs], [error.rs], the entry table of [service.rs])

    The live entries, the host's machines, and the folds [ensure_capacity]
    makes over them: what is committed, foreign, orphaned and pooled, and when
    one more guest is admitted.  The entry table is a [HashMap]; whatever order
    it iterates in is a parameter. *)

From S2P Require Import Prelude Rust Text Identifiers Images Guest Hot Allocation Config ConfigValidate Claims.

Open Scope Z_scope.
Open Scope stdpp_scope.

(** ** Machines *)

Inductive MachineState := MRunning | MStopped | MOther.
Inductive MachineOwnership := Owned | Foreign | UnknownOwner.

#[export] Instance MachineState_eq_dec : EqDecision MachineState.
Proof. solve_decision. Defined.
#[export] Instance MachineOwnership_eq_dec : EqDecision MachineOwnership.
Proof. solve_decision. Defined.

Record HostMachine := {
  hm_name : string;
  hm_state : MachineState;
  hm_age_seconds : option Z;
  hm_size : option GuestSize;
  hm_ownership : MachineOwnership;
}.

Definition is_running (m : HostMachine) : bool := bool_decide (hm_state m = MRunning).

(** ** Errors *)

Inductive BusyReason := Serialized | Slots | Budget | ProbeFailed | Regenerating.

#[export] Instance BusyReason_eq_dec : EqDecision BusyReason.
Proof. solve_decision. Defined.

(** A store failure: a database error, or a row that does not validate. *)
Inductive StoreError := StoreIo | StoreInvalid.

#[export] Instance StoreError_eq_dec : EqDecision StoreError.
Proof. solve_decision. Defined.

Inductive WorkerError :=
| WorkerFailed (message : string)
| WorkerCapacity (message : string).

#[export] Instance WorkerError_eq_dec : EqDecision WorkerError.
Proof. solve_decision. Defined.

Definition worker_error_new (message : string) : WorkerError :=
  WorkerFailed (bounded_text message 512).

Definition worker_error_capacity (message : string) : WorkerError :=
  WorkerCapacity (bounded_text message 512).

Definition is_capacity (e : WorkerError) : bool :=
  match e with WorkerCapacity _ => true | WorkerFailed _ => false end.

Inductive ManagerError :=
| UnknownProfile (name : string)
| Busy (reason : BusyReason) (holder : option AllocationId)
| NotFound (id : AllocationId)
| DuplicateAllocation (id : AllocationId)
| InvalidVmName (message : string)
| UnknownHotGuest (name : string)
| InvalidRunnerLabel (message : string)
| RequestExceedsProfile
| InvalidRequest
| ShuttingDown
| InvalidRunnerId
| AuthorizationE (e : AuthorizationError)
| TransitionE (e : StateTransitionError)
| HotTransitionE (e : HotTransitionError)
| StoreE (e : StoreError)
| WorkerE (e : WorkerError).

#[export] Instance ManagerError_eq_dec : EqDecision ManagerError.
Proof. solve_decision. Defined.

Definition busy (reason : BusyReason) (holder : option AllocationId) : ManagerError :=
  Busy reason holder.

(** ** Entries

    [e_sent] is the value last pushed through the entry's watch channel and
    [e_cancelled] whether its cancellation token has fired. *)

Record Entry := mkEntry {
  e_allocation : Allocation;
  e_sent : Allocation;
  e_cancelled : bool;
  e_is_supervised : bool;
  e_is_terminalizing : bool;
}.

#[export] Instance Entry_eta : Eta Entry := fun e =>
  mkEntry (e_allocation e) (e_sent e) (e_cancelled e) (e_is_supervised e)
    (e_is_terminalizing e).

Record CommittedCapacity := {
  cc_active : Z;      (* usize *)
  cc_cpu_count : Z;   (* u32 *)
  cc_memory_mb : Z;   (* u32 *)
  cc_storage_mb : Z;  (* u64 *)
}.

Definition no_capacity : CommittedCapacity :=
  {| cc_active := 0; cc_cpu_count := 0; cc_memory_mb := 0; cc_storage_mb := 0 |}.

(** One more guest, every dimension saturating at its width. *)
Definition charge (total : CommittedCapacity) (size : GuestSize) : CommittedCapacity :=
  {| cc_active := cc_active total + 1;
     cc_cpu_count := sat_add u32_max (cc_cpu_count total) (cpu_count size);
     cc_memory_mb := sat_add u32_max (cc_memory_mb total) (memory_mb size);
     cc_storage_mb := sat_add u64_max (cc_storage_mb total) (storage_mb size) |}.

Section admission.
Context {HO : HashOrder}.
Implicit Types entries : gmap string Entry.

(** [entries.values().map(|entry| &entry.allocation)]. *)
Definition allocations entries : list Allocation := map e_allocation (hash_values entries).

Definition active_allocations entries : list Allocation :=
  List.filter (fun a => negb (is_terminal (a_state a))) (allocations entries).

Definition is_live_producer (profile : ProfileName) (a : Allocation) : bool :=
  negb (is_terminal (a_state a)) && bool_decide (a_mode a = Regenerate)
  && bool_decide (rq_profile (a_request a) = profile).

Definition ensure_sole_producer entries (profile : ProfileName) (mode : AllocationMode) :
    result ManagerError unit :=
  if negb (bool_decide (mode = Regenerate)) then Ok tt
  else match List.find (is_live_producer profile) (allocations entries) with
       | Some holder => Err (busy Regenerating (Some (a_id holder)))
       | None => Ok tt
       end.

(** [is_owned_name]. *)
Definition is_owned_name (m : HostMachine) (names : gset string) : bool :=
  bool_decide (hm_ownership m = Owned) && bool_decide (hm_name m ∈ names).

Definition hot_names (hot : list HotGuest) (machines : list HostMachine) : gset string :=
  let owned : gset string := list_to_set (map hm_name (List.filter (fun m =>
    is_running m && bool_decide (hm_ownership m = Owned)) machines)) in
  list_to_set (List.filter (fun name => bool_decide (name ∈ owned))
    (map hg_vm_name (List.filter (fun g => is_holding_machine (hg_state g)) hot))).

Definition active_names (active : list Allocation) : gset string :=
  list_to_set (map a_vm_name active).

(** A running machine no live entry and no pool record accounts for. *)
Definition is_unaccounted (owned hot : gset string) (m : HostMachine) : bool :=
  is_running m && negb (is_owned_name m owned) && negb (bool_decide (hm_name m ∈ hot)).

Definition foreign_running (active : list Allocation) (machines : list HostMachine)
    (hot : gset string) : Z :=
  Z.of_nat (Datatypes.length (List.filter (is_unaccounted (active_names active) hot) machines)).

Definition terminal_created (a : Allocation) : bool :=
  is_terminal (a_state a) && a_vm_created a.

(** The loop body of [foreign_capacity]. *)
Definition charge_foreign (acc : CommittedCapacity * bool) (m : HostMachine) :
    CommittedCapacity * bool :=
  match hm_size m with
  | Some size => (charge acc.1 size, acc.2)
  | None => (acc.1, true)
  end.

Definition foreign_capacity entries (active : list Allocation) (machines : list HostMachine)
    (hot : gset string) : CommittedCapacity * bool :=
  let active := active_names active in
  let terminal : gset string :=
    list_to_set (map a_vm_name (List.filter terminal_created (allocations entries))) in
  fold_left charge_foreign
    (List.filter (fun m => is_unaccounted active hot m && negb (is_owned_name m terminal)) machines)
    (no_capacity, false).

Definition profile_size (config : Config) (name : ProfileName) : option GuestSize :=
  option_map (fun p => {| cpu_count := p_cpu_count p; memory_mb := p_memory_mb p;
                          storage_mb := p_storage_mb p |})
    (c_profiles config !! name).

Definition larger (largest : GuestSize) (p : Profile) : GuestSize :=
  {| cpu_count := Z.max (cpu_count largest) (p_cpu_count p);
     memory_mb := Z.max (memory_mb largest) (p_memory_mb p);
     storage_mb := Z.max (storage_mb largest) (p_storage_mb p) |}.

Definition largest_profile_size (config : Config) : option GuestSize :=
  match map snd (btree_list (c_profiles config)) with
  | [] => None
  | first :: rest =>
      Some (fold_left larger rest
              {| cpu_count := p_cpu_count first; memory_mb := p_memory_mb first;
                 storage_mb := p_storage_mb first |})
  end.

Definition charged_size (config : Config) (a : Allocation) : option GuestSize :=
  match a_size a with
  | Some size => Some size
  | None =>
      match profile_size config (rq_profile (a_request a)) with
      | Some size => Some size
      | None => largest_profile_size config
      end
  end.

(** The fold's CPU sum is a plain [u32] addition; [committed_cpu_bounded]
    shows it cannot overflow. *)
Definition committed_step (total : CommittedCapacity) (size : GuestSize) : CommittedCapacity :=
  {| cc_active := cc_active total;
     cc_cpu_count := cc_cpu_count total + cpu_count size;
     cc_memory_mb := sat_add u32_max (cc_memory_mb total) (memory_mb size);
     cc_storage_mb := sat_add u64_max (cc_storage_mb total) (storage_mb size) |}.

Definition committed_capacity (active : list Allocation) (config : Config) : CommittedCapacity :=
  fold_left committed_step (omap (charged_size config) active)
    {| cc_active := Z.of_nat (Datatypes.length active); cc_cpu_count := 0;
       cc_memory_mb := 0; cc_storage_mb := 0 |}.

Definition orphans entries (active : list Allocation) (machines : list HostMachine)
    (hot : gset string) : list Allocation :=
  omap (fun m =>
      List.find (fun held => terminal_created held && bool_decide (a_vm_name held = hm_name m))
        (allocations entries))
    (List.filter (fun m => is_unaccounted (active_names active) hot m
                           && bool_decide (hm_ownership m = Owned)) machines).

Definition orphan_capacity entries (active : list Allocation) (machines : list HostMachine)
    (config : Config) (hot : gset string) : CommittedCapacity :=
  committed_capacity (orphans entries active machines hot) config.

(** Both names an active allocation can hold. *)
Definition held_names (a : Allocation) : list string :=
  a_vm_name a :: match hot_vm_name (a_origin a) with Some n => [n] | None => [] end.

Definition is_pool_charged (hot : gset string) (claimed : gset string) (g : HotGuest) : bool :=
  is_holding_machine (hg_state g)
  && (bool_decide (hg_vm_name g ∈ hot) || bool_decide (hg_state g = Provisioning))
  && negb (bool_decide (hg_vm_name g ∈ claimed)).

Definition hot_capacity (hot : list HotGuest) (active : list Allocation) (names : gset string) :
    CommittedCapacity :=
  let claimed : gset string := list_to_set (active ≫= held_names) in
  fold_left (fun total g => charge total (hg_size g))
    (List.filter (is_pool_charged names claimed) hot) no_capacity.

Definition is_hot_configured (config : Config) : bool :=
  (0 <? rt_max_hot_vms (c_runtime config))
  || existsb (fun entry => match enabled_hot entry.2 with Some _ => true | None => false end)
       (btree_list (c_profiles config)).

Definition hot_snapshot (loaded : result StoreError (list HotGuest)) (config : Config) :
    result ManagerError (list HotGuest) :=
  match loaded with
  | Ok hot => Ok hot
  | Err _ => if is_hot_configured config then Err (busy ProbeFailed None) else Ok []
  end.

(** The five summands of a dimension, added left to right and saturating. *)
Definition saturating_total (max committed orphaned foreign pooled requested : Z) : Z :=
  sat_add max (sat_add max (sat_add max (sat_add max committed orphaned) foreign) pooled)
    requested.

Definition storage_reserve (config : Config) : Z :=
  match libvirt (c_runtime config) with Some lv => lv_min_storage_free_mb lv | None => 0 end.

Definition ensure_capacity entries (config : Config) (requested : GuestSize)
    (machines : list HostMachine) (hot : list HotGuest) : result ManagerError unit :=
  let active := active_allocations entries in
  let holder := option_map a_id (head active) in
  let names := hot_names hot machines in
  let foreign := foreign_running active machines names in
  let committed := committed_capacity active config in
  let orphaned := orphan_capacity entries active machines config names in
  let pooled := hot_capacity hot active names in
  let '(fcap, has_unknown_foreign_size) := foreign_capacity entries active machines names in
  if rt_max_running_vms (c_runtime config) <? foreign + cc_active committed + cc_active pooled + 1
  then Err (busy Slots holder)
  else
    match rt_host_cpu_count (c_runtime config), rt_host_memory_mb (c_runtime config) with
    | Some host_cpu_count, Some host_memory_mb =>
        if has_unknown_foreign_size then Err (busy Budget holder)
        else
          let cpu := saturating_total u32_max (cc_cpu_count committed) (cc_cpu_count orphaned)
                       (cc_cpu_count fcap) (cc_cpu_count pooled) (cpu_count requested) in
          let memory := saturating_total u32_max (cc_memory_mb committed)
                          (cc_memory_mb orphaned) (cc_memory_mb fcap) (cc_memory_mb pooled)
                          (memory_mb requested) in
          let storage := saturating_total u64_max (cc_storage_mb committed)
                           (cc_storage_mb orphaned) (cc_storage_mb fcap) (cc_storage_mb pooled)
                           (storage_mb requested) in
          let reserved := sat_add u64_max storage (storage_reserve config) in
          if (host_cpu_count <? cpu) || (host_memory_mb <? memory)
             || match rt_host_storage_mb (c_runtime config) with
                | Some host => host <? reserved
                | None => false
                end
          then Err (busy Budget holder)
          else Ok tt
    | _, _ => if cc_active committed =? 0 then Ok tt else Err (busy Serialized holder)
    end.
End admission.

(** [floored]: the declared disk, raised to the base's virtual size. *)
Definition floored (size : GuestSize) (base_mb : Z) : GuestSize :=
  {| cpu_count := cpu_count size; memory_mb := memory_mb size;
     storage_mb := Z.max (storage_mb size) (Z.min base_mb MAX_STORAGE_MB) |}.

(** ** What admission promises

    The guests one admission accounts for, as a plain list of sizes: those of
    the live allocations, of the orphans, of the foreign machines that report a
    size, of the pool, and the request itself.  The specification is stated
    over their true (unbounded) sums. *)

Definition sum_by {A} (f : A -> Z) (l : list A) : Z := foldr (fun x acc => f x + acc) 0 l.

Definition size_nonneg (s : GuestSize) : Prop :=
  0 <= cpu_count s /\ 0 <= memory_mb s /\ 0 <= storage_mb s.

Section accounting.
Context {HO : HashOrder}.
Variables (entries : gmap string Entry) (config : Config) (requested : GuestSize)
  (machines : list HostMachine) (hot : list HotGuest).

Definition names_held : gset string := hot_names hot machines.
Definition active : list Allocation := active_allocations entries.

Definition foreign_machines : list HostMachine :=
  List.filter (is_unaccounted (active_names active) names_held) machines.

(** Foreign machines no terminal record of ours explains. *)
Definition strangers : list HostMachine :=
  List.filter (fun m => is_unaccounted (active_names active) names_held m
      && negb (is_owned_name m (list_to_set (map a_vm_name
           (List.filter terminal_created (allocations entries)))))) machines.

Definition pool_guests : list HotGuest :=
  List.filter (is_pool_charged names_held (list_to_set (active ≫= held_names))) hot.

Definition guests_charged : list GuestSize :=
  omap (charged_size config) active
  ++ omap (charged_size config) (orphans entries active machines names_held)
  ++ omap hm_size strangers ++ map hg_size pool_guests ++ [requested].

(** Slots in use once the request runs. *)
Definition slots_used : Z :=
  Z.of_nat (Datatypes.length foreign_machines) + Z.of_nat (Datatypes.length active)
  + Z.of_nat (Datatypes.length pool_guests) + 1.

Definition fits_budget (host_cpu host_memory : Z) : Prop :=
  Forall (fun m => is_Some (hm_size m)) strangers /\
  sum_by cpu_count guests_charged <= host_cpu /\
  sum_by memory_mb guests_charged <= host_memory /\
  (forall host_storage, rt_host_storage_mb (c_runtime config) = Some host_storage ->
    sum_by storage_mb guests_charged + storage_reserve config <= host_storage).

Definition admissible : Prop :=
  slots_used <= rt_max_running_vms (c_runtime config) /\
  match rt_host_cpu_count (c_runtime config), rt_host_memory_mb (c_runtime config) with
  | Some host_cpu, Some host_memory => fits_budget host_cpu host_memory
  | _, _ => active = []
  end.
End accounting.

(** *** Lemmas *)

Lemma sum_by_app {A} (f : A -> Z) l k : sum_by f (l ++ k) = sum_by f l + sum_by f k.
Proof. induction l as [|x l IH]; simpl; [lia|]. unfold sum_by in *. simpl. lia. Qed.

Lemma sum_by_one {A} (f : A -> Z) x : sum_by f [x] = f x.
Proof. unfold sum_by. simpl. lia. Qed.

Lemma if_err_ok {E} (b : bool) (e : E) : (if b then Err e else Ok tt) = Ok tt <-> b = false.
Proof. by destruct b. Qed.

Lemma sum_by_nonneg {A} (f : A -> Z) l : Forall (fun x => 0 <= f x) l -> 0 <= sum_by f l.
Proof. induction 1; unfold sum_by in *; simpl; lia. Qed.

Lemma fold_sat {A} (max : Z) (f : A -> Z) l acc :
  Forall (fun x => 0 <= f x) l -> acc <= max ->
  fold_left (fun t x => sat_add max t (f x)) l acc = Z.min max (acc + sum_by f l).
Proof.
  intros Hl. revert acc. induction Hl as [|x l Hx Hl IH]; intros acc Hacc; simpl.
  - unfold sum_by; simpl. lia.
  - rewrite IH by apply sat_add_le_max. pose proof (sum_by_nonneg f l Hl).
    unfold sum_by in *; simpl. unfold sat_add. lia.
Qed.

(** Projecting a component out of a fold over the capacity record. *)
Lemma fold_project {A B C} (step : A -> B -> A) (proj : A -> C) (step' : C -> B -> C) l acc :
  (forall a b, proj (step a b) = step' (proj a) b) ->
  proj (fold_left step l acc) = fold_left step' l (proj acc).
Proof.
  intros H. revert acc. induction l as [|x l IH]; intros acc; simpl; [done|].
  by rewrite IH, H.
Qed.

Lemma fold_const {A B} (l : list B) (acc : A) : fold_left (fun t _ => t) l acc = acc.
Proof. by induction l. Qed.

Lemma fold_plain {A} (f : A -> Z) l acc :
  fold_left (fun t x => t + f x) l acc = acc + sum_by f l.
Proof.
  revert acc. induction l as [|x l IH]; intros acc; simpl; [lia|]. rewrite IH.
  unfold sum_by. simpl. lia.
Qed.

Lemma fold_count {A} (l : list A) acc :
  fold_left (fun t _ => t + 1) l acc = acc + Z.of_nat (Datatypes.length l).
Proof. revert acc. induction l as [|x l IH]; intros acc; simpl; [lia|]. rewrite IH. lia. Qed.

Lemma size_nonneg_parts l :
  Forall size_nonneg l ->
  Forall (fun s => 0 <= cpu_count s) l /\ Forall (fun s => 0 <= memory_mb s) l /\
  Forall (fun s => 0 <= storage_mb s) l.
Proof. intros H. repeat split; (eapply Forall_impl; [exact H|]; by intros ? (? & ? & ?)). Qed.

Lemma committed_capacity_sums active config :
  Forall size_nonneg (omap (charged_size config) active) ->
  let c := committed_capacity active config in
  let l := omap (charged_size config) active in
  cc_active c = Z.of_nat (Datatypes.length active) /\
  cc_cpu_count c = sum_by cpu_count l /\
  cc_memory_mb c = Z.min u32_max (sum_by memory_mb l) /\
  cc_storage_mb c = Z.min u64_max (sum_by storage_mb l).
Proof.
  intros (Hc & Hm & Hs)%size_nonneg_parts. simpl. unfold committed_capacity. repeat split.
  - rewrite (fold_project _ _ (fun t _ => t)) by done. apply fold_const.
  - rewrite (fold_project _ _ (fun t x => t + cpu_count x)) by done. by rewrite fold_plain.
  - rewrite (fold_project _ _ (fun t x => sat_add u32_max t (memory_mb x))) by done.
    by rewrite fold_sat by (done || (simpl; unfold u32_max; lia)).
  - rewrite (fold_project _ _ (fun t x => sat_add u64_max t (storage_mb x))) by done.
    by rewrite fold_sat by (done || (simpl; unfold u64_max; lia)).
Qed.

(** Charging sizes with saturation in every dimension. *)
Lemma charge_sums l :
  Forall size_nonneg l ->
  let c := fold_left charge l no_capacity in
  cc_active c = Z.of_nat (Datatypes.length l) /\
  cc_cpu_count c = Z.min u32_max (sum_by cpu_count l) /\
  cc_memory_mb c = Z.min u32_max (sum_by memory_mb l) /\
  cc_storage_mb c = Z.min u64_max (sum_by storage_mb l).
Proof.
  intros (Hc & Hm & Hs)%size_nonneg_parts. simpl. repeat split.
  - rewrite (fold_project _ _ (fun t _ => t + 1)) by done. rewrite fold_count. simpl. lia.
  - rewrite (fold_project _ _ (fun t x => sat_add u32_max t (cpu_count x))) by done.
    by rewrite fold_sat by (done || (simpl; unfold u32_max; lia)).
  - rewrite (fold_project _ _ (fun t x => sat_add u32_max t (memory_mb x))) by done.
    by rewrite fold_sat by (done || (simpl; unfold u32_max; lia)).
  - rewrite (fold_project _ _ (fun t x => sat_add u64_max t (storage_mb x))) by done.
    by rewrite fold_sat by (done || (simpl; unfold u64_max; lia)).
Qed.

Lemma charge_foreign_fold machines acc :
  fold_left charge_foreign machines acc =
  (fold_left charge (omap hm_size machines) acc.1,
   acc.2 || existsb (fun m => negb (bool_decide (is_Some (hm_size m)))) machines).
Proof.
  revert acc. induction machines as [|m l IH]; intros [c u]; simpl.
  - by rewrite orb_false_r.
  - rewrite IH. unfold charge_foreign. destruct (hm_size m) as [s|]; simpl.
    + done.
    + by rewrite orb_true_r.
Qed.

Lemma hot_charge_fold (l : list HotGuest) acc :
  fold_left (fun total g => charge total (hg_size g)) l acc = fold_left charge (map hg_size l) acc.
Proof. revert acc. induction l as [|g l IH]; intros acc; simpl; [done|]. apply IH. Qed.

Lemma existsb_unsized machines :
  existsb (fun m => negb (bool_decide (is_Some (hm_size m)))) machines = false <->
  Forall (fun m => is_Some (hm_size m)) machines.
Proof.
  induction machines as [|m l IH]; simpl.
  - by split.
  - rewrite orb_false_iff, negb_false_iff, bool_decide_eq_true, IH, Forall_cons. done.
Qed.

Lemma sat_add_min max a b :
  0 <= max -> 0 <= a -> 0 <= b -> sat_add max (Z.min max a) (Z.min max b) = Z.min max (a + b).
Proof. unfold sat_add. lia. Qed.

Lemma sat_add_min_l max a b :
  0 <= max -> 0 <= a -> 0 <= b -> sat_add max (Z.min max a) b = Z.min max (a + b).
Proof. unfold sat_add. lia. Qed.

Lemma sat_add_min_r max a b :
  0 <= max -> 0 <= a -> 0 <= b -> sat_add max a (Z.min max b) = Z.min max (a + b).
Proof. unfold sat_add. lia. Qed.

Lemma saturating_total_min max a b c d e :
  0 <= max -> 0 <= a -> 0 <= b -> 0 <= c -> 0 <= d -> 0 <= e ->
  saturating_total max (Z.min max a) (Z.min max b) (Z.min max c) (Z.min max d) e
  = Z.min max (a + b + c + d + e).
Proof.
  intros. unfold saturating_total. rewrite !sat_add_min, sat_add_min_l by lia. done.
Qed.

Lemma saturating_total_plain max a b c d e :
  0 <= max -> 0 <= a -> 0 <= b -> 0 <= c -> 0 <= d -> 0 <= e ->
  saturating_total max a b (Z.min max c) (Z.min max d) e = Z.min max (a + b + c + d + e).
Proof.
  intros. unfold saturating_total.
  assert (sat_add max a b = Z.min max (a + b)) as -> by done.
  rewrite !sat_add_min, sat_add_min_l by lia. done.
Qed.

Section capacity.
Context {HO : HashOrder}.
Variables (entries : gmap string Entry) (config : Config) (requested : GuestSize)
  (machines : list HostMachine) (hot : list HotGuest).

Local Abbreviation guests := (guests_charged entries config requested machines hot).

(** The verdict of [ensure_capacity] on the true sums, for budgets that fit
    strictly inside their integer width. *)
Lemma ensure_capacity_admissible :
  Forall size_nonneg guests ->
  0 <= storage_reserve config ->
  (forall cpu, rt_host_cpu_count (c_runtime config) = Some cpu -> cpu < u32_max) ->
  (forall memory, rt_host_memory_mb (c_runtime config) = Some memory -> memory < u32_max) ->
  (forall storage, rt_host_storage_mb (c_runtime config) = Some storage -> storage < u64_max) ->
  ensure_capacity entries config requested machines hot = Ok tt <->
  admissible entries config requested machines hot.
Proof.
  unfold guests_charged. rewrite !Forall_app. intros (H1 & H2 & H3 & H4 & H5) Hres Hcpu Hmem Hsto.
  unfold ensure_capacity, admissible, slots_used.
  unfold foreign_capacity. rewrite charge_foreign_fold. cbn [fst snd orb].
  fold (active entries) in *. fold (names_held machines hot) in *.
  fold (strangers entries machines hot) in *.
  unfold hot_capacity. rewrite hot_charge_fold.
  fold (pool_guests entries machines hot) in *.
  destruct (committed_capacity_sums (active entries) config H1) as (Ca & Cc & Cm & Cs).
  destruct (committed_capacity_sums (orphans entries (active entries) machines
    (names_held machines hot)) config H2) as (_ & Oc & Om & Os).
  destruct (charge_sums _ H3) as (_ & Fc & Fm & Fs).
  destruct (charge_sums _ H4) as (Pa & Pc & Pm & Ps).
  unfold orphan_capacity. rewrite Ca, Pa, length_map.
  change (foreign_running (active entries) machines (names_held machines hot))
    with (Z.of_nat (Datatypes.length (foreign_machines entries machines hot))).
  destruct (Z.ltb_spec (rt_max_running_vms (c_runtime config))
    (Z.of_nat (Datatypes.length (foreign_machines entries machines hot))
     + Z.of_nat (Datatypes.length (active entries))
     + Z.of_nat (Datatypes.length (pool_guests entries machines hot)) + 1)) as [Hs|Hs].
  { split; [done | lia]. }
  destruct (rt_host_cpu_count (c_runtime config)) as [hc|];
    [destruct (rt_host_memory_mb (c_runtime config)) as [hm|]|];
    try (destruct (Z.eqb_spec (Z.of_nat (Datatypes.length (active entries))) 0) as [He|He];
         destruct (active entries); simpl in *; (done || lia || naive_solver lia)).
  specialize (Hcpu hc eq_refl). specialize (Hmem hm eq_refl).
  destruct (size_nonneg_parts _ H1) as (N1 & N2 & N3).
  destruct (size_nonneg_parts _ H2) as (N4 & N5 & N6).
  destruct (size_nonneg_parts _ H3) as (N7 & N8 & N9).
  destruct (size_nonneg_parts _ H4) as (N10 & N11 & N12).
  destruct (size_nonneg_parts _ H5) as (N13 & N14 & N15).
  apply Forall_cons in N13 as [N13 _], N14 as [N14 _], N15 as [N15 _].
  repeat match goal with H : Forall (fun _ => 0 <= _) _ |- _ => apply sum_by_nonneg in H end.
  unfold fits_budget, guests_charged. rewrite !sum_by_app.
  rewrite Cc, Oc, Fc, Pc, Cm, Om, Fm, Pm, Cs, Os, Fs, Ps.
  rewrite saturating_total_plain, !saturating_total_min by (unfold u32_max, u64_max; lia).
  rewrite sat_add_min_l by (unfold u64_max; lia).
  rewrite <- existsb_unsized, !sum_by_one.
  destruct (existsb _ (strangers entries machines hot)); [naive_solver|].
  rewrite if_err_ok, !orb_false_iff, !Z.ltb_ge.
  destruct (rt_host_storage_mb (c_runtime config)) as [hs|].
  - specialize (Hsto hs eq_refl). rewrite Z.ltb_ge. split.
    + intros [[? ?] ?]. repeat split; try lia. intros ? [= <-]. lia.
    + intros (? & _ & ? & ? & Hst). specialize (Hst hs eq_refl). lia.
  - split.
    + intros [[? ?] ?]. repeat split; lia || done.
    + intros (? & _ & ? & ? & _). lia.
Qed.
End capacity.

(** A plain [u32] sum of [u8] CPU counts cannot overflow below sixteen million
    live allocations; the entry table holds the live ones plus a bounded
    history. *)
Lemma committed_cpu_bounded active config :
  Forall (fun s => 0 <= cpu_count s <= 255) (omap (charged_size config) active) ->
  Z.of_nat (Datatypes.length active) <= 16843009 ->
  0 <= sum_by cpu_count (omap (charged_size config) active) <= u32_max.
Proof.
  intros H Hlen.
  assert (Datatypes.length (omap (charged_size config) active) <= Datatypes.length active)%nat as Hl.
  { clear. induction active as [|a l IH]; csimpl; [lia|].
    destruct (charged_size config a); csimpl; lia. }
  assert (0 <= sum_by cpu_count (omap (charged_size config) active)
    <= 255 * Z.of_nat (Datatypes.length (omap (charged_size config) active))) as Hs.
  { clear Hl Hlen. induction H as [|s l Hs Hl IH]; unfold sum_by in *; simpl; lia. }
  unfold u32_max. lia.
Qed.

(** The size admission charges and the record carries always validates. *)
Lemma floored_valid size base_mb :
  validate_size size = true -> validate_size (floored size base_mb) = true.
Proof.
  unfold validate_size, floored, MAX_STORAGE_MB. simpl.
  rewrite !andb_true_iff, !in_range_spec. lia.
Qed.

Lemma ensure_range_ok field value min max u :
  ensure_range field value min max = Ok u -> min <= value <= max.
Proof. unfold ensure_range. case_match eqn:H; [by apply in_range_spec in H | done]. Qed.

Lemma ensure_host_budget_bounds c u :
  ensure_host_budget_valid c = Ok u ->
  (forall cpu, rt_host_cpu_count (c_runtime c) = Some cpu -> 1 <= cpu <= 255) /\
  (forall memory, rt_host_memory_mb (c_runtime c) = Some memory -> 2048 <= memory <= 1048576) /\
  (forall storage, rt_host_storage_mb (c_runtime c) = Some storage ->
     16384 <= storage <= 16777216).
Proof.
  unfold ensure_host_budget_valid.
  destruct (rt_host_cpu_count (c_runtime c)) as [cpu|],
    (rt_host_memory_mb (c_runtime c)) as [mem|],
    (rt_host_storage_mb (c_runtime c)) as [sto|], (libvirt (c_runtime c)) as [lv|];
    cbn -[ensure_range try_for_each]; try case_bool_decide; cbn -[ensure_range try_for_each];
    try done; intros Hv; simplify_result;
    repeat match goal with
    | H : ensure_range _ _ _ _ = Ok _ |- _ => apply ensure_range_ok in H
    end; repeat split; intros; simplify_eq; try lia.
Qed.

Lemma ensure_backend_reserve c u :
  ensure_backend_valid c = Ok u -> 0 <= storage_reserve c.
Proof.
  unfold ensure_backend_valid, storage_reserve, libvirt.
  destruct (rt_backend (c_runtime c)) as [t|lv]; [done|].
  unfold ensure_libvirt_valid. intros H. simplify_result.
  repeat match goal with
  | H : ensure_range _ _ _ _ = Ok _ |- _ => apply ensure_range_ok in H
  end. lia.
Qed.

Lemma ensure_valid_budget sw c u :
  ensure_valid sw c = Ok u ->
  0 <= storage_reserve c /\
  (forall cpu, rt_host_cpu_count (c_runtime c) = Some cpu -> cpu < u32_max) /\
  (forall memory, rt_host_memory_mb (c_runtime c) = Some memory -> memory < u32_max) /\
  (forall storage, rt_host_storage_mb (c_runtime c) = Some storage -> storage < u64_max).
Proof.
  intros (_ & Hr & _)%ensure_valid_parts. unfold ensure_runtime_valid in Hr.
  simplify_result.
  match goal with H : ensure_backend_valid _ = _ |- _ => apply ensure_backend_reserve in H end.
  match goal with H : ensure_host_budget_valid _ = _ |- _ =>
    apply ensure_host_budget_bounds in H as (Hc & Hm & Hs) end.
  unfold u32_max, u64_max.
  repeat split; [done | intros ? ?%Hc; lia | intros ? ?%Hm; lia | intros ? ?%Hs; lia].
Qed.

(** ** Properties *)

Section properties.
Context {HO : HashOrder}.

(** C23: under a valid document, admission accepts a request exactly when it
    fits: with every running machine and pool machine counted once, one more
    guest stays within [max_running_vms]; and with a host budget, every
    foreign machine reports a size and the true (never saturated) CPU, memory
    and storage sums of all accounted guests, the request and the storage
    reserve included, stay within it; without a budget, nothing else is live. *)
Theorem ensure_capacity_spec sw config u entries requested machines hot :
  ensure_valid sw config = Ok u ->
  Forall size_nonneg (guests_charged entries config requested machines hot) ->
  ensure_capacity entries config requested machines hot = Ok tt <->
  admissible entries config requested machines hot.
Proof.
  intros (Hr & Hc & Hm & Hs)%ensure_valid_budget Hg.
  by apply ensure_capacity_admissible.
Qed.

(** A refusal always names one of three reasons, [Slots] exactly when the
    machine count is exhausted, [Serialized] only when no budget is set and
    something is live; and the holder it names, if any, is a live allocation. *)
Theorem ensure_capacity_refusal entries config requested machines hot e :
  ensure_capacity entries config requested machines hot = Err e ->
  exists reason holder, e = Busy reason holder /\
    (reason = Slots \/ reason = Budget \/ reason = Serialized) /\
    (reason = Slots <->
       rt_max_running_vms (c_runtime config) < slots_used entries machines hot) /\
    (reason = Serialized ->
       (rt_host_cpu_count (c_runtime config) = None \/ rt_host_memory_mb (c_runtime config) = None)
       /\ active_allocations entries <> []) /\
    (forall id, holder = Some id ->
       exists a, a ∈ active_allocations entries /\ a_id a = id).
Proof.
  assert (Hslots : foreign_running (active_allocations entries) machines (hot_names hot machines)
    + cc_active (committed_capacity (active_allocations entries) config)
    + cc_active (hot_capacity hot (active_allocations entries) (hot_names hot machines)) + 1
    = slots_used entries machines hot).
  { unfold committed_capacity, hot_capacity. rewrite hot_charge_fold.
    rewrite (fold_project committed_step _ (fun t _ => t)), fold_const by done.
    rewrite (fold_project charge _ (fun t _ => t + 1)), fold_count, length_map by done. done. }
  assert (Hlen : cc_active (committed_capacity (active_allocations entries) config)
    = Z.of_nat (Datatypes.length (active_allocations entries))).
  { unfold committed_capacity.
    by rewrite (fold_project committed_step _ (fun t _ => t)), fold_const by done. }
  assert (Hholder : forall id, option_map a_id (head (active_allocations entries)) = Some id ->
    exists a, a ∈ active_allocations entries /\ a_id a = id).
  { destruct (active_allocations entries) as [|a l]; simpl; intros id [= <-].
    exists a. split; [left | done]. }
  unfold ensure_capacity, busy. rewrite Hslots.
  destruct (foreign_capacity _ _ _ _) as [fcap unknown].
  destruct (Z.ltb_spec (rt_max_running_vms (c_runtime config)) (slots_used entries machines hot))
    as [Hs|Hs]; [intros [= <-]; eexists _, _; split; [done|]; naive_solver|].
  destruct (rt_host_cpu_count (c_runtime config)) as [hc|];
    [destruct (rt_host_memory_mb (c_runtime config)) as [hm|]|].
  - destruct unknown; [intros [= <-]; eexists _, _; split; [done|]; naive_solver lia|].
    case_match; [|done]. intros [= <-]. eexists _, _. split; [done|]. naive_solver lia.
  - rewrite Hlen. destruct (Z.eqb_spec (Z.of_nat (Datatypes.length (active_allocations entries))) 0)
      as [|Hne]; [done|]. intros [= <-]. eexists _, _. split; [done|].
    destruct (active_allocations entries); simpl in *; naive_solver lia.
  - rewrite Hlen. destruct (Z.eqb_spec (Z.of_nat (Datatypes.length (active_allocations entries))) 0)
      as [|Hne]; [done|]. intros [= <-]. eexists _, _. split; [done|].
    destruct (active_allocations entries); simpl in *; naive_solver lia.
Qed.

Lemma sole_producer_ok entries profile id e :
  ensure_sole_producer entries profile Regenerate = Ok tt ->
  entries !! id = Some e -> is_terminal (a_state (e_allocation e)) = false ->
  a_mode (e_allocation e) = Regenerate -> rq_profile (a_request (e_allocation e)) <> profile.
Proof.
  unfold ensure_sole_producer. simpl. destruct (List.find _ _) as [h|] eqn:Hf; [done|].
  intros _ Hlk Ht Hmo Hpr.
  eapply List.find_none in Hf; [| apply list_elem_of_In, list_elem_of_fmap; exists e;
    split; [done | apply elem_of_hash_values; eauto]].
  unfold is_live_producer in Hf. rewrite Ht in Hf. simpl in Hf.
  by rewrite !bool_decide_true in Hf by done.
Qed.

(** One producer per profile: a regeneration is admitted exactly when no
    live allocation of the profile is a regeneration. *)
Theorem ensure_sole_producer_spec entries profile mode :
  ensure_sole_producer entries profile mode = Ok tt <->
  (mode = Regenerate ->
   forall id e, entries !! id = Some e -> is_terminal (a_state (e_allocation e)) = false ->
     a_mode (e_allocation e) = Regenerate ->
     rq_profile (a_request (e_allocation e)) <> profile).
Proof.
  split; [intros H -> id e; by eapply sole_producer_ok|].
  unfold ensure_sole_producer. case_bool_decide as Hm; simpl; [|done]. intros H. specialize (H Hm).
  destruct (List.find _ _) as [h|] eqn:Hf; [|done].
  apply List.find_some in Hf as [Hin Hp]. unfold is_live_producer in Hp. simplify_bool.
  apply list_elem_of_In, list_elem_of_fmap in Hin as (e & -> & Hin).
  apply elem_of_hash_values in Hin as [id Hin]. naive_solver.
Qed.
End properties.

(** *** Concrete instances *)

Definition example_size : GuestSize := {| cpu_count := 4; memory_mb := 8192; storage_mb := 40960 |}.

Definition example_allocation : Allocation :=
  allocation_new 1000 "id-1" example_request "ff-linux-77-1" "linux-id" Cold example_size.

Definition example_entry : Entry :=
  {| e_allocation := example_allocation; e_sent := example_allocation; e_cancelled := false;
     e_is_supervised := true; e_is_terminalizing := false |}.

Definition example_entries : gmap string Entry := {[ "id-1" := example_entry ]}.

Definition example_machines : list HostMachine :=
  [ {| hm_name := "ff-linux-77-1"; hm_state := MRunning; hm_age_seconds := Some 60;
       hm_size := Some example_size; hm_ownership := Owned |};
    {| hm_name := "handmade"; hm_state := MRunning; hm_age_seconds := None;
       hm_size := Some example_size; hm_ownership := Foreign |} ].

Lemma ensure_capacity_spec_witness :
  ensure_capacity example_entries example_config example_size example_machines [idle_guest] = Ok tt
  <-> admissible example_entries example_config example_size example_machines [idle_guest].
Proof.
  apply (ensure_capacity_spec no_words example_config tt).
  - vm_compute. reflexivity.
  - vm_compute. repeat constructor; discriminate.
Defined.

Definition small_config : Config :=
  example_config <| c_runtime := (c_runtime example_config) <| rt_max_running_vms := 2 |> |>.

Lemma ensure_capacity_refusal_witness :
  exists reason holder, Busy Slots (Some "id-1") = Busy reason holder /\
    (reason = Slots \/ reason = Budget \/ reason = Serialized) /\
    (reason = Slots <->
       rt_max_running_vms (c_runtime small_config)
       < slots_used example_entries example_machines [idle_guest]) /\
    (reason = Serialized ->
       (rt_host_cpu_count (c_runtime small_config) = None \/
        rt_host_memory_mb (c_runtime small_config) = None)
       /\ active_allocations example_entries <> []) /\
    (forall id, holder = Some id ->
       exists a, a ∈ active_allocations example_entries /\ a_id a = id).
Proof.
  apply (ensure_capacity_refusal example_entries small_config example_size example_machines
    [idle_guest]).
  vm_compute. reflexivity.
Defined.
