(* ===== verification/HotSelect.v ===== *)
(** * Choosing hot machines
    ([crates/flanforge-manager/src/hot/{select,claim}.rs], the pure parts of
     [hot/model.rs], and [HotDecision], [refusal], [idempotent] of [service.rs])

    When a machine must drain, which one a claim takes, which idle ones are
    surplus, whether the pool may grow, and what one [hot] request is answered.
    All of it is decided on a snapshot under the entries lock. *)

From S2P Require Import Prelude Rust Text Identifiers Images Guest Hot Allocation Config ConfigValidate Claims Sizing Admission.

Open Scope Z_scope.
Open Scope stdpp_scope.

Record HotPolicy := {
  hp_hot : HotConfig;
  hp_fingerprint : option BaseFingerprint;
  hp_warm_generation : option Z;
  hp_now : Z;
}.

Definition age_limit (g : HotGuest) (policy : HotPolicy) : Z :=
  Z.min (default (hc_max_lifetime_seconds (hp_hot policy)) (hg_age_limit_seconds g))
    (hc_max_lifetime_seconds (hp_hot policy)).

Definition is_base_changed (g : HotGuest) (policy : HotPolicy) : bool :=
  match cs_base_fingerprint (hg_source g), hp_fingerprint policy with
  | Some recorded, Some current => negb (is_fingerprint_match (Some recorded) (Some current))
  | _, _ => false
  end.

Definition drain_reason (g : HotGuest) (policy : HotPolicy) : option HotDrainReason :=
  if hot_is_terminal (hg_state g) then None
  else if age_limit g policy <=? sat_sub (hp_now policy) (hg_booted_at_unix g)
  then Some MaxLifetime
  else if hc_max_jobs (hp_hot policy) <=? hg_jobs_served g then Some MaxJobs
  else if is_base_changed g policy
          || negb (bool_decide (hg_warm_generation g = hp_warm_generation policy))
  then Some StaleBase
  else if bool_decide (hg_state g = Idle)
          && (hc_idle_ttl_seconds (hp_hot policy) <=? sat_sub (hp_now policy) (hg_updated_at_unix g))
  then Some IdleTtl
  else None.

(** [Iterator::max_by]: the last of the maximal elements. *)
Definition max_by {A} (cmp : A -> A -> comparison) (l : list A) : option A :=
  match l with
  | [] => None
  | x :: l => Some (fold_left (fun best y => match cmp best y with Gt => best | _ => y end) l x)
  end.

(** More jobs first; the smaller name wins a tie. *)
Definition wear_compare (left right : HotGuest) : comparison :=
  match Z.compare (hg_jobs_served left) (hg_jobs_served right) with
  | Eq => String.compare (hg_vm_name right) (hg_vm_name left)
  | c => c
  end.

Definition is_claimable (profile : ProfileName) (lane : HotLane) (claimed : gset string)
    (policy : HotPolicy) (g : HotGuest) : bool :=
  is_serving g profile lane && negb (bool_decide (hg_vm_name g ∈ claimed))
  && is_none (drain_reason g policy).

Definition claimable (hot : list HotGuest) (profile : ProfileName) (lane : HotLane)
    (claimed : gset string) (policy : HotPolicy) : option HotGuest :=
  max_by wear_compare (List.filter (is_claimable profile lane claimed policy) hot).

Definition holding (hot : list HotGuest) : list HotGuest :=
  List.filter (fun g => is_holding_machine (hg_state g)) hot.

Definition is_pool_expandable (hot : list HotGuest) (max_hot_vms : Z)
    (in_flight : list ProfileName) : bool :=
  Z.of_nat (Datatypes.length (holding hot)) + Z.of_nat (Datatypes.length in_flight)
  <? max_hot_vms.

(** Oldest update first, then by name. *)
Definition stale_le : relation HotGuest := fun left right =>
  hg_updated_at_unix left < hg_updated_at_unix right \/
  (hg_updated_at_unix left = hg_updated_at_unix right /\
   String.le (hg_vm_name left) (hg_vm_name right)).

#[export] Instance stale_le_dec : RelDecision stale_le.
Proof. unfold stale_le. intros x y. apply _. Defined.

Definition surplus_idle (hot : list HotGuest) (profile : ProfileName) (lane : HotLane)
    (hot_config : HotConfig) : list HotGuest :=
  let idle := merge_sort stale_le (List.filter (fun g => is_serving g profile lane) hot) in
  take (Z.to_nat (sat_sub (Z.of_nat (Datatypes.length idle)) (hc_max_idle hot_config))) idle.

(** ** Claims *)

Inductive HotClaim :=
| Reused (guest : HotGuest) (origin : AllocationOrigin) (source : CloneSource)
| RetainGuest.

Record HotContext := {
  hx_hot : HotConfig;
  hx_name : ProfileName;
  hx_lane : HotLane;
  hx_fingerprint : option BaseFingerprint;
  hx_warm_generation : option Z;
  hx_max_hot_vms : Z;
  hx_age_seconds : option Z;
}.

Definition context_policy (now : Z) (c : HotContext) : HotPolicy :=
  {| hp_hot := hx_hot c; hp_fingerprint := hx_fingerprint c;
     hp_warm_generation := hx_warm_generation c; hp_now := now |}.

Section claims.
Context {HO : HashOrder}.
Implicit Types entries : gmap string Entry.

Definition live_hot_names entries : gset string :=
  list_to_set (omap (fun a => hot_vm_name (a_origin a)) (active_allocations entries)).

(** The machine an allocation will leave behind. *)
Definition held_name (a : Allocation) : string :=
  default (a_vm_name a) (hot_vm_name (a_origin a)).

Definition in_flight_retentions entries (hot : list HotGuest) : list ProfileName :=
  let recorded : gset string := list_to_set (map hg_vm_name (holding hot)) in
  map (fun a => rq_profile (a_request a))
    (List.filter (fun a => negb (bool_decide (held_name a ∈ recorded)))
       (List.filter (fun a => bool_decide (is_Some (a_hot_lane a))) (active_allocations entries))).

Definition plan_hot_claim (now : Z) entries (hot : list HotGuest) (context : HotContext)
    (id : AllocationId) : option HotClaim :=
  match claimable hot (hx_name context) (hx_lane context) (live_hot_names entries)
          (context_policy now context) with
  | Some guest =>
      match ensure_claimed now id guest with
      | Err _ => None
      | Ok guest =>
          let guest :=
            if is_none (hx_age_seconds context) then guest
            else guest <| hg_age_limit_seconds := hx_age_seconds context |> in
          Some (Reused guest
                  (HotReuse (hg_vm_name guest) (hg_jobs_served guest) (hg_booted_at_unix guest))
                  (hg_source guest))
      end
  | None =>
      if is_pool_expandable hot (hx_max_hot_vms context) (in_flight_retentions entries hot)
      then Some RetainGuest else None
  end.

(** [idempotent]: the live allocation of the same run attempt. *)
Definition idempotent entries (request : AllocationRequest) : option Allocation :=
  option_map e_allocation
    (List.find (fun e => negb (is_terminal (a_state (e_allocation e)))
                         && is_same_attempt (a_request (e_allocation e)) request)
       (hash_values entries)).
End claims.

Definition retained_record (now : Z) (a : Allocation) (lane : HotLane) : option HotGuest :=
  size ← a_size a;
  source ← a_source a;
  Some (hot_guest_new now (a_vm_name a) (rq_profile (a_request a)) lane size source
          (a_warm_generation a) (a_hot_age_seconds a) <| hg_jobs_served := 1 |>).

Definition refusal (mode : AllocationMode) (profile : Profile) (lane : HotLane)
    (max_hot_vms : Z) : HotRefusal :=
  if bool_decide (mode = Regenerate) then Regeneration
  else match enabled_hot profile with
       | None => NotEnabled
       | Some hot =>
           if negb (is_lane_admitted (hc_lanes hot) lane) then LaneNotAdmitted
           else if max_hot_vms =? 0 then PoolFull
           else Unsupported
       end.

(** [HotDecision::apply]. *)
Definition apply_hot_decision (now : Z) (claim : option HotClaim) (has_context : bool)
    (lane : HotLane) (age_seconds : option Z) (mode : AllocationMode) (max_hot_vms : Z)
    (options : RequestOptions) (profile : Profile) (a : Allocation) : Allocation :=
  match claim with
  | Some (Reused _ origin source) => set_hot now (Some lane) origin (Some source) age_seconds a
  | Some RetainGuest => set_hot now (Some lane) Cloned None age_seconds a
  | None =>
      if is_retaining (ro_hot options)
      then set_hot_refused now
             (if has_context then PoolFull else refusal mode profile lane max_hot_vms) a
      else a
  end.

(** ** Lemmas *)

Section max_by.
Context {A : Type} (cmp : A -> A -> comparison).
(** [cmp x y <> Gt] is a total preorder. *)
Context (cmp_trans : forall x y z, cmp x y <> Gt -> cmp y z <> Gt -> cmp x z <> Gt).
Context (cmp_total : forall x y, cmp x y = Gt -> cmp y x <> Gt).
Context (cmp_refl : forall x, cmp x x <> Gt).

Lemma max_by_fold l x :
  let m := fold_left (fun best y => match cmp best y with Gt => best | _ => y end) l x in
  m ∈ x :: l /\ forall y, y ∈ x :: l -> cmp y m <> Gt.
Proof.
  revert x. induction l as [|z l IH]; intros x; simpl.
  - split; [left|]. intros y [->|Hy]%elem_of_cons; [apply cmp_refl | by apply not_elem_of_nil in Hy].
  - set (b := match cmp x z with Gt => x | _ => z end).
    assert ((b = x \/ b = z) /\ cmp x b <> Gt /\ cmp z b <> Gt) as (Hb & Hx & Hz).
    { unfold b. destruct (cmp x z) eqn:Hc.
      - split; [by right|]. split; [congruence | apply cmp_refl].
      - split; [by right|]. split; [congruence | apply cmp_refl].
      - split; [by left|]. split; [apply cmp_refl | by apply cmp_total]. }
    clearbody b. destruct (IH b) as [Hm Hmax]. split.
    { rewrite !elem_of_cons. rewrite elem_of_cons in Hm.
      destruct Hm as [->|Hm]; [|by auto]. destruct Hb as [->| ->]; auto. }
    intros y Hy. apply elem_of_cons in Hy as [->|[->|Hy]%elem_of_cons].
    + eapply cmp_trans; [exact Hx|]. apply Hmax. left.
    + eapply cmp_trans; [exact Hz|]. apply Hmax. left.
    + apply Hmax. by right.
Qed.

Lemma max_by_some l m :
  max_by cmp l = Some m -> m ∈ l /\ forall y, y ∈ l -> cmp y m <> Gt.
Proof. destruct l as [|x l]; simpl; [done|]. intros [= <-]. apply max_by_fold. Qed.

Lemma max_by_none l : max_by cmp l = None <-> l = [].
Proof. by destruct l. Qed.
End max_by.

Lemma string_le_compare s t : String.le s t <-> String.compare s t <> Gt.
Proof.
  unfold String.le, String.leb. destruct (String.compare s t); simpl; naive_solver.
Qed.

(** A machine precedes another in wear order when it has fewer jobs, or as
    many and a later name. *)
Lemma wear_compare_spec x y :
  wear_compare x y <> Gt <->
  hg_jobs_served x < hg_jobs_served y \/
  (hg_jobs_served x = hg_jobs_served y /\ String.le (hg_vm_name y) (hg_vm_name x)).
Proof.
  unfold wear_compare. rewrite string_le_compare.
  destruct (Z.compare_spec (hg_jobs_served x) (hg_jobs_served y)); naive_solver lia.
Qed.

Lemma wear_compare_trans x y z :
  wear_compare x y <> Gt -> wear_compare y z <> Gt -> wear_compare x z <> Gt.
Proof.
  rewrite !wear_compare_spec. intros [?|[? H1]] [?|[? H2]]; try (left; lia).
  right. split; [lia|]. by transitivity (hg_vm_name y).
Qed.

Lemma wear_compare_total x y : wear_compare x y = Gt -> wear_compare y x <> Gt.
Proof.
  intros H. assert (~ wear_compare x y <> Gt) as Hn by (rewrite H; naive_solver).
  rewrite wear_compare_spec in Hn. rewrite wear_compare_spec.
  destruct (decide (hg_jobs_served y < hg_jobs_served x)); [by left|]. right.
  assert (hg_jobs_served x = hg_jobs_served y) as Heq by lia. split; [done|].
  destruct (total String.le (hg_vm_name y) (hg_vm_name x)); naive_solver.
Qed.

Lemma wear_compare_refl x : wear_compare x x <> Gt.
Proof. rewrite wear_compare_spec. right. split; [done | reflexivity]. Qed.

Lemma elem_of_list_filter_bool {A} (p : A -> bool) (l : list A) x :
  x ∈ List.filter p l <-> x ∈ l /\ p x = true.
Proof. rewrite !list_elem_of_In. apply List.filter_In. Qed.

Lemma claimable_some hot profile lane claimed policy g :
  claimable hot profile lane claimed policy = Some g ->
  g ∈ hot /\ is_claimable profile lane claimed policy g = true /\
  forall g', g' ∈ hot -> is_claimable profile lane claimed policy g' = true ->
    hg_jobs_served g' < hg_jobs_served g \/
    (hg_jobs_served g' = hg_jobs_served g /\ String.le (hg_vm_name g) (hg_vm_name g')).
Proof.
  intros [Hin Hmax]%(max_by_some _ wear_compare_trans wear_compare_total wear_compare_refl).
  apply elem_of_list_filter_bool in Hin as [Hin Hc]. split; [done|]. split; [done|].
  intros g' Hg' Hc'. apply wear_compare_spec, Hmax. by apply elem_of_list_filter_bool.
Qed.

Lemma claimable_none hot profile lane claimed policy :
  claimable hot profile lane claimed policy = None <->
  forall g, g ∈ hot -> is_claimable profile lane claimed policy g = false.
Proof.
  unfold claimable. rewrite max_by_none. split.
  - intros Hf g Hg. destruct (is_claimable _ _ _ _ g) eqn:Hc; [|done].
    assert (g ∈ List.filter (is_claimable profile lane claimed policy) hot) as Hin
      by (by apply elem_of_list_filter_bool).
    rewrite Hf in Hin. by apply not_elem_of_nil in Hin.
  - intros H. destruct (List.filter _ hot) as [|g l] eqn:Hf; [done|].
    assert (g ∈ List.filter (is_claimable profile lane claimed policy) hot) as Hin
      by (rewrite Hf; left).
    apply elem_of_list_filter_bool in Hin as [Hin Hc]. by rewrite H in Hc.
Qed.

Lemma is_claimable_spec profile lane claimed policy g :
  is_claimable profile lane claimed policy g = true <->
  hg_state g = Idle /\ hg_profile g = profile /\ hg_lane g = lane /\
  (hg_vm_name g ∉ claimed) /\ drain_reason g policy = None.
Proof.
  unfold is_claimable, is_serving.
  rewrite !andb_true_iff, negb_true_iff, !bool_decide_eq_true, bool_decide_eq_false.
  destruct (drain_reason g policy); simpl; naive_solver.
Qed.

Lemma drain_reason_none g policy :
  drain_reason g policy = None <->
  hg_state g = Evicted \/
  (sat_sub (hp_now policy) (hg_booted_at_unix g) < age_limit g policy /\
   hg_jobs_served g < hc_max_jobs (hp_hot policy) /\
   is_base_changed g policy = false /\ hg_warm_generation g = hp_warm_generation policy /\
   (hg_state g = Idle ->
    sat_sub (hp_now policy) (hg_updated_at_unix g) < hc_idle_ttl_seconds (hp_hot policy))).
Proof.
  unfold drain_reason.
  assert (hot_is_terminal (hg_state g) = true <-> hg_state g = Evicted) as Ht
    by (by destruct (hg_state g)).
  destruct (hot_is_terminal (hg_state g)); [naive_solver|].
  destruct (Z.leb_spec (age_limit g policy) (sat_sub (hp_now policy) (hg_booted_at_unix g)));
    [naive_solver lia|].
  destruct (Z.leb_spec (hc_max_jobs (hp_hot policy)) (hg_jobs_served g)); [naive_solver lia|].
  destruct (is_base_changed g policy); [naive_solver|]. simpl.
  case_bool_decide; simpl; [|naive_solver].
  case_bool_decide as Hi; simpl; [|naive_solver].
  destruct (Z.leb_spec (hc_idle_ttl_seconds (hp_hot policy))
    (sat_sub (hp_now policy) (hg_updated_at_unix g))); naive_solver lia.
Qed.

#[export] Instance stale_le_total : Total stale_le.
Proof.
  intros x y. unfold stale_le.
  destruct (Z.lt_trichotomy (hg_updated_at_unix x) (hg_updated_at_unix y)) as [?|[?|?]]; auto.
  destruct (total String.le (hg_vm_name x) (hg_vm_name y)); auto.
Qed.

#[export] Instance stale_le_trans : Transitive stale_le.
Proof.
  intros x y z. unfold stale_le. intros [?|[? H1]] [?|[? H2]]; try (left; lia).
  right. split; [lia|]. by transitivity (hg_vm_name y).
Qed.

Lemma live_hot_names_spec {HO : HashOrder} entries name :
  name ∈ live_hot_names entries <->
  exists id e, entries !! id = Some e /\ is_terminal (a_state (e_allocation e)) = false /\
    hot_vm_name (a_origin (e_allocation e)) = Some name.
Proof.
  unfold live_hot_names, active_allocations, allocations.
  rewrite elem_of_list_to_set, list_elem_of_omap. split.
  - intros (a & Ha & Hn). apply elem_of_list_filter_bool in Ha as [Ha Ht].
    apply list_elem_of_fmap in Ha as (e & -> & He).
    apply elem_of_hash_values in He as [id He]. apply negb_true_iff in Ht. eauto 8.
  - intros (id & e & He & Ht & Hn). exists (e_allocation e). split; [|done].
    apply elem_of_list_filter_bool. rewrite Ht. split; [|done].
    apply list_elem_of_fmap. exists e. split; [done|]. apply elem_of_hash_values. eauto.
Qed.

Lemma plan_hot_claim_reused {HO : HashOrder} now entries hot context id guest origin source :
  plan_hot_claim now entries hot context id = Some (Reused guest origin source) ->
  exists g, g ∈ hot /\
    is_claimable (hx_name context) (hx_lane context) (live_hot_names entries)
      (context_policy now context) g = true /\
    hg_vm_name guest = hg_vm_name g /\ hg_jobs_served guest = hg_jobs_served g /\
    hg_state guest = Claimed /\ hg_claimed_by guest = Some id /\
    origin = HotReuse (hg_vm_name g) (hg_jobs_served g) (hg_booted_at_unix g) /\
    source = hg_source g /\ hg_profile guest = hg_profile g /\ hg_lane guest = hg_lane g /\
    hg_drain_reason guest = hg_drain_reason g.
Proof.
  unfold plan_hot_claim. destruct (claimable _ _ _ _ _) as [g|] eqn:Hc; [|by case_match].
  apply claimable_some in Hc as (Hin & Hcl & _).
  destruct (ensure_claimed now id g) as [g'|] eqn:He; [|done].
  apply ensure_claimed_ok in He as [Hs ->].
  destruct (is_none (hx_age_seconds context)); intros [= <- <- <-]; exists g; done.
Qed.

(** ** Properties *)

(** The machine a claim takes is an idle one of exactly the requested
    profile and lane, not named by any live allocation, within its lifetime,
    job and idle bounds and on the current base and warm generation; among all
    such machines it has served the most jobs, ties going to the smallest
    name; and nothing is claimed only when no machine qualifies. *)
Theorem claimable_spec hot profile lane claimed policy :
  match claimable hot profile lane claimed policy with
  | Some g =>
      g ∈ hot /\ hg_state g = Idle /\ hg_profile g = profile /\ hg_lane g = lane /\
      (hg_vm_name g ∉ claimed) /\
      sat_sub (hp_now policy) (hg_booted_at_unix g) < age_limit g policy /\
      hg_jobs_served g < hc_max_jobs (hp_hot policy) /\
      hg_warm_generation g = hp_warm_generation policy /\
      sat_sub (hp_now policy) (hg_updated_at_unix g) < hc_idle_ttl_seconds (hp_hot policy) /\
      (forall g', g' ∈ hot -> is_claimable profile lane claimed policy g' = true ->
         hg_jobs_served g' < hg_jobs_served g \/
         (hg_jobs_served g' = hg_jobs_served g /\ String.le (hg_vm_name g) (hg_vm_name g')))
  | None => forall g, g ∈ hot -> is_claimable profile lane claimed policy g = false
  end.
Proof.
  destruct (claimable _ _ _ _ _) as [g|] eqn:Hc; [|by apply claimable_none].
  apply claimable_some in Hc as (Hin & Hcl & Hmax).
  apply is_claimable_spec in Hcl as (Hs & Hp & Hl & Hn & Hd).
  apply drain_reason_none in Hd. rewrite Hs in Hd.
  destruct Hd as [?|(? & ? & ? & ? & ?)]; [done|]. repeat split; auto.
Qed.

(** A lane over its ceiling retires exactly its excess, and always the
    stalest machines: everything kept was updated no earlier than everything
    retired. *)
Theorem surplus_idle_spec hot profile lane hot_config :
  0 <= hc_max_idle hot_config ->
  let idle := List.filter (fun g => is_serving g profile lane) hot in
  let retired := surplus_idle hot profile lane hot_config in
  exists kept,
    retired ++ kept ≡ₚ idle /\
    Z.of_nat (Datatypes.length kept)
      = Z.min (hc_max_idle hot_config) (Z.of_nat (Datatypes.length idle)) /\
    forall r k, r ∈ retired -> k ∈ kept -> stale_le r k.
Proof.
  intros Hm idle retired. unfold retired, surplus_idle. fold idle.
  set (sorted := merge_sort stale_le idle).
  set (n := Z.to_nat (sat_sub (Z.of_nat (Datatypes.length sorted)) (hc_max_idle hot_config))).
  assert (Hperm : sorted ≡ₚ idle) by apply merge_sort_Permutation.
  exists (drop n sorted). rewrite take_drop. split; [done|]. split.
  - rewrite length_drop, <- Hperm. unfold n, sat_sub. lia.
  - assert (StronglySorted stale_le sorted) as Hsort by (apply StronglySorted_merge_sort; apply _).
    rewrite <- (take_drop n sorted) in Hsort. intros r k Hr Hk.
    by eapply StronglySorted_app_1_elem_of.
Qed.

Definition one_idle : HotConfig :=
  {| hc_enabled := true; hc_lanes := LanesProtected; hc_max_idle := 0;
     hc_max_lifetime_seconds := 14400; hc_max_jobs := 20; hc_idle_ttl_seconds := 900;
     hc_reset_timeout_seconds := 120; hc_simulator_reset := ResetApps |}.

Lemma surplus_idle_spec_witness :
  surplus_idle [idle_guest] "linux" Protected one_idle = [idle_guest] /\
  exists kept,
    surplus_idle [idle_guest] "linux" Protected one_idle ++ kept
      ≡ₚ List.filter (fun g => is_serving g "linux" Protected) [idle_guest] /\
    Z.of_nat (Datatypes.length kept) = Z.min 0 1 /\
    forall r k, r ∈ surplus_idle [idle_guest] "linux" Protected one_idle -> k ∈ kept -> stale_le r k.
Proof.
  split; [reflexivity|].
  apply (surplus_idle_spec [idle_guest] "linux" Protected one_idle). simpl. lia.
Defined.

Section claim_properties.
Context {HO : HashOrder}.

(** A machine a request may be given at [now]: idle, of the request's profile
    and lane, held by no live allocation, and within every bound of the pool:
    its lifetime (its own limit where it is shorter), the jobs it may serve,
    the base it was cloned from, the warm generation and the idle time. *)
Record fits_claim (now : Z) (entries : gmap string Entry) (context : HotContext) (g : HotGuest) : Prop := {
  fc_idle : hg_state g = Idle;
  fc_profile : hg_profile g = hx_name context;
  fc_lane : hg_lane g = hx_lane context;
  fc_free : hg_vm_name g ∉ live_hot_names entries;
  fc_lifetime : sat_sub now (hg_booted_at_unix g) <
    Z.min (default (hc_max_lifetime_seconds (hx_hot context)) (hg_age_limit_seconds g))
      (hc_max_lifetime_seconds (hx_hot context));
  fc_jobs : hg_jobs_served g < hc_max_jobs (hx_hot context);
  fc_base recorded current : cs_base_fingerprint (hg_source g) = Some recorded ->
    hx_fingerprint context = Some current -> is_fingerprint_match (Some recorded) (Some current) = true;
  fc_generation : hg_warm_generation g = hx_warm_generation context;
  fc_idle_time : sat_sub now (hg_updated_at_unix g) < hc_idle_ttl_seconds (hx_hot context);
}.

Lemma is_base_changed_spec g policy :
  is_base_changed g policy = false <->
  forall recorded current, cs_base_fingerprint (hg_source g) = Some recorded ->
    hp_fingerprint policy = Some current -> is_fingerprint_match (Some recorded) (Some current) = true.
Proof.
  unfold is_base_changed.
  destruct (cs_base_fingerprint (hg_source g)), (hp_fingerprint policy); rewrite ?negb_false_iff; naive_solver.
Qed.

Lemma fits_claimable now entries context g :
  is_claimable (hx_name context) (hx_lane context) (live_hot_names entries) (context_policy now context) g = true <->
  fits_claim now entries context g.
Proof.
  rewrite is_claimable_spec, drain_reason_none, is_base_changed_spec. unfold age_limit. simpl. split.
  - intros (Hs & Hp & Hl & Hn & [?|(? & ? & ? & ? & ?)]); [congruence|]. constructor; auto.
  - intros []. split_and!; auto 10.
Qed.

(** C26: what one [hot] request is answered, exactly.  It is given a machine
    when the snapshot has one that fits, and then the one that has served the
    most jobs, ties going to the smallest name, moved to [Claimed] for this
    very allocation.  Otherwise it may leave a machine behind when the machines
    the pool holds plus the retentions already promised are below
    [max_hot_vms], and gets a plain guest when they are not. *)
Theorem plan_hot_claim_spec now entries hot context id :
  let held := Z.of_nat (Datatypes.length (holding hot))
              + Z.of_nat (Datatypes.length (in_flight_retentions entries hot)) in
  match plan_hot_claim now entries hot context id with
  | Some (Reused guest origin source) => exists g,
      g ∈ hot /\ fits_claim now entries context g /\
      (forall g', g' ∈ hot -> fits_claim now entries context g' ->
         hg_jobs_served g' < hg_jobs_served g \/
         (hg_jobs_served g' = hg_jobs_served g /\ String.le (hg_vm_name g) (hg_vm_name g'))) /\
      guest = g <| hg_state := Claimed |> <| hg_updated_at_unix := now |> <| hg_claimed_by := Some id |>
                <| hg_age_limit_seconds := match hx_age_seconds context with
                                           | Some limit => Some limit
                                           | None => hg_age_limit_seconds g
                                           end |> /\
      origin = HotReuse (hg_vm_name g) (hg_jobs_served g) (hg_booted_at_unix g) /\ source = hg_source g
  | Some RetainGuest =>
      (forall g, g ∈ hot -> ~ fits_claim now entries context g) /\ held < hx_max_hot_vms context
  | None => (forall g, g ∈ hot -> ~ fits_claim now entries context g) /\ hx_max_hot_vms context <= held
  end.
Proof.
  intros held. unfold plan_hot_claim. destruct (claimable _ _ _ _ _) as [g|] eqn:Hc.
  - apply claimable_some in Hc as (Hin & Hcl & Hmax). apply fits_claimable in Hcl as Hf.
    destruct (ensure_claimed now id g) as [g'|e] eqn:He.
    + apply ensure_claimed_ok in He as [_ ->]. exists g. split_and!; [done..| | | |];
        [|destruct g; by destruct (hx_age_seconds context)..].
      intros g' Hg' Hf'. by apply Hmax; [|apply fits_claimable].
    + exfalso. unfold ensure_claimed, ensure_state in He. by rewrite (fc_idle _ _ _ _ Hf) in He.
  - assert (forall g, g ∈ hot -> ~ fits_claim now entries context g) as Hnone.
    { intros g Hg Hf%fits_claimable. by rewrite (proj1 (claimable_none _ _ _ _ _) Hc) in Hf. }
    unfold is_pool_expandable. destruct (Z.ltb_spec held (hx_max_hot_vms context)); fold held.
    + by rewrite (proj2 (Z.ltb_lt _ _)).
    + by rewrite (proj2 (Z.ltb_ge _ _)).
Qed.
End claim_properties.
