(* ===== verification/Reaper.v ===== *)
(** * Reaper planning ([crates/flanforge-manager/src/reaper/])

    [plan.rs]: which machines of one listing a sweep may delete and what
    authorizes each deletion; [images.rs]: which warm image records a pass may
    drop; [sweep.rs]: the re-plan a deletion must survive and the request it
    hands the backend. *)

From S2P Require Import Prelude Rust Text Identifiers Images Guest Hot Allocation Config ConfigValidate Admission.

Open Scope Z_scope.
Open Scope stdpp_scope.

Definition MIN_AGE_SECONDS : Z := 3600.
Definition IMAGE_AGE_SECONDS : Z := 86400.

Inductive ReapAuthorization :=
| ByRecord (id : AllocationId)
| ByStaging (profile : ProfileName)
| ByImage (profile : ProfileName)
| ByPrefix.

#[export] Instance ReapAuthorization_eq_dec : EqDecision ReapAuthorization.
Proof. solve_decision. Defined.

Record ReapCandidate := {
  rc_name : string;
  rc_state : MachineState;
  rc_authorization : ReapAuthorization;
  rc_age_seconds : Z;
}.

Record ReapInputs := mkReapInputs {
  ri_config : Config;
  ri_machines : list HostMachine;
  ri_allocations : list Allocation;
  ri_images : list WarmImageRecord;
  ri_hot : list HotGuest;
}.

(** ** Teardown budgets ([worker/budget.rs])

    Durations and instants are nanoseconds; [now] is the reading of
    [Instant::now()]. *)

Definition from_secs (seconds : Z) : Z := seconds * 1000000000.

Record CleanupBudget := mkCleanupBudget {
  cb_allowance : Z;
  cb_deadline : option Z;
}.

Definition allow (allowance : Z) : CleanupBudget := mkCleanupBudget allowance None.

Definition until (b : CleanupBudget) (deadline : Z) : CleanupBudget :=
  mkCleanupBudget (cb_allowance b) (Some deadline).

Definition at_least (b : CleanupBudget) (floor : Z) : CleanupBudget :=
  mkCleanupBudget (Z.max (cb_allowance b) floor) (cb_deadline b).

Definition remaining (now : Z) (b : CleanupBudget) : option Z :=
  option_map (fun deadline => sat_sub deadline now) (cb_deadline b).

Definition limit (now : Z) (b : CleanupBudget) (duration : Z) : Z :=
  match remaining now b with Some remaining => Z.min remaining duration | None => duration end.

Definition timeout (now : Z) (b : CleanupBudget) : Z := limit now b (cb_allowance b).

(** [AllocationManager::teardown_budget] under the shutdown deadline, if any. *)
Definition teardown_budget (deadline : option Z) (allowance : Z) : CleanupBudget :=
  match deadline with Some d => until (allow allowance) d | None => allow allowance end.

(** ** Planning *)

Definition suffixed (warm : VmName) (suffix : string) : option string :=
  ok (with_suffix warm suffix).

(** A [BTreeSet] built by [insert] and [extend]; only membership is asked. *)
Definition derived_names (warm : VmName) : gset string :=
  {[ warm ]} ∪ list_to_set (option_list (suffixed warm PREVIOUS_SUFFIX))
  ∪ list_to_set (option_list (suffixed warm STAGING_SUFFIX)).

(** One iteration of [reserved_image_names]. *)
Definition reserve_profile (p : Profile) : gset string :=
  {[ p_template p ]} ∪
  match p_warm_template p with
  | Some warm => {[ warm ]} ∪ list_to_set (option_list (suffixed warm PREVIOUS_SUFFIX))
  | None => ∅
  end.

Definition reserved_image_names (config : Config) : gset string :=
  ⋃ (map (fun entry => reserve_profile entry.2) (btree_list (c_profiles config))).

(** One iteration of the allocation loop of [protected_names]. *)
Definition protect_allocation (config : Config) (a : Allocation) : gset string :=
  if is_terminal (a_state a) then ∅
  else {[ a_vm_name a ]} ∪
    (if bool_decide (a_mode a = Regenerate)
     then match c_profiles config !! rq_profile (a_request a) with
          | Some p => match p_warm_template p with
                      | Some warm => derived_names warm
                      | None => ∅
                      end
          | None => ∅
          end
     else ∅).

Definition protected_names (inputs : ReapInputs) : gset string :=
  ⋃ (map (protect_allocation (ri_config inputs)) (ri_allocations inputs))
  ∪ list_to_set (map hg_vm_name
      (List.filter (fun g => is_holding_machine (hg_state g)) (ri_hot inputs)))
  ∪ reserved_image_names (ri_config inputs).

Definition clone_authorization (inputs : ReapInputs) (name : string) : ReapAuthorization :=
  match List.find (fun a => is_terminal (a_state a) && a_vm_created a
                            && bool_decide (a_vm_name a = name)) (ri_allocations inputs) with
  | Some a => ByRecord (a_id a)
  | None => ByPrefix
  end.

Definition is_reapable_profile (config : Config) (profile : ProfileName) : bool :=
  match c_profiles config !! profile with Some p => p_reap p | None => true end.

(** The loop of [image_authorization] over the configured profiles. *)
Definition is_staging_of (name : string) (entry : string * Profile) : bool :=
  p_reap entry.2
  && match p_warm_template entry.2 with
     | Some warm => bool_decide (suffixed warm STAGING_SUFFIX = Some name)
     | None => false
     end.

Definition image_authorization (inputs : ReapInputs) (name : string) (age_seconds : Z) :
    option ReapAuthorization :=
  match List.find (is_staging_of name) (btree_list (c_profiles (ri_config inputs))) with
  | Some (profile_name, _) => Some (ByStaging profile_name)
  | None =>
      if age_seconds <? IMAGE_AGE_SECONDS then None
      else option_map (fun record => ByImage (wi_profile record))
             (List.find (fun record => bool_decide (name ∈ derived_names (wi_warm_template record)))
                (List.filter (fun record => is_reapable_profile (ri_config inputs) (wi_profile record))
                   (ri_images inputs)))
  end.

Definition candidate (inputs : ReapInputs) (m : HostMachine) (prefix : string) :
    option ReapCandidate :=
  age_seconds ← hm_age_seconds m;
  if age_seconds <? MIN_AGE_SECONDS then None
  else
    authorization ← (if starts_with (hm_name m) prefix
                     then Some (clone_authorization inputs (hm_name m))
                     else image_authorization inputs (hm_name m) age_seconds);
    Some {| rc_name := hm_name m; rc_state := hm_state m;
            rc_authorization := authorization; rc_age_seconds := age_seconds |}.

Definition is_unprotected (inputs : ReapInputs) (m : HostMachine) : bool :=
  negb (bool_decide (hm_name m ∈ protected_names inputs)).

Definition plan_sweep (inputs : ReapInputs) : list ReapCandidate :=
  let prefix := rt_vm_prefix (c_runtime (ri_config inputs)) in
  omap (fun m => candidate inputs m prefix)
    (List.filter (is_unprotected inputs) (ri_machines inputs)).

Definition is_unaged (inputs : ReapInputs) (m : HostMachine) : bool :=
  is_none (hm_age_seconds m)
  && starts_with (hm_name m) (rt_vm_prefix (c_runtime (ri_config inputs)))
  && is_unprotected inputs m.

Definition unaged_candidates (inputs : ReapInputs) : list string :=
  map hm_name (List.filter (is_unaged inputs) (ri_machines inputs)).

Inductive SweepInertReason := AgeUndeterminable.

Definition inert_reason (machines : list HostMachine) : option SweepInertReason :=
  if match machines with [] => false | _ => true end && forallb (fun m => is_none (hm_age_seconds m)) machines
  then Some AgeUndeterminable else None.

(** ** One deletion ([sweep.rs]) *)

Record ReapRequest := mkReapRequest {
  rr_name : VmName;
  rr_authorization : ReapAuthorization;
  rr_profile : option Profile;
  rr_record : option WarmImageRecord;
  rr_allocation : option Allocation;
  rr_reserved : gset string;
  rr_budget : CleanupBudget;
}.

Definition max_option (l : list Z) : option Z :=
  match l with [] => None | x :: l => Some (fold_left Z.max l x) end.

(** The widest configured teardown allowance, never below the backend's floor. *)
Definition widest_cleanup_seconds (config : Config) : Z :=
  Z.max (default LIBVIRT_MIN_CLEANUP_TIMEOUT_SECONDS
           (max_option (map (fun e => p_cleanup_timeout_seconds e.2)
                          (btree_list (c_profiles config)))))
    LIBVIRT_MIN_CLEANUP_TIMEOUT_SECONDS.

Definition cleanup_allowance (config : Config) (profile : option Profile) : Z :=
  from_secs match profile with
            | Some p => Z.max (p_cleanup_timeout_seconds p) LIBVIRT_MIN_CLEANUP_TIMEOUT_SECONDS
            | None => widest_cleanup_seconds config
            end.

(** The profile a candidate's authorization names. *)
Definition authorization_profile (auth : ReapAuthorization) : option ProfileName :=
  match auth with
  | ByStaging profile | ByImage profile => Some profile
  | ByRecord _ | ByPrefix => None
  end.

(** [AllocationManager::reap] up to the call of [delete_vm]: [fresh] is the
    snapshot it re-reads; [None] is [Ok(false)]. *)
Definition reap_request (deadline : option Z) (c : ReapCandidate) (fresh : ReapInputs) :
    option ReapRequest :=
  let config := ri_config fresh in
  name ← ok (vm_name_new (rc_name c));
  if negb (existsb (fun current =>
             bool_decide (rc_name current = rc_name c)
             && bool_decide (rc_authorization current = rc_authorization c)) (plan_sweep fresh))
  then None
  else
    let profile_name := authorization_profile (rc_authorization c) in
    let reaped :=
      match rc_authorization c with
      | ByRecord id => List.find (fun a => bool_decide (a_id a = id)) (ri_allocations fresh)
      | _ => None
      end in
    let profile :=
      match reaped with
      | Some a => c_profiles config !! rq_profile (a_request a)
      | None => profile_name ≫= fun profile => c_profiles config !! profile
      end in
    Some {| rr_name := name;
            rr_authorization := rc_authorization c;
            rr_profile := profile;
            rr_record := profile_name ≫= fun profile =>
              List.find (fun r => bool_decide (wi_profile r = profile)) (ri_images fresh);
            rr_allocation := reaped;
            rr_reserved := reserved_image_names config;
            rr_budget := teardown_budget deadline (cleanup_allowance config profile) |}.

(** ** What a sweep reports *)

Record RetiredImage := {
  ri_profile : ProfileName;
  ri_generation : Z;
  ri_age_seconds : Z;
  ri_is_deleted : bool;
  ri_reason : string;
}.

Record ImageSweep := {
  sw_is_dry_run : bool;
  sw_declared : gmap string VmName;
  sw_claimed : gset string;
}.

Record SweepReport := {
  sr_planned : list ReapCandidate;
  sr_deleted : list string;
  sr_skipped : list string;
  sr_unaged : list string;
  sr_pruned_records : list ProfileName;
  sr_retired_images : list RetiredImage;
  sr_inert_reason : option SweepInertReason;
  sr_finished_at_unix : Z;
}.

(** ** Image records ([images.rs]) *)

Record PrunePlan := mkPrunePlan {
  pp_prunable : list ProfileName;
  pp_claimed : gset string;
}.

Definition is_present (record : WarmImageRecord) (machines : list HostMachine) : bool :=
  let or_warm r := match r with Ok name => name | Err _ => wi_warm_template record end in
  existsb (fun name => existsb (fun m => bool_decide (hm_name m = name)) machines)
    [ wi_warm_template record; or_warm (staging_name record); or_warm (previous_name record) ].

Definition regenerating_profiles (allocations : list Allocation) : gset string :=
  list_to_set (map (fun a => rq_profile (a_request a))
    (List.filter (fun a => negb (is_terminal (a_state a)) && bool_decide (a_mode a = Regenerate))
       allocations)).

Definition is_referenced (config : Config) (record : WarmImageRecord) : bool :=
  match c_profiles config !! wi_profile record with
  | Some p => bool_decide (p_warm_template p = Some (wi_warm_template record))
  | None => false
  end.

Definition is_prunable (config : Config) (allocations : list Allocation)
    (machines : list HostMachine) (record : WarmImageRecord) : bool :=
  negb (is_referenced config record) && negb (is_present record machines)
  && negb (bool_decide (wi_profile record ∈ regenerating_profiles allocations)).

Definition prune_step (config : Config) (allocations : list Allocation)
    (machines : list HostMachine) (plan : PrunePlan) (record : WarmImageRecord) : PrunePlan :=
  if is_prunable config allocations machines record
  then mkPrunePlan (pp_prunable plan ++ [wi_profile record]) (pp_claimed plan)
  else mkPrunePlan (pp_prunable plan) ({[ wi_profile record ]} ∪ pp_claimed plan).

Definition plan_pruned_records (config : Config) (allocations : list Allocation)
    (images : list WarmImageRecord) (machines : list HostMachine) : PrunePlan :=
  fold_left (prune_step config allocations machines) images (mkPrunePlan [] ∅).

(** ** What keeps a machine

    The declarative counterpart of [protected_names]: a live allocation is
    bound to the name, a live regeneration owns it, a hot record holds it, or
    the configuration still declares it. *)

Inductive claimed_name (inputs : ReapInputs) : string -> Prop :=
| claimed_allocation a :
    a ∈ ri_allocations inputs -> is_terminal (a_state a) = false ->
    claimed_name inputs (a_vm_name a)
| claimed_regeneration a p warm name :
    a ∈ ri_allocations inputs -> is_terminal (a_state a) = false -> a_mode a = Regenerate ->
    c_profiles (ri_config inputs) !! rq_profile (a_request a) = Some p ->
    p_warm_template p = Some warm ->
    name = warm \/ with_suffix warm PREVIOUS_SUFFIX = Ok name \/
      with_suffix warm STAGING_SUFFIX = Ok name ->
    claimed_name inputs name
| claimed_hot g :
    g ∈ ri_hot inputs -> is_holding_machine (hg_state g) = true ->
    claimed_name inputs (hg_vm_name g)
| claimed_template profile p :
    c_profiles (ri_config inputs) !! profile = Some p ->
    claimed_name inputs (p_template p)
| claimed_image profile p warm name :
    c_profiles (ri_config inputs) !! profile = Some p -> p_warm_template p = Some warm ->
    name = warm \/ with_suffix warm PREVIOUS_SUFFIX = Ok name ->
    claimed_name inputs name.

(** What entitles the sweep to a name, by the authorization it carries. *)
Definition entitled (inputs : ReapInputs) (name : string) (age : Z) (auth : ReapAuthorization) :
    Prop :=
  let prefixed := starts_with name (rt_vm_prefix (c_runtime (ri_config inputs))) in
  let record a := is_terminal (a_state a) = true /\ a_vm_created a = true /\ a_vm_name a = name in
  match auth with
  | ByRecord id =>
      prefixed = true /\ exists a, a ∈ ri_allocations inputs /\ a_id a = id /\ record a
  | ByPrefix => prefixed = true /\ forall a, a ∈ ri_allocations inputs -> ~ record a
  | ByStaging profile =>
      prefixed = false /\ exists p warm,
        c_profiles (ri_config inputs) !! profile = Some p /\ p_reap p = true /\
        p_warm_template p = Some warm /\ with_suffix warm STAGING_SUFFIX = Ok name
  | ByImage profile =>
      prefixed = false /\ IMAGE_AGE_SECONDS <= age /\ exists r,
        r ∈ ri_images inputs /\ wi_profile r = profile /\
        (forall p, c_profiles (ri_config inputs) !! profile = Some p -> p_reap p = true) /\
        (name = wi_warm_template r \/ previous_name r = Ok name \/ staging_name r = Ok name)
  end.

Lemma ok_some {E A} (r : result E A) a : ok r = Some a <-> r = Ok a.
Proof. destruct r; simpl; naive_solver. Qed.

Lemma elem_of_suffixed warm suffix name :
  name ∈ (list_to_set (option_list (suffixed warm suffix)) : gset string) <->
  with_suffix warm suffix = Ok name.
Proof.
  unfold suffixed. rewrite elem_of_list_to_set, <- ok_some.
  destruct (ok _); simpl; set_solver.
Qed.

Lemma elem_of_derived_names warm name :
  name ∈ derived_names warm <->
  name = warm \/ with_suffix warm PREVIOUS_SUFFIX = Ok name \/
  with_suffix warm STAGING_SUFFIX = Ok name.
Proof. unfold derived_names. rewrite !elem_of_union, !elem_of_suffixed. set_solver. Qed.

Lemma elem_of_reserved_image_names config name :
  name ∈ reserved_image_names config <->
  exists profile p, c_profiles config !! profile = Some p /\
    (name = p_template p \/ exists warm, p_warm_template p = Some warm /\
      (name = warm \/ with_suffix warm PREVIOUS_SUFFIX = Ok name)).
Proof.
  unfold reserved_image_names, reserve_profile. rewrite elem_of_union_list. split.
  - intros (X & ([profile p] & -> & Hp%elem_of_btree_list)%list_elem_of_fmap & Hname).
    exists profile, p. split; [done|]. simpl in Hname.
    apply elem_of_union in Hname as [Hname|Hname]; [set_solver|].
    destruct (p_warm_template p) as [warm|]; [|set_solver].
    apply elem_of_union in Hname as [Hname|Hname%elem_of_suffixed]; [set_solver|eauto].
  - intros (profile & p & Hp & Hname). exists (reserve_profile p).
    split; [apply list_elem_of_fmap; exists (profile, p); by rewrite elem_of_btree_list|].
    unfold reserve_profile. destruct Hname as [->|(warm & -> & [->|Hname])]; [set_solver..|].
    apply elem_of_suffixed in Hname. set_solver.
Qed.

Lemma elem_of_protect_allocation config a name :
  name ∈ protect_allocation config a <->
  is_terminal (a_state a) = false /\
  (name = a_vm_name a \/ a_mode a = Regenerate /\ exists p warm,
    c_profiles config !! rq_profile (a_request a) = Some p /\ p_warm_template p = Some warm /\
    name ∈ derived_names warm).
Proof.
  unfold protect_allocation. destruct (is_terminal _); [set_solver|].
  rewrite elem_of_union, elem_of_singleton.
  destruct (bool_decide (a_mode a = Regenerate)) eqn:Hm; simplify_bool.
  - destruct (c_profiles config !! _) as [p|]; [|set_solver].
    destruct (p_warm_template p) as [warm|] eqn:?; [|set_solver]. naive_solver.
  - set_solver.
Qed.

Lemma elem_of_protected_names inputs name :
  name ∈ protected_names inputs <-> claimed_name inputs name.
Proof.
  unfold protected_names. rewrite !elem_of_union, elem_of_union_list, elem_of_list_to_set. split.
  - intros [[(X & (a & -> & Ha)%list_elem_of_fmap & Hn)|Hn]|Hn].
    + apply elem_of_protect_allocation in Hn as (Ht & [->|(Hm & p & warm & Hp & Hw & Hn)]).
      * by constructor.
      * apply elem_of_derived_names in Hn. by eapply claimed_regeneration.
    + apply list_elem_of_fmap in Hn as (g & -> & Hg).
      apply list_elem_of_In, List.filter_In in Hg as [Hg%list_elem_of_In ?]. by constructor.
    + apply elem_of_reserved_image_names in Hn as (profile & p & Hp & [->|(warm & Hw & Hn)]);
        [by econstructor|]. by eapply claimed_image.
  - destruct 1 as [a Ha Ht|a p warm name Ha Ht Hm Hp Hw Hn|g Hg Hh|profile p Hp
      |profile p warm name Hp Hw Hn].
    + left; left. exists (protect_allocation (ri_config inputs) a).
      split; [by apply list_elem_of_fmap; eauto|]. apply elem_of_protect_allocation. eauto.
    + left; left. exists (protect_allocation (ri_config inputs) a).
      split; [by apply list_elem_of_fmap; eauto|]. apply elem_of_protect_allocation.
      split; [done|]. right. split; [done|]. exists p, warm. split_and!; [done..|].
      by apply elem_of_derived_names.
    + left; right. apply list_elem_of_fmap. exists g. split; [done|].
      by apply list_elem_of_In, List.filter_In; rewrite <- list_elem_of_In.
    + right. apply elem_of_reserved_image_names. eauto.
    + right. apply elem_of_reserved_image_names. eauto 8.
Qed.

Lemma NoDup_map_elem {A B} (f : A -> B) (l : list A) x y :
  NoDup (map f l) -> x ∈ l -> y ∈ l -> f x = f y -> x = y.
Proof.
  intros Hnd [i Hi]%list_elem_of_lookup [j Hj]%list_elem_of_lookup Heq.
  assert (i = j) as ->; [|congruence].
  apply (NoDup_lookup _ i j (f x) Hnd); rewrite list_lookup_fmap;
    [rewrite Hi|rewrite Hj]; simpl; congruence.
Qed.

Lemma find_some_iff {A} (f : A -> bool) l :
  match List.find f l with
  | Some x => x ∈ l /\ f x = true
  | None => forall x, x ∈ l -> f x = false
  end.
Proof.
  destruct (List.find f l) eqn:H.
  - apply List.find_some in H. by rewrite list_elem_of_In.
  - intros x Hx. eapply List.find_none; [done|]. by apply list_elem_of_In.
Qed.

Lemma clone_authorization_entitled inputs name age :
  starts_with name (rt_vm_prefix (c_runtime (ri_config inputs))) = true ->
  entitled inputs name age (clone_authorization inputs name).
Proof.
  intros Hpre. unfold clone_authorization.
  pose proof (find_some_iff (fun a => is_terminal (a_state a) && a_vm_created a
    && bool_decide (a_vm_name a = name)) (ri_allocations inputs)) as H.
  destruct (List.find _ _) as [a|]; simpl; (split; [done|]).
  - destruct H as [Ha H]. simplify_bool. eauto 6.
  - intros a Ha (H1 & H2 & H3). specialize (H a Ha). simpl in H.
    rewrite H1, H2, bool_decide_true in H by done. done.
Qed.

Lemma image_authorization_entitled inputs name age auth :
  starts_with name (rt_vm_prefix (c_runtime (ri_config inputs))) = false ->
  image_authorization inputs name age = Some auth -> entitled inputs name age auth.
Proof.
  intros Hpre. unfold image_authorization.
  pose proof (find_some_iff (is_staging_of name) (btree_list (c_profiles (ri_config inputs)))) as H.
  destruct (List.find (is_staging_of name) _) as [[profile p]|].
  - intros [= <-]. destruct H as [Hp%elem_of_btree_list H]. unfold is_staging_of in H.
    simpl in H. split; [done|]. destruct (p_warm_template p) as [warm|] eqn:Hw; simplify_bool.
    + exists p, warm. split_and!; try done. by apply ok_some.
    + done.
  - clear H. destruct (age <? IMAGE_AGE_SECONDS) eqn:Hage; [done|].
    match goal with |- context [List.find ?f ?l] => pose proof (find_some_iff f l) as H;
      destruct (List.find f l) as [r|] end; [|done].
    intros [= <-]. destruct H as [Hr H]. simplify_bool.
    apply list_elem_of_In, List.filter_In in Hr as [Hr%list_elem_of_In Hreap].
    split; [done|]. split; [done|]. exists r.
    split_and!; [done..| |by apply elem_of_derived_names in H].
    unfold is_reapable_profile in Hreap. intros p Hp. by rewrite Hp in Hreap.
Qed.

(** The authorizations outside the prefix are found whenever they exist. *)
Lemma image_authorization_complete inputs name age auth :
  entitled inputs name age auth ->
  starts_with name (rt_vm_prefix (c_runtime (ri_config inputs))) = false ->
  exists auth', image_authorization inputs name age = Some auth'.
Proof.
  intros He Hpre. unfold image_authorization.
  pose proof (find_some_iff (is_staging_of name) (btree_list (c_profiles (ri_config inputs)))) as H.
  destruct (List.find (is_staging_of name) _) as [[profile p]|]; [by eexists|].
  destruct auth as [id|profile|profile|];
    [destruct He; congruence| | |destruct He; congruence].
  - destruct He as (_ & p & warm & Hp & Hr & Hw & Hs). exfalso.
    specialize (H (profile, p)). rewrite elem_of_btree_list in H. specialize (H Hp).
    unfold is_staging_of, suffixed in H. simpl in H.
    by rewrite Hr, Hw, bool_decide_true in H by (by apply ok_some).
  - destruct He as (_ & Hage & r & Hr & <- & Hreap & Hn). apply Z.ltb_ge in Hage.
    rewrite Hage.
    match goal with |- context [List.find ?f ?l] => pose proof (find_some_iff f l) as H';
      destruct (List.find f l) as [r'|] end; [by eexists|].
    exfalso. specialize (H' r). rewrite bool_decide_true in H'.
    + discriminate H'. apply list_elem_of_In, List.filter_In. split; [by apply list_elem_of_In|].
      unfold is_reapable_profile. destruct (c_profiles _ !! _) eqn:Hp; auto.
    + apply elem_of_derived_names. naive_solver.
Qed.

Lemma candidate_spec inputs m c :
  candidate inputs m (rt_vm_prefix (c_runtime (ri_config inputs))) = Some c ->
  rc_name c = hm_name m /\ rc_state c = hm_state m /\ hm_age_seconds m = Some (rc_age_seconds c) /\
  MIN_AGE_SECONDS <= rc_age_seconds c /\
  entitled inputs (rc_name c) (rc_age_seconds c) (rc_authorization c).
Proof.
  unfold candidate. destruct (hm_age_seconds m) as [age|]; [|done]. simpl.
  destruct (age <? MIN_AGE_SECONDS) eqn:Hage; [done|]. apply Z.ltb_ge in Hage.
  destruct (starts_with _ _) eqn:Hpre; simpl.
  - intros [= <-]. simpl. eauto 6 using clone_authorization_entitled.
  - destruct (image_authorization _ _ _) eqn:Ha; [|done]. intros [= <-]. simpl.
    eauto 6 using image_authorization_entitled.
Qed.

Lemma plan_sweep_elem inputs c :
  c ∈ plan_sweep inputs <->
  exists m, m ∈ ri_machines inputs /\ ~ claimed_name inputs (hm_name m) /\
    candidate inputs m (rt_vm_prefix (c_runtime (ri_config inputs))) = Some c.
Proof.
  unfold plan_sweep. rewrite list_elem_of_omap. split.
  - intros (m & Hm & Hc). apply list_elem_of_In, List.filter_In in Hm as [Hm%list_elem_of_In Hu].
    unfold is_unprotected in Hu. apply negb_true_iff, bool_decide_eq_false in Hu.
    rewrite elem_of_protected_names in Hu. eauto.
  - intros (m & Hm & Hu & Hc). exists m. split; [|done].
    apply list_elem_of_In, List.filter_In. rewrite <- list_elem_of_In. split; [done|].
    unfold is_unprotected. apply negb_true_iff, bool_decide_eq_false.
    by rewrite elem_of_protected_names.
Qed.

Lemma prune_step_fold config allocations machines images plan :
  fold_left (prune_step config allocations machines) images plan =
  mkPrunePlan
    (pp_prunable plan ++ map wi_profile (List.filter (is_prunable config allocations machines) images))
    (pp_claimed plan ∪ list_to_set (map wi_profile
       (List.filter (fun r => negb (is_prunable config allocations machines r)) images))).
Proof.
  revert plan. induction images as [|r images IH]; intros [prunable claimed]; simpl.
  { by rewrite app_nil_r, union_empty_r_L. }
  rewrite IH. unfold prune_step. destruct (is_prunable _ _ _ r); simpl.
  - by rewrite <- app_assoc.
  - f_equal. set_solver.
Qed.

Lemma is_present_spec record machines :
  is_present record machines = true <->
  exists m, m ∈ machines /\
    (hm_name m = wi_warm_template record \/ staging_name record = Ok (hm_name m) \/
     previous_name record = Ok (hm_name m)).
Proof.
  unfold is_present. rewrite existsb_exists. split.
  - intros (name & Hname & (m & Hm%list_elem_of_In & <-%bool_decide_eq_true)%existsb_exists).
    exists m. split; [done|]. simpl in Hname.
    destruct (staging_name record), (previous_name record); naive_solver.
  - intros (m & Hm & Hn). exists (hm_name m). rewrite existsb_exists. split.
    + destruct Hn as [Hn|[Hn|Hn]]; rewrite Hn; simpl; auto.
    + exists m. rewrite <- list_elem_of_In. by rewrite bool_decide_true.
Qed.

Lemma is_present_false record machines :
  is_present record machines = false <->
  forall m, m ∈ machines -> hm_name m <> wi_warm_template record /\
    staging_name record <> Ok (hm_name m) /\ previous_name record <> Ok (hm_name m).
Proof.
  rewrite <- not_true_iff_false, is_present_spec. split.
  - intros H m Hm. split_and!; intros Heq; apply H; exists m; auto.
  - intros H (m & Hm & Hn). specialize (H m Hm). tauto.
Qed.

Lemma is_referenced_false config record :
  is_referenced config record = false <->
  forall p, c_profiles config !! wi_profile record = Some p ->
    p_warm_template p <> Some (wi_warm_template record).
Proof.
  unfold is_referenced. destruct (c_profiles config !! _) as [p|]; [|done].
  rewrite bool_decide_eq_false. split; [|auto]. by intros H ? [= <-].
Qed.

Lemma elem_of_regenerating_profiles allocations profile :
  profile ∈ regenerating_profiles allocations <->
  exists a, a ∈ allocations /\ is_terminal (a_state a) = false /\ a_mode a = Regenerate /\
    rq_profile (a_request a) = profile.
Proof.
  unfold regenerating_profiles. rewrite elem_of_list_to_set, list_elem_of_fmap.
  setoid_rewrite list_elem_of_In. setoid_rewrite List.filter_In. split.
  - intros (a & -> & Ha & Hf). simplify_bool. eauto.
  - intros (a & Ha & Ht & Hm & <-). exists a. split_and!; [done..|].
    by rewrite Ht, Hm, bool_decide_true.
Qed.

(** ** Properties *)

(** C28: the sweep plans exactly the machines it may delete.  Every candidate
    is a listed machine with a known age of at least an hour, whose name no
    live allocation, live regeneration, machine-holding hot record or live
    profile claims, and whose authorization is backed by the record, prefix or
    profile it names; conversely every such machine is planned.  A prefixed,
    unclaimed machine is left out only for want of an age, and is then
    reported as unaged. *)
Theorem plan_sweep_spec inputs :
  let prefix := rt_vm_prefix (c_runtime (ri_config inputs)) in
  (forall c, c ∈ plan_sweep inputs -> exists m, m ∈ ri_machines inputs /\
    rc_name c = hm_name m /\ rc_state c = hm_state m /\
    hm_age_seconds m = Some (rc_age_seconds c) /\ MIN_AGE_SECONDS <= rc_age_seconds c /\
    ~ claimed_name inputs (rc_name c) /\
    entitled inputs (rc_name c) (rc_age_seconds c) (rc_authorization c)) /\
  (forall m age, m ∈ ri_machines inputs -> hm_age_seconds m = Some age ->
    MIN_AGE_SECONDS <= age -> ~ claimed_name inputs (hm_name m) ->
    (exists auth, entitled inputs (hm_name m) age auth) ->
    exists c, c ∈ plan_sweep inputs /\ rc_name c = hm_name m) /\
  (forall name, name ∈ unaged_candidates inputs <->
    exists m, m ∈ ri_machines inputs /\ hm_name m = name /\ hm_age_seconds m = None /\
      starts_with name prefix = true /\ ~ claimed_name inputs name).
Proof.
  intros prefix. split_and!.
  - intros c (m & Hm & Hu & Hc)%plan_sweep_elem. exists m.
    apply candidate_spec in Hc as (Hn & Hs & Ha & Hage & He). rewrite <- Hn in Hu. auto 8.
  - intros m age Hm Ha Hage Hu [auth He]. setoid_rewrite plan_sweep_elem.
    unfold candidate. destruct (starts_with (hm_name m) prefix) eqn:Hpre.
    + eexists. split; [exists m; split_and!; [done..|]|].
      * rewrite Ha. simpl. rewrite (proj2 (Z.ltb_ge _ _)) by done.
        unfold prefix in Hpre. by rewrite Hpre.
      * done.
    + destruct (image_authorization_complete _ _ _ _ He Hpre) as [auth' Hauth].
      eexists. split; [exists m; split_and!; [done..|]|].
      * rewrite Ha. simpl. rewrite (proj2 (Z.ltb_ge _ _)) by done.
        unfold prefix in Hpre. by rewrite Hpre, Hauth.
      * done.
  - intros name. unfold unaged_candidates, is_unaged, is_unprotected.
    rewrite list_elem_of_fmap. setoid_rewrite list_elem_of_In. setoid_rewrite List.filter_In.
    setoid_rewrite andb_true_iff. setoid_rewrite andb_true_iff. setoid_rewrite negb_true_iff.
    setoid_rewrite bool_decide_eq_false. setoid_rewrite elem_of_protected_names. split.
    + intros (m & -> & Hm & (Ha & Hp) & Hu). exists m.
      destruct (hm_age_seconds m) eqn:?; [done|]. auto.
    + intros (m & Hm & <- & Ha & Hp & Hu). exists m. rewrite Ha. auto.
Qed.

(** A request survived the re-plan: its candidate is unclaimed there, listed
    past the age floor and still entitled. *)
Lemma reap_request_replanned deadline c fresh req :
  reap_request deadline c fresh = Some req ->
  rr_name req = rc_name c /\ rr_authorization req = rc_authorization c /\
  is_vm_name (rc_name c) = true /\ ~ claimed_name fresh (rc_name c) /\
  exists m age, m ∈ ri_machines fresh /\ hm_name m = rc_name c /\
    hm_age_seconds m = Some age /\ MIN_AGE_SECONDS <= age /\
    entitled fresh (rc_name c) age (rc_authorization c).
Proof.
  unfold reap_request. destruct (vm_name_new (rc_name c)) as [name|] eqn:Hn; [|done]. simpl.
  assert (name = rc_name c /\ is_vm_name (rc_name c) = true) as [-> Hvm].
  { split; [by unfold vm_name_new in Hn; apply identifier_new_ok in Hn as [-> _]|].
    unfold is_vm_name. by rewrite Hn. }
  destruct (existsb _ _) eqn:Hex; [|done]. simpl. intros [= <-].
  apply existsb_exists in Hex as (c' & Hc' & Heq). simplify_bool.
  apply list_elem_of_In, plan_sweep_elem in Hc' as (m & Hm & Hu & Hc).
  apply candidate_spec in Hc as (Hname & Hs & Ha & Hage & He).
  replace (rc_name c') with (rc_name c) in *. replace (rc_authorization c') with
    (rc_authorization c) in *. rewrite <- Hname in Hu. simpl. split_and!; eauto 8.
Qed.

(** What reaches the backend's [delete_vm] survived a re-plan.  The
    request names the candidate, is unclaimed and entitled in the freshly read
    snapshot, is listed there past the age floor, is outside the reserved
    names sent along, and a [Record] authorization carries a terminal
    allocation that created exactly that machine; the budget is never below
    the backend's minimum and never outlives a running shutdown. *)
Theorem reap_request_safe deadline c fresh req :
  NoDup (map a_id (ri_allocations fresh)) ->
  reap_request deadline c fresh = Some req ->
  rr_name req = rc_name c /\ is_vm_name (rr_name req) = true /\
  ~ claimed_name fresh (rr_name req) /\ (rr_name req ∉ rr_reserved req) /\
  (exists m age, m ∈ ri_machines fresh /\ hm_name m = rr_name req /\
    hm_age_seconds m = Some age /\ MIN_AGE_SECONDS <= age /\
    entitled fresh (rr_name req) age (rr_authorization req)) /\
  (forall id, rr_authorization req = ByRecord id -> exists a, rr_allocation req = Some a /\
    a_id a = id /\ is_terminal (a_state a) = true /\ a_vm_created a = true /\
    a_vm_name a = rr_name req) /\
  (forall profile, authorization_profile (rr_authorization req) = Some profile ->
    rr_profile req = c_profiles (ri_config fresh) !! profile) /\
  from_secs LIBVIRT_MIN_CLEANUP_TIMEOUT_SECONDS <= cb_allowance (rr_budget req) /\
  (forall d now, deadline = Some d -> timeout now (rr_budget req) <= Z.max 0 (d - now)).
Proof.
  intros Hnd Hreq. pose proof (reap_request_replanned _ _ _ _ Hreq)
    as (Hn & Hau & Hvm & Hu & m & age & Hm & Hname & Ha & Hage & He).
  unfold reap_request in Hreq. destruct (vm_name_new (rc_name c)) as [name|]; [|done].
  simpl in Hreq. destruct (existsb _ _); [|done]. simpl in Hreq. injection Hreq as <-.
  simpl in *. subst name. split_and!; try done.
  - intros Hin. apply Hu, elem_of_protected_names. unfold protected_names. set_solver.
  - eauto 8.
  - intros id Hid. rewrite Hid in *. destruct He as (_ & a & Ha' & Hai & Ht & Hcr & Hnm).
    exists a. split; [|auto].
    pose proof (find_some_iff (fun a => bool_decide (a_id a = id)) (ri_allocations fresh)) as Hf.
    destruct (List.find _ _) as [b|].
    + destruct Hf as [Hb Hbi]. apply bool_decide_eq_true in Hbi. f_equal.
      apply (NoDup_map_elem a_id (ri_allocations fresh)); [done..|congruence].
    + specialize (Hf a Ha'). rewrite bool_decide_true in Hf; done.
  - intros profile. destruct (rc_authorization c); simpl; congruence.
  - unfold teardown_budget, cleanup_allowance, widest_cleanup_seconds, from_secs.
    destruct deadline; simpl; case_match; lia.
  - intros d now ->. unfold timeout, limit. simpl. unfold sat_sub. lia.
Qed.

(** A machine an ended allocation left behind, swept on that record. *)
Definition ended_allocation : Allocation :=
  example_allocation <| a_state := Failed |> <| a_vm_created := true |>.

Definition orphan_machine : HostMachine :=
  {| hm_name := a_vm_name ended_allocation; hm_state := MRunning;
     hm_age_seconds := Some 7200; hm_size := None; hm_ownership := Owned |}.

Definition orphan_inputs : ReapInputs :=
  {| ri_config := example_config; ri_machines := [orphan_machine];
     ri_allocations := [ended_allocation]; ri_images := []; ri_hot := [idle_guest] |}.

Definition orphan_candidate : ReapCandidate :=
  {| rc_name := a_vm_name ended_allocation; rc_state := MRunning;
     rc_authorization := ByRecord (a_id ended_allocation); rc_age_seconds := 7200 |}.

Example orphan_planned : plan_sweep orphan_inputs = [orphan_candidate].
Proof. vm_compute. reflexivity. Qed.

Lemma reap_request_safe_witness :
  exists req, reap_request (Some 100) orphan_candidate orphan_inputs = Some req /\
    timeout 95 (rr_budget req) <= Z.max 0 (100 - 95).
Proof.
  eexists. split; [vm_compute; reflexivity|].
  refine (proj2 (proj2 (proj2 (proj2 (proj2 (proj2 (proj2 (proj2
    (reap_request_safe (Some 100) orphan_candidate orphan_inputs _ _ _))))))))
    100 95 eq_refl).
  - apply NoDup_singleton.
  - vm_compute. reflexivity.
Defined.

(** Pruning drops a warm image record exactly when no profile still points
    at its image, none of the three names it may use is listed, and no live
    regeneration produces for its profile; with one record per profile, the
    profiles reported as still claimed are exactly the others. *)
Theorem plan_pruned_records_spec config allocations images machines :
  NoDup (map wi_profile images) ->
  let plan := plan_pruned_records config allocations images machines in
  forall r, r ∈ images ->
  (wi_profile r ∈ pp_prunable plan <->
    (forall p, c_profiles config !! wi_profile r = Some p ->
       p_warm_template p <> Some (wi_warm_template r)) /\
    (forall m, m ∈ machines -> hm_name m <> wi_warm_template r /\
       staging_name r <> Ok (hm_name m) /\ previous_name r <> Ok (hm_name m)) /\
    (forall a, a ∈ allocations -> a_mode a = Regenerate -> rq_profile (a_request a) = wi_profile r ->
       is_terminal (a_state a) = true)) /\
  ((wi_profile r ∈ pp_claimed plan) <-> ~ wi_profile r ∈ pp_prunable plan).
Proof.
  intros Hnd plan r Hr. unfold plan, plan_pruned_records. rewrite prune_step_fold. simpl.
  assert (forall f, wi_profile r ∈ map wi_profile (List.filter f images) <-> f r = true) as Hf.
  { intros f. rewrite list_elem_of_fmap. setoid_rewrite list_elem_of_In.
    setoid_rewrite List.filter_In. split.
    - intros (r' & Heq & Hr'%list_elem_of_In & Hfr).
      by rewrite (NoDup_map_elem wi_profile images r r').
    - intros Hfr. exists r. by rewrite <- list_elem_of_In. }
  rewrite union_empty_l_L, elem_of_list_to_set, !Hf, negb_true_iff. split.
  - unfold is_prunable. rewrite !andb_true_iff, !negb_true_iff, bool_decide_eq_false.
    rewrite is_referenced_false, is_present_false, elem_of_regenerating_profiles.
    rewrite <- Logic.and_assoc. apply and_iff_compat_l. split.
    + intros H a Ha Hm Hp. apply not_false_iff_true. intros Ht. apply H. eauto.
    + intros H (a & Ha & Ht & Hm & Hp). specialize (H a Ha Hm Hp). congruence.
  - by destruct (is_prunable _ _ _ r).
Qed.

Definition stray_record : WarmImageRecord :=
  mkWarmImageRecord "gone" "gone-warm" 1 "fingerprint" "id-1" 0 Promoted None.

Lemma plan_pruned_records_spec_witness :
  "gone" ∈ pp_prunable (plan_pruned_records example_config [] [stray_record] [orphan_machine]).
Proof.
  refine (proj2 (proj1 (plan_pruned_records_spec example_config [] [stray_record]
    [orphan_machine] (NoDup_singleton _) stray_record _)) _).
  - apply list_elem_of_singleton. reflexivity.
  - split; [intros p; vm_compute; discriminate|]. split.
    + intros m ->%list_elem_of_singleton. vm_compute. split_and!; discriminate.
    + intros a Ha. inversion Ha.
Defined.
