(* ===== verification/Convert.v ===== *)
(** * Rows ([crates/flanforge-orm/src/convert/])

    How a domain record is flattened onto its database row and rebuilt from
    it: enums and identifiers travel as their serde token, unsigned integers
    as signed 64-bit columns, grouped options as columns present together,
    [origin], [retention] and [previous] as JSON documents.  Reading re-runs
    the record's validator. *)

From S2P Require Import Prelude Rust Text Identifiers Images Guest Hot Allocation.

Open Scope Z_scope.
Open Scope stdpp_scope.

Inductive ConvertError :=
| NotAToken (field : string)
| Json (field : string)
| Numeric (field : string)
| SplitGroup (field : string)
| Invalid (id : string).

Definition i64_max : Z := 9223372036854775807.

(** ** Tokens ([token.rs])

    [Token A] is the serde string form of [A]. *)

Class Token (A : Type) := {
  to_token : A -> string;
  token_parse : string -> option A;
}.

#[global] Arguments to_token : simpl never.

Definition from_token {A} `{!Token A} (field token : string) : result ConvertError A :=
  ok_or (token_parse token) (Json field).

Definition optional_token {A} `{!Token A} : option A -> option string := option_map to_token.

Definition optional_from_token {A} `{!Token A} (field : string) (token : option string) :
    result ConvertError (option A) :=
  match token with
  | None => Ok None
  | Some token => a ← from_token field token; Ok (Some a)
  end.

Definition to_i64 (field : string) (value : Z) : result ConvertError Z :=
  if value <=? i64_max then Ok value else Err (Numeric field).

Definition try_unsigned (max : Z) (field : string) (value : Z) : result ConvertError Z :=
  if in_range 0 max value then Ok value else Err (Numeric field).

Definition to_u64 := try_unsigned u64_max.

Definition optional_to_i64 (field : string) (value : option Z) : result ConvertError (option Z) :=
  match value with None => Ok None | Some n => n ← to_i64 field n; Ok (Some n) end.

Definition optional_to_u64 (field : string) (value : option Z) : result ConvertError (option Z) :=
  match value with None => Ok None | Some n => n ← to_u64 field n; Ok (Some n) end.

(** The derived [Deserialize] of a field-less enum: the variant whose renamed
    name is the token. *)
Definition enum_parse {A} (variants : list A) (name : A -> string) (token : string) : option A :=
  List.find (fun a => bool_decide (name a = token)) variants.

Definition hot_state_name (s : HotState) : string :=
  match s with
  | Provisioning => "provisioning" | Idle => "idle" | Claimed => "claimed"
  | Recycling => "recycling" | Draining => "draining" | Evicted => "evicted"
  end.

Definition drain_reason_name (r : HotDrainReason) : string :=
  match r with
  | EvictRequested => "evict_requested" | CapacityPressure => "capacity_pressure"
  | MaxLifetime => "max_lifetime" | MaxJobs => "max_jobs" | MaxIdle => "max_idle"
  | IdleTtl => "idle_ttl" | ResetFailed => "reset_failed" | StaleBase => "stale_base"
  | ConfigReloaded => "config_reloaded" | MachineGone => "machine_gone"
  | Unverifiable => "unverifiable" | OperatorRequest => "operator_request"
  end.

Definition lane_name (l : HotLane) : string :=
  match l with Protected => "protected" | Unprotected => "unprotected" end.

Definition clone_kind_name (k : CloneKind) : string :=
  match k with KTemplate => "template" | KWarm => "warm" end.

Definition mode_name (m : AllocationMode) : string :=
  match m with Cold => "cold" | Warm => "warm" | Regenerate => "regenerate" end.

Definition allocation_state_name (s : AllocationState) : string :=
  match s with
  | Requested => "requested" | Preparing => "preparing" | Booting => "booting"
  | Registering => "registering" | WaitingForJob => "waiting_for_job" | Ready => "ready"
  | Running => "running" | Cleaning => "cleaning" | Completed => "completed"
  | Failed => "failed" | Cancelled => "cancelled"
  end.

Definition refusal_name (r : HotRefusal) : string :=
  match r with
  | NotEnabled => "not_enabled" | LaneNotAdmitted => "lane_not_admitted"
  | Regeneration => "regeneration" | Unsupported => "unsupported" | PoolFull => "pool_full"
  end.

Definition terminal_reason_name (r : TerminalReason) : string :=
  match r with Capacity => "capacity" end.

Definition warm_state_name (s : WarmImageState) : string :=
  match s with Staging => "staging" | Promoted => "promoted" end.

#[export] Instance hot_state_token : Token HotState :=
  {| to_token := hot_state_name;
     token_parse := enum_parse [Provisioning; Idle; Claimed; Recycling; Draining; Evicted]
                      hot_state_name |}.

#[export] Instance drain_reason_token : Token HotDrainReason :=
  {| to_token := drain_reason_name;
     token_parse := enum_parse
       [EvictRequested; CapacityPressure; MaxLifetime; MaxJobs; MaxIdle; IdleTtl; ResetFailed;
        StaleBase; ConfigReloaded; MachineGone; Unverifiable; OperatorRequest]
       drain_reason_name |}.

#[export] Instance lane_token : Token HotLane :=
  {| to_token := lane_name; token_parse := enum_parse [Protected; Unprotected] lane_name |}.

#[export] Instance clone_kind_token : Token CloneKind :=
  {| to_token := clone_kind_name; token_parse := enum_parse [KTemplate; KWarm] clone_kind_name |}.

#[export] Instance mode_token : Token AllocationMode :=
  {| to_token := mode_name; token_parse := enum_parse [Cold; Warm; Regenerate] mode_name |}.

#[export] Instance allocation_state_token : Token AllocationState :=
  {| to_token := allocation_state_name;
     token_parse := enum_parse
       [Requested; Preparing; Booting; Registering; WaitingForJob; Ready; Running; Cleaning;
        Completed; Failed; Cancelled] allocation_state_name |}.

#[export] Instance refusal_token : Token HotRefusal :=
  {| to_token := refusal_name;
     token_parse := enum_parse [NotEnabled; LaneNotAdmitted; Regeneration; Unsupported; PoolFull]
                      refusal_name |}.

#[export] Instance terminal_reason_token : Token TerminalReason :=
  {| to_token := terminal_reason_name; token_parse := enum_parse [Capacity] terminal_reason_name |}.

#[export] Instance warm_state_token : Token WarmImageState :=
  {| to_token := warm_state_name; token_parse := enum_parse [Staging; Promoted] warm_state_name |}.

#[export] Instance fallback_token : Token FallbackReason :=
  {| to_token := fallback_reason_serialize;
     token_parse token := Some (fallback_reason_deserialize token) |}.

(** An identifier's [Deserialize] runs its constructor. *)
Definition identifier_from_token (new : string -> result IdentifierError string)
    (field token : string) : result ConvertError string :=
  map_err (fun _ => Json field) (new token).

(** The external codecs: [uuid]'s parser, whose values print to the text they
    parse from, and [serde_json]'s documents, which parse back. *)
Class UuidCodec := { uuid_parse : string -> option AllocationId }.

Class JsonCodec (A : Type) := {
  to_json : A -> string;
  json_parse : string -> option A;
  json_roundtrip : forall a, json_parse (to_json a) = Some a;
}.

Definition from_json {A} `{!JsonCodec A} (field text : string) : result ConvertError A :=
  ok_or (json_parse text) (Json field).

Definition optional_from_json {A} `{!JsonCodec A} (field : string) (text : option string) :
    result ConvertError (option A) :=
  match text with None => Ok None | Some text => a ← from_json field text; Ok (Some a) end.

Definition id_from_token {UC : UuidCodec} (field token : string) : result ConvertError AllocationId :=
  ok_or (uuid_parse token) (Json field).

Definition optional_id_from_token {UC : UuidCodec} (field : string) (token : option string) :
    result ConvertError (option AllocationId) :=
  match token with None => Ok None | Some token => a ← id_from_token field token; Ok (Some a) end.

(** ** Hot guests ([hot_guest.rs]) *)

Record HotGuestModel := {
  hgm_vm_name : string;
  hgm_profile : string;
  hgm_lane : string;
  hgm_state : string;
  hgm_size_cpu_count : Z;
  hgm_size_memory_mb : Z;
  hgm_size_storage_mb : Z;
  hgm_source_name : string;
  hgm_source_kind : string;
  hgm_source_fingerprint : option string;
  hgm_source_fallback_reason : option string;
  hgm_warm_generation : option Z;
  hgm_age_limit_seconds : option Z;
  hgm_booted_at_unix : Z;
  hgm_updated_at_unix : Z;
  hgm_jobs_served : Z;
  hgm_claimed_by : option string;
  hgm_drain_reason : option string;
}.

Definition hot_guest_to_model (g : HotGuest) : result ConvertError HotGuestModel :=
  storage ← to_i64 "size_storage_mb" (storage_mb (hg_size g));
  warm_generation ← optional_to_i64 "warm_generation" (hg_warm_generation g);
  age_limit ← optional_to_i64 "age_limit_seconds" (hg_age_limit_seconds g);
  booted ← to_i64 "booted_at_unix" (hg_booted_at_unix g);
  updated ← to_i64 "updated_at_unix" (hg_updated_at_unix g);
  Ok {| hgm_vm_name := hg_vm_name g; hgm_profile := hg_profile g;
        hgm_lane := to_token (hg_lane g); hgm_state := to_token (hg_state g);
        hgm_size_cpu_count := cpu_count (hg_size g);
        hgm_size_memory_mb := memory_mb (hg_size g); hgm_size_storage_mb := storage;
        hgm_source_name := cs_name (hg_source g);
        hgm_source_kind := to_token (cs_kind (hg_source g));
        hgm_source_fingerprint := cs_base_fingerprint (hg_source g);
        hgm_source_fallback_reason := optional_token (cs_fallback_reason (hg_source g));
        hgm_warm_generation := warm_generation; hgm_age_limit_seconds := age_limit;
        hgm_booted_at_unix := booted; hgm_updated_at_unix := updated;
        hgm_jobs_served := hg_jobs_served g; hgm_claimed_by := hg_claimed_by g;
        hgm_drain_reason := optional_token (hg_drain_reason g) |}.

Definition hot_guest_from_model {UC : UuidCodec} (m : HotGuestModel) : result ConvertError HotGuest :=
  vm_name ← identifier_from_token vm_name_new "vm_name" (hgm_vm_name m);
  profile ← identifier_from_token profile_name_new "profile" (hgm_profile m);
  lane ← from_token "lane" (hgm_lane m);
  state ← from_token "state" (hgm_state m);
  cpu ← try_unsigned u8_max "size_cpu_count" (hgm_size_cpu_count m);
  memory ← try_unsigned u32_max "size_memory_mb" (hgm_size_memory_mb m);
  storage ← to_u64 "size_storage_mb" (hgm_size_storage_mb m);
  source_name ← identifier_from_token vm_name_new "source_name" (hgm_source_name m);
  kind ← from_token "source_kind" (hgm_source_kind m);
  reason ← optional_from_token "source_fallback_reason" (hgm_source_fallback_reason m);
  warm_generation ← optional_to_u64 "warm_generation" (hgm_warm_generation m);
  age_limit ← optional_to_u64 "age_limit_seconds" (hgm_age_limit_seconds m);
  booted ← to_u64 "booted_at_unix" (hgm_booted_at_unix m);
  updated ← to_u64 "updated_at_unix" (hgm_updated_at_unix m);
  jobs ← try_unsigned u32_max "jobs_served" (hgm_jobs_served m);
  claimed_by ← optional_id_from_token "claimed_by" (hgm_claimed_by m);
  drain ← optional_from_token "drain_reason" (hgm_drain_reason m);
  let guest :=
    {| hg_vm_name := vm_name; hg_profile := profile; hg_lane := lane; hg_state := state;
       hg_size := {| cpu_count := cpu; memory_mb := memory; storage_mb := storage |};
       hg_source := {| cs_name := source_name; cs_kind := kind;
                       cs_base_fingerprint := hgm_source_fingerprint m;
                       cs_fallback_reason := reason |};
       hg_warm_generation := warm_generation; hg_age_limit_seconds := age_limit;
       hg_booted_at_unix := booted; hg_updated_at_unix := updated; hg_jobs_served := jobs;
       hg_claimed_by := claimed_by; hg_drain_reason := drain |} in
  if negb (validate_hot_guest guest) then Err (Invalid (hgm_vm_name m)) else Ok guest.

(** ** Warm images ([warm_image.rs]) *)

Record WarmImageModel := {
  wm_profile : string;
  wm_warm_template : string;
  wm_generation : Z;
  wm_base_fingerprint : string;
  wm_produced_by : string;
  wm_produced_at_unix : Z;
  wm_state : string;
  wm_previous : option string;
}.

Definition warm_image_to_model {JW : JsonCodec WarmGeneration} (r : WarmImageRecord) :
    result ConvertError WarmImageModel :=
  generation ← to_i64 "generation" (wi_generation r);
  produced ← to_i64 "produced_at_unix" (wi_produced_at_unix r);
  Ok {| wm_profile := wi_profile r; wm_warm_template := wi_warm_template r;
        wm_generation := generation; wm_base_fingerprint := wi_base_fingerprint r;
        wm_produced_by := wi_produced_by r; wm_produced_at_unix := produced;
        wm_state := to_token (wi_state r); wm_previous := option_map to_json (wi_previous r) |}.

Definition warm_image_from_model {UC : UuidCodec} {JW : JsonCodec WarmGeneration} (m : WarmImageModel) :
    result ConvertError WarmImageRecord :=
  profile ← identifier_from_token profile_name_new "profile" (wm_profile m);
  warm_template ← identifier_from_token vm_name_new "warm_template" (wm_warm_template m);
  generation ← to_u64 "generation" (wm_generation m);
  produced_by ← id_from_token "produced_by" (wm_produced_by m);
  produced_at ← to_u64 "produced_at_unix" (wm_produced_at_unix m);
  state ← from_token "state" (wm_state m);
  previous ← optional_from_json "previous" (wm_previous m);
  let record :=
    {| wi_profile := profile; wi_warm_template := warm_template; wi_generation := generation;
       wi_base_fingerprint := wm_base_fingerprint m; wi_produced_by := produced_by;
       wi_produced_at_unix := produced_at; wi_state := state; wi_previous := previous |} in
  if negb (validate_warm_image record) then Err (Invalid (wm_profile m)) else Ok record.

(** ** Allocations ([allocation.rs]) *)

Record AllocationModel := {
  am_id : string;
  am_profile : string;
  am_repository : string;
  am_run_id : Z;
  am_run_attempt : Z;
  am_state : string;
  am_mode : string;
  am_origin : string;
  am_vm_name : string;
  am_runner_label : string;
  am_vm_created : bool;
  am_runner_id : option Z;
  am_created_at_unix : Z;
  am_updated_at_unix : Z;
  am_error : option string;
  am_size_cpu_count : option Z;
  am_size_memory_mb : option Z;
  am_size_storage_mb : option Z;
  am_source_name : option string;
  am_source_kind : option string;
  am_source_fingerprint : option string;
  am_source_fallback_reason : option string;
  am_hot_lane : option string;
  am_hot_refusal : option string;
  am_hot_age_seconds : option Z;
  am_warm_generation : option Z;
  am_retention : option string;
  am_terminal_reason : option string;
}.

Section allocation_rows.
Context {UC : UuidCodec} {JO : JsonCodec AllocationOrigin} {JR : JsonCodec RetentionOutcome}.

Definition allocation_to_model (a : Allocation) : result ConvertError AllocationModel :=
  run_id ← to_i64 "run_id" (rq_run_id (a_request a));
  created ← to_i64 "created_at_unix" (a_created_at_unix a);
  updated ← to_i64 "updated_at_unix" (a_updated_at_unix a);
  storage ← optional_to_i64 "size_storage_mb" (option_map storage_mb (a_size a));
  hot_age ← optional_to_i64 "hot_age_seconds" (a_hot_age_seconds a);
  warm_generation ← optional_to_i64 "warm_generation" (a_warm_generation a);
  Ok {| am_id := a_id a; am_profile := rq_profile (a_request a);
        am_repository := rq_repository (a_request a); am_run_id := run_id;
        am_run_attempt := rq_run_attempt (a_request a); am_state := to_token (a_state a);
        am_mode := to_token (a_mode a); am_origin := to_json (a_origin a);
        am_vm_name := a_vm_name a; am_runner_label := a_runner_label a;
        am_vm_created := a_vm_created a; am_runner_id := a_runner_id a;
        am_created_at_unix := created; am_updated_at_unix := updated; am_error := a_error a;
        am_size_cpu_count := option_map cpu_count (a_size a);
        am_size_memory_mb := option_map memory_mb (a_size a); am_size_storage_mb := storage;
        am_source_name := option_map cs_name (a_source a);
        am_source_kind := option_map (fun s => to_token (cs_kind s)) (a_source a);
        am_source_fingerprint := a_source a ≫= cs_base_fingerprint;
        am_source_fallback_reason := optional_token (a_source a ≫= cs_fallback_reason);
        am_hot_lane := optional_token (a_hot_lane a);
        am_hot_refusal := optional_token (a_hot_refusal a); am_hot_age_seconds := hot_age;
        am_warm_generation := warm_generation;
        am_retention := option_map to_json (a_retention a);
        am_terminal_reason := optional_token (a_terminal_reason a) |}.

Definition size_from_model (m : AllocationModel) : result ConvertError (option GuestSize) :=
  match am_size_cpu_count m, am_size_memory_mb m, am_size_storage_mb m with
  | None, None, None => Ok None
  | Some cpu, Some memory, Some storage =>
      cpu ← try_unsigned u8_max "size_cpu_count" cpu;
      memory ← try_unsigned u32_max "size_memory_mb" memory;
      storage ← to_u64 "size_storage_mb" storage;
      Ok (Some {| cpu_count := cpu; memory_mb := memory; storage_mb := storage |})
  | _, _, _ => Err (SplitGroup "size")
  end.

Definition source_from_model (m : AllocationModel) : result ConvertError (option CloneSource) :=
  match am_source_name m, am_source_kind m with
  | None, None => Ok None
  | Some name, Some kind =>
      name ← identifier_from_token vm_name_new "source_name" name;
      kind ← from_token "source_kind" kind;
      reason ← optional_from_token "source_fallback_reason" (am_source_fallback_reason m);
      Ok (Some {| cs_name := name; cs_kind := kind;
                  cs_base_fingerprint := am_source_fingerprint m;
                  cs_fallback_reason := reason |})
  | _, _ => Err (SplitGroup "source")
  end.

Definition allocation_from_model (m : AllocationModel) : result ConvertError Allocation :=
  id ← id_from_token "id" (am_id m);
  profile ← identifier_from_token profile_name_new "profile" (am_profile m);
  repository ← identifier_from_token repository_name_new "repository" (am_repository m);
  run_id ← to_u64 "run_id" (am_run_id m);
  run_attempt ← try_unsigned u32_max "run_attempt" (am_run_attempt m);
  state ← from_token "state" (am_state m);
  vm_name ← identifier_from_token vm_name_new "vm_name" (am_vm_name m);
  runner_label ← identifier_from_token runner_label_new "runner_label" (am_runner_label m);
  created ← to_u64 "created_at_unix" (am_created_at_unix m);
  updated ← to_u64 "updated_at_unix" (am_updated_at_unix m);
  mode ← from_token "mode" (am_mode m);
  size ← size_from_model m;
  source ← source_from_model m;
  origin ← from_json "origin" (am_origin m);
  hot_lane ← optional_from_token "hot_lane" (am_hot_lane m);
  hot_refusal ← optional_from_token "hot_refusal" (am_hot_refusal m);
  hot_age ← optional_to_u64 "hot_age_seconds" (am_hot_age_seconds m);
  warm_generation ← optional_to_u64 "warm_generation" (am_warm_generation m);
  retention ← optional_from_json "retention" (am_retention m);
  terminal_reason ← optional_from_token "terminal_reason" (am_terminal_reason m);
  let allocation :=
    {| a_id := id;
       a_request := {| rq_profile := profile; rq_repository := repository; rq_run_id := run_id;
                       rq_run_attempt := run_attempt |};
       a_state := state; a_vm_name := vm_name; a_runner_label := runner_label;
       a_vm_created := am_vm_created m; a_runner_id := am_runner_id m;
       a_created_at_unix := created; a_updated_at_unix := updated; a_error := am_error m;
       a_mode := mode; a_size := size; a_source := source; a_origin := origin;
       a_hot_lane := hot_lane; a_hot_refusal := hot_refusal; a_hot_age_seconds := hot_age;
       a_warm_generation := warm_generation; a_retention := retention;
       a_terminal_reason := terminal_reason |} in
  if negb (validate_allocation allocation) then Err (Invalid (am_id m)) else Ok allocation.
End allocation_rows.

(** Whether every integer of the record fits its column: [allocation_to_model]
    without the documents, so the store can be modelled without their codec. *)
Definition allocation_columns (a : Allocation) : result ConvertError unit :=
  _ ← to_i64 "run_id" (rq_run_id (a_request a));
  _ ← to_i64 "created_at_unix" (a_created_at_unix a);
  _ ← to_i64 "updated_at_unix" (a_updated_at_unix a);
  _ ← optional_to_i64 "size_storage_mb" (option_map storage_mb (a_size a));
  _ ← optional_to_i64 "hot_age_seconds" (a_hot_age_seconds a);
  _ ← optional_to_i64 "warm_generation" (a_warm_generation a);
  Ok tt.

(** ** Lemmas *)

Class LawfulToken (A : Type) `{!Token A} :=
  token_roundtrip : forall a : A, token_parse (to_token a) = Some a.

#[export] Instance hot_state_lawful : LawfulToken HotState. Proof. by intros []. Qed.
#[export] Instance drain_reason_lawful : LawfulToken HotDrainReason. Proof. by intros []. Qed.
#[export] Instance lane_lawful : LawfulToken HotLane. Proof. by intros []. Qed.
#[export] Instance clone_kind_lawful : LawfulToken CloneKind. Proof. by intros []. Qed.
#[export] Instance mode_lawful : LawfulToken AllocationMode. Proof. by intros []. Qed.
#[export] Instance state_lawful : LawfulToken AllocationState. Proof. by intros []. Qed.
#[export] Instance refusal_lawful : LawfulToken HotRefusal. Proof. by intros []. Qed.
#[export] Instance terminal_lawful : LawfulToken TerminalReason. Proof. by intros []. Qed.
#[export] Instance warm_state_lawful : LawfulToken WarmImageState. Proof. by intros []. Qed.
#[export] Instance fallback_lawful : LawfulToken FallbackReason.
Proof. intros r. simpl. by rewrite fallback_reason_roundtrip. Qed.

Lemma from_token_ok {A} `{!Token A, !LawfulToken A} field (a : A) :
  from_token field (to_token a) = Ok a.
Proof. unfold from_token. by rewrite token_roundtrip. Qed.

Lemma optional_from_token_ok {A} `{!Token A, !LawfulToken A} field (o : option A) :
  optional_from_token field (optional_token o) = Ok o.
Proof. destruct o; simpl; [by rewrite from_token_ok | done]. Qed.

Lemma from_json_ok {A} `{!JsonCodec A} field (a : A) : from_json field (to_json a) = Ok a.
Proof. unfold from_json. by rewrite json_roundtrip. Qed.

Lemma optional_from_json_ok {A} `{!JsonCodec A} field (o : option A) :
  optional_from_json field (option_map to_json o) = Ok o.
Proof. destruct o; simpl; [by rewrite from_json_ok | done]. Qed.

Lemma to_i64_ok field n m : to_i64 field n = Ok m <-> m = n /\ n <= i64_max.
Proof.
  unfold to_i64. destruct (n <=? i64_max) eqn:H.
  - apply Z.leb_le in H. naive_solver.
  - apply Z.leb_gt in H. split; [done | lia].
Qed.

Lemma try_unsigned_ok max field n : 0 <= n <= max -> try_unsigned max field n = Ok n.
Proof. intros H. unfold try_unsigned. by rewrite (proj2 (in_range_spec _ _ _) H). Qed.

Definition fits (o : option Z) : Prop := forall n, o = Some n -> n <= i64_max.

Definition unsigned (max : Z) (o : option Z) : Prop := forall n, o = Some n -> 0 <= n <= max.

Lemma optional_to_i64_ok field o o' : optional_to_i64 field o = Ok o' <-> o' = o /\ fits o.
Proof.
  unfold fits. destruct o as [n|]; simpl; [|naive_solver].
  rewrite result_bind_ok. setoid_rewrite to_i64_ok. naive_solver.
Qed.

Lemma optional_to_u64_ok field o : unsigned u64_max o -> optional_to_u64 field o = Ok o.
Proof.
  intros H. destruct o as [n|]; [|done]. simpl. unfold to_u64.
  by rewrite (try_unsigned_ok u64_max _ n) by auto.
Qed.

(** A text a value of an identifier type holds. *)
Lemma identifier_from_token_ok kind min max valid field value :
  is_ok (identifier_new kind min max valid value) = true ->
  identifier_from_token (identifier_new kind min max valid) field value = Ok value.
Proof.
  intros H. unfold identifier_from_token. destruct (identifier_new _ _ _ _ value) eqn:E; [|done].
  by apply identifier_new_ok in E as [-> _].
Qed.

Lemma repository_from_token_ok field value :
  is_repository_name value = true ->
  identifier_from_token repository_name_new field value = Ok value.
Proof.
  unfold is_repository_name, identifier_from_token. intros H.
  destruct (repository_name_new value) eqn:E; [|done].
  by apply repository_name_new_ok in E as [-> _].
Qed.

Definition uuid_text {UC : UuidCodec} (id : AllocationId) : Prop := uuid_parse id = Some id.

Lemma id_from_token_ok {UC : UuidCodec} field id : uuid_text id -> id_from_token field id = Ok id.
Proof. intros H. unfold id_from_token. by rewrite H. Qed.

Lemma optional_id_from_token_ok {UC : UuidCodec} field o :
  (forall id, o = Some id -> uuid_text id) -> optional_id_from_token field o = Ok o.
Proof. intros H. destruct o as [id|]; [|done]. simpl. by rewrite id_from_token_ok by auto. Qed.

(** What Rust's types guarantee of a record's fields. *)
Record hot_guest_typed {UC : UuidCodec} (g : HotGuest) : Prop := {
  ht_vm_name : is_vm_name (hg_vm_name g) = true;
  ht_profile : is_profile_name (hg_profile g) = true;
  ht_source : is_vm_name (cs_name (hg_source g)) = true;
  ht_cpu : 0 <= cpu_count (hg_size g) <= u8_max;
  ht_memory : 0 <= memory_mb (hg_size g) <= u32_max;
  ht_storage : 0 <= storage_mb (hg_size g) <= u64_max;
  ht_warm : unsigned u64_max (hg_warm_generation g);
  ht_age : unsigned u64_max (hg_age_limit_seconds g);
  ht_booted : 0 <= hg_booted_at_unix g <= u64_max;
  ht_updated : 0 <= hg_updated_at_unix g <= u64_max;
  ht_jobs : 0 <= hg_jobs_served g <= u32_max;
  ht_claimed : forall id, hg_claimed_by g = Some id -> uuid_text id;
}.

Record allocation_typed {UC : UuidCodec} (a : Allocation) : Prop := {
  at_id : uuid_text (a_id a);
  at_profile : is_profile_name (rq_profile (a_request a)) = true;
  at_repository : is_repository_name (rq_repository (a_request a)) = true;
  at_run_id : 0 <= rq_run_id (a_request a) <= u64_max;
  at_attempt : 0 <= rq_run_attempt (a_request a) <= u32_max;
  at_vm_name : is_vm_name (a_vm_name a) = true;
  at_label : is_runner_label (a_runner_label a) = true;
  at_created : 0 <= a_created_at_unix a <= u64_max;
  at_updated : 0 <= a_updated_at_unix a <= u64_max;
  at_size : forall s, a_size a = Some s ->
    0 <= cpu_count s <= u8_max /\ 0 <= memory_mb s <= u32_max /\ 0 <= storage_mb s <= u64_max;
  at_source : forall s, a_source a = Some s -> is_vm_name (cs_name s) = true;
  at_hot_age : unsigned u64_max (a_hot_age_seconds a);
  at_warm : unsigned u64_max (a_warm_generation a);
}.

(** The columns an [i64] can hold. *)
Definition hot_guest_fits (g : HotGuest) : Prop :=
  storage_mb (hg_size g) <= i64_max /\ fits (hg_warm_generation g) /\
  fits (hg_age_limit_seconds g) /\ hg_booted_at_unix g <= i64_max /\
  hg_updated_at_unix g <= i64_max.

Definition allocation_fits (a : Allocation) : Prop :=
  rq_run_id (a_request a) <= i64_max /\ a_created_at_unix a <= i64_max /\
  a_updated_at_unix a <= i64_max /\ fits (option_map storage_mb (a_size a)) /\
  fits (a_hot_age_seconds a) /\ fits (a_warm_generation a).

(** Reads what a successful write says of its integer columns. *)
Ltac read_columns :=
  repeat match goal with
  | H : to_i64 _ _ = Ok _ |- _ => apply to_i64_ok in H as [-> ?]
  | H : optional_to_i64 _ _ = Ok _ |- _ => apply optional_to_i64_ok in H as [-> ?]
  end.

(** Rewrites each column's parse back to the value written. *)
Ltac solve_columns :=
  repeat first
    [ rewrite from_token_ok | rewrite optional_from_token_ok
    | rewrite from_json_ok | rewrite optional_from_json_ok
    | rewrite identifier_from_token_ok by eauto
    | rewrite repository_from_token_ok by eauto
    | rewrite try_unsigned_ok by eauto | rewrite optional_to_u64_ok by eauto
    | rewrite id_from_token_ok by eauto | rewrite optional_id_from_token_ok by eauto
    | progress cbn [mbind result_bind] ].

Lemma hot_guest_to_model_ok g :
  hot_guest_fits g <-> exists m, hot_guest_to_model g = Ok m.
Proof.
  unfold hot_guest_fits, hot_guest_to_model. split.
  - intros (H1 & H2 & H3 & H4 & H5). eexists.
    repeat (apply result_bind_ok; eexists; split;
      [first [apply to_i64_ok | apply optional_to_i64_ok]; split; [reflexivity|done]|]).
    reflexivity.
  - intros [m H]. simplify_result.
    read_columns. done.
Qed.

Lemma hot_guest_row {UC : UuidCodec} g m :
  hot_guest_typed g -> hot_guest_to_model g = Ok m ->
  hot_guest_from_model m = if validate_hot_guest g then Ok g else Err (Invalid (hg_vm_name g)).
Proof.
  intros [] H. unfold hot_guest_to_model in H. simplify_result.
  read_columns.
  unfold hot_guest_from_model, vm_name_new, profile_name_new, to_u64. cbn -[mbind].
  solve_columns. destruct g as [? ? ? ? [] [] ? ? ? ? ? ? ?]. cbn -[validate_hot_guest].
  by destruct (validate_hot_guest _).
Qed.

Lemma allocation_row {UC : UuidCodec} {JO : JsonCodec AllocationOrigin}
    {JR : JsonCodec RetentionOutcome} a m :
  allocation_typed a -> allocation_to_model a = Ok m ->
  allocation_from_model m = if validate_allocation a then Ok a else Err (Invalid (a_id a)).
Proof.
  intros [] H. unfold allocation_to_model in H. simplify_result.
  read_columns.
  assert (forall m, am_size_cpu_count m = option_map cpu_count (a_size a) ->
    am_size_memory_mb m = option_map memory_mb (a_size a) ->
    am_size_storage_mb m = option_map storage_mb (a_size a) ->
    size_from_model m = Ok (a_size a)) as Hsize.
  { intros m H1' H2' H3'. unfold size_from_model, to_u64. rewrite H1', H2', H3'.
    destruct (a_size a) as [s|] eqn:Hs; [|done]. destruct (at_size0 s) as (?&?&?); [done|].
    simpl. solve_columns. by destruct s. }
  assert (forall m, am_source_name m = option_map cs_name (a_source a) ->
    am_source_kind m = option_map (fun s => to_token (cs_kind s)) (a_source a) ->
    am_source_fingerprint m = a_source a ≫= cs_base_fingerprint ->
    am_source_fallback_reason m = optional_token (a_source a ≫= cs_fallback_reason) ->
    source_from_model m = Ok (a_source a)) as Hsource.
  { intros m H1' H2' H3' H4'. unfold source_from_model, vm_name_new. rewrite H1', H2', H3', H4'.
    destruct (a_source a) as [s|] eqn:Hs; [|done]. cbn -[mbind].
    rewrite identifier_from_token_ok by (by apply at_source0). solve_columns. by destruct s. }
  unfold allocation_from_model. rewrite Hsize, Hsource by done.
  unfold vm_name_new, profile_name_new, runner_label_new, to_u64. cbn -[mbind].
  solve_columns. destruct a as [? [] ? ? ? ? ? ? ? ? ? ? ? ? ? ? ? ? ? ?].
  cbn -[validate_allocation]. by destruct (validate_allocation _).
Qed.

Lemma allocation_to_model_ok {JO : JsonCodec AllocationOrigin} {JR : JsonCodec RetentionOutcome} a :
  allocation_fits a <-> exists m, allocation_to_model a = Ok m.
Proof.
  unfold allocation_fits, allocation_to_model. split.
  - intros (H1 & H2 & H3 & H4 & H5 & H6). eexists.
    repeat (apply result_bind_ok; eexists; split;
      [first [apply to_i64_ok | apply optional_to_i64_ok]; split; [reflexivity|done]|]).
    reflexivity.
  - intros [m H]. simplify_result. read_columns. done.
Qed.

Lemma allocation_columns_ok {JO : JsonCodec AllocationOrigin} {JR : JsonCodec RetentionOutcome} a :
  allocation_columns a = Ok tt <-> exists m, allocation_to_model a = Ok m.
Proof.
  rewrite <- allocation_to_model_ok. unfold allocation_columns, allocation_fits. split.
  - intros H. simplify_result. read_columns. done.
  - intros (H1 & H2 & H3 & H4 & H5 & H6).
    repeat (apply result_bind_ok; eexists; split;
      [first [apply to_i64_ok | apply optional_to_i64_ok]; split; [reflexivity|done]|]).
    reflexivity.
Qed.

(** A concrete codec, for the examples: a countable value's code in binary. *)
Fixpoint bits (p : positive) : string :=
  match p with
  | xH => ""
  | xO p => String "0" (bits p)
  | xI p => String "1" (bits p)
  end.

Fixpoint of_bits (s : string) : positive :=
  match s with
  | EmptyString => xH
  | String c s => if Ascii.eqb c "0" then xO (of_bits s) else xI (of_bits s)
  end.

Lemma of_bits_bits p : of_bits (bits p) = p.
Proof. induction p as [p IH|p IH|]; simpl; [by rewrite IH..|done]. Qed.

Definition countable_json A `{Countable A} : JsonCodec A.
Proof.
  refine {| to_json a := bits (encode a); json_parse s := decode (of_bits s) |}.
  intros a. by rewrite of_bits_bits, decode_encode.
Defined.

#[export] Instance origin_countable : Countable AllocationOrigin.
Proof.
  refine (inj_countable'
    (fun o => match o with Cloned => None | HotReuse n j b => Some (n, j, b) end)
    (fun o => match o with None => Cloned | Some (n, j, b) => HotReuse n j b end) _).
  by intros [].
Defined.

Definition result_code (r : RetentionResult) : nat :=
  match r with RPromoted => 0 | RolledBack => 1 | Skipped => 2 | Rejected => 3 | RFailed => 4 end.

Definition result_of_code (n : nat) : RetentionResult :=
  match n with 0 => RPromoted | 1 => RolledBack | 2 => Skipped | 3 => Rejected | _ => RFailed end%nat.

Definition phase_code (p : RetentionPhase) : nat :=
  match p with
  | Strip => 0 | Stop => 1 | Stage => 2 | Verify => 3 | Retire => 4 | Promote => 5
  end.

Definition phase_of_code (n : nat) : RetentionPhase :=
  match n with
  | 0 => Strip | 1 => Stop | 2 => Stage | 3 => Verify | 4 => Retire | _ => Promote
  end%nat.

#[export] Instance retention_countable : Countable RetentionOutcome.
Proof.
  refine (inj_countable'
    (fun o => (result_code (ro_outcome o), phase_code (ro_phase o), ro_reason o,
               ro_generation o, ro_duration_ms o))
    (fun '(r, p, s, g, d) => {| ro_outcome := result_of_code r; ro_phase := phase_of_code p;
       ro_reason := s; ro_generation := g; ro_duration_ms := d |}) _).
  by intros [[] [] s g d].
Defined.

Definition example_row_allocation : Allocation :=
  set_hot 7 (Some Protected) (HotReuse "ff-linux-1-1" 3 5) None None
    (allocation_new 7 "id-1"
       {| rq_profile := "linux"; rq_repository := "owner/repo"; rq_run_id := 9; rq_run_attempt := 1 |}
       "ff-linux-9-1" "linux-label" Cold
       {| cpu_count := 4; memory_mb := 8192; storage_mb := 40960 |}).

Definition example_row_guest : HotGuest :=
  idle_guest <| hg_claimed_by := Some "id-1" |> <| hg_state := Draining |>.

(** ** Properties *)

(** A hot-guest record is written exactly when its integers fit the
    columns, whatever its state, and reading the row back gives the record
    itself when the record validates and an error otherwise: nothing is
    altered on the way, and a record that breaks the claim rule is written but
    can no longer be read. *)
Theorem hot_guest_row_roundtrip {UC : UuidCodec} g :
  hot_guest_typed g ->
  (hot_guest_fits g <-> exists m, hot_guest_to_model g = Ok m) /\
  forall m, hot_guest_to_model g = Ok m -> hgm_vm_name m = hg_vm_name g /\
    hot_guest_from_model m =
      if validate_hot_guest g then Ok g else Err (Invalid (hg_vm_name g)).
Proof.
  intros Ht. split; [apply hot_guest_to_model_ok|]. intros m Hm.
  split; [|by apply hot_guest_row]. unfold hot_guest_to_model in Hm. by simplify_result.
Qed.

(** A drain recorded over a live claim: written, then unreadable. *)
Lemma hot_guest_row_roundtrip_witness :
  exists m, hot_guest_to_model example_row_guest = Ok m /\
    @hot_guest_from_model {| uuid_parse := Some |} m =
      Err (Invalid (hg_vm_name example_row_guest)).
Proof.
  eexists. split; [vm_compute; reflexivity|].
  refine (proj2 (proj2 (@hot_guest_row_roundtrip {| uuid_parse := Some |} example_row_guest _)
    _ _)).
  - constructor; [vm_compute; reflexivity..| | | | | | | | |];
      [split; vm_compute; discriminate..| | | | | |].
    + intros n Hn. discriminate Hn.
    + intros n Hn. discriminate Hn.
    + split; vm_compute; discriminate.
    + split; vm_compute; discriminate.
    + split; vm_compute; discriminate.
    + intros id Hid. reflexivity.
  - vm_compute. reflexivity.
Defined.

(** C30: an allocation record is written exactly when its integers fit the
    columns, and the row of a record that validates, which is all the store
    accepts, reads back as that record; the size and source columns always
    travel as complete groups. *)
Theorem allocation_row_roundtrip {UC : UuidCodec} {JO : JsonCodec AllocationOrigin}
    {JR : JsonCodec RetentionOutcome} a :
  allocation_typed a ->
  (allocation_fits a <-> exists m, allocation_to_model a = Ok m) /\
  forall m, allocation_to_model a = Ok m ->
    allocation_from_model m = if validate_allocation a then Ok a else Err (Invalid (a_id a)).
Proof.
  intros Ht. split; [apply allocation_to_model_ok|]. intros m. by apply allocation_row.
Qed.

Lemma allocation_row_roundtrip_witness :
  exists m, @allocation_to_model (countable_json _) (countable_json _) example_row_allocation = Ok m /\
    @allocation_from_model {| uuid_parse := Some |} (countable_json _) (countable_json _) m =
      Ok example_row_allocation.
Proof.
  eexists. split; [vm_compute; reflexivity|].
  refine (proj2 (@allocation_row_roundtrip {| uuid_parse := Some |} (countable_json _)
    (countable_json _) example_row_allocation _) _ _).
  - constructor; [vm_compute; reflexivity..| | | | | | | | | |];
      [split; vm_compute; discriminate|split; vm_compute; discriminate|vm_compute; reflexivity..
      |split; vm_compute; discriminate|split; vm_compute; discriminate| | | |].
    + intros s [= <-]. split_and!; vm_compute; discriminate.
    + intros s Hs. discriminate Hs.
    + intros n Hn. discriminate Hn.
    + intros n Hn. discriminate Hn.
  - vm_compute. reflexivity.
Defined.
