(* ===== verification/History.v ===== *)
(** * History ([crates/flanforge-orm/src/services/history.rs,
    crates/flanforge-orm/src/stores/{prune,events}.rs])

    The pages the web interface reads, the cursor between two of them, the
    append of an event, and the retention of the event and allocation tables.

    A table is the list of its rows; a query is a filter, a sort and a limit.
    Identifiers are unique, as the primary keys make them. *)

From S2P Require Import Prelude Rust Text Identifiers Images Guest Hot Allocation Convert.

Open Scope Z_scope.
Open Scope stdpp_scope.

(** ** Queries *)

Definition MAX_PAGE_SIZE : Z := 200.
Definition DEFAULT_PAGE_SIZE : Z := 50.

(** [limit.unwrap_or(DEFAULT_PAGE_SIZE).clamp(1, MAX_PAGE_SIZE)]. *)
Definition page_limit (limit : option Z) : nat :=
  Z.to_nat (Z.max 1 (Z.min (default DEFAULT_PAGE_SIZE limit) MAX_PAGE_SIZE)).

(** ORDER BY the key, descending; LIMIT; and the cursor of a full page. *)
Section page.
Context {R K : Type} (key : R -> K) (le : relation K) `{!RelDecision le}.

Definition newer_row : relation R := fun r s => le (key s) (key r).

#[local] Instance newer_row_dec : RelDecision newer_row := fun r s => decide (le (key s) (key r)).

Definition listing (rows : list R) : list R := merge_sort newer_row rows.

Definition page (limit : nat) (rows : list R) : list R * option K :=
  let found := take limit (listing rows) in
  (found, if Nat.eqb (length found) limit then option_map key (last found) else None).
End page.

(** ** Allocations *)

Record AllocationCursor := mkCursor { ac_updated_at_unix : Z; ac_id : string }.

#[export] Instance AllocationCursor_eq_dec : EqDecision AllocationCursor.
Proof. solve_decision. Defined.

(** [i64::from_str]: an optional sign, at least one digit, no overflow. *)
Definition digit_value (c : ascii) : option Z :=
  if is_ascii_digit c then Some (byte_val c - 48) else None.

Fixpoint decimal_value (acc : Z) (l : list ascii) : option Z :=
  match l with
  | [] => Some acc
  | c :: l => match digit_value c with Some d => decimal_value (10 * acc + d) l | None => None end
  end.

Definition parse_digits (l : list ascii) : option Z :=
  match l with [] => None | _ => decimal_value 0 l end.

Definition parse_i64 (s : string) : option Z :=
  match bytes s with
  | "-"%char :: l => option_map Z.opp (parse_digits l)
  | "+"%char :: l => parse_digits l
  | l => parse_digits l
  end ≫= fun n => if in_i64 n then Some n else None.

(** [Display] of an [i64]. *)
Definition show_i64 (n : Z) : string :=
  if n <? 0 then "-" +:+ decimal (- n) else decimal n.

Definition cursor_parse (value : string) : option AllocationCursor :=
  match split_once ":" value with
  | Some (updated, id) => option_map (fun n => mkCursor n id) (parse_i64 updated)
  | None => None
  end.

Definition cursor_encode (c : AllocationCursor) : string :=
  show_i64 (ac_updated_at_unix c) +:+ ":" +:+ ac_id c.

Definition cursor_of (r : AllocationModel) : AllocationCursor :=
  mkCursor (am_updated_at_unix r) (am_id r).

(** The order of the two ORDER BY columns. *)
Definition cursor_le : relation AllocationCursor := fun c d =>
  ac_updated_at_unix c < ac_updated_at_unix d \/
  (ac_updated_at_unix c = ac_updated_at_unix d /\ String.le (ac_id c) (ac_id d)).

#[export] Instance cursor_le_dec : RelDecision cursor_le.
Proof. intros c d. unfold cursor_le. apply _. Defined.

(** The condition on [before]: strictly earlier. *)
Definition is_before (before : option AllocationCursor) (r : AllocationModel) : bool :=
  match before with
  | None => true
  | Some c =>
      (am_updated_at_unix r <? ac_updated_at_unix c) ||
      ((am_updated_at_unix r =? ac_updated_at_unix c) &&
       (bool_decide (String.le (am_id r) (ac_id c)) && negb (bool_decide (am_id r = ac_id c))))
  end.

Definition column_eq (wanted : option string) (value : string) : bool :=
  match wanted with None => true | Some w => bool_decide (value = w) end.

Definition is_wanted (profile state : option string) (r : AllocationModel) : bool :=
  column_eq profile (am_profile r) && column_eq state (am_state r).

Definition allocations_page (rows : list AllocationModel) (profile state : option string)
    (limit : option Z) (before : option AllocationCursor) :
    list AllocationModel * option AllocationCursor :=
  page cursor_of cursor_le (page_limit limit)
    (List.filter (fun r => is_wanted profile state r && is_before before r) rows).

Definition allocation_by_id (rows : list AllocationModel) (id : string) : option AllocationModel :=
  List.find (fun r => bool_decide (am_id r = id)) rows.

(** ** Events *)

Record EventModel := {
  em_id : Z;
  em_occurred_at_unix : Z;
  em_kind : string;
  em_allocation_id : option string;
  em_vm_name : option string;
  em_profile : option string;
  em_actor : option string;
  em_payload : option string;
}.

Definition is_event_before (before : option Z) (e : EventModel) : bool :=
  match before with None => true | Some id => em_id e <? id end.

Definition is_event_wanted (kind allocation_id : option string) (e : EventModel) : bool :=
  column_eq kind (em_kind e) &&
  match allocation_id with
  | None => true
  | Some id => bool_decide (em_allocation_id e = Some id)
  end.

Definition events_page (rows : list EventModel) (kind allocation_id : option string)
    (limit : option Z) (before : option Z) : list EventModel * option Z :=
  page em_id Z.le (page_limit limit)
    (List.filter (fun e => is_event_wanted kind allocation_id e && is_event_before before e) rows).

(** ** What the web interface serves
    ([crates/flanforge-handlers/src/{views.rs, allocations/history.rs, events/list.rs}]) *)

Record AllocationRecordView := {
  av_id : string;
  av_profile : string;
  av_repository : string;
  av_run_id : Z;
  av_run_attempt : Z;
  av_state : string;
  av_mode : string;
  av_vm_name : string;
  av_created_at_unix : Z;
  av_updated_at_unix : Z;
  av_error : option string;
  av_terminal_reason : option string;
  av_warm_generation : option Z;
}.

Definition allocation_record_view (r : AllocationModel) : AllocationRecordView :=
  {| av_id := am_id r; av_profile := am_profile r; av_repository := am_repository r;
     av_run_id := am_run_id r; av_run_attempt := am_run_attempt r; av_state := am_state r;
     av_mode := am_mode r; av_vm_name := am_vm_name r; av_created_at_unix := am_created_at_unix r;
     av_updated_at_unix := am_updated_at_unix r; av_error := am_error r;
     av_terminal_reason := am_terminal_reason r; av_warm_generation := am_warm_generation r |}.

(** The faults the handlers answer. *)
Inductive WebuiFault :=
| Unauthenticated | Forbidden | NotFoundFault
| Conflict (message : string) | Invalid (message : string) | Rejected (message : string)
| Internal.

#[export] Instance WebuiFault_eq_dec : EqDecision WebuiFault.
Proof. solve_decision. Defined.

Definition history_handle (rows : list AllocationModel) (profile state : option string)
    (limit : option Z) (before : option string) :
    result WebuiFault (list AllocationRecordView * option string) :=
  cursor ← match before with
           | None => Ok None
           | Some value => Some <$> ok_or (cursor_parse value) (Invalid "invalid cursor")
           end;
  let '(found, next) := allocations_page rows profile state limit cursor in
  Ok (map allocation_record_view found, option_map cursor_encode next).

(** ** Retention ([prune.rs]) *)

Definition EVENTS_MAX_ROWS : Z := 50000.
Definition EVENTS_MAX_AGE_SECONDS : Z := 90 * 24 * 3600.
Definition ALLOCATIONS_MAX_TERMINAL_ROWS : Z := 10000.
Definition ALLOCATIONS_MAX_AGE_SECONDS : Z := 180 * 24 * 3600.
Definition TERMINAL_STATE_TOKENS : list string := ["completed"; "failed"; "cancelled"].

Definition clamp_i64 (value : Z) : Z := Z.min value i64_max.

Definition age_floor (now age : Z) : Z := clamp_i64 (Z.max 0 (now - age)).

(** The value at an offset of a descending column. *)
Definition nth_newest (n : nat) (column : list Z) : option Z := merge_sort (flip Z.le) column !! n.

Definition is_terminal_row (r : AllocationModel) : bool := bool_decide (am_state r ∈ TERMINAL_STATE_TOKENS).

(** The two tables, the next row identifier and the appends since the start. *)
Record HistoryTables := mkTables {
  ht_events : list EventModel;
  ht_allocations : list AllocationModel;
  ht_next_event : Z;
  ht_appends : Z;
}.

#[export] Instance HistoryTables_eta : Eta HistoryTables := fun t =>
  mkTables (ht_events t) (ht_allocations t) (ht_next_event t) (ht_appends t).

(** Keeps what a delete's condition does not match. *)
Definition delete_where {R} (condition : R -> bool) (rows : list R) : list R :=
  List.filter (fun r => negb (condition r)) rows.

Definition prune_old_events (now : Z) (rows : list EventModel) : list EventModel :=
  delete_where (fun e => em_occurred_at_unix e <? age_floor now EVENTS_MAX_AGE_SECONDS) rows.

Definition prune_excess_events (cap : Z) (rows : list EventModel) : list EventModel :=
  match nth_newest (Z.to_nat cap) (map em_id rows) with
  | Some cutoff => delete_where (fun e => em_id e <=? cutoff) rows
  | None => rows
  end.

Definition prune_old_allocations (now : Z) (rows : list AllocationModel) : list AllocationModel :=
  delete_where (fun r => is_terminal_row r &&
    (am_updated_at_unix r <? age_floor now ALLOCATIONS_MAX_AGE_SECONDS)) rows.

Definition prune_excess_allocations (cap : Z) (rows : list AllocationModel) : list AllocationModel :=
  match nth_newest (Z.to_nat cap) (map am_updated_at_unix (List.filter is_terminal_row rows)) with
  | Some cutoff => delete_where (fun r => is_terminal_row r && (am_updated_at_unix r <? cutoff)) rows
  | None => rows
  end.

(** The four deletes of one pass, in order. *)
Definition prune_steps (now : Z) : list (HistoryTables -> HistoryTables) :=
  [ fun t => t <| ht_events := prune_old_events now (ht_events t) |>;
    fun t => t <| ht_events := prune_excess_events EVENTS_MAX_ROWS (ht_events t) |>;
    fun t => t <| ht_allocations := prune_old_allocations now (ht_allocations t) |>;
    fun t => t <| ht_allocations :=
               prune_excess_allocations ALLOCATIONS_MAX_TERMINAL_ROWS (ht_allocations t) |> ].

Record PruneOutcome := { po_events_deleted : Z; po_allocations_deleted : Z }.

Definition rows_deleted {R} (old new : list R) : Z := Z.of_nat (length old) - Z.of_nat (length new).

(** One pass; [completed] statements commit before one fails, all four when
    none does.  A failing pass keeps what it deleted. *)
Definition prune_history (completed : nat) (now : Z) (t : HistoryTables) :
    option PruneOutcome * HistoryTables :=
  let t' := foldl (fun t step => step t) t (take completed (prune_steps now)) in
  (if Nat.ltb completed 4 then None
   else Some {| po_events_deleted := rows_deleted (ht_events t) (ht_events t');
                po_allocations_deleted := rows_deleted (ht_allocations t) (ht_allocations t') |},
   t').

(** ** Appending an event ([events.rs]) *)

Definition APPENDS_PER_PRUNE : Z := 1000.

(** An event as its row holds it, before it has an identifier. *)
Definition with_event_id (id : Z) (e : EventModel) : EventModel :=
  {| em_id := id; em_occurred_at_unix := em_occurred_at_unix e; em_kind := em_kind e;
     em_allocation_id := em_allocation_id e; em_vm_name := em_vm_name e;
     em_profile := em_profile e; em_actor := em_actor e; em_payload := em_payload e |}.

(** [record]: a failed insert drops the event; every thousandth append runs a
    pass, whose failure is only logged. *)
Definition record_event (is_inserted : bool) (completed : nat) (now : Z) (e : EventModel)
    (t : HistoryTables) : HistoryTables :=
  if negb is_inserted then t
  else
    let t := t <| ht_events := ht_events t ++ [with_event_id (ht_next_event t) e] |>
               <| ht_next_event := ht_next_event t + 1 |>
               <| ht_appends := (ht_appends t + 1) mod 2 ^ 64 |> in
    if ht_appends t mod APPENDS_PER_PRUNE =? 0 then (prune_history completed now t).2 else t.

(** ** Lemmas on filtered and sorted lists *)

Lemma elem_of_filter_bool {A} (p : A -> bool) l x : x ∈ List.filter p l <-> x ∈ l /\ p x = true.
Proof. rewrite !list_elem_of_In. apply List.filter_In. Qed.

Lemma filter_bool_all {A} (p : A -> bool) l :
  (forall x, x ∈ l -> p x = true) -> List.filter p l = l.
Proof.
  intros H. apply List.forallb_filter_id, List.forallb_forall. intros x Hx.
  by apply H, list_elem_of_In.
Qed.

Lemma filter_bool_none {A} (p : A -> bool) l :
  (forall x, x ∈ l -> p x = false) -> List.filter p l = [].
Proof.
  induction l as [|x l IH]; intros H; [done|]. simpl. rewrite (H x) by left.
  apply IH. intros y Hy. apply H. by right.
Qed.

Lemma filter_bool_and {A} (p q : A -> bool) l :
  List.filter (fun x => p x && q x) l = List.filter q (List.filter p l).
Proof. induction l as [|x l IH]; [done|]. simpl. by destruct (p x), (q x) eqn:Hq; simpl; rewrite ?Hq, IH. Qed.

Lemma filter_bool_permutation {A} (p : A -> bool) l k :
  l ≡ₚ k -> List.filter p l ≡ₚ List.filter p k.
Proof.
  induction 1 as [|x l k _ IH|x y l|l k j _ IH1 _ IH2]; simpl; [done|..].
  - by destruct (p x); rewrite ?IH.
  - destruct (p x), (p y); [|done..]. apply Permutation_swap.
  - by etrans.
Qed.

Lemma StronglySorted_filter_bool {A} (R : relation A) (p : A -> bool) l :
  StronglySorted R l -> StronglySorted R (List.filter p l).
Proof.
  induction 1 as [|x l _ IH Hx]; simpl; [constructor|]. destruct (p x); [|done].
  constructor; [done|]. apply List.Forall_forall. intros y [Hy _]%List.filter_In.
  by apply (proj1 (List.Forall_forall _ _) Hx).
Qed.

Lemma NoDup_map_filter_bool {A B} (f : A -> B) (p : A -> bool) l :
  NoDup (map f l) -> NoDup (map f (List.filter p l)).
Proof.
  induction l as [|x l IH]; simpl; [done|]. rewrite NoDup_cons. intros [Hx Hl].
  destruct (p x); [|by apply IH]. simpl. apply NoDup_cons. split; [|by apply IH].
  rewrite list_elem_of_fmap. intros (y & Hy & [Hin _]%elem_of_filter_bool). apply Hx.
  apply list_elem_of_fmap. eauto.
Qed.

Lemma NoDup_map_inj {A B} (f : A -> B) l x y :
  NoDup (map f l) -> x ∈ l -> y ∈ l -> f x = f y -> x = y.
Proof.
  induction l as [|z l IH]; [by rewrite elem_of_nil|]. simpl. rewrite NoDup_cons.
  intros [Hz Hl]. rewrite !elem_of_cons. intros [->|Hx] [->|Hy] Hf; [done| | |by apply IH].
  - destruct Hz. rewrite Hf. by apply list_elem_of_fmap_2.
  - destruct Hz. rewrite <- Hf. by apply list_elem_of_fmap_2.
Qed.

Lemma StronglySorted_app_rel {A} (R : relation A) l k x y :
  StronglySorted R (l ++ k) -> x ∈ l -> y ∈ k -> R x y.
Proof.
  induction l as [|z l IH]; simpl; [by rewrite elem_of_nil|]. inversion_clear 1 as [|? ? Hs Hz].
  rewrite elem_of_cons. intros [->|Hx] Hy; [|by apply IH].
  rewrite Forall_forall in Hz. apply Hz, elem_of_app. by right.
Qed.

(** ** Reading page after page

    What a client that follows the cursors collects. *)

Fixpoint all_pages {R K} (fuel : nat) (fetch : option K -> list R * option K) (before : option K) :
    option (list R) :=
  match fuel with
  | O => None
  | S fuel =>
      let '(rows, next) := fetch before in
      match next with
      | None => Some rows
      | Some k => option_map (app rows) (all_pages fuel fetch (Some k))
      end
  end.

Section traversal.
Context {R K : Type} (key : R -> K) (le : relation K) `{!RelDecision le}.
Context `{!PartialOrder le} `{!Total le}.

(** Strictly before a cursor. *)
Definition precedes (before : option K) (r : R) : Prop :=
  match before with None => True | Some k => le (key r) k /\ key r <> k end.

#[local] Instance newer_row_trans : Transitive (newer_row key le).
Proof. intros r s t Hrs Hst. unfold newer_row in *. by etrans. Qed.

#[local] Instance newer_row_total : Total (newer_row key le).
Proof. intros r s. unfold newer_row. destruct (total le (key r) (key s)); auto. Qed.

Lemma listing_sorted rows : StronglySorted (newer_row key le) (listing key le rows).
Proof. apply StronglySorted_merge_sort; apply _. Qed.

Lemma listing_permutation rows : listing key le rows ≡ₚ rows.
Proof. apply merge_sort_Permutation. Qed.

Lemma listing_filter p rows :
  NoDup (map key rows) -> listing key le (List.filter p rows) = List.filter p (listing key le rows).
Proof.
  intros Hn. apply (StronglySorted_unique_strong (newer_row key le)).
  - intros x y Hx Hy Hxy Hyx. rewrite listing_permutation in Hx.
    apply elem_of_filter_bool in Hx as [Hx _], Hy as [Hy _]. rewrite listing_permutation in Hy.
    eapply NoDup_map_inj; [done..|]. by apply (anti_symm le).
  - apply listing_sorted.
  - apply StronglySorted_filter_bool, listing_sorted.
  - rewrite listing_permutation. apply filter_bool_permutation. by rewrite listing_permutation.
Qed.

(** After a page that ends in [r], what is left precedes [r]. *)
Lemma precedes_rest (p : R -> bool) l k r :
  NoDup (map key (l ++ r :: k)) -> StronglySorted (newer_row key le) (l ++ r :: k) ->
  (forall x, p x = true <-> precedes (Some (key r)) x) ->
  List.filter p (l ++ r :: k) = k.
Proof.
  intros Hn Hs Hp. rewrite List.filter_app. simpl.
  rewrite (filter_bool_none p l), (filter_bool_all p k); simpl.
  - destruct (p r) eqn:Hr; [|done]. apply Hp in Hr as [_ []]. done.
  - intros x Hx. apply Hp. split.
    + apply (StronglySorted_app_rel (newer_row key le) (l ++ [r]) k r x); [|set_solver|done].
      by rewrite <- app_assoc.
    + intros Hk. rewrite map_app, map_cons, NoDup_app, NoDup_cons in Hn.
      apply Hn. rewrite <- Hk. by apply list_elem_of_fmap_2.
  - intros x Hx. apply not_true_is_false. intros [Hle Hne]%Hp. apply Hne, (anti_symm le); [done|].
    by apply (StronglySorted_app_rel (newer_row key le) l (r :: k) x r); [|done|left].
Qed.

Context (wanted : R -> bool) (is_preceding : option K -> R -> bool).
Context (is_preceding_spec : forall before r, is_preceding before r = true <-> precedes before r).
Context (limit : nat) (limit_pos : (0 < limit)%nat).
Context (rows : list R) (rows_keyed : NoDup (map key rows)).

Definition fetch (before : option K) : list R * option K :=
  page key le limit (List.filter (fun r => wanted r && is_preceding before r) rows).

Definition everything : list R := listing key le (List.filter wanted rows).

Lemma everything_keyed : NoDup (map key everything).
Proof. unfold everything. rewrite listing_permutation. by apply NoDup_map_filter_bool. Qed.

Lemma fetch_eq before rest :
  List.filter (is_preceding before) everything = rest ->
  fetch before =
    (take limit rest,
     if Nat.eqb (length (take limit rest)) limit then option_map key (last (take limit rest)) else None).
Proof.
  intros Hrest. unfold fetch, page. rewrite filter_bool_and, listing_filter; [by rewrite <- Hrest|].
  by apply NoDup_map_filter_bool.
Qed.

(** A later cursor narrows. *)
Lemma filter_preceding before rest k r l :
  List.filter (is_preceding before) everything = rest -> rest = l ++ r :: k ->
  List.filter (is_preceding (Some (key r))) everything = k.
Proof.
  intros Hrest Hl. rewrite <- (precedes_rest (is_preceding (Some (key r))) l k r).
  - rewrite <- Hl, <- Hrest, <- filter_bool_and. apply List.filter_ext. intros x.
    destruct (is_preceding (Some (key r)) x) eqn:Hx; [|by rewrite andb_false_r].
    rewrite andb_true_r. symmetry. apply is_preceding_spec. apply is_preceding_spec in Hx as [Hle Hne].
    assert (precedes before r) as Hr.
    { apply is_preceding_spec. assert (r ∈ rest) as Hin by (rewrite Hl; set_solver).
      rewrite <- Hrest in Hin. by apply elem_of_filter_bool in Hin as [_ ?]. }
    destruct before as [b|]; [|done]. destruct Hr as [Hrb Hneq]. split; [by etrans|].
    intros Heq. apply Hneq, (anti_symm le); [done|]. by rewrite <- Heq.
  - rewrite <- Hl, <- Hrest. apply NoDup_map_filter_bool, everything_keyed.
  - rewrite <- Hl, <- Hrest. apply StronglySorted_filter_bool, listing_sorted.
  - apply is_preceding_spec.
Qed.

Lemma all_pages_rest fuel before rest :
  List.filter (is_preceding before) everything = rest -> (length rest < fuel)%nat ->
  all_pages fuel fetch before = Some rest.
Proof.
  revert before rest. induction fuel as [|fuel IH]; intros before rest Hrest Hf; [lia|].
  cbn [all_pages]. rewrite (fetch_eq before rest Hrest). destruct (Nat.eqb (length (take limit rest)) limit) eqn:Hlen.
  - apply Nat.eqb_eq in Hlen. destruct (last (take limit rest)) as [r|] eqn:Hlast; simpl.
    + apply last_Some in Hlast as [l Hl].
      assert (rest = l ++ r :: drop limit rest) as Hsplit.
      { rewrite <- (take_drop limit rest) at 1. by rewrite Hl, <- app_assoc. }
      rewrite (IH _ (drop limit rest)).
      * simpl. by rewrite take_drop.
      * by eapply filter_preceding.
      * rewrite length_drop. rewrite length_take in Hlen. lia.
    + apply last_None in Hlast. rewrite Hlast in Hlen. simpl in Hlen. lia.
  - f_equal. apply take_ge. apply Nat.eqb_neq in Hlen. rewrite length_take in Hlen. lia.
Qed.

Lemma all_pages_everything :
  all_pages (S (length rows)) fetch None = Some everything.
Proof.
  apply all_pages_rest.
  - apply filter_bool_all. intros x _. by apply is_preceding_spec.
  - unfold everything. rewrite listing_permutation.
    pose proof (List.filter_length_le wanted rows). lia.
Qed.
End traversal.

(** ** Cursors *)

#[export] Instance cursor_le_po : PartialOrder cursor_le.
Proof.
  split; [split|]; unfold cursor_le.
  - intros c. right. split; [done|]. reflexivity.
  - intros c d e [|[? ?]] [|[? ?]]; [left; lia..|]. right. split; [lia|]. by etrans.
  - intros [n i] [m j] [|[? ?]] [|[? ?]]; simpl in *; [lia..|]. f_equal; [done|].
    by apply (anti_symm String.le).
Qed.

#[export] Instance cursor_le_total : Total cursor_le.
Proof.
  intros c d. unfold cursor_le.
  destruct (Z.lt_trichotomy (ac_updated_at_unix c) (ac_updated_at_unix d)) as [|[|]]; [auto| |auto].
  destruct (total String.le (ac_id c) (ac_id d)); auto.
Qed.

Lemma is_before_spec before r :
  is_before before r = true <-> precedes cursor_of cursor_le before r.
Proof.
  destruct before as [[n i]|]; [|done]. unfold is_before, precedes, cursor_le. simpl.
  rewrite orb_true_iff, !andb_true_iff, negb_true_iff, Z.ltb_lt, Z.eqb_eq, bool_decide_eq_true,
    bool_decide_eq_false. unfold cursor_of. split.
  - intros [?|(? & ? & ?)]; (split; [naive_solver|]); intros [= ? ?]; [lia|done].
  - intros [[?|[? ?]] Hne]; [by left|]. right. split_and!; [done..|]. intros ?. apply Hne. congruence.
Qed.

Lemma is_event_before_spec before e :
  is_event_before before e = true <-> precedes em_id Z.le before e.
Proof. destruct before; [|done]. simpl. rewrite Z.ltb_lt. lia. Qed.

Lemma page_limit_pos limit : (0 < page_limit limit)%nat.
Proof. unfold page_limit. lia. Qed.

Lemma NoDup_cursors rows : NoDup (map am_id rows) -> NoDup (map cursor_of rows).
Proof.
  intros H. apply (NoDup_fmap_1 ac_id). by rewrite <- list_fmap_compose.
Qed.

Lemma digit_value_char d : (d < 10)%N -> digit_value (pretty_N_char d) = Some (Z.of_N d).
Proof.
  intros H. assert (d = 0 \/ d = 1 \/ d = 2 \/ d = 3 \/ d = 4 \/ d = 5 \/ d = 6 \/ d = 7 \/ d = 8 \/ d = 9)%N
    as Hd by lia. by repeat destruct Hd as [->|Hd]; [..|subst].
Qed.

Lemma decimal_value_pretty x s :
  decimal_value 0 (bytes (pretty_N_go x s)) = decimal_value (Z.of_N x) (bytes s).
Proof.
  revert s. induction (N.lt_wf_0 x) as [x _ IH]; intros s.
  destruct (decide (x = 0%N)) as [->|Hx]; [done|].
  rewrite pretty_N_go_step by lia. rewrite IH by (apply N.div_lt; lia). unfold bytes. simpl.
  rewrite digit_value_char by (apply N.mod_lt; lia). f_equal.
  rewrite (N.div_mod x 10) at 3 by done. lia.
Qed.

Lemma decimal_value_decimal n : 0 <= n -> decimal_value 0 (bytes (decimal n)) = Some n.
Proof.
  intros Hn. unfold decimal, pretty, pretty_N. case_decide as H0.
  - replace n with 0 by lia. done.
  - rewrite decimal_value_pretty. simpl. f_equal. lia.
Qed.

(** A rendering starts with a digit, so no sign is read into it. *)
Lemma decimal_head n : exists c l, bytes (decimal n) = c :: l /\ is_ascii_digit c = true.
Proof.
  destruct (bytes (decimal n)) as [|c l] eqn:Hb.
  - exfalso. assert (decimal n = "") as He by (apply (inj bytes); done). revert He.
    unfold decimal, pretty, pretty_N. case_decide; [done|]. intros He.
    pose proof (decimal_value_pretty (Z.to_N n) "") as Hd. rewrite He in Hd.
    injection Hd. lia.
  - exists c, l. split; [done|]. apply (all_bytes_elem _ (decimal n)); [apply decimal_digits|].
    rewrite Hb. by left.
Qed.

Lemma parse_digits_decimal n : 0 <= n -> parse_digits (bytes (decimal n)) = Some n.
Proof.
  intros Hn. destruct (decimal_head n) as (c & l & Hb & _). rewrite <- (decimal_value_decimal n Hn).
  unfold parse_digits. by rewrite Hb.
Qed.

Lemma parse_show_i64 n : in_i64 n = true -> parse_i64 (show_i64 n) = Some n.
Proof.
  intros Hn. unfold parse_i64, show_i64. destruct (n <? 0) eqn:Hneg.
  - rewrite bytes_app. simpl. rewrite parse_digits_decimal by lia. simpl.
    by rewrite Z.opp_involutive, Hn.
  - pose proof (parse_digits_decimal n) as Hp.
    destruct (decimal_head n) as (c & l & Hb & Hc). rewrite Hb in *.
    assert (c <> "-"%char /\ c <> "+"%char) as [H1 H2].
    { split; intros ->; discriminate Hc. }
    transitivity (parse_digits (c :: l) ≫= fun k => if in_i64 k then Some k else None).
    { destruct c as [[] [] [] [] [] [] [] []]; done. }
    rewrite Hp by lia. simpl. by rewrite Hn.
Qed.

Lemma show_i64_colon n : ":"%char ∉ bytes (show_i64 n).
Proof.
  assert (forall m, ":"%char ∉ bytes (decimal m)) as Hd.
  { intros m Hin. apply (all_bytes_elem _ _ _ (decimal_digits m)) in Hin. discriminate Hin. }
  unfold show_i64. destruct (n <? 0); [|apply Hd]. rewrite bytes_app. simpl.
  rewrite elem_of_cons. intros [|Hin]; [done|]. by apply Hd in Hin.
Qed.

Lemma cursor_parse_encode c :
  in_i64 (ac_updated_at_unix c) = true -> cursor_parse (cursor_encode c) = Some c.
Proof.
  intros Hc. unfold cursor_parse, cursor_encode.
  change (":" +:+ ac_id c) with (String ":" (ac_id c)).
  rewrite split_once_app by apply show_i64_colon. simpl. rewrite parse_show_i64 by done.
  by destruct c.
Qed.

(** A client of the encoded cursors reads the same pages. *)
Lemma all_pages_encoded {R V K} (view : R -> V) (encode : K -> string) (valid : K -> Prop)
    (f : option K -> list R * option K) (g : option string -> list V * option string) :
  (forall before, from_option valid True before ->
     g (option_map encode before) = (map view (f before).1, option_map encode (f before).2) /\
     from_option valid True (f before).2) ->
  forall fuel before, from_option valid True before ->
    all_pages fuel g (option_map encode before) = option_map (map view) (all_pages fuel f before).
Proof.
  intros Hg fuel. induction fuel as [|fuel IH]; intros before Hb; [done|]. cbn [all_pages].
  destruct (Hg before Hb) as [-> Hv]. destruct (f before) as [rows [k|]]; simpl in *; [|done].
  pose proof (IH (Some k) Hv) as Hk. simpl in Hk. rewrite Hk. destruct (all_pages fuel f (Some k)); [|done]. simpl. by rewrite map_app.
Qed.

Lemma page_next_row {R K} (key : R -> K) (le : relation K) `{!RelDecision le} limit rows k :
  (page key le limit rows).2 = Some k -> exists r, r ∈ rows /\ key r = k.
Proof.
  unfold page. simpl. destruct (Nat.eqb _ _); [|done].
  destruct (last _) as [r|] eqn:Hl; [|done]. intros [= <-]. exists r. split; [|done].
  apply last_Some in Hl as [l Hl]. rewrite <- (listing_permutation key le rows).
  rewrite <- (take_drop limit (listing key le rows)), Hl. set_solver.
Qed.

Definition history_fetch rows profile state limit (before : option string) :
    list AllocationRecordView * option string :=
  match history_handle rows profile state limit before with Ok found => found | Err _ => ([], None) end.

Lemma history_pages rows profile state limit :
  NoDup (map am_id rows) -> Forall (fun r => in_i64 (am_updated_at_unix r) = true) rows ->
  all_pages (S (length rows)) (history_fetch rows profile state limit) None =
    Some (map allocation_record_view
            (listing cursor_of cursor_le (List.filter (is_wanted profile state) rows))).
Proof.
  intros Hn Hr. rewrite Forall_forall in Hr.
  assert (all_pages (S (length rows)) (allocations_page rows profile state limit) None =
    Some (listing cursor_of cursor_le (List.filter (is_wanted profile state) rows))) as Hall.
  { apply (all_pages_everything cursor_of cursor_le (is_wanted profile state) is_before
      is_before_spec _ (page_limit_pos limit) rows). by apply NoDup_cursors. }
  rewrite (all_pages_encoded allocation_record_view cursor_encode
    (fun c => in_i64 (ac_updated_at_unix c) = true) (allocations_page rows profile state limit)
    (history_fetch rows profile state limit)) with (before := None); [by rewrite Hall| |done].
  intros before Hv. split.
  - unfold history_fetch, history_handle. destruct before as [c|]; simpl.
    + rewrite cursor_parse_encode by done. simpl.
      by destruct (allocations_page rows profile state limit (Some c)).
    + by destruct (allocations_page rows profile state limit None).
  - destruct ((allocations_page rows profile state limit before).2) as [k|] eqn:Hk; [|done].
    apply page_next_row in Hk as (r & [Hin _]%elem_of_filter_bool & <-). by apply Hr.
Qed.

(** ** Retention *)

(** A descending list splits at any upward-closed condition. *)
Lemma descending_split (p : Z -> bool) l :
  (forall x y, p x = true -> x <= y -> p y = true) -> StronglySorted (flip Z.le) l ->
  l = List.filter p l ++ delete_where p l.
Proof.
  intros Hup. induction 1 as [|x l _ IH Hx]; [done|]. unfold delete_where in *. simpl.
  destruct (p x) eqn:Hp; simpl; [by f_equal|].
  rewrite Forall_forall in Hx. rewrite (filter_bool_none p l), (filter_bool_all _ l); [done| |].
  - intros y Hy. apply negb_true_iff, not_true_is_false. intros Hpy.
    rewrite (Hup y x Hpy) in Hp; [done|]. by apply Hx.
  - intros y Hy. apply not_true_is_false. intros Hpy.
    rewrite (Hup y x Hpy) in Hp; [done|]. by apply Hx.
Qed.

Lemma nth_newest_count (p : Z -> bool) n l :
  (forall x y, p x = true -> x <= y -> p y = true) ->
  (exists c, nth_newest n l = Some c /\ p c = true) <-> (n < length (List.filter p l))%nat.
Proof.
  intros Hup. unfold nth_newest. set (sorted := merge_sort (flip Z.le) l).
  assert (sorted ≡ₚ l) as Hperm by apply merge_sort_Permutation.
  assert (StronglySorted (flip Z.le) sorted) as Hs.
  { apply StronglySorted_merge_sort; [intros x y z; unfold flip; lia|intros x y; unfold flip; lia]. }
  rewrite <- (filter_bool_permutation p sorted l Hperm). split.
  - intros (c & Hc & Hp). rewrite (descending_split p sorted Hup Hs) in Hc.
    apply lookup_app_Some in Hc as [Hc|[_ Hc]]; [by eapply lookup_lt_Some|].
    apply list_elem_of_lookup_2, elem_of_filter_bool in Hc as [_ Hc]. by rewrite Hp in Hc.
  - intros [c Hc]%lookup_lt_is_Some. exists c. split.
    + rewrite (descending_split p sorted Hup Hs). by apply lookup_app_l_Some.
    + by apply list_elem_of_lookup_2, elem_of_filter_bool in Hc as [_ ?].
Qed.

Lemma filter_map_length {A} (f : A -> Z) (p : Z -> bool) l :
  length (List.filter p (map f l)) = length (List.filter (fun x => p (f x)) l).
Proof. induction l as [|x l IH]; [done|]. simpl. destruct (p (f x)); simpl; by rewrite IH. Qed.

(** How many rows match. *)
Definition count {A} (p : A -> bool) (l : list A) : nat := length (List.filter p l).

(** The rows a capped delete leaves: those with few enough above them. *)
Lemma elem_of_excess_events cap rows e :
  e ∈ prune_excess_events cap rows <->
  e ∈ rows /\ (count (fun x => em_id e <=? em_id x)%Z rows <= Z.to_nat cap)%nat.
Proof.
  unfold count, prune_excess_events. pose proof (nth_newest_count (fun c => em_id e <=? c) (Z.to_nat cap)
    (map em_id rows)) as Hc. rewrite filter_map_length in Hc.
  destruct (nth_newest _ _) as [cutoff|].
  - unfold delete_where. rewrite elem_of_filter_bool, negb_true_iff. split.
    + intros [Hin Hle]. split; [done|]. apply Nat.nlt_ge. intros Hlt.
      apply Hc in Hlt as (c & [= <-] & Hp); [congruence|lia].
    + intros [Hin Hle]. split; [done|]. apply not_true_is_false. intros Hp.
      apply Nat.nlt_ge in Hle. apply Hle, Hc; [lia|eauto].
  - split; [|naive_solver]. intros Hin. split; [done|]. apply Nat.nlt_ge. intros Hlt.
    apply Hc in Hlt as (c & ? & _); [done|lia].
Qed.

Lemma elem_of_excess_allocations cap rows r :
  r ∈ prune_excess_allocations cap rows <->
  r ∈ rows /\ (is_terminal_row r = true ->
    (count (fun x => is_terminal_row x && (am_updated_at_unix r <? am_updated_at_unix x)%Z) rows
       <= Z.to_nat cap)%nat).
Proof.
  unfold count, prune_excess_allocations. pose proof (nth_newest_count (fun c => am_updated_at_unix r <? c)
    (Z.to_nat cap) (map am_updated_at_unix (List.filter is_terminal_row rows))) as Hc.
  rewrite filter_map_length, <- filter_bool_and in Hc.
  destruct (nth_newest _ _) as [cutoff|].
  - unfold delete_where. rewrite elem_of_filter_bool, negb_true_iff, andb_false_iff. split.
    + intros [Hin Hor]. split; [done|]. intros Ht. destruct Hor as [|Hlt]; [congruence|].
      apply Nat.nlt_ge. intros (c & [= <-] & Hp)%Hc; [congruence|lia].
    + intros [Hin Hor]. split; [done|]. destruct (is_terminal_row r); [right|by left].
      apply not_true_is_false. intros Hp. specialize (Hor eq_refl). apply Nat.nlt_ge in Hor.
      apply Hor, Hc; [lia|eauto].
  - split; [|naive_solver]. intros Hin. split; [done|]. intros _. apply Nat.nlt_ge.
    intros (c & ? & _)%Hc; [done|lia].
Qed.

Lemma excess_events_length cap rows :
  (length (prune_excess_events cap rows) <= Z.to_nat cap)%nat.
Proof.
  unfold prune_excess_events. destruct (nth_newest _ _) as [cutoff|] eqn:Hn.
  - apply Nat.nlt_ge. intros Hlt.
    pose proof (nth_newest_count (fun c => cutoff <? c) (Z.to_nat cap) (map em_id rows)) as Hc.
    rewrite filter_map_length in Hc. destruct (proj2 (Hc ltac:(lia))) as (c & Hc' & Hp).
    + unfold delete_where in Hlt. erewrite List.filter_ext; [exact Hlt|]. intros e. simpl. lia.
    + rewrite Hn in Hc'. injection Hc' as <-. lia.
  - apply lookup_ge_None in Hn. by rewrite merge_sort_Permutation, length_map in Hn.
Qed.

Lemma delete_where_sublist {R} (p : R -> bool) l : delete_where p l `sublist_of` l.
Proof.
  unfold delete_where. induction l as [|x l IH]; simpl; [done|].
  destruct (negb (p x)); [by apply sublist_skip|by apply sublist_cons].
Qed.

Lemma prune_prefix completed now t :
  (prune_history completed now t).2 =
    foldl (fun t step => step t) t (take (Nat.min completed 4) (prune_steps now)).
Proof. by destruct completed as [|[|[|[|[|]]]]]. Qed.

(** Every statement, and so every prefix of a pass, only deletes, and only
    terminal allocations. *)
Lemma prune_step_safe now step t :
  step ∈ prune_steps now ->
  ht_events (step t) `sublist_of` ht_events t /\
  ht_allocations (step t) `sublist_of` ht_allocations t /\
  (forall r, r ∈ ht_allocations t -> is_terminal_row r = false -> r ∈ ht_allocations (step t)).
Proof.
  unfold prune_steps. rewrite !elem_of_cons, elem_of_nil.
  intros [->|[->|[->|[->|[]]]]]; simpl; split_and!; try done; try apply delete_where_sublist.
  - unfold prune_excess_events. destruct (nth_newest _ _); [apply delete_where_sublist|done].
  - intros r Hr Ht. apply elem_of_filter_bool. by rewrite Ht.
  - unfold prune_excess_allocations. destruct (nth_newest _ _); [apply delete_where_sublist|done].
  - intros r Hr Ht. apply elem_of_excess_allocations. by rewrite Ht.
Qed.

Lemma prune_history_safe completed now t :
  let t' := (prune_history completed now t).2 in
  ht_events t' `sublist_of` ht_events t /\ ht_allocations t' `sublist_of` ht_allocations t /\
  (forall r, r ∈ ht_allocations t -> is_terminal_row r = false -> r ∈ ht_allocations t').
Proof.
  unfold prune_history. simpl.
  assert (forall steps, steps ⊆ prune_steps now -> forall t,
    let t' := foldl (fun t step => step t) t steps in
    ht_events t' `sublist_of` ht_events t /\ ht_allocations t' `sublist_of` ht_allocations t /\
    (forall r, r ∈ ht_allocations t -> is_terminal_row r = false -> r ∈ ht_allocations t')) as H.
  { induction steps as [|step steps IH]; intros Hsub t0; simpl; [done|].
    destruct (prune_step_safe now step t0) as (H1 & H2 & H3); [set_solver|].
    destruct (IH ltac:(set_solver) (step t0)) as (H4 & H5 & H6).
    split_and!; [by etrans..|]. eauto. }
  apply H. intros step Hs. rewrite <- (take_drop completed (prune_steps now)).
  apply elem_of_app. by left.
Qed.

Lemma elem_of_kept_events now rows e :
  e ∈ prune_excess_events EVENTS_MAX_ROWS (prune_old_events now rows) <->
  e ∈ rows /\ age_floor now EVENTS_MAX_AGE_SECONDS <= em_occurred_at_unix e /\
  (count (fun x => em_id e <=? em_id x)%Z (prune_old_events now rows) <= Z.to_nat EVENTS_MAX_ROWS)%nat.
Proof.
  rewrite elem_of_excess_events. unfold prune_old_events at 1, delete_where.
  rewrite elem_of_filter_bool, negb_true_iff, Z.ltb_ge. tauto.
Qed.

Lemma elem_of_kept_allocations now rows r :
  let floor := age_floor now ALLOCATIONS_MAX_AGE_SECONDS in
  r ∈ prune_excess_allocations ALLOCATIONS_MAX_TERMINAL_ROWS (prune_old_allocations now rows) <->
  r ∈ rows /\ (is_terminal_row r = true -> floor <= am_updated_at_unix r /\
    (count (fun x => is_terminal_row x && (floor <=? am_updated_at_unix x)%Z &&
                     (am_updated_at_unix r <? am_updated_at_unix x)%Z) rows
       <= Z.to_nat ALLOCATIONS_MAX_TERMINAL_ROWS)%nat).
Proof.
  intros floor. rewrite elem_of_excess_allocations. unfold prune_old_allocations, delete_where, count.
  fold floor. rewrite elem_of_filter_bool, negb_true_iff, andb_false_iff, Z.ltb_ge, <- filter_bool_and.
  match goal with |- context [List.filter ?p rows] =>
    rewrite (List.filter_ext p (fun x => is_terminal_row x && (floor <=? am_updated_at_unix x) &&
      (am_updated_at_unix r <? am_updated_at_unix x))) end.
  - destruct (is_terminal_row r); naive_solver.
  - intros x. destruct (is_terminal_row x); [|by rewrite andb_false_r]. simpl.
    by rewrite Z.leb_antisym.
Qed.

(** ** Properties *)

(** C21: a client that follows the cursors of the allocation history, each page
    answered from its text, reads after finitely many pages every row its
    filter selects, once, newest first, whatever page size it asks for, and no
    cursor the service hands out is refused. *)
Theorem history_pages_complete rows profile state limit :
  NoDup (map am_id rows) -> Forall (fun r => in_i64 (am_updated_at_unix r) = true) rows ->
  exists found,
    all_pages (S (length rows)) (history_fetch rows profile state limit) None =
      Some (map allocation_record_view found) /\
    found ≡ₚ List.filter (is_wanted profile state) rows /\
    StronglySorted (newer_row cursor_of cursor_le) found.
Proof.
  intros Hn Hr. eexists. split; [by apply history_pages|]. split.
  - apply listing_permutation.
  - apply listing_sorted; apply _.
Qed.

(** C22: the retention of the history never deletes a live allocation, however
    far a failing pass got.  A completed pass leaves at most fifty thousand
    events, none older than ninety days, the newest ones; and it leaves a
    terminal allocation exactly when it was updated within a hundred and eighty
    days and at most ten thousand of those were updated after it. *)
Theorem prune_history_spec completed now t :
  let '(outcome, t') := prune_history completed now t in
  (forall r, r ∈ ht_allocations t -> is_terminal_row r = false -> r ∈ ht_allocations t') /\
  (outcome = None <-> (completed < 4)%nat) /\
  (is_Some outcome ->
     let floor := age_floor now ALLOCATIONS_MAX_AGE_SECONDS in
     let aged := prune_old_events now (ht_events t) in
     (length (ht_events t') <= Z.to_nat EVENTS_MAX_ROWS)%nat /\
     (forall e, e ∈ ht_events t' <-> e ∈ ht_events t /\
        age_floor now EVENTS_MAX_AGE_SECONDS <= em_occurred_at_unix e /\
        (count (fun x => em_id e <=? em_id x)%Z aged <= Z.to_nat EVENTS_MAX_ROWS)%nat) /\
     (forall r, r ∈ ht_allocations t' <-> r ∈ ht_allocations t /\
        (is_terminal_row r = true -> floor <= am_updated_at_unix r /\
           (count (fun x => is_terminal_row x && (floor <=? am_updated_at_unix x)%Z &&
                            (am_updated_at_unix r <? am_updated_at_unix x)%Z) (ht_allocations t)
              <= Z.to_nat ALLOCATIONS_MAX_TERMINAL_ROWS)%nat))).
Proof.
  pose proof (prune_history_safe completed now t) as (_ & _ & Hlive).
  pose proof (prune_prefix completed now t) as Hp.
  destruct (prune_history completed now t) as [outcome t'] eqn:Hrun. simpl in Hlive, Hp.
  injection Hrun as Hout _. split_and!; [done| |].
  - rewrite <- Hout. destruct (Nat.ltb_spec completed 4); split; (done || lia).
  - intros [o Ho]. rewrite Ho in Hout. destruct (Nat.ltb_spec completed 4); [done|].
    replace (Nat.min completed 4) with 4%nat in Hp by lia. rewrite Hp. clear.
    split_and!; [apply excess_events_length|intros e; apply elem_of_kept_events|].
    intros r. apply elem_of_kept_allocations.
Qed.

(** Three rows, two of the same second, read one at a time. *)
Definition example_history_row (id state : string) (updated : Z) : AllocationModel :=
  {| am_id := id; am_profile := "linux"; am_repository := "acme/site"; am_run_id := 7;
     am_run_attempt := 1; am_state := state; am_mode := "cold"; am_origin := ""; am_vm_name := "ff-a";
     am_runner_label := "linux-a"; am_vm_created := false; am_runner_id := None;
     am_created_at_unix := updated; am_updated_at_unix := updated; am_error := None;
     am_size_cpu_count := None; am_size_memory_mb := None; am_size_storage_mb := None;
     am_source_name := None; am_source_kind := None; am_source_fingerprint := None;
     am_source_fallback_reason := None; am_hot_lane := None; am_hot_refusal := None;
     am_hot_age_seconds := None; am_warm_generation := None; am_retention := None;
     am_terminal_reason := None |}.

Definition example_history : list AllocationModel :=
  [ example_history_row "a" "completed" 10; example_history_row "b" "failed" 20;
    example_history_row "c" "running" 20 ].

Example history_read_in_order :
  option_map (map av_id) (all_pages 4 (history_fetch example_history None None (Some 1)) None) =
    Some ["c"; "b"; "a"].
Proof. by vm_compute. Qed.

(** A tie is kept, a live row of any age is kept. *)
Example prune_keeps_ties_and_live :
  map am_id (prune_excess_allocations 1
    (example_history ++ [example_history_row "d" "failed" 20; example_history_row "e" "ready" 1])) =
    ["b"; "c"; "d"; "e"].
Proof. by vm_compute. Qed.

Lemma history_pages_complete_witness :
  exists found, all_pages 4 (history_fetch example_history None (Some "failed") (Some 1)) None = Some found /\
    length found = 1%nat.
Proof.
  destruct (history_pages_complete example_history None (Some "failed") (Some 1))
    as (found & Hall & Hperm & _).
  - apply (bool_decide_unpack _). by vm_compute.
  - apply (bool_decide_unpack _). by vm_compute.
  - exists (map allocation_record_view found). split; [exact Hall|]. rewrite length_map, Hperm. reflexivity.
Defined.
