(* ===== verification/Sessions.v ===== *)
(** * Accounts and sessions of the web interface
    ([crates/flanforge-orm/src/services/{users,sessions}.rs],
     [crates/flanforge-webui-auth/src/{session,password}.rs],
     [crates/flanforge-handlers/src/{session,users}/],
     [crates/flanforge-webui-routes/src/{identity,guards}.rs])

    The two tables with the constraints their migrations declare, every
    service call over them, the handlers that sign in, sign out and manage
    accounts, and how a request's cookie becomes an identity.

    The database may fail at any statement; password hashing, the digest and
    the system's randomness are parameters. *)

From S2P Require Import Prelude Rust Text Identifiers Images Config ConfigValidate History.

Open Scope Z_scope.
Open Scope stdpp_scope.

(** ** Tables *)

Record UserModel := mkUser {
  um_id : Z;
  um_username : string;
  um_password_hash : option string;
  um_auth_source : string;
  um_oidc_subject : option string;
  um_created_at_unix : Z;
  um_updated_at_unix : Z;
}.

#[export] Instance UserModel_eta : Eta UserModel := fun u =>
  mkUser (um_id u) (um_username u) (um_password_hash u) (um_auth_source u) (um_oidc_subject u)
    (um_created_at_unix u) (um_updated_at_unix u).

Record SessionModel := mkSession {
  sm_id : Z;
  sm_token_hash : string;
  sm_user_id : Z;
  sm_kind : string;
  sm_created_at_unix : Z;
  sm_expires_at_unix : Z;
  sm_last_seen_at_unix : Z;
}.

#[export] Instance SessionModel_eta : Eta SessionModel := fun s =>
  mkSession (sm_id s) (sm_token_hash s) (sm_user_id s) (sm_kind s) (sm_created_at_unix s)
    (sm_expires_at_unix s) (sm_last_seen_at_unix s).

(** The database and whatever decides its faults, the clock and randomness. *)
Record WebDb (W : Type) := mkWebDb {
  wd_users : list UserModel;
  wd_sessions : list SessionModel;
  wd_next_user : Z;
  wd_next_session : Z;
  wd_world : W;
}.

Arguments mkWebDb {W}. Arguments wd_users {W}. Arguments wd_sessions {W}.
Arguments wd_next_user {W}. Arguments wd_next_session {W}. Arguments wd_world {W}.

#[export] Instance WebDb_eta W : Eta (WebDb W) := fun db =>
  mkWebDb (wd_users db) (wd_sessions db) (wd_next_user db) (wd_next_session db) (wd_world db).

(** What the service is given: the clock in seconds, whether a statement fails
    and with which text, the driver's text for a broken constraint, thirty-two
    random bytes, the SHA-256 digest, and argon2's hash and verification. *)
Class WebHost (W : Type) := {
  wh_time : W -> Z * W;
  wh_fault : W -> option string * W;
  wh_unique_text : string -> string;
  wh_foreign_text : string;
  wh_entropy : W -> option (list ascii) * W;
  wh_digest : list ascii -> list ascii;
  wh_hash_password : string -> W -> option string * W;
  wh_verify : string -> string -> bool;
}.

Definition DB (W A : Type) : Type := WebDb W -> A * WebDb W.

#[export] Instance DB_ret W : MRet (DB W) := fun _ a db => (a, db).
#[export] Instance DB_bind W : MBind (DB W) := fun _ _ k c db => let '(a, db) := c db in k a db.

(** The [?] operator. *)
Definition attempt {W E A B} (c : DB W (result E A)) (k : A -> DB W (result E B)) : DB W (result E B) :=
  r ← c; match r with Ok a => k a | Err e => mret (Err e) end.

Notation "x ←! c ; k" := (attempt c (fun x => k))
  (at level 20, c at level 100, k at level 200, right associativity) : stdpp_scope.

(** ** Errors and records *)

Inductive AuthSource := Authdb | Oidc.

#[export] Instance AuthSource_eq_dec : EqDecision AuthSource.
Proof. solve_decision. Defined.

Definition auth_source_str (s : AuthSource) : string :=
  match s with Authdb => "authdb" | Oidc => "oidc" end.

Definition auth_source_parse (value : string) : option AuthSource :=
  if bool_decide (value = "authdb") then Some Authdb
  else if bool_decide (value = "oidc") then Some Oidc
  else None.

Record UserRecord := {
  ur_id : Z;
  ur_username : string;
  ur_auth_source : AuthSource;
  ur_created_at_unix : Z;
}.

Inductive UserError := UserDb (text : string) | UsernameTaken | UserNotFound | ProviderManaged.

Record SessionRecord := {
  sr_user : UserRecord;
  sr_kind : string;
  sr_expires_at_unix : Z;
}.

Definition user_record (u : UserModel) : option UserRecord :=
  option_map (fun source =>
    {| ur_id := um_id u; ur_username := um_username u; ur_auth_source := source;
       ur_created_at_unix := um_created_at_unix u |}) (auth_source_parse (um_auth_source u)).

Definition session_record (s : SessionModel) (u : UserModel) : option SessionRecord :=
  option_map (fun user =>
    {| sr_user := user; sr_kind := sm_kind s; sr_expires_at_unix := sm_expires_at_unix s |})
    (user_record u).

Definition is_unique_violation (text : string) : bool := contains (to_ascii_lowercase text) "unique".

Definition classify_unique (text : string) : UserError :=
  if is_unique_violation text then UsernameTaken else UserDb text.

Definition user_fault (e : UserError) : WebuiFault :=
  match e with
  | UserDb _ => Internal
  | UsernameTaken => Conflict "username is already taken"
  | UserNotFound => NotFoundFault
  | ProviderManaged => Conflict "account is managed by the identity provider"
  end.

Section services.
Context {W : Type} {WH : WebHost W}.

(** ** Statements *)

Definition db_errors {A} (f : string -> UserError) (c : DB W (result string A)) :
    DB W (result UserError A) :=
  r ← c; mret (map_err f r).

(** A statement either fails without effect or runs. *)
Definition sql {A} (run : DB W (result string A)) : DB W (result string A) := fun db =>
  let '(fault, w) := wh_fault (wd_world db) in
  let db := db <| wd_world := w |> in
  match fault with Some text => (Err text, db) | None => run db end.

Definition query {A} (f : WebDb W -> A) : DB W (result string A) := sql (fun db => (Ok (f db), db)).

(** [to_i64(unix_time())]. *)
Definition now_i64 : DB W Z := fun db =>
  let '(t, w) := wh_time (wd_world db) in (clamp_i64 t, db <| wd_world := w |>).

(** INSERT with the table's UNIQUE columns. *)
Definition insert_user (make : Z -> UserModel) : DB W (result string UserModel) := sql (fun db =>
  let u := make (wd_next_user db) in
  if existsb (fun v => bool_decide (um_username v = um_username u)) (wd_users db)
  then (Err (wh_unique_text "users.username"), db)
  else if negb (is_none (um_oidc_subject u)) &&
          existsb (fun v => bool_decide (um_oidc_subject v = um_oidc_subject u)) (wd_users db)
  then (Err (wh_unique_text "users.oidc_subject"), db)
  else (Ok u, db <| wd_users := wd_users db ++ [u] |> <| wd_next_user := wd_next_user db + 1 |>)).

(** INSERT with its UNIQUE column and its foreign key. *)
Definition insert_session (make : Z -> SessionModel) : DB W (result string unit) := sql (fun db =>
  let s := make (wd_next_session db) in
  if existsb (fun v => bool_decide (sm_token_hash v = sm_token_hash s)) (wd_sessions db)
  then (Err (wh_unique_text "sessions.token_hash"), db)
  else if negb (existsb (fun u => um_id u =? sm_user_id s) (wd_users db))
  then (Err wh_foreign_text, db)
  else (Ok tt, db <| wd_sessions := wd_sessions db ++ [s] |>
                  <| wd_next_session := wd_next_session db + 1 |>)).

Definition delete_sessions (condition : SessionModel -> bool) : DB W (result string unit) :=
  sql (fun db => (Ok tt, db <| wd_sessions := delete_where condition (wd_sessions db) |>)).

(** DELETE of an account, its sessions by cascade; the rows affected. *)
Definition delete_user (id : Z) : DB W (result string Z) := sql (fun db =>
  let users := delete_where (fun u => um_id u =? id) (wd_users db) in
  (Ok (rows_deleted (wd_users db) users),
   db <| wd_users := users |>
      <| wd_sessions := delete_where (fun s => sm_user_id s =? id) (wd_sessions db) |>)).

Definition update_users (f : UserModel -> UserModel) : DB W (result string unit) :=
  sql (fun db => (Ok tt, db <| wd_users := map f (wd_users db) |>)).

Definition update_sessions (f : SessionModel -> SessionModel) : DB W (result string unit) :=
  sql (fun db => (Ok tt, db <| wd_sessions := map f (wd_sessions db) |>)).

(** ** Sessions ([sessions.rs]) *)

Definition purge_expired : DB W (result UserError unit) :=
  now ← now_i64;
  db_errors UserDb (delete_sessions (fun s => sm_expires_at_unix s <=? now)).

Definition session_insert (token_hash : string) (user_id : Z) (kind : string) (ttl_seconds : Z) :
    DB W (result UserError unit) :=
  now ← now_i64;
  _ ←! purge_expired;
  db_errors UserDb (insert_session (fun id =>
    {| sm_id := id; sm_token_hash := token_hash; sm_user_id := user_id; sm_kind := kind;
       sm_created_at_unix := now;
       sm_expires_at_unix := Z.min (now + clamp_i64 ttl_seconds) i64_max;
       sm_last_seen_at_unix := now |})).

Definition find_user (id : Z) (users : list UserModel) : option UserModel :=
  List.find (fun u => um_id u =? id) users.

(** The joined row of an unexpired session. *)
Definition live_session (token_hash : string) (now : Z) (db : WebDb W) :
    option (SessionModel * option UserModel) :=
  option_map (fun s => (s, find_user (sm_user_id s) (wd_users db)))
    (List.find (fun s => bool_decide (sm_token_hash s = token_hash) && (now <? sm_expires_at_unix s))
       (wd_sessions db)).

Definition session_resolve (token_hash : string) : DB W (result UserError (option SessionRecord)) :=
  now ← now_i64;
  row ←! db_errors UserDb (query (live_session token_hash now));
  match row with
  | Some (s, Some u) =>
      _ ← update_sessions (fun v =>
            if sm_id v =? sm_id s then v <| sm_last_seen_at_unix := now |> else v);
      mret (Ok (session_record s u))
  | _ => mret (Ok None)
  end.

Definition delete_by_hash (token_hash : string) : DB W (result UserError unit) :=
  db_errors UserDb (delete_sessions (fun s => bool_decide (sm_token_hash s = token_hash))).

Definition delete_for_user (user_id : Z) (keep : option string) : DB W (result UserError unit) :=
  db_errors UserDb (delete_sessions (fun s => (sm_user_id s =? user_id) &&
    match keep with Some keep => negb (bool_decide (sm_token_hash s = keep)) | None => true end)).

(** ** Accounts ([users.rs]) *)

Definition create_authdb_user (username password_hash : string) : DB W (result UserError UserRecord) :=
  now ← now_i64;
  inserted ←! db_errors classify_unique (insert_user (fun id =>
    {| um_id := id; um_username := username; um_password_hash := Some password_hash;
       um_auth_source := auth_source_str Authdb; um_oidc_subject := None;
       um_created_at_unix := now; um_updated_at_unix := now |}));
  mret (ok_or (user_record inserted) UserNotFound).

Definition find_credentials (username : string) :
    DB W (result UserError (option (UserRecord * option string))) :=
  row ←! db_errors UserDb (query (fun db =>
    List.find (fun u => bool_decide (um_username u = username)) (wd_users db)));
  mret (Ok (u ← row; user ← user_record u; Some (user, um_password_hash u))).

Definition find_subject (subject : string) : DB W (result UserError (option UserModel)) :=
  db_errors UserDb (query (fun db =>
    List.find (fun u => bool_decide (um_oidc_subject u = Some subject)) (wd_users db))).

(** The name of one attempt. *)
Definition attempt_username (preferred : string) (attempt : Z) : string :=
  if attempt =? 0 then preferred else preferred +:+ "-" +:+ decimal attempt.

Definition oidc_user (now : Z) (subject username : string) (id : Z) : UserModel :=
  {| um_id := id; um_username := username; um_password_hash := None;
     um_auth_source := auth_source_str Oidc; um_oidc_subject := Some subject;
     um_created_at_unix := now; um_updated_at_unix := now |}.

(** The attempts of [provision_oidc_user]. *)
Fixpoint provision_attempts (now : Z) (subject preferred : string) (attempts : list Z) :
    DB W (result UserError UserRecord) :=
  match attempts with
  | [] => mret (Err UsernameTaken)
  | i :: attempts =>
      inserted ← insert_user (oidc_user now subject (attempt_username preferred i));
      match inserted with
      | Ok row => mret (ok_or (user_record row) UserNotFound)
      | Err text =>
          if is_unique_violation text then
            winner ←! find_subject subject;
            match winner with
            | Some row => mret (ok_or (user_record row) UserNotFound)
            | None => provision_attempts now subject preferred attempts
            end
          else mret (Err (UserDb text))
      end
  end.

Definition provision_oidc_user (subject preferred : string) : DB W (result UserError UserRecord) :=
  known ←! find_subject subject;
  match known with
  | Some row => mret (ok_or (user_record row) UserNotFound)
  | None =>
      now ← now_i64;
      provision_attempts now subject preferred (map Z.of_nat (seq 0 10))
  end.

Definition username_le : relation UserModel := fun u v => String.le (um_username u) (um_username v).

#[local] Instance username_le_dec : RelDecision username_le :=
  fun u v => decide (String.le (um_username u) (um_username v)).

Definition users_list : DB W (result UserError (list UserRecord)) :=
  rows ←! db_errors UserDb (query (fun db => merge_sort username_le (wd_users db)));
  mret (Ok (omap user_record rows)).

Definition users_find_by_id (id : Z) : DB W (result UserError (option UserRecord)) :=
  row ←! db_errors UserDb (query (fun db => find_user id (wd_users db)));
  mret (Ok (row ≫= user_record)).

Definition users_count : DB W (result UserError Z) :=
  db_errors UserDb (query (fun db => Z.of_nat (length (wd_users db)))).

Definition users_delete (id : Z) : DB W (result UserError unit) :=
  affected ←! db_errors UserDb (delete_user id);
  mret (if affected =? 0 then Err UserNotFound else Ok tt).

Definition set_password_hash (id : Z) (password_hash : string) : DB W (result UserError unit) :=
  row ←! db_errors UserDb (query (fun db => find_user id (wd_users db)));
  match row with
  | None => mret (Err UserNotFound)
  | Some row =>
      if negb (bool_decide (um_auth_source row = auth_source_str Authdb)) then mret (Err ProviderManaged)
      else
        now ← now_i64;
        db_errors UserDb (update_users (fun u =>
          if um_id u =? um_id row
          then u <| um_password_hash := Some password_hash |> <| um_updated_at_unix := now |>
          else u))
  end.

(** ** Credentials ([webui-auth]) *)

Definition SESSION_COOKIE_NAME : string := "flanforge_session".

Definition hex (l : list ascii) : string := foldr (fun c s => hex_padded 2 (byte_val c) +:+ s) "" l.

Definition hash_token (token : string) : string := hex (wh_digest (bytes token)).

(** The token for the cookie and the form the table holds; [None] is
    [TokenError::Entropy]. *)
Definition mint_session_token : DB W (option (string * string)) := fun db =>
  let '(random, w) := wh_entropy (wd_world db) in
  (option_map (fun random => (hex random, hash_token (hex random))) random, db <| wd_world := w |>).

Definition verify_password_or_dummy (password : string) (phc : option string) : bool :=
  match phc with Some phc => wh_verify password phc | None => false end.

Definition hash_password (password : string) : DB W (option string) := fun db =>
  let '(hash, w) := wh_hash_password password (wd_world db) in (hash, db <| wd_world := w |>).

Definition session_cookie (token : string) (max_age_seconds : Z) (is_https : bool) : string :=
  SESSION_COOKIE_NAME +:+ "=" +:+ token +:+ "; Path=/; HttpOnly; SameSite=Strict; Max-Age="
  +:+ decimal max_age_seconds +:+ (if is_https then "; Secure" else "").

Definition clearing_cookie : string :=
  SESSION_COOKIE_NAME +:+ "=; Path=/; HttpOnly; SameSite=Strict; Max-Age=0".

(** [str::split] on one character. *)
Fixpoint split_on (sep : ascii) (l : list ascii) : list (list ascii) :=
  match l with
  | [] => [[]]
  | c :: l =>
      if bool_decide (c = sep) then [] :: split_on sep l
      else match split_on sep l with
           | piece :: pieces => (c :: piece) :: pieces
           | [] => [[c]]
           end
  end.

(** [str::trim] of a header's text, which holds visible ASCII and tabs only. *)
Definition is_blank (c : ascii) : bool := bool_decide (c = " "%char) || bool_decide (byte_val c = 9).

Fixpoint trim_start (l : list ascii) : list ascii :=
  match l with c :: k => if is_blank c then trim_start k else l | [] => [] end.

Definition trim_header (l : list ascii) : list ascii := rev (trim_start (rev (trim_start l))).

Definition cookie_token_hash (pair : list ascii) : option string :=
  match split_once "=" (text (trim_header pair)) with
  | Some (name, value) =>
      if bool_decide (name = SESSION_COOKIE_NAME) && negb (is_empty value)
      then Some (hash_token value) else None
  | None => None
  end.

Definition cookie_token_hashes (cookie_header : string) : list string :=
  omap cookie_token_hash (split_on ";" (bytes cookie_header)).

(** ** Identity ([identity.rs]) *)

Fixpoint resolve_hashes (hashes : list string) : DB W (option (SessionRecord * string)) :=
  match hashes with
  | [] => mret None
  | token_hash :: hashes =>
      found ← session_resolve token_hash;
      match found with
      | Ok (Some session) => mret (Some (session, token_hash))
      | Ok None => resolve_hashes hashes
      | Err _ => mret None
      end
  end.

Definition resolve_identity (cookie_header : option string) : DB W (option (SessionRecord * string)) :=
  match cookie_header with
  | None => mret None
  | Some header => resolve_hashes (cookie_token_hashes header)
  end.

Definition require_read (webui : WebuiConfig) (identity : option (SessionRecord * string)) : bool :=
  wu_public_read_only webui || negb (is_none identity).

Definition require_auth (identity : option (SessionRecord * string)) : bool := negb (is_none identity).

(** ** Handlers *)

Definition fault_of {A} (c : DB W (result UserError A)) : DB W (result WebuiFault A) :=
  r ← c; mret (map_err user_fault r).

Record IssuedSession := {
  is_token : string;
  is_token_hash : string;
  is_user : UserRecord;
  is_ttl_seconds : Z;
}.

Definition issue_for_user (webui : WebuiConfig) (user : UserRecord) :
    DB W (result WebuiFault IssuedSession) :=
  minted ← mint_session_token;
  match minted with
  | None => mret (Err Internal)
  | Some (token, token_hash) =>
      _ ←! fault_of (session_insert token_hash (ur_id user) (auth_source_str (ur_auth_source user))
                       (wu_session_ttl_seconds webui));
      mret (Ok {| is_token := token; is_token_hash := token_hash; is_user := user;
                  is_ttl_seconds := wu_session_ttl_seconds webui |})
  end.

(** [login::handle]; [username] is the trimmed name of the request. *)
Definition login (webui : WebuiConfig) (username password : string) :
    DB W (result WebuiFault IssuedSession) :=
  if negb (wu_authdb_enabled webui) then mret (Err (Conflict "password login is disabled"))
  else
    credentials ←! fault_of (find_credentials username);
    match credentials with
    | None => mret (Err Unauthenticated)
    | Some (user, stored) =>
        if negb (verify_password_or_dummy password stored) then mret (Err Unauthenticated)
        else issue_for_user webui user
    end.

Fixpoint logout (token_hashes : list string) : DB W (result WebuiFault unit) :=
  match token_hashes with
  | [] => mret (Ok tt)
  | token_hash :: token_hashes =>
      _ ←! fault_of (delete_by_hash token_hash);
      logout token_hashes
  end.

(** The end of [oidc::finish], once the provider vouched for the identity. *)
Definition oidc_finish (webui : WebuiConfig) (subject preferred : string) :
    DB W (result WebuiFault IssuedSession) :=
  user ←! fault_of (provision_oidc_user subject preferred);
  issue_for_user webui user.

Definition user_create (webui : WebuiConfig) (username password : string) :
    DB W (result WebuiFault UserRecord) :=
  if negb (wu_authdb_enabled webui) then mret (Err (Conflict "password accounts are disabled"))
  else
    hash ← hash_password password;
    match hash with
    | None => mret (Err Internal)
    | Some hash => fault_of (create_authdb_user username hash)
    end.

Definition user_delete (actor : SessionRecord) (user_id : Z) : DB W (result WebuiFault unit) :=
  if ur_id (sr_user actor) =? user_id then mret (Err Forbidden)
  else fault_of (users_delete user_id).

Definition user_set_password (actor : SessionRecord) (actor_token_hash : string) (user_id : Z)
    (password : string) : DB W (result WebuiFault unit) :=
  hash ← hash_password password;
  match hash with
  | None => mret (Err Internal)
  | Some hash =>
      _ ←! fault_of (set_password_hash user_id hash);
      fault_of (delete_for_user user_id
        (if ur_id (sr_user actor) =? user_id then Some actor_token_hash else None))
  end.
End services.

(** ** Well-formed tables *)

(** A password account has a hash and no subject; a provider's the reverse. *)
Definition is_sourced (u : UserModel) : Prop :=
  (um_auth_source u = auth_source_str Authdb /\ is_Some (um_password_hash u) /\ um_oidc_subject u = None) \/
  (um_auth_source u = auth_source_str Oidc /\ um_password_hash u = None /\ is_Some (um_oidc_subject u)).

Record well_formed {W} (db : WebDb W) : Prop := {
  wf_user_ids : NoDup (map um_id (wd_users db));
  wf_usernames : NoDup (map um_username (wd_users db));
  wf_subjects : NoDup (omap um_oidc_subject (wd_users db));
  wf_sourced : Forall is_sourced (wd_users db);
  wf_user_fresh : Forall (fun u => um_id u < wd_next_user db) (wd_users db);
  wf_session_ids : NoDup (map sm_id (wd_sessions db));
  wf_hashes : NoDup (map sm_token_hash (wd_sessions db));
  wf_session_fresh : Forall (fun s => sm_id s < wd_next_session db) (wd_sessions db);
  wf_owned : Forall (fun s => sm_user_id s ∈ map um_id (wd_users db)) (wd_sessions db);
}.

Section keeping.
Context {W : Type} {WH : WebHost W}.
Implicit Types db : WebDb W.

(** A property of the tables alone that a computation keeps. *)
Definition holds (I : WebDb W -> Prop) {A} (c : DB W A) : Prop := forall db, I db -> I (c db).2.

Lemma holds_ret I {A} (a : A) : holds I (mret a).
Proof. by intros db. Qed.

Lemma holds_bind I {A B} (c : DB W A) (k : A -> DB W B) :
  holds I c -> (forall a, holds I (k a)) -> holds I (c ≫= k).
Proof.
  intros Hc Hk db Hdb. unfold mbind, DB_bind. specialize (Hc db Hdb).
  destruct (c db) as [a db']. by apply Hk.
Qed.

Lemma holds_attempt I {E A B} (c : DB W (result E A)) (k : A -> DB W (result E B)) :
  holds I c -> (forall a, holds I (k a)) -> holds I (attempt c k).
Proof. intros Hc Hk. apply holds_bind; [done|]. intros [a|e]; [done|apply holds_ret]. Qed.

Lemma holds_db_errors I {A} f (c : DB W (result string A)) : holds I c -> holds I (db_errors f c).
Proof. intros Hc. apply holds_bind; [done|]. intros r. apply holds_ret. Qed.

Lemma holds_fault_of I {A} (c : DB W (result UserError A)) : holds I c -> holds I (fault_of c).
Proof. intros Hc. apply holds_bind; [done|]. intros r. apply holds_ret. Qed.

(** The world is not the tables'. *)
Context (I : WebDb W -> Prop) (I_world : forall db w, I db -> I (db <| wd_world := w |>)).

Lemma holds_sql {A} (run : DB W (result string A)) : holds I run -> holds I (sql run).
Proof.
  intros Hr db Hdb. unfold sql. destruct (wh_fault _) as [[text|] w]; [by apply I_world|].
  by apply Hr, I_world.
Qed.

Lemma holds_query {A} (f : WebDb W -> A) : holds I (query f).
Proof. apply holds_sql. by intros db. Qed.

Lemma holds_now : holds I now_i64.
Proof. intros db Hdb. unfold now_i64. destruct (wh_time _). by apply I_world. Qed.

Lemma holds_mint : holds I mint_session_token.
Proof. intros db Hdb. unfold mint_session_token. destruct (wh_entropy _). by apply I_world. Qed.

Lemma holds_hash password : holds I (hash_password password).
Proof. intros db Hdb. unfold hash_password. destruct (wh_hash_password _ _). by apply I_world. Qed.
End keeping.

(** Walks a computation's structure down to its statements. *)
Ltac statements tac :=
  repeat first
    [ assumption | solve [tac] | apply holds_ret | apply holds_query | apply holds_now | apply holds_mint
    | apply holds_hash | apply holds_fault_of | apply holds_db_errors
    | apply holds_attempt; [|intros] | apply holds_bind; [|intros] | case_match ].

Section invariant.
Context {W : Type} {WH : WebHost W}.
Implicit Types db : WebDb W.

Lemma well_formed_world db w : well_formed db -> well_formed (db <| wd_world := w |>).
Proof. intros []. by constructor. Qed.

Lemma map_delete_where_nodup {R K} (key : R -> K) p (rows : list R) :
  NoDup (map key rows) -> NoDup (map key (delete_where p rows)).
Proof. apply NoDup_map_filter_bool. Qed.

Lemma Forall_delete_where {R} (P : R -> Prop) p rows : Forall P rows -> Forall P (delete_where p rows).
Proof. rewrite !Forall_forall. intros H x [Hx _]%elem_of_filter_bool. by apply H. Qed.

Lemma NoDup_snoc {A} (l : list A) x : NoDup l -> x ∉ l -> NoDup (l ++ [x]).
Proof. intros Hl Hx. apply NoDup_app. split_and!; [done|set_solver|apply NoDup_singleton]. Qed.

Lemma existsb_none {A} (p : A -> bool) l x : existsb p l = false -> x ∈ l -> p x = false.
Proof.
  intros He Hx. apply not_true_is_false. intros Hp. apply not_true_iff_false in He. apply He.
  apply existsb_exists. exists x. split; [by apply list_elem_of_In|done].
Qed.

Lemma well_formed_insert_user make :
  (forall id, um_id (make id) = id) -> (forall id, is_sourced (make id)) ->
  holds well_formed (insert_user (W := W) make).
Proof.
  intros Hid Hsrc. apply holds_sql; [apply well_formed_world|]. intros db Hdb. simpl.
  set (u := make (wd_next_user db)).
  destruct (existsb _ (wd_users db)) eqn:Hname; [done|].
  destruct (negb _ && existsb _ _) eqn:Hsub; [done|]. destruct Hdb. constructor; simpl; try done.
  - rewrite map_app. apply NoDup_snoc; [done|]. unfold u. rewrite Hid.
    rewrite list_elem_of_fmap. intros (v & Hv & Hin). rewrite Forall_forall in wf_user_fresh0.
    specialize (wf_user_fresh0 v Hin). lia.
  - rewrite map_app. apply NoDup_snoc; [done|]. rewrite list_elem_of_fmap. intros (v & Hv & Hin).
    apply (existsb_none _ _ v Hname) in Hin. apply bool_decide_eq_false in Hin. congruence.
  - rewrite omap_app. simpl. destruct (um_oidc_subject u) as [subject|] eqn:Hs; [|by rewrite app_nil_r].
    apply NoDup_snoc; [done|]. rewrite list_elem_of_omap. intros (v & Hin & Hv).
    simpl in Hsub. apply (existsb_none _ _ v Hsub) in Hin. apply bool_decide_eq_false in Hin. congruence.
  - apply Forall_app. split; [done|]. apply Forall_singleton, Hsrc.
  - apply Forall_app. split; [|apply Forall_singleton; unfold u; rewrite Hid; lia].
    eapply Forall_impl; [done|]. simpl. lia.
  - eapply Forall_impl; [done|]. simpl. intros s Hin. rewrite map_app. set_solver.
Qed.

Lemma well_formed_insert_session make :
  (forall id, sm_id (make id) = id) -> holds well_formed (insert_session (W := W) make).
Proof.
  intros Hid. apply holds_sql; [apply well_formed_world|]. intros db Hdb. simpl.
  set (s := make (wd_next_session db)).
  destruct (existsb _ (wd_sessions db)) eqn:Hh; [done|].
  destruct (negb _) eqn:Hu; [done|]. destruct Hdb. constructor; simpl; try done.
  - rewrite map_app. apply NoDup_snoc; [done|]. unfold s. rewrite Hid.
    rewrite list_elem_of_fmap. intros (v & Hv & Hin). rewrite Forall_forall in wf_session_fresh0.
    specialize (wf_session_fresh0 v Hin). lia.
  - rewrite map_app. apply NoDup_snoc; [done|]. rewrite list_elem_of_fmap. intros (v & Hv & Hin).
    apply (existsb_none _ _ v Hh) in Hin. apply bool_decide_eq_false in Hin. congruence.
  - apply Forall_app. split; [|apply Forall_singleton; unfold s; rewrite Hid; lia].
    eapply Forall_impl; [exact wf_session_fresh0|]. simpl. lia.
  - apply Forall_app. split; [done|]. apply Forall_singleton. apply negb_false_iff, existsb_exists in Hu.
    destruct Hu as (u & Hin & Heq%Z.eqb_eq). apply list_elem_of_fmap. exists u. rewrite list_elem_of_In.
    done.
Qed.

Lemma well_formed_delete_sessions p : holds well_formed (delete_sessions (W := W) p).
Proof.
  apply holds_sql; [apply well_formed_world|]. intros db []. constructor; simpl; try done;
    first [by apply map_delete_where_nodup|by apply Forall_delete_where].
Qed.

Lemma omap_delete_where_nodup {R K} (key : R -> option K) p (rows : list R) :
  NoDup (omap key rows) -> NoDup (omap key (delete_where p rows)).
Proof.
  intros H. eapply sublist_NoDup; [exact H|]. clear H. unfold delete_where.
  induction rows as [|x rows IH]; simpl; [done|].
  destruct (negb (p x)); simpl; destruct (key x); try done;
    first [by apply sublist_skip|by apply sublist_cons].
Qed.

Lemma omap_map_same {R K} (key : R -> option K) f (rows : list R) :
  (forall r, key (f r) = key r) -> omap key (map f rows) = omap key rows.
Proof. intros Hf. induction rows as [|r rows IH]; csimpl; [done|]. by rewrite Hf, IH. Qed.

Lemma well_formed_delete_user id : holds well_formed (delete_user (W := W) id).
Proof.
  apply holds_sql; [apply well_formed_world|]. intros db []. constructor; simpl; try done;
    try first [by apply map_delete_where_nodup|by apply Forall_delete_where].
  - by apply omap_delete_where_nodup.
  - apply Forall_forall. intros s [Hin Hne]%elem_of_filter_bool. rewrite Forall_forall in wf_owned0.
    specialize (wf_owned0 s Hin). rewrite list_elem_of_fmap in *. destruct wf_owned0 as (u & Hu & Hiu).
    exists u. split; [done|]. apply elem_of_filter_bool. split; [done|].
    rewrite negb_true_iff in *. by rewrite <- Hu.
Qed.

Lemma well_formed_update_sessions f :
  (forall s, sm_id (f s) = sm_id s /\ sm_token_hash (f s) = sm_token_hash s /\
     sm_user_id (f s) = sm_user_id s) ->
  holds well_formed (update_sessions (W := W) f).
Proof.
  intros Hf. apply holds_sql; [apply well_formed_world|]. intros db [].
  assert (forall {K} (key : SessionModel -> K), (forall s, key (f s) = key s) ->
    map key (map f (wd_sessions db)) = map key (wd_sessions db)) as Hmap.
  { intros K key Hk. rewrite map_map. by apply map_ext. }
  constructor; simpl; try done.
  - rewrite Hmap; [done|]. apply Hf.
  - rewrite Hmap; [done|]. apply Hf.
  - apply Forall_fmap. eapply Forall_impl; [exact wf_session_fresh0|]. simpl. intros s. by destruct (Hf s) as (-> & _).
  - apply Forall_fmap. eapply Forall_impl; [exact wf_owned0|]. simpl. intros s. by destruct (Hf s) as (_ & _ & ->).
Qed.
End invariant.

(** ** What a call does *)

Section cases.
Context {W : Type} {WH : WebHost W}.
Implicit Types db : WebDb W.

Lemma bind_run {A B} (c : DB W A) (k : A -> DB W B) db a db' : c db = (a, db') -> (c ≫= k) db = k a db'.
Proof. intros H. unfold mbind, DB_bind. by rewrite H. Qed.

Lemma attempt_run {E A B} (c : DB W (result E A)) (k : A -> DB W (result E B)) db r db' :
  c db = (r, db') -> attempt c k db = match r with Ok a => k a db' | Err e => (Err e, db') end.
Proof. intros H. unfold attempt. rewrite (bind_run _ _ _ _ _ H). by destruct r. Qed.

Lemma now_cases db : exists now w, now_i64 db = (now, db <| wd_world := w |>).
Proof. unfold now_i64. destruct (wh_time _) as [t w]. eauto. Qed.

Lemma sql_cases {A} (run : DB W (result string A)) db :
  (exists text w, sql run db = (Err text, db <| wd_world := w |>)) \/
  (exists w, sql run db = run (db <| wd_world := w |>)).
Proof. unfold sql. destruct (wh_fault _) as [[text|] w]; eauto. Qed.

Lemma db_errors_run {A} f (c : DB W (result string A)) db :
  db_errors f c db = (map_err f (c db).1, (c db).2).
Proof. unfold db_errors, mbind, DB_bind. by destruct (c db). Qed.

Lemma fault_of_run {A} (c : DB W (result UserError A)) db :
  fault_of c db = (map_err user_fault (c db).1, (c db).2).
Proof. unfold fault_of, mbind, DB_bind. by destruct (c db). Qed.

(** A query fails or answers from the tables, and moves only the world. *)
Lemma query_cases {A} f (q : WebDb W -> A) db :
  (forall w, q (db <| wd_world := w |>) = q db) ->
  exists r w, db_errors f (query q) db = (r, db <| wd_world := w |>) /\
    ((exists text, r = Err (f text)) \/ r = Ok (q db)).
Proof.
  intros Hq. rewrite db_errors_run. unfold query.
  destruct (sql_cases (fun db => (Ok (q db), db)) db) as [(text & w & ->)|(w & ->)]; simpl.
  - exists (Err (f text)), w. eauto.
  - exists (Ok (q db)), w. rewrite Hq. auto.
Qed.

Lemma delete_sessions_cases p db :
  exists r w, db_errors UserDb (delete_sessions p) db =
    (r, db <| wd_world := w |> <| wd_sessions := match r with Ok _ => delete_where p (wd_sessions db)
                                                  | Err _ => wd_sessions db end |>).
Proof.
  rewrite db_errors_run. unfold delete_sessions.
  match goal with |- context [sql ?run db] => destruct (sql_cases run db) as [(text & w & ->)|(w & ->)] end;
    simpl.
  - exists (Err (UserDb text)), w. by destruct db.
  - by exists (Ok tt), w.
Qed.
End cases.

(** ** The calls of one run

    What a computation asked of the clock, the database and the system's
    randomness, in order, with the answers.  Each call goes on from the world
    the one before left, so the kinds of call fix every answer. *)

Inductive HostCall :=
| ReadTime (t : Z)
| RanStatement (fault : option string)
| DrewEntropy (random : option (list ascii)).

Section calls.
Context {W : Type} {WH : WebHost W}.
Implicit Types db : WebDb W.

Inductive took : W -> list HostCall -> W -> Prop :=
| took_none w : took w [] w
| took_time w t w1 calls w2 :
    wh_time w = (t, w1) -> took w1 calls w2 -> took w (ReadTime t :: calls) w2
| took_statement w fault w1 calls w2 :
    wh_fault w = (fault, w1) -> took w1 calls w2 -> took w (RanStatement fault :: calls) w2
| took_entropy w random w1 calls w2 :
    wh_entropy w = (random, w1) -> took w1 calls w2 -> took w (DrewEntropy random :: calls) w2.

Lemma took_app w calls w1 calls' w2 : took w calls w1 -> took w1 calls' w2 -> took w (calls ++ calls') w2.
Proof. induction 1; intros H'; simpl; [done|econstructor; eauto..]. Qed.

Lemma now_took db : exists t w, now_i64 db = (clamp_i64 t, db <| wd_world := w |>) /\ took (wd_world db) [ReadTime t] w.
Proof.
  unfold now_i64. destruct (wh_time _) as [t w] eqn:E. exists t, w. split; [done|]. econstructor; [done|constructor].
Qed.

Lemma sql_took {A} (run : DB W (result string A)) db : exists fault w,
  took (wd_world db) [RanStatement fault] w /\
  sql run db = match fault with Some text => (Err text, db <| wd_world := w |>) | None => run (db <| wd_world := w |>) end.
Proof.
  unfold sql. destruct (wh_fault _) as [fault w] eqn:E. exists fault, w. split; [|by destruct fault].
  econstructor; [done|constructor].
Qed.

Lemma query_took {A} f (q : WebDb W -> A) db :
  (forall w, q (db <| wd_world := w |>) = q db) ->
  exists fault w, took (wd_world db) [RanStatement fault] w /\
    db_errors f (query q) db = (match fault with Some text => Err (f text) | None => Ok (q db) end, db <| wd_world := w |>).
Proof.
  intros Hq. rewrite db_errors_run. unfold query.
  destruct (sql_took (fun db => (Ok (q db), db)) db) as (fault & w & Ht & ->). exists fault, w. split; [done|].
  destruct fault; [done|]. simpl. by rewrite Hq.
Qed.
End calls.

(** ** Grants

    What the session table means: which digest signs in as whom, until when. *)

Definition grants_of (rows : list SessionModel) : gmap string (Z * Z) :=
  list_to_map (map (fun s => (sm_token_hash s, (sm_user_id s, sm_expires_at_unix s))) rows).

Definition grants {W} (db : WebDb W) : gmap string (Z * Z) := grants_of (wd_sessions db).

Lemma grants_lookup rows h g :
  NoDup (map sm_token_hash rows) ->
  grants_of rows !! h = Some g <->
  exists s, s ∈ rows /\ sm_token_hash s = h /\ (sm_user_id s, sm_expires_at_unix s) = g.
Proof.
  intros Hn. unfold grants_of. rewrite <- elem_of_list_to_map.
  - rewrite list_elem_of_fmap. naive_solver.
  - change (NoDup (map fst (map (fun s => (sm_token_hash s, (sm_user_id s, sm_expires_at_unix s))) rows))).
    by rewrite map_map.
Qed.

Lemma grants_delete (p : SessionModel -> bool) (q : string * (Z * Z) -> bool) rows :
  NoDup (map sm_token_hash rows) ->
  (forall s, p s = q (sm_token_hash s, (sm_user_id s, sm_expires_at_unix s))) ->
  grants_of (delete_where p rows) = filter (fun g => q g = false) (grants_of rows).
Proof.
  intros Hn Hp. apply map_eq. intros h. apply option_eq. intros g.
  rewrite map_lookup_filter_Some, !grants_lookup by (try apply NoDup_map_filter_bool; done).
  split.
  - intros (s & [Hin Hs]%elem_of_filter_bool & <- & <-). rewrite negb_true_iff, Hp in Hs. eauto.
  - intros [(s & Hin & <- & <-) Hq]. exists s. split_and!; try done.
    apply elem_of_filter_bool. by rewrite negb_true_iff, Hp.
Qed.

Lemma grants_touch f rows :
  (forall s, sm_token_hash (f s) = sm_token_hash s /\ sm_user_id (f s) = sm_user_id s /\
     sm_expires_at_unix (f s) = sm_expires_at_unix s) ->
  grants_of (map f rows) = grants_of rows.
Proof.
  intros Hf. unfold grants_of. rewrite map_map. f_equal. apply map_ext. intros s.
  by destruct (Hf s) as (-> & -> & ->).
Qed.

Lemma grants_insert rows s :
  NoDup (map sm_token_hash (rows ++ [s])) ->
  grants_of (rows ++ [s]) = <[sm_token_hash s := (sm_user_id s, sm_expires_at_unix s)]> (grants_of rows).
Proof.
  intros Hn. assert (NoDup (map sm_token_hash rows) /\ sm_token_hash s ∉ map sm_token_hash rows) as [Hr Hs].
  { rewrite map_app, NoDup_app in Hn. destruct Hn as (? & Hd & _). split; [done|]. intros Hin.
    apply (Hd _ Hin). by left. }
  apply map_eq. intros h. apply option_eq. intros g.
  rewrite lookup_insert_Some, !grants_lookup by done. split.
  - intros (v & [Hin|Hv%list_elem_of_singleton]%elem_of_app & <- & <-); [|subst; by left]. right.
    split; [|eauto]. intros Heq. apply Hs. rewrite Heq. by apply list_elem_of_fmap_2.
  - intros [[<- <-]|[_ (v & Hin & <- & <-)]]; eexists; (split; [|done]); set_solver.
Qed.

Section operations.
Context {W : Type} {WH : WebHost W}.
Implicit Types db : WebDb W.

#[local] Hint Resolve well_formed_world : core.

Lemma well_formed_purge : holds well_formed (purge_expired (W := W)).
Proof. unfold purge_expired. statements ltac:(auto using well_formed_delete_sessions). Qed.

Lemma well_formed_session_insert h u k ttl : holds well_formed (session_insert (W := W) h u k ttl).
Proof.
  unfold session_insert.
  statements ltac:(auto using well_formed_purge, well_formed_insert_session).
Qed.

Lemma well_formed_session_resolve h : holds well_formed (session_resolve (W := W) h).
Proof.
  unfold session_resolve. statements ltac:(first [apply well_formed_world |
    apply well_formed_update_sessions; intros v; by destruct (_ =? _)]).
Qed.

Lemma is_sourced_password u hash :
  is_sourced u -> um_auth_source u = auth_source_str Authdb ->
  is_sourced (u <| um_password_hash := Some hash |>).
Proof. intros [(H1 & _ & H3)|(H1 & _ & _)] Hs; [left|by rewrite H1 in Hs]. simpl. eauto. Qed.

Lemma find_user_spec id users u : find_user id users = Some u -> u ∈ users /\ um_id u = id.
Proof. unfold find_user. intros [H1 H2%Z.eqb_eq]%find_some. by rewrite list_elem_of_In. Qed.

Lemma well_formed_set_password id hash : holds well_formed (set_password_hash (W := W) id hash).
Proof.
  intros db Hdb. unfold set_password_hash.
  destruct (query_cases UserDb (fun db => find_user id (wd_users db)) db) as (r & w & Hq & Hr); [done|].
  rewrite (attempt_run _ _ _ _ _ Hq). destruct r as [[u|]|e]; [|by apply well_formed_world..].
  destruct Hr as [[? ?]|[= Hu]]; [done|]. symmetry in Hu. apply find_user_spec in Hu as [Hin Hid].
  destruct (bool_decide (um_auth_source u = _)) eqn:Hsrc; [|by apply well_formed_world]. simpl.
  apply bool_decide_eq_true in Hsrc. destruct (now_cases (db <| wd_world := w |>)) as (now & w' & Hn).
  rewrite (bind_run _ _ _ _ _ Hn), db_errors_run. unfold update_users.
  match goal with |- context [sql ?run ?d] => destruct (sql_cases run d) as [(text & w2 & ->)|(w2 & ->)] end;
    [exact (well_formed_world db w2 Hdb)|]. simpl.
  set (f := fun v => if um_id v =? um_id u then _ else v).
  assert (forall {K} (key : UserModel -> K), (forall v, key (f v) = key v) ->
    map key (map f (wd_users db)) = map key (wd_users db)) as Hmap.
  { intros K key Hk. rewrite map_map. by apply map_ext. }
  assert (forall v, um_id (f v) = um_id v) as Hfid by (intros v; unfold f; by destruct (_ =? _)).
  destruct Hdb. constructor; simpl; try done.
  - by rewrite Hmap.
  - rewrite Hmap; [done|]. intros v. unfold f. by destruct (_ =? _).
  - rewrite omap_map_same; [done|]. intros v. unfold f. by destruct (_ =? _).
  - apply Forall_fmap, Forall_forall. intros v Hv. simpl. rewrite Forall_forall in wf_sourced0. unfold f.
    destruct (um_id v =? um_id u) eqn:He; [|by apply wf_sourced0]. apply Z.eqb_eq in He.
    assert (v = u) as -> by (exact (NoDup_map_inj um_id _ v u wf_user_ids0 Hv Hin He)).
    by apply (is_sourced_password u hash); [apply wf_sourced0|].
  - apply Forall_fmap, Forall_forall. intros v Hv. simpl. rewrite Hfid.
    rewrite Forall_forall in wf_user_fresh0. by apply wf_user_fresh0.
  - by rewrite Hmap.
Qed.
Lemma well_formed_create_authdb name hash : holds well_formed (create_authdb_user (W := W) name hash).
Proof.
  unfold create_authdb_user. statements ltac:(first [apply well_formed_world |
    apply well_formed_insert_user; [done|]; intros id; left; simpl; eauto]).
Qed.

Lemma well_formed_attempts now subject preferred attempts :
  holds well_formed (provision_attempts (W := W) now subject preferred attempts).
Proof.
  induction attempts as [|i attempts IH]; simpl; [apply holds_ret|]. unfold find_subject.
  statements ltac:(first [apply well_formed_world | apply IH |
    apply well_formed_insert_user; [done|]; intros id; right; simpl; eauto]).
Qed.

Lemma well_formed_provision subject preferred :
  holds well_formed (provision_oidc_user (W := W) subject preferred).
Proof.
  unfold provision_oidc_user, find_subject.
  statements ltac:(first [apply well_formed_attempts | apply well_formed_world]).
Qed.

Lemma well_formed_issue webui user : holds well_formed (issue_for_user (W := W) webui user).
Proof.
  unfold issue_for_user.
  statements ltac:(first [apply well_formed_world | apply well_formed_session_insert]).
Qed.

(** One request, by its effect on the tables. *)
Inductive web_call : (WebDb W -> WebDb W) -> Prop :=
| call_login webui username password : web_call (fun db => (login webui username password db).2)
| call_logout hashes : web_call (fun db => (logout hashes db).2)
| call_oidc webui subject preferred : web_call (fun db => (oidc_finish webui subject preferred db).2)
| call_create webui username password : web_call (fun db => (user_create webui username password db).2)
| call_delete actor id : web_call (fun db => (user_delete actor id db).2)
| call_password actor hash id password :
    web_call (fun db => (user_set_password actor hash id password db).2)
| call_identity header : web_call (fun db => (resolve_identity header db).2).

Inductive web_reachable : WebDb W -> Prop :=
| web_first w : web_reachable (mkWebDb [] [] 1 1 w)
| web_next db f : web_reachable db -> web_call f -> web_reachable (f db).

Lemma well_formed_call f db : web_call f -> well_formed db -> well_formed (f db).
Proof.
  destruct 1; revert db; match goal with |- forall db, _ -> well_formed (?c db).2 =>
    change (holds well_formed c) end.
  - unfold login, find_credentials.
    statements ltac:(first [apply well_formed_world | apply well_formed_issue]).
  - induction hashes as [|h hashes IH]; simpl; [apply holds_ret|]. unfold delete_by_hash.
    statements ltac:(first [apply IH | apply well_formed_delete_sessions]).
  - unfold oidc_finish.
    statements ltac:(first [apply well_formed_provision | apply well_formed_issue]).
  - unfold user_create.
    statements ltac:(first [apply well_formed_world | apply well_formed_create_authdb]).
  - unfold user_delete, users_delete. statements ltac:(apply well_formed_delete_user).
  - unfold user_set_password, delete_for_user.
    statements ltac:(first [apply well_formed_world | apply well_formed_set_password
      | apply well_formed_delete_sessions]).
  - unfold resolve_identity. destruct header as [header|]; [|apply holds_ret].
    induction (cookie_token_hashes header) as [|h hashes IH]; simpl; [apply holds_ret|].
    statements ltac:(first [apply IH | apply well_formed_session_resolve]).
Qed.

Lemma reachable_well_formed db : web_reachable db -> well_formed db.
Proof.
  induction 1 as [w|db f _ IH Hf]; [|by apply well_formed_call].
  constructor; simpl; constructor.
Qed.
End operations.

(** ** Effects on grants *)

Section effects.
Context {W : Type} {WH : WebHost W}.
Implicit Types db : WebDb W.

Lemma filter_grants_subseteq (q : string * (Z * Z) -> bool) (g : gmap string (Z * Z)) :
  filter (fun x => q x = false) g ⊆ g.
Proof. apply map_filter_subseteq. Qed.

(** The grants a purge at [now] leaves. *)
Definition unexpired (now : Z) (g : gmap string (Z * Z)) : gmap string (Z * Z) :=
  filter (fun x => (x.2.2 <=? now) = false) g.

Lemma purge_cases db :
  well_formed db ->
  exists r t db', purge_expired db = (r, db') /\ well_formed db' /\ wd_users db' = wd_users db /\
    match r with
    | Ok _ => grants db' = unexpired (clamp_i64 t) (grants db) /\
        took (wd_world db) [ReadTime t; RanStatement None] (wd_world db')
    | Err e => grants db' = grants db /\ user_fault e = Internal
    end.
Proof.
  intros Hdb. pose proof (well_formed_purge db Hdb) as Hwf. unfold purge_expired in *.
  destruct (now_took db) as (t & w & Hn & Ht). rewrite (bind_run _ _ _ _ _ Hn), db_errors_run in *.
  unfold delete_sessions in *. match goal with |- context [sql ?run ?d] =>
    destruct (sql_took run d) as (fault & w1 & Ht1 & Hs) end. rewrite Hs in *.
  destruct fault as [text|]; simpl in *; eexists _, t, _; split_and!; try done.
  split; [|by apply (took_app _ _ w _ _ Ht)].
  unfold grants. simpl. rewrite (grants_delete _ (fun x => x.2.2 <=? clamp_i64 t)); [done|apply Hdb|done].
Qed.

Lemma insert_session_cases make db :
  (forall id, sm_id (make id) = id) -> well_formed db ->
  exists r db', insert_session make db = (r, db') /\ well_formed db' /\ wd_users db' = wd_users db /\
    let s := make (wd_next_session db) in
    match r with
    | Ok _ => grants db !! sm_token_hash s = None /\ sm_user_id s ∈ map um_id (wd_users db) /\
        grants db' = <[sm_token_hash s := (sm_user_id s, sm_expires_at_unix s)]> (grants db) /\
        s ∈ wd_sessions db' /\ took (wd_world db) [RanStatement None] (wd_world db')
    | Err _ => grants db' = grants db
    end.
Proof.
  intros Hid Hdb. pose proof (well_formed_insert_session make Hid db Hdb) as Hwf.
  unfold insert_session in *. match goal with |- context [sql ?run db] =>
    destruct (sql_took run db) as ([text|] & w & Ht & Hr) end; rewrite Hr in *.
  - eexists _, _. split_and!; done.
  - simpl in *. destruct (existsb _ (wd_sessions db)) eqn:Hh; [by eexists _, _|].
    destruct (negb _) eqn:Hu; [by eexists _, _|]. eexists _, _. split_and!; [done..|]. simpl.
    apply negb_false_iff, existsb_exists in Hu as (u & Hin & Heq%Z.eqb_eq). split_and!.
    + apply eq_None_not_Some. intros [g Hg]. apply grants_lookup in Hg as (v & Hv & Hvh & _);
        [|apply Hdb]. apply (existsb_none _ _ v Hh) in Hv. by apply bool_decide_eq_false in Hv.
    + rewrite <- Heq. by apply list_elem_of_fmap_2, list_elem_of_In.
    + unfold grants. simpl. apply grants_insert. apply Hwf.
    + set_solver.
    + exact Ht.
Qed.

Lemma session_insert_cases h u kind ttl db :
  well_formed db ->
  exists r db', session_insert h u kind ttl db = (r, db') /\ well_formed db' /\
    wd_users db' = wd_users db /\
    match r with
    | Err e => grants db' ⊆ grants db /\ user_fault e = Internal
    | Ok _ => exists t purged, u ∈ map um_id (wd_users db) /\
        grants db' = <[h := (u, Z.min (clamp_i64 t + clamp_i64 ttl) i64_max)]>
                       (unexpired (clamp_i64 purged) (grants db)) /\
        took (wd_world db) [ReadTime t; ReadTime purged; RanStatement None; RanStatement None] (wd_world db')
    end.
Proof.
  intros Hdb. unfold session_insert. destruct (now_took db) as (t & w & Hn & Ht).
  rewrite (bind_run _ _ _ _ _ Hn). apply (well_formed_world _ w) in Hdb.
  destruct (purge_cases (db <| wd_world := w |>) Hdb) as (r & purged & db1 & Hp & Hdb1 & Hu1 & Hg1).
  rewrite (attempt_run _ _ _ _ _ Hp). destruct r as [[]|e]; [|exists (Err e), db1; destruct Hg1 as [Hg1 ?];
    split_and!; try done; by rewrite Hg1].
  destruct Hg1 as [Hg1 Ht1]. change (grants (db <| wd_world := w |>)) with (grants db) in Hg1.
  match goal with |- context [insert_session ?make] =>
    destruct (insert_session_cases make db1) as (r & db2 & Hi & Hdb2 & Hu2 & Hr); [done..|] end.
  rewrite db_errors_run, Hi. exists (map_err UserDb r), db2.
  split_and!; [done..|by rewrite Hu2, Hu1|]. destruct r as [[]|text]; simpl in *.
  - destruct Hr as (_ & H2 & H3 & _ & Ht2). exists t, purged. rewrite <- Hg1, <- Hu1. split_and!; [done..|].
    apply (took_app _ [_] w _ _ Ht), (took_app _ [_; _] (wd_world db1) _ _ Ht1), Ht2.
  - rewrite Hr, Hg1. split; [apply filter_grants_subseteq|done].
Qed.

(** The calls of a sign-in once the account is known. *)
Definition issuing (random : list ascii) (t purged : Z) : list HostCall :=
  [DrewEntropy (Some random); ReadTime t; ReadTime purged; RanStatement None; RanStatement None].

Lemma issue_cases webui user db :
  well_formed db ->
  exists r db', issue_for_user webui user db = (r, db') /\ well_formed db' /\
    wd_users db' = wd_users db /\
    match r with
    | Err e => grants db' ⊆ grants db /\ e = Internal
    | Ok issued => is_user issued = user /\ is_token_hash issued = hash_token (is_token issued) /\
        exists random t purged, is_token issued = hex random /\
        took (wd_world db) (issuing random t purged) (wd_world db') /\
        grants db' = <[is_token_hash issued :=
            (ur_id user, Z.min (clamp_i64 t + clamp_i64 (wu_session_ttl_seconds webui)) i64_max)]>
          (unexpired (clamp_i64 purged) (grants db))
    end.
Proof.
  intros Hdb. unfold issue_for_user, mint_session_token, mbind, DB_bind.
  destruct (wh_entropy (wd_world db)) as [[random|] w] eqn:Hr; simpl;
    [|eexists _, _; split_and!; [done|by apply well_formed_world|done|by split; [exact (reflexivity (grants db))|]]].
  match goal with |- context [session_insert ?h ?u ?k ?t] =>
    destruct (session_insert_cases h u k t (db <| wd_world := w |>)) as (r & db1 & Hi & Hdb1 & Hu1 & Hm);
      [by apply well_formed_world|] end.
  assert (forall k : unit -> DB W (result WebuiFault IssuedSession),
    attempt (fault_of (session_insert (hash_token (hex random)) (ur_id user)
      (auth_source_str (ur_auth_source user)) (wu_session_ttl_seconds webui))) k (db <| wd_world := w |>) =
    match map_err user_fault r with Ok a => k a db1 | Err e => (Err e, db1) end) as Hk.
  { intros k. eapply attempt_run. by rewrite fault_of_run, Hi. }
  rewrite Hk. destruct r as [[]|e]; simpl; eexists _, _; split_and!; try done. simpl.
  destruct Hm as (t & purged & _ & H3 & Ht). split_and!; [done..|]. exists random, t, purged.
  split_and!; [done| |done].
  unfold issuing. econstructor; [exact Hr|exact Ht].
Qed.
Lemma sourced_record u : is_sourced u -> is_Some (user_record u).
Proof. intros [[Hs _]|[Hs _]]; unfold user_record; rewrite Hs; simpl; eauto. Qed.

(** A grant's account exists. *)
Lemma owned_user db s :
  well_formed db -> s ∈ wd_sessions db -> exists u, find_user (sm_user_id s) (wd_users db) = Some u /\ is_sourced u.
Proof.
  intros Hdb Hs. pose proof (wf_owned db Hdb) as Ho. pose proof (wf_sourced db Hdb) as Hsrc.
  rewrite Forall_forall in Ho. rewrite Forall_forall in Hsrc. specialize (Ho s Hs).
  apply list_elem_of_fmap in Ho as (v & Hv & Hin).
  destruct (find_user (sm_user_id s) (wd_users db)) as [u|] eqn:Hf.
  - exists u. split; [done|]. apply Hsrc. by apply find_user_spec in Hf as [? _].
  - exfalso. rewrite list_elem_of_In in Hin. by apply (List.find_none _ _ Hf v), Z.eqb_neq in Hin.
Qed.

Lemma live_session_cases h now db :
  well_formed db ->
  match live_session h now db with
  | Some (s, o) => s ∈ wd_sessions db /\ sm_token_hash s = h /\ now < sm_expires_at_unix s /\
      exists u, o = Some u /\ u ∈ wd_users db /\ um_id u = sm_user_id s /\ is_sourced u
  | None => forall s, s ∈ wd_sessions db -> sm_token_hash s = h -> sm_expires_at_unix s <= now
  end.
Proof.
  intros Hdb. unfold live_session. destruct (List.find _ _) as [s|] eqn:Hf; simpl.
  - apply find_some in Hf as [Hin%list_elem_of_In [Hh%bool_decide_eq_true Hn%Z.ltb_lt]%andb_true_iff].
    split_and!; [done..|]. destruct (owned_user db s Hdb Hin) as (u & Hu & Hs).
    pose proof (find_user_spec _ _ _ Hu) as [? ?]. eauto 6.
  - intros s Hs Hh. pose proof (List.find_none _ _ Hf s) as Hn. rewrite <- list_elem_of_In in Hn.
    specialize (Hn Hs). simpl in Hn. rewrite Hh, bool_decide_eq_true_2 in Hn by done. simpl in Hn. lia.
Qed.

(** The digest grants nothing at the reading [t]. *)
Definition expired_at (g : gmap string (Z * Z)) (h : string) (t : Z) : Prop :=
  forall uid e, g !! h = Some (uid, e) -> e <= clamp_i64 t.

(** The calls of looking digests up in vain, one reading each. *)
Definition missed (times : list Z) : list HostCall :=
  concat (map (fun t => [ReadTime t; RanStatement None]) times).

(** What a digest gives at the reading [t]. *)
Definition granted db (h : string) (t : Z) (found : SessionRecord) : Prop := exists u,
  grants db !! h = Some (um_id u, sr_expires_at_unix found) /\ clamp_i64 t < sr_expires_at_unix found /\
  u ∈ wd_users db /\ user_record u = Some (sr_user found).

Lemma session_resolve_cases h db :
  well_formed db ->
  exists r t db', session_resolve h db = (r, db') /\ well_formed db' /\ wd_users db' = wd_users db /\
    grants db' = grants db /\
    match r with
    | Err _ => exists text, took (wd_world db) [ReadTime t; RanStatement (Some text)] (wd_world db')
    | Ok (Some found) => granted db h t found /\
        exists touched, took (wd_world db) [ReadTime t; RanStatement None; RanStatement touched] (wd_world db')
    | Ok None => expired_at (grants db) h t /\ took (wd_world db) [ReadTime t; RanStatement None] (wd_world db')
    end.
Proof.
  intros Hdb. pose proof (well_formed_session_resolve h db Hdb) as Hwf. unfold session_resolve in *.
  destruct (now_took db) as (t & w & Hn & Ht). rewrite (bind_run _ _ _ _ _ Hn) in *.
  pose proof (well_formed_world _ w Hdb) as Hdb1.
  destruct (query_took UserDb (live_session h (clamp_i64 t)) (db <| wd_world := w |>)) as (fault & w1 & Ht1 & Hq); [done|].
  pose proof (took_app _ _ _ _ _ Ht Ht1) as Ht2. simpl in Ht2.
  rewrite (attempt_run _ _ _ _ _ Hq) in *. destruct fault as [text|].
  { eexists _, t, _. split_and!; try done. by exists text. }
  pose proof (live_session_cases h (clamp_i64 t) _ Hdb1) as Hl.
  destruct (live_session h (clamp_i64 t) _) as [[s o]|].
  - destruct Hl as (Hs & Hh & Hx & u & -> & Hu & Hid & Hsrc).
    destruct (sourced_record u Hsrc) as [user Huser]. unfold session_record in *. rewrite Huser in *. simpl in *.
    unfold mbind, DB_bind, update_sessions in *. match goal with |- context [sql ?run ?d] =>
      destruct (sql_took run d) as (touched & w2 & Ht3 & Hup) end. rewrite Hup in *.
    assert (granted db h t {| sr_user := user; sr_kind := sm_kind s; sr_expires_at_unix := sm_expires_at_unix s |}) as Hgr.
    { exists u. simpl. split_and!; try done. apply grants_lookup; [apply Hdb|]. exists s. by rewrite Hid. }
    destruct touched as [text|]; (eexists _, t, _; split; [reflexivity|]; split; [exact Hwf|]; split; [done|];
      split; [|split; [exact Hgr|eexists; by apply (took_app _ [_; _] w1 _ _ Ht2)]]); [done|].
    unfold grants. simpl. apply grants_touch. intros v. by destruct (_ =? _).
  - eexists _, t, _. split_and!; try done. split; [|done]. intros uid e Hg.
    apply grants_lookup in Hg as (s & Hs & Hh & [= <- <-]); [|apply Hdb]. by apply Hl.
Qed.

Lemma resolve_hashes_cases hashes db :
  well_formed db ->
  exists r db', resolve_hashes hashes db = (r, db') /\ well_formed db' /\ wd_users db' = wd_users db /\
    grants db' = grants db /\
    exists before after times, hashes = before ++ after /\ Forall2 (expired_at (grants db)) before times /\
    match r, after with
    | Some (found, h), h' :: _ => h = h' /\ exists t touched, granted db h t found /\
        took (wd_world db) (missed times ++ [ReadTime t; RanStatement None; RanStatement touched]) (wd_world db')
    | None, [] => took (wd_world db) (missed times) (wd_world db')
    | None, _ :: _ => exists t text,
        took (wd_world db) (missed times ++ [ReadTime t; RanStatement (Some text)]) (wd_world db')
    | Some _, [] => False
    end.
Proof.
  revert db. induction hashes as [|h hashes IH]; intros db Hdb; simpl.
  - eexists None, db. split_and!; try done. exists [], [], []. split_and!; [done|constructor..].
  - destruct (session_resolve_cases h db Hdb) as (r & t & db1 & Hr & Hdb1 & Hu1 & Hg1 & Hm).
    rewrite (bind_run _ _ _ _ _ Hr). destruct r as [[found|]|e].
    + eexists _, _. split_and!; try done. exists [], (h :: hashes), []. split_and!; [done|constructor|done|].
      destruct Hm as [Hf [touched Ht]]. by exists t, touched.
    + destruct Hm as [Hx Ht]. destruct (IH db1 Hdb1) as (r & db2 & -> & Hdb2 & Hu2 & Hg2 & before & after & times & -> & Hf & Hm2).
      rewrite Hg1 in Hf. exists r, db2. split_and!; [done|done|congruence|congruence|].
      exists (h :: before), after, (t :: times). split_and!; [done|by constructor|].
      assert (forall found k t', granted db1 k t' found -> granted db k t' found) as Hgr.
      { unfold granted. by rewrite Hg1, Hu1. }
      assert (forall calls w, took (wd_world db1) calls w -> took (wd_world db) (missed [t] ++ calls) w) as Hcat.
      { intros calls w. by apply took_app. }
      destruct r as [[found k]|], after as [|h' after]; try done; [|exact (Hcat _ _ Hm2)|].
      * destruct Hm2 as [-> (t' & touched & Hfound & Ht')]. split; [done|]. exists t', touched.
        split; [by apply Hgr|]. exact (Hcat _ _ Ht').
      * destruct Hm2 as (t' & text & Ht'). exists t', text. exact (Hcat _ _ Ht').
    + eexists _, _. split_and!; try done. exists [], (h :: hashes), []. split_and!; [done|constructor|].
      destruct Hm as [text Ht]. by exists t, text.
Qed.
End effects.

Section revocation.
Context {W : Type} {WH : WebHost W}.
Implicit Types db : WebDb W.

Lemma filter_true_eq (P Q : string * (Z * Z) -> Prop) `{!forall x, Decision (P x)}
    `{!forall x, Decision (Q x)} (g : gmap string (Z * Z)) :
  (forall x, P x <-> Q x) -> filter P g = filter Q g.
Proof. intros Hpq. apply map_filter_ext. intros i x _. apply Hpq. Qed.

Lemma delete_by_hash_cases h db :
  well_formed db ->
  exists r db', delete_by_hash h db = (r, db') /\ well_formed db' /\ wd_users db' = wd_users db /\
    grants db' = match r with Ok _ => filter (fun x => x.1 <> h) (grants db) | Err _ => grants db end.
Proof.
  intros Hdb. unfold delete_by_hash.
  pose proof (holds_db_errors well_formed UserDb _ (well_formed_delete_sessions
    (fun s => bool_decide (sm_token_hash s = h))) db Hdb) as Hwf.
  destruct (delete_sessions_cases (fun s => bool_decide (sm_token_hash s = h)) db) as (r & w & Hd).
  rewrite Hd in *. exists r. eexists. split_and!; [done..|]. unfold grants. simpl. destruct r; [|done].
  rewrite (grants_delete _ (fun x => bool_decide (x.1 = h))); [|apply Hdb|done].
  apply filter_true_eq. intros x. by rewrite bool_decide_eq_false.
Qed.

Lemma logout_cases hashes db :
  well_formed db ->
  exists r db', logout hashes db = (r, db') /\ well_formed db' /\ wd_users db' = wd_users db /\
    grants db' ⊆ grants db /\
    (r = Ok tt -> grants db' = filter (fun x => x.1 ∉ hashes) (grants db)).
Proof.
  revert db. induction hashes as [|h hashes IH]; intros db Hdb; simpl.
  - exists (Ok tt), db. split_and!; try done. intros _. symmetry. apply map_filter_id.
    intros i x _. apply not_elem_of_nil.
  - destruct (delete_by_hash_cases h db Hdb) as (r & db1 & Hr & Hdb1 & Hu1 & Hg1).
    rewrite (attempt_run _ _ _ (map_err user_fault r) db1) by (by rewrite fault_of_run, Hr).
    destruct r as [u|e]; simpl.
    + destruct (IH db1 Hdb1) as (r & db2 & -> & Hdb2 & Hu2 & Hs2 & Hg2). exists r, db2.
      split_and!; [done..|by rewrite Hu2| |].
      * etrans; [done|]. rewrite Hg1. apply map_filter_subseteq.
      * intros Hr'. rewrite (Hg2 Hr'), Hg1, map_filter_filter. apply filter_true_eq. intros x.
        destruct x. rewrite not_elem_of_cons. naive_solver.
    + exists (Err (user_fault e)), db1. split_and!; [done..|by rewrite Hg1|done].
Qed.

Lemma user_delete_cases actor id db :
  well_formed db ->
  exists r db', user_delete actor id db = (r, db') /\ well_formed db' /\
    match r with
    | Ok _ => ur_id (sr_user actor) <> id /\ id ∈ map um_id (wd_users db) /\
        wd_users db' = delete_where (fun u => um_id u =? id) (wd_users db) /\
        grants db' = filter (fun x => x.2.1 <> id) (grants db)
    | Err _ => wd_users db' = wd_users db /\ grants db' = grants db
    end.
Proof.
  intros Hdb. unfold user_delete. destruct (ur_id (sr_user actor) =? id) eqn:Hself.
  { by eexists (Err Forbidden), db. }
  rewrite fault_of_run. unfold users_delete.
  pose proof (well_formed_delete_user id db Hdb) as Hwf. unfold delete_user in *.
  match goal with |- context [attempt (db_errors ?f ?c) ?k db] =>
    rewrite (attempt_run (db_errors f c) k db (map_err f (c db).1) (c db).2) by apply db_errors_run end.
  match goal with |- context [sql ?run db] => destruct (sql_cases run db) as [(text & w & Hr)|(w & Hr)] end;
    rewrite Hr in *; simpl in *.
  { by eexists (Err _), _. }
  unfold rows_deleted. case_match eqn:Haff.
  - apply Z.eqb_eq in Haff. exists (Err (user_fault UserNotFound)). eexists.
    split; [done|]. split; [done|].
    assert (forall u, u ∈ wd_users db -> (um_id u =? id) = false) as Hnone.
    { intros u Hu. apply not_true_is_false. intros Hid.
      assert (Nat.lt (length (delete_where (fun u => um_id u =? id) (wd_users db)))
        (length (wd_users db))); [|lia].
      apply list_elem_of_split in Hu as (l1 & l2 & ->). unfold delete_where.
      rewrite List.filter_app, !length_app. simpl. rewrite Hid. simpl.
      pose proof (List.filter_length_le (fun u => negb (um_id u =? id)) l1).
      pose proof (List.filter_length_le (fun u => negb (um_id u =? id)) l2). lia. }
    simpl. split.
    + apply filter_bool_all. intros u Hu. by rewrite Hnone.
    + unfold grants. simpl. f_equal. apply filter_bool_all. intros s Hs.
      destruct (owned_user db s Hdb Hs) as (u & [Hu Hid]%find_user_spec & _).
      apply Hnone in Hu. rewrite Hid in Hu. by rewrite Hu.
  - exists (Ok tt). eexists. split; [done|]. split; [done|]. simpl. split_and!; [lia| |done|].
    + apply Z.eqb_neq in Haff. destruct (decide (id ∈ map um_id (wd_users db))) as [|Hn]; [done|].
      exfalso. apply Haff. unfold delete_where. rewrite filter_bool_all; [lia|].
      intros u Hu. apply negb_true_iff, Z.eqb_neq. intros Heq. apply Hn. rewrite <- Heq.
      by apply list_elem_of_fmap_2.
    + unfold grants. simpl. rewrite (grants_delete _ (fun x => x.2.1 =? id)); [|apply Hdb|done].
      apply filter_true_eq. intros x. by rewrite Z.eqb_neq.
Qed.
(** The account's credential changes and nothing else of the table. *)
Definition repassworded (id : Z) (hash : string) (users users' : list UserModel) : Prop :=
  exists now, users' = map (fun u => if um_id u =? id
    then u <| um_password_hash := Some hash |> <| um_updated_at_unix := now |> else u) users.

Lemma set_password_cases id hash db :
  well_formed db ->
  exists r db', set_password_hash id hash db = (r, db') /\ well_formed db' /\
    wd_sessions db' = wd_sessions db /\
    match r with
    | Ok _ => (exists u, u ∈ wd_users db /\ um_id u = id /\ um_auth_source u = auth_source_str Authdb) /\
        repassworded id hash (wd_users db) (wd_users db')
    | Err _ => wd_users db' = wd_users db
    end.
Proof.
  intros Hdb. pose proof (well_formed_set_password id hash db Hdb) as Hwf. unfold set_password_hash in *.
  destruct (query_cases UserDb (fun db => find_user id (wd_users db)) db) as (r & w & Hq & Hr); [done|].
  rewrite (attempt_run _ _ _ _ _ Hq) in *. destruct r as [[u|]|e];
    [|by eexists (Err UserNotFound), _|by eexists (Err e), _].
  destruct Hr as [[? ?]|[= Hu]]; [done|]. symmetry in Hu. apply find_user_spec in Hu as [Hin Hid].
  destruct (bool_decide (um_auth_source u = _)) eqn:Hsrc; [|by eexists (Err ProviderManaged), _].
  apply bool_decide_eq_true in Hsrc. destruct (now_cases (db <| wd_world := w |>)) as (now & w' & Hn).
  simpl in Hn, Hwf |- *. rewrite (bind_run _ _ _ _ _ Hn), db_errors_run in *. unfold update_users in *.
  match goal with |- context [sql ?run ?d] => destruct (sql_cases run d) as [(text & w2 & He)|(w2 & He)] end;
    rewrite He in *; [by eexists (Err _), _|].
  exists (Ok tt). eexists. split; [done|]. split; [done|]. split; [done|]. simpl. split; [eauto|].
  exists now. by rewrite Hid.
Qed.

Lemma user_set_password_cases actor h id password db :
  well_formed db ->
  exists r db', user_set_password actor h id password db = (r, db') /\ well_formed db' /\
    grants db' ⊆ grants db /\
    (r = Ok tt -> exists hash w w', wh_hash_password password w = (Some hash, w') /\
       repassworded id hash (wd_users db) (wd_users db') /\
       grants db' = filter (fun x => x.2.1 <> id \/ (ur_id (sr_user actor) = id /\ x.1 = h)) (grants db)).
Proof.
  intros Hdb. unfold user_set_password, hash_password, mbind at 1, DB_bind at 1.
  destruct (wh_hash_password password (wd_world db)) as [[hash|] w] eqn:Hh;
    [|exists (Err Internal), (db <| wd_world := w |>);
      split_and!; [done|by apply well_formed_world|exact (reflexivity (grants db))|done]].
  destruct (set_password_cases id hash (db <| wd_world := w |>)) as (r & db1 & Hs & Hdb1 & Hss & Hm);
    [by apply well_formed_world|].
  rewrite (attempt_run _ _ _ (map_err user_fault r) db1) by (by rewrite fault_of_run, Hs).
  assert (grants db1 = grants db) as Hg1 by (unfold grants; by rewrite Hss).
  destruct r as [u|e]; [|exists (Err (user_fault e)), db1; split_and!; [done..|by rewrite Hg1|done]].
  simpl. rewrite fault_of_run. unfold delete_for_user.
  set (keep := if ur_id (sr_user actor) =? id then Some h else None).
  set (p := fun s => (sm_user_id s =? id) && _).
  pose proof (holds_db_errors well_formed UserDb _ (well_formed_delete_sessions p) db1 Hdb1) as Hwf.
  destruct (delete_sessions_cases p db1) as (r & w2 & Hd). rewrite Hd in *. simpl.
  assert (grants_of (delete_where p (wd_sessions db1)) =
    filter (fun x => x.2.1 <> id \/ (ur_id (sr_user actor) = id /\ x.1 = h)) (grants db1)) as Hdel.
  { rewrite (grants_delete p (fun x => (x.2.1 =? id) &&
      match keep with Some k => negb (bool_decide (x.1 = k)) | None => true end)); [|apply Hdb1|done].
    apply filter_true_eq. intros x. unfold keep. rewrite andb_false_iff, Z.eqb_neq.
    destruct (Z.eqb_spec (ur_id (sr_user actor)) id); [|naive_solver].
    rewrite negb_false_iff, bool_decide_eq_true. naive_solver. }
  exists (map_err user_fault r). eexists. split; [done|]. split; [done|]. unfold grants. simpl.
  destruct r as [u2|e]; simpl.
  - rewrite Hdel, Hg1. split; [apply map_filter_subseteq|]. intros _. exists hash, (wd_world db), w.
    split_and!; [done|apply Hm|done].
  - split; [|done]. by rewrite Hss.
Qed.
End revocation.

(** ** Signing in *)

Section signing_in.
Context {W : Type} {WH : WebHost W}.
Implicit Types db : WebDb W.

(** A refusal that read the tables and left them. *)
Ltac refused :=
  eexists (Err _), _; split; [reflexivity|]; split; [by apply well_formed_world|];
  split; [done|]; split; [exact (reflexivity (grants _))|].

(** The account of that name verifies the password. *)
Definition knows db (username password : string) (u : UserModel) : Prop :=
  u ∈ wd_users db /\ um_username u = username /\
  exists phc, um_password_hash u = Some phc /\ wh_verify password phc = true.

Lemma login_cases webui username password db :
  well_formed db ->
  exists r db', login webui username password db = (r, db') /\ well_formed db' /\
    wd_users db' = wd_users db /\
    match r with
    | Err e => grants db' ⊆ grants db /\
        (e = Conflict "password login is disabled" /\ wu_authdb_enabled webui = false \/
         e = Unauthenticated /\ (forall u, ~ knows db username password u) \/ e = Internal)
    | Ok issued => wu_authdb_enabled webui = true /\
        (exists u, knows db username password u /\ user_record u = Some (is_user issued)) /\
        is_token_hash issued = hash_token (is_token issued) /\
        exists random t purged, is_token issued = hex random /\
        took (wd_world db) (RanStatement None :: issuing random t purged) (wd_world db') /\
        grants db' = <[is_token_hash issued := (ur_id (is_user issued),
            Z.min (clamp_i64 t + clamp_i64 (wu_session_ttl_seconds webui)) i64_max)]>
          (unexpired (clamp_i64 purged) (grants db))
    end.
Proof.
  intros Hdb. unfold login.
  destruct (wu_authdb_enabled webui) eqn:Hen; [|by eexists (Err _), db; split_and!; auto]. simpl.
  unfold find_credentials.
  destruct (query_took UserDb (fun db =>
    List.find (fun u => bool_decide (um_username u = username)) (wd_users db)) db)
    as (fault & w & Ht & Hq); [done|].
  match goal with |- context [attempt (fault_of ?c) ?k db] =>
    rewrite (attempt_run (fault_of c) k db (map_err user_fault (c db).1) (c db).2) by apply fault_of_run end.
  rewrite (attempt_run _ _ _ _ _ Hq).
  destruct fault as [text|]; [refused; auto|]. simpl.
  destruct (List.find _ _) as [u|] eqn:Hf; simpl.
  2: { refused. right. left. split; [done|]. intros v (Hin%list_elem_of_In & Hname & _).
       pose proof (List.find_none _ _ Hf v Hin) as Hno. by apply bool_decide_eq_false in Hno. }
  apply find_some in Hf as [Hin%list_elem_of_In Hname%bool_decide_eq_true].
  pose proof (wf_sourced db Hdb) as Hsrc. rewrite Forall_forall in Hsrc.
  destruct (sourced_record u (Hsrc u Hin)) as [user Huser]. rewrite Huser. simpl.
  destruct (verify_password_or_dummy password (um_password_hash u)) eqn:Hv; simpl.
  2: { refused. right. left. split; [done|]. intros v (Hin' & Hname' & phc & Hp & Hok).
       assert (v = u) as -> by (apply (NoDup_map_inj um_username (wd_users db)); [apply Hdb|congruence..]).
       rewrite Hp in Hv. simpl in Hv. congruence. }
  destruct (issue_cases webui user (db <| wd_world := w |>)) as (r & db' & Hi & H1 & H2 & Hm);
    [by apply well_formed_world|].
  rewrite Hi. exists r, db'. split_and!; [done..|].
  destruct r as [issued|e]; [|by destruct Hm as [? ->]; auto].
  destruct Hm as (-> & H3 & random & t & purged & H4 & Ht2 & H5).
  unfold verify_password_or_dummy in Hv. destruct (um_password_hash u) as [phc|] eqn:Hp; [|done].
  split_and!; [done| |done|].
  - exists u. split; [|done]. split_and!; [done..|]. by exists phc.
  - exists random, t, purged. split_and!; [done| |done]. exact (took_app _ [_] _ _ _ Ht Ht2).
Qed.

(** ** Provisioning *)

(** The database answers, and its driver's texts are recognised. *)
Definition answering : Prop :=
  (forall w, (wh_fault w).1 = None) /\ (forall c, is_unique_violation (wh_unique_text c) = true).

Lemma sql_answers {A} (run : DB W (result string A)) db :
  answering -> exists w, sql run db = run (db <| wd_world := w |>).
Proof. intros [H _]. unfold sql. specialize (H (wd_world db)). destruct (wh_fault _) as [[]]; [done|eauto]. Qed.

Lemma find_subject_answers subject db :
  answering -> exists w, find_subject subject db =
    (Ok (List.find (fun u => bool_decide (um_oidc_subject u = Some subject)) (wd_users db)),
     db <| wd_world := w |>).
Proof.
  intros Ha. unfold find_subject. rewrite db_errors_run. unfold query.
  destruct (sql_answers (fun db => (Ok (List.find (fun u => bool_decide (um_oidc_subject u = Some subject))
    (wd_users db)), db)) db Ha) as [w ->]. by exists w.
Qed.

Definition is_taken (users : list UserModel) (name : string) : bool :=
  existsb (fun v => bool_decide (um_username v = name)) users.

(** No account has the subject. *)
Definition is_new_subject (subject : string) (users : list UserModel) : Prop :=
  List.find (fun u => bool_decide (um_oidc_subject u = Some subject)) users = None.

Lemma new_subject_existsb subject users :
  is_new_subject subject users ->
  existsb (fun v => bool_decide (um_oidc_subject v = Some subject)) users = false.
Proof.
  intros Hn. apply not_true_is_false. intros (u & Hin & Hu)%existsb_exists.
  by rewrite (List.find_none _ _ Hn u Hin) in Hu.
Qed.

Lemma provision_attempts_answers now subject preferred attempts db :
  answering -> is_new_subject subject (wd_users db) ->
  exists db', (provision_attempts now subject preferred attempts db).2 = db' /\
  match List.find (fun i => negb (is_taken (wd_users db) (attempt_username preferred i))) attempts with
  | Some i =>
      let u := oidc_user now subject (attempt_username preferred i) (wd_next_user db) in
      (provision_attempts now subject preferred attempts db).1 = ok_or (user_record u) UserNotFound /\
      wd_users db' = wd_users db ++ [u] /\ wd_sessions db' = wd_sessions db
  | None => (provision_attempts now subject preferred attempts db).1 = Err UsernameTaken /\
      wd_users db' = wd_users db /\ wd_sessions db' = wd_sessions db
  end.
Proof.
  intros Ha. revert db. induction attempts as [|i attempts IH]; intros db Hn; simpl; [by exists db|].
  unfold insert_user, mbind, DB_bind. match goal with |- context [sql ?run db] =>
    destruct (sql_answers run db Ha) as [w ->] end. simpl.
  unfold is_taken at 1. destruct (existsb (fun v => bool_decide (um_username v = _)) (wd_users db)) eqn:Ht; simpl.
  - rewrite (proj2 Ha). destruct (find_subject_answers subject (db <| wd_world := w |>) Ha) as [w1 Hf].
    rewrite (attempt_run _ _ _ _ _ Hf). simpl. rewrite Hn.
    pose (db1 := db <| wd_world := w1 |>). exact (IH db1 Hn).
  - rewrite (new_subject_existsb _ _ Hn). simpl. eexists. split_and!; done.
Qed.
End signing_in.

(** ** The cookie comes back *)

Section cookie.
Context {W : Type} {WH : WebHost W}.

Lemma hex_hexdigits l : all_bytes is_ascii_hexdigit (hex l) = true.
Proof.
  induction l as [|c l IH]; [done|]. cbn [hex foldr].
  change (foldr (fun c s => hex_padded 2 (byte_val c) +:+ s) "" l) with (hex l).
  by rewrite all_bytes_app, hex_padded_hex, IH.
Qed.

Lemma length_hex l : String.length (hex l) = (2 * length l)%nat.
Proof.
  induction l as [|c l IH]; [done|]. cbn [hex foldr].
  change (foldr (fun c s => hex_padded 2 (byte_val c) +:+ s) "" l) with (hex l).
  rewrite length_string_app, length_hex_padded, IH. simpl. lia.
Qed.

Lemma split_on_absent sep l : sep ∉ l -> split_on sep l = [l].
Proof.
  induction l as [|c l IH]; [done|]. rewrite not_elem_of_cons. intros [Hc Hl]. simpl.
  rewrite bool_decide_eq_false_2 by done. by rewrite IH.
Qed.

Lemma split_on_cons sep l k : sep ∉ l -> split_on sep (l ++ sep :: k) = l :: split_on sep k.
Proof.
  induction l as [|c l IH]; simpl; [by rewrite bool_decide_eq_true_2|].
  rewrite not_elem_of_cons. intros [Hc Hl]. rewrite bool_decide_eq_false_2 by done. by rewrite IH.
Qed.

Lemma trim_start_solid c l : is_blank c = false -> trim_start (c :: l) = c :: l.
Proof. intros H. simpl. by rewrite H. Qed.

Lemma trim_header_solid c l d : is_blank c = false -> is_blank d = false ->
  trim_header (c :: l ++ [d]) = c :: l ++ [d].
Proof.
  intros Hc Hd. unfold trim_header. rewrite trim_start_solid by done.
  change (c :: l ++ [d]) with ((c :: l) ++ [d]). rewrite rev_app_distr. simpl rev at 2. simpl app at 1.
  rewrite trim_start_solid by done. simpl. by rewrite rev_app_distr, rev_involutive.
Qed.

(** The pair of a hexadecimal token is read back as its digest. *)
Lemma cookie_pair_hash random :
  random <> [] ->
  cookie_token_hash (bytes (SESSION_COOKIE_NAME +:+ "=" +:+ hex random)) = Some (hash_token (hex random)).
Proof.
  intros Hr. unfold cookie_token_hash.
  destruct (@exists_last _ (bytes (hex random))) as (l & d & Hl).
  { intros Hn. apply (f_equal length) in Hn. rewrite length_bytes, length_hex in Hn.
    destruct random; simpl in Hn; [done|lia]. }
  assert (is_blank d = false) as Hd.
  { assert (is_ascii_hexdigit d = true) as Hx.
    { apply (all_bytes_elem _ (hex random)); [apply hex_hexdigits|]. rewrite Hl. set_solver. }
    destruct d as [[] [] [] [] [] [] [] []]; done. }
  assert (bytes (SESSION_COOKIE_NAME +:+ "=" +:+ hex random) =
    "f"%char :: (bytes "lanforge_session=" ++ l) ++ [d]) as Hb.
  { rewrite !bytes_app, Hl. done. }
  rewrite Hb, trim_header_solid by done. rewrite <- Hb, text_bytes.
  change ("=" +:+ hex random) with (String "=" (hex random)).
  rewrite split_once_app by (apply (bool_decide_unpack _); by vm_compute).
  rewrite bool_decide_eq_true_2 by done.
  assert (is_empty (hex random) = false) as ->; [|done].
  unfold is_empty, len. rewrite length_hex. destruct random; [done|simpl]. lia.
Qed.

Lemma omap_single {A B} (f : A -> option B) x : omap f [x] = from_option (fun y => [y]) [] (f x).
Proof. simpl. by destruct (f x). Qed.

Lemma cookie_roundtrip random :
  random <> [] ->
  cookie_token_hashes (SESSION_COOKIE_NAME +:+ "=" +:+ hex random) = [hash_token (hex random)].
Proof.
  intros Hr. unfold cookie_token_hashes. rewrite split_on_absent.
  - by rewrite omap_single, cookie_pair_hash.
  - rewrite !bytes_app. intros [Hin|[Hin|Hin]%elem_of_app]%elem_of_app.
    + apply (bool_decide_eq_true_2 _) in Hin. by vm_compute in Hin.
    + apply (bool_decide_eq_true_2 _) in Hin. by vm_compute in Hin.
    + apply (all_bytes_elem _ _ _ (hex_hexdigits random)) in Hin. discriminate Hin.
Qed.
End cookie.

(** ** Properties *)

Section properties.
Context {W : Type} {WH : WebHost W}.
Implicit Types db : WebDb W.

(** C19: in every state the web interface's requests reach, whatever statements
    fail, no two accounts share a name or a provider subject, a password
    account has a credential and a provider's never has one, no two sessions
    share a digest, and every session belongs to an account that exists. *)
Theorem web_tables_sound db :
  web_reachable db ->
  NoDup (map um_username (wd_users db)) /\ NoDup (omap um_oidc_subject (wd_users db)) /\
  (forall u, u ∈ wd_users db -> is_sourced u) /\
  NoDup (map sm_token_hash (wd_sessions db)) /\
  (forall s, s ∈ wd_sessions db -> exists u, u ∈ wd_users db /\ um_id u = sm_user_id s).
Proof.
  intros Hdb%reachable_well_formed. split_and!; [apply Hdb..| |apply Hdb|].
  - apply Forall_forall, Hdb.
  - intros s Hs. destruct (owned_user db s Hdb Hs) as (u & [Hu Hid]%find_user_spec & _). eauto.
Qed.

(** C16: a password login signs in only who knows the stored password of an
    account that has one, which a provider's account does not, and only while
    password login is enabled.  The calls it made are listed in order: it drew
    the token from the system's randomness and read the clock twice.  It grants
    the account until the first reading plus the configured time (at most the
    largest date), to a token the browser's cookie brings back and the table
    holds only the digest of; the other grants that stay are exactly those
    beyond the second reading.  A refused login grants nothing, and says that
    the password is wrong only when no account of that name verifies it. *)
Theorem login_spec webui username password db :
  web_reachable db ->
  (forall w random w', wh_entropy w = (Some random, w') -> length random = 32%nat) ->
  let '(answer, db') := login webui username password db in
  wd_users db' = wd_users db /\
  match answer with
  | Err e => grants db' ⊆ grants db /\
      (e = Conflict "password login is disabled" /\ wu_authdb_enabled webui = false \/
       e = Unauthenticated /\ (forall u, ~ knows db username password u) \/ e = Internal)
  | Ok issued =>
      wu_authdb_enabled webui = true /\
      (exists u, knows db username password u /\ um_auth_source u = auth_source_str Authdb /\
         user_record u = Some (is_user issued)) /\
      cookie_token_hashes (SESSION_COOKIE_NAME +:+ "=" +:+ is_token issued) = [is_token_hash issued] /\
      exists random t purged,
        took (wd_world db)
          [RanStatement None; DrewEntropy (Some random); ReadTime t; ReadTime purged;
           RanStatement None; RanStatement None] (wd_world db') /\
        is_token issued = hex random /\ is_token_hash issued = hash_token (hex random) /\
        grants db' =
          <[is_token_hash issued := (ur_id (is_user issued),
              Z.min (clamp_i64 t + clamp_i64 (wu_session_ttl_seconds webui)) i64_max)]>
            (filter (fun g => clamp_i64 purged < g.2.2) (grants db))
  end.
Proof.
  intros Hdb%reachable_well_formed Hlen.
  destruct (login_cases webui username password db Hdb) as (r & db' & -> & _ & Hu & Hm).
  split; [done|]. destruct r as [issued|e]; [|done].
  destruct Hm as (Hen & (u & Hk & Hrec) & Hh & random & t & purged & Htok & Ht & Hg).
  assert (length random = 32%nat) as Hrandom.
  { inversion_clear Ht as [| |? ? ? ? ? _ Ht'|]. inversion_clear Ht' as [| | |? ? ? ? ? He]. by eapply Hlen. }
  split_and!; [done| | |].
  - exists u. split_and!; try done. pose proof (wf_sourced db Hdb) as Hsrc. rewrite Forall_forall in Hsrc.
    destruct Hk as (Hin & _ & phc & Hp & _). destruct (Hsrc u Hin) as [[? _]|(_ & Hn & _)]; [done|].
    by rewrite Hn in Hp.
  - rewrite Hh, Htok. apply cookie_roundtrip. by intros ->.
  - exists random, t, purged. split_and!; [done..|by rewrite Hh, Htok|]. rewrite Hg. f_equal.
    unfold unexpired. apply map_filter_ext. intros k x _. simpl. by rewrite Z.leb_gt.
Qed.

(** C17: a request is identified only by a cookie value whose digest a session
    holds that has not expired, as the account that session belongs to, and
    the answer says which session it is.  Digests are looked up in the order
    presented, each against a reading of the clock taken for it, until one is
    granted at its reading; the digests before it had all expired or were
    never granted.  A request is not identified only when every presented
    digest was looked up so, or a statement failed.  Reading an identity
    changes no grant and no account. *)
Theorem identity_spec header db :
  web_reachable db ->
  let '(identity, db') := resolve_identity header db in
  wd_users db' = wd_users db /\ grants db' = grants db /\
  exists before after times,
    from_option cookie_token_hashes [] header = before ++ after /\
    Forall2 (expired_at (grants db)) before times /\
    match identity, after with
    | Some (found, h), h' :: _ => h = h' /\ exists t touched u,
        took (wd_world db) (missed times ++ [ReadTime t; RanStatement None; RanStatement touched]) (wd_world db') /\
        grants db !! h = Some (um_id u, sr_expires_at_unix found) /\
        clamp_i64 t < sr_expires_at_unix found /\
        u ∈ wd_users db /\ user_record u = Some (sr_user found)
    | None, [] => took (wd_world db) (missed times) (wd_world db')
    | None, _ :: _ => exists t text,
        took (wd_world db) (missed times ++ [ReadTime t; RanStatement (Some text)]) (wd_world db')
    | Some _, [] => False
    end.
Proof.
  intros Hdb%reachable_well_formed. unfold resolve_identity. destruct header as [text|]; simpl.
  - destruct (resolve_hashes_cases (cookie_token_hashes text) db Hdb)
      as (r & db' & -> & _ & Hu & Hg & before & after & times & Heq & Hx & Hm).
    split_and!; [done..|]. exists before, after, times. split_and!; [done..|].
    destruct r as [[found h]|], after as [|h' after]; try done.
    destruct Hm as [-> (t & touched & (u & Hgr & Hlt & Hin & Hrec) & Ht)]. split; [done|]. by exists t, touched, u.
  - split_and!; [done..|]. exists [], [], []. split_and!; [done|constructor..].
Qed.

(** C18: revoking is immediate and exact.  A logout ends the sessions it names
    and no other; deleting an account, never one's own, ends all of its
    sessions; resetting a password replaces the credential and ends every
    session of the account but the acting one.  A request that fails grants
    nothing. *)
Theorem sessions_revoked db :
  web_reachable db ->
  (forall hashes, let '(r, db') := logout hashes db in
     grants db' ⊆ grants db /\ wd_users db' = wd_users db /\
     (r = Ok tt -> grants db' = filter (fun x => x.1 ∉ hashes) (grants db))) /\
  (forall actor id, let '(r, db') := user_delete actor id db in
     match r with
     | Ok _ => ur_id (sr_user actor) <> id /\ id ∈ map um_id (wd_users db) /\
         wd_users db' = delete_where (fun u => um_id u =? id) (wd_users db) /\
         grants db' = filter (fun x => x.2.1 <> id) (grants db)
     | Err _ => wd_users db' = wd_users db /\ grants db' = grants db
     end) /\
  (forall actor h id password, let '(r, db') := user_set_password actor h id password db in
     grants db' ⊆ grants db /\
     (r = Ok tt -> exists hash w w', wh_hash_password password w = (Some hash, w') /\
        repassworded id hash (wd_users db) (wd_users db') /\
        grants db' = filter (fun x => x.2.1 <> id \/ (ur_id (sr_user actor) = id /\ x.1 = h)) (grants db))).
Proof.
  intros Hdb%reachable_well_formed. split_and!.
  - intros hashes. by destruct (logout_cases hashes db Hdb) as (r & db' & -> & _ & ? & ? & ?).
  - intros actor id. by destruct (user_delete_cases actor id db Hdb) as (r & db' & -> & _ & ?).
  - intros actor h id password.
    by destruct (user_set_password_cases actor h id password db Hdb) as (r & db' & -> & _ & ? & ?).
Qed.
Lemma provision_known subject preferred u db :
  answering -> List.find (fun u => bool_decide (um_oidc_subject u = Some subject)) (wd_users db) = Some u ->
  exists w, provision_oidc_user subject preferred db = (ok_or (user_record u) UserNotFound, db <| wd_world := w |>).
Proof.
  intros Ha Hf. unfold provision_oidc_user. destruct (find_subject_answers subject db Ha) as [w Hq].
  rewrite (attempt_run _ _ _ _ _ Hq), Hf. by exists w.
Qed.

Lemma provision_new subject preferred db :
  answering -> is_new_subject subject (wd_users db) ->
  exists db0 now, is_new_subject subject (wd_users db0) /\
    wd_users db0 = wd_users db /\ wd_sessions db0 = wd_sessions db /\ wd_next_user db0 = wd_next_user db /\
    provision_oidc_user subject preferred db =
      provision_attempts now subject preferred (map Z.of_nat (seq 0 10)) db0.
Proof.
  intros Ha Hf. unfold provision_oidc_user. destruct (find_subject_answers subject db Ha) as [w Hq].
  rewrite (attempt_run _ _ _ _ _ Hq), Hf. destruct (now_cases (db <| wd_world := w |>)) as (now & w' & Hn).
  rewrite (bind_run _ _ _ _ _ Hn). by exists (db <| wd_world := w |> <| wd_world := w' |>), now.
Qed.

Lemma find_snoc {A} (p : A -> bool) l x : List.find p l = None -> p x = true -> List.find p (l ++ [x]) = Some x.
Proof.
  induction l as [|y l IH]; simpl; intros Hn Hx; [by rewrite Hx|]. destruct (p y); [done|]. by apply IH.
Qed.

(** C20: with a database that answers, the account behind a provider's subject
    is found, or made under the first of ten names that is free, without a
    password; only when all ten are taken is the login refused.  Signing in
    again is the same account, whatever name the provider then prefers. *)
Theorem provision_oidc_spec subject preferred db :
  answering -> web_reachable db ->
  let '(answer, db') := provision_oidc_user subject preferred db in
  wd_sessions db' = wd_sessions db /\
  match List.find (fun u => bool_decide (um_oidc_subject u = Some subject)) (wd_users db) with
  | Some u => wd_users db' = wd_users db /\
      exists user, user_record u = Some user /\ answer = Ok user
  | None =>
      match List.find (fun i => negb (is_taken (wd_users db) (attempt_username preferred i)))
              (map Z.of_nat (seq 0 10)) with
      | Some i => exists u user, wd_users db' = wd_users db ++ [u] /\
          um_username u = attempt_username preferred i /\ um_oidc_subject u = Some subject /\
          um_password_hash u = None /\ user_record u = Some user /\ answer = Ok user
      | None => wd_users db' = wd_users db /\ answer = Err UsernameTaken
      end
  end /\
  (forall user preferred', answer = Ok user -> (provision_oidc_user subject preferred' db').1 = Ok user).
Proof.
  intros Ha Hdb%reachable_well_formed. pose proof (wf_sourced db Hdb) as Hsrc. rewrite Forall_forall in Hsrc.
  destruct (List.find _ (wd_users db)) as [u|] eqn:Hf.
  - assert (is_sourced u) as [user Huser]%sourced_record.
    { apply find_some in Hf as [Hin%list_elem_of_In _]. by apply Hsrc. }
    destruct (provision_known subject preferred u db Ha Hf) as [w ->]. rewrite Huser. simpl.
    split; [done|]. split; [split; [done|eauto]|]. intros ? preferred' [= <-].
    pose (db1 := db <| wd_world := w |>).
    destruct (provision_known subject preferred' u db1 Ha Hf) as [w' Hk].
    etrans; [exact (f_equal fst Hk)|]. by rewrite Huser.
  - destruct (provision_new subject preferred db Ha Hf) as (db0 & now & Hn & Hu & Hs & Hx & ->).
    destruct (provision_attempts_answers now subject preferred (map Z.of_nat (seq 0 10)) db0 Ha Hn)
      as (db' & Hdb' & Hm).
    rewrite (surjective_pairing (provision_attempts _ _ _ _ db0)), Hdb'. rewrite Hu, Hs, Hx in Hm.
    destruct (List.find _ (map Z.of_nat (seq 0 10))) as [i|].
    + set (u := oidc_user now subject (attempt_username preferred i) (wd_next_user db)) in *.
      destruct Hm as (Hans & Hus & Hss). rewrite Hans. split; [done|]. split.
      * exists u. eexists. by split_and!.
      * intros user preferred' Huser. destruct (provision_known subject preferred' u db' Ha) as [w ->]; [|done].
        rewrite Hus. apply find_snoc; [done|]. by apply bool_decide_eq_true.
    + destruct Hm as (-> & Hus & Hss). by split_and!.
Qed.
End properties.

(** ** A concrete host: a still clock, a database that answers, and stand-ins
    for randomness, the digest and the password hash. *)

Definition example_host : WebHost nat := {|
  wh_time w := (1000, w);
  wh_fault w := (None, w);
  wh_unique_text column := "UNIQUE constraint failed: " +:+ column;
  wh_foreign_text := "FOREIGN KEY constraint failed";
  wh_entropy w := (Some (repeat (ascii_of_nat w) 32), S w);
  wh_digest l := rev l;
  wh_hash_password password w := (Some ("argon2:" +:+ password), w);
  wh_verify password phc := bool_decide (phc = "argon2:" +:+ password);
|}.

Section example.
#[local] Existing Instance example_host.

Definition no_accounts : WebDb nat := mkWebDb [] [] 1 1 7%nat.

Definition one_account : WebDb nat := (user_create webui_default "ada" "secret" no_accounts).2.

Definition signed_in : WebDb nat := (login webui_default "ada" "secret" one_account).2.

Lemma one_account_reachable : web_reachable one_account.
Proof.
  apply (web_next no_accounts (fun db => (user_create webui_default "ada" "secret" db).2)); constructor.
Qed.

Lemma signed_in_reachable : web_reachable signed_in.
Proof.
  apply (web_next one_account (fun db => (login webui_default "ada" "secret" db).2));
    [apply one_account_reachable|constructor].
Qed.

Lemma web_tables_sound_witness :
  NoDup (map um_username (wd_users signed_in)) /\ length (wd_sessions signed_in) = 1%nat.
Proof.
  split; [|by vm_compute]. apply (web_tables_sound signed_in signed_in_reachable).
Defined.

(** The grant runs from the host's reading for the configured time. *)
Lemma login_spec_witness :
  exists issued, (login webui_default "ada" "secret" one_account).1 = Ok issued /\
    cookie_token_hashes (SESSION_COOKIE_NAME +:+ "=" +:+ is_token issued) = [is_token_hash issued] /\
    grants signed_in !! is_token_hash issued =
      Some (ur_id (is_user issued), 1000 + wu_session_ttl_seconds webui_default).
Proof.
  pose proof (login_spec webui_default "ada" "secret" one_account one_account_reachable) as H.
  destruct (login webui_default "ada" "secret" one_account) as [[issued|e] db'] eqn:Hrun.
  - destruct H as (_ & _ & _ & Hcookie & random & t & purged & Ht & _ & _ & Hg).
    { intros w random w' [= <- _]. reflexivity. }
    exists issued. split; [reflexivity|]. split; [exact Hcookie|].
    assert (signed_in = db') as -> by (unfold signed_in; by rewrite Hrun).
    rewrite Hg, lookup_insert_eq. repeat match goal with H : took _ (_ :: _) _ |- _ => inversion_clear H end.
    match goal with H : wh_time _ = (t, _) |- _ => injection H as <- _ end. vm_compute. reflexivity.
  - exfalso. revert Hrun. vm_compute. discriminate.
Defined.

(** The cookie of the login identifies its account. *)
Definition ada_cookie : string := SESSION_COOKIE_NAME +:+ "=" +:+ hex (repeat (ascii_of_nat 7) 32).

Lemma identity_spec_witness :
  exists found h, (resolve_identity (Some ada_cookie) signed_in).1 = Some (found, h) /\
    cookie_token_hashes ada_cookie = [h] /\ 1000 < sr_expires_at_unix found.
Proof.
  pose proof (identity_spec (Some ada_cookie) signed_in signed_in_reachable) as H.
  destruct (resolve_identity (Some ada_cookie) signed_in) as [[[found h]|] db'] eqn:Hrun.
  - exists found, h. split; [reflexivity|].
    destruct H as (_ & _ & before & after & times & Heq & Hx & Hm).
    assert (before = []) as ->.
    { destruct before as [|b [|c before]]; [reflexivity| |by vm_compute in Heq].
      vm_compute in Heq. injection Heq as _ <-. destruct Hm. }
    inversion Hx; subst times. destruct after as [|h' after]; [destruct Hm|]. destruct Hm as [-> Hm].
    split; [vm_compute in Heq; injection Heq as <- <-; vm_compute; reflexivity|].
    destruct Hm as (t & touched & u & Ht & _ & Hlt & _). inversion_clear Ht as [|? ? ? ? ? Hr| |].
    injection Hr as <- _. exact Hlt.
  - exfalso. revert Hrun. vm_compute. discriminate.
Defined.

Lemma sessions_revoked_witness :
  let '(r, db') := logout (cookie_token_hashes ada_cookie) signed_in in
  grants db' = filter (fun x => x.1 ∉ cookie_token_hashes ada_cookie) (grants signed_in).
Proof.
  destruct (sessions_revoked signed_in signed_in_reachable) as [H _].
  specialize (H (cookie_token_hashes ada_cookie)).
  destruct (logout _ _) as [r db'] eqn:Hrun. apply H.
  revert Hrun. vm_compute. by intros [= <- _].
Defined.

Lemma provision_oidc_spec_witness :
  exists user, (provision_oidc_user "subject-1" "ada" one_account).1 = Ok user /\ ur_username user = "ada-1".
Proof.
  pose proof (provision_oidc_spec "subject-1" "ada" one_account) as H.
  destruct (provision_oidc_user "subject-1" "ada" one_account) as [answer db'].
  destruct H as (_ & H & _); [|apply one_account_reachable|].
  - split; [done|]. intros c. by vm_compute.
  - vm_compute in H. destruct H as (u & user & _ & Hn & _ & _ & Hr & ->). exists user.
    split; [reflexivity|]. destruct u; simpl in *; subst. vm_compute in Hr. repeat case_match; by simplify_eq.
Defined.
End example.
