(* ===== verification/Wire.v ===== *)
(** * The libvirt wire contracts ([crates/flanforge-libvirt-wire])

    [validation.rs]: names, keys, paths and accounts.  [ownership/]: the
    manifest of an allocation's artifacts, the metadata its domain carries and
    the tombstone of its cleanup.  [volume_checkpoint/]: the journal of volumes
    created and not yet recorded elsewhere.  [image/]: base image manifests,
    published bases and volume pointers.  [warm/]: the document of a profile's
    warm generations and its moves.  [libvirt_helper/]: the requests and
    replies of the privileged helper.

    The JSON, XML, URL, time and UUID libraries are parameters. *)

From S2P Require Import Prelude Rust Text Identifiers Images Guest Hot Allocation Config Claims Admission Convert.

Open Scope Z_scope.
Open Scope stdpp_scope.

Inductive WireError :=
| WireEncode (contract : string)
| WireDecode (contract : string)
| WireInvalid (contract field : string).

#[export] Instance WireError_eq_dec : EqDecision WireError.
Proof. solve_decision. Defined.

(** ** Names, keys and paths ([validation.rs]) *)

Definition is_safe_name (value : string) (maximum_bytes : Z) : bool :=
  in_range 1 maximum_bytes (len value)
  && negb (bool_decide (value = ".")) && negb (bool_decide (value = ".."))
  && negb (contains value "..")
  && all_bytes (fun c => is_ascii_alphanumeric c || one_of "-_." c) value.

Definition is_dot_segment (segment : string) : bool :=
  bool_decide (segment = ".") || bool_decide (segment = "..").

Definition is_safe_key (value : string) (maximum_bytes : Z) : bool :=
  negb (is_empty value)
  && (len value <=? maximum_bytes)
  && negb (any_byte is_ascii_control value)
  && (negb (starts_with value "/") || negb (contains value "//"))
  && negb (existsb is_dot_segment (split "/" value))
  && negb (existsb is_dot_segment (path_components value))
  && (negb (starts_with value "/") || is_absolute value).

Definition is_normal_absolute (path : PathBuf) (maximum_bytes : Z) : bool :=
  is_absolute path
  && negb (is_empty path)
  && (len path <=? maximum_bytes)
  && negb (contains path "//")
  && negb (existsb is_dot_segment (split "/" path))
  && negb (existsb is_dot_segment (path_components path)).

Definition MAX_ACCOUNT_NAME_BYTES : Z := 32.

Definition is_safe_account_name (value : string) : bool :=
  is_safe_name value MAX_ACCOUNT_NAME_BYTES && first_byte is_ascii_alphanumeric value.

(** ** Identifiers *)

Abbreviation Uuid := string (only parsing).

Definition uuid_nil : Uuid := "00000000-0000-0000-0000-000000000000".

Definition is_nil (id : Uuid) : bool := bool_decide (id = uuid_nil).

(** What other crates' parsers answer.  [uuid_parse] gives a UUID by the text
    it prints to. *)
Class WireCodec := {
  url_parse : string -> option Url;
  is_rfc3339 : string -> bool;
}.

Definition not_nil {UC : UuidCodec} (value : string) : option Uuid :=
  id ← uuid_parse value; if is_nil id then None else Some id.

(** A field of a contract that must hold. *)
Definition valid_field (contract field : string) (condition : bool) : result WireError unit :=
  ensure condition (WireInvalid contract field).

Arguments valid_field : simpl never.

(** ** Documents

    Every document is parsed and written the same way: bounded bytes, the JSON
    decoder, then the contract's own validation. *)

Section documents.
Context {D : Type} {JC : JsonCodec D}.
Context (contract size decoded : string) (maximum_bytes : Z) (valid : D -> result WireError unit).

Definition parse_document (bytes : string) : result WireError D :=
  if is_empty bytes || (maximum_bytes <? len bytes) then Err (WireInvalid contract size)
  else
    document ← ok_or (json_parse bytes) (WireDecode decoded);
    _ ← valid document;
    Ok document.

Definition encode_document (document : D) : result WireError string :=
  _ ← valid document;
  if maximum_bytes <? len (to_json document) then Err (WireInvalid contract size)
  else Ok (to_json document).

Lemma parse_document_ok bytes document :
  parse_document bytes = Ok document ->
  valid document = Ok tt /\ len bytes <= maximum_bytes /\ json_parse bytes = Some document.
Proof.
  unfold parse_document. destruct (_ || _) eqn:Hs; [done|]. intros Hp.
  destruct (json_parse bytes) as [d|]; [|done]. simpl in Hp.
  destruct (valid d) as [[]|] eqn:Hv; [|done]. injection Hp as ->. split; [done|].
  apply orb_false_iff in Hs as [_ Hs]. split; [|done]. by apply Z.ltb_ge.
Qed.

Lemma encode_document_ok document bytes :
  encode_document document = Ok bytes ->
  valid document = Ok tt /\ len bytes <= maximum_bytes /\ bytes = to_json document.
Proof.
  unfold encode_document. destruct (valid document) as [[]|]; [|done]. simpl.
  destruct (Z.ltb_spec maximum_bytes (len (to_json document))); [done|]. by intros [= <-].
Qed.

(** What is written reads back. *)
Lemma document_roundtrip document bytes :
  encode_document document = Ok bytes -> bytes <> "" -> parse_document bytes = Ok document.
Proof.
  intros (Hv & Hl & ->)%encode_document_ok Hne. unfold parse_document.
  assert (is_empty (to_json document) || (maximum_bytes <? len (to_json document)) = false) as ->.
  { apply orb_false_iff. split; [|by apply Z.ltb_ge].
    destruct (to_json document); [done|]. by apply Z.eqb_neq. }
  rewrite json_roundtrip. simpl. by rewrite Hv.
Qed.
End documents.

(** ** Ownership ([ownership/]) *)

Definition LIBVIRT_OWNERSHIP_METADATA_URI : string := "urn:flanforge:allocation:v1".
Definition MAX_CLEANUP_TOMBSTONE_BYTES : Z := 4096.
Definition MAX_DOMAIN_OWNERSHIP_METADATA_BYTES : Z := 8192.
Definition MAX_OWNERSHIP_MANIFEST_BYTES : Z := 16384.
Definition MAX_ARTIFACT_KEY_BYTES : Z := 1024.
Definition MAX_KNOWN_HOSTS_PATH_BYTES : Z := 4096.
Definition MAX_SAFE_NAME_BYTES : Z := 128.

Record Artifact := {
  art_name : string;
  art_key : option string;
}.

Definition artifact_new (name : string) : Artifact := {| art_name := name; art_key := None |}.
Definition set_key (key : string) (a : Artifact) : Artifact :=
  {| art_name := art_name a; art_key := Some key |}.

Record OwnershipManifest := mkOwnership {
  om_schema_version : Z;
  om_allocation_id : Uuid;
  om_service_instance : Uuid;
  om_domain_name : string;
  om_domain_uuid : Uuid;
  om_mac_address : string;
  om_overlay : Artifact;
  om_seed : Artifact;
  om_host_key_alias : string;
  om_known_hosts_file : PathBuf;
  om_created_unix_seconds : Z;
}.

#[export] Instance OwnershipManifest_eta : Eta OwnershipManifest := fun m =>
  mkOwnership (om_schema_version m) (om_allocation_id m) (om_service_instance m) (om_domain_name m)
    (om_domain_uuid m) (om_mac_address m) (om_overlay m) (om_seed m) (om_host_key_alias m)
    (om_known_hosts_file m) (om_created_unix_seconds m).

#[export] Instance Artifact_eq_dec : EqDecision Artifact.
Proof. solve_decision. Defined.
#[export] Instance OwnershipManifest_eq_dec : EqDecision OwnershipManifest.
Proof. solve_decision. Defined.

Definition ownership_new (allocation_id service_instance : Uuid) (domain_name : string)
    (domain_uuid : Uuid) (mac_address : string) (overlay seed : Artifact) (host_key_alias : string)
    (known_hosts_file : PathBuf) (created_unix_seconds : Z) : OwnershipManifest :=
  mkOwnership 1 allocation_id service_instance domain_name domain_uuid mac_address overlay seed
    host_key_alias known_hosts_file created_unix_seconds.

Definition is_mac (value : string) : bool :=
  (len value =? 17)
  && (Z.of_nat (length (split ":" value)) =? 6)
  && forallb (fun part => (len part =? 2) && all_bytes is_ascii_hexdigit part) (split ":" value).

Definition OWNERSHIP : string := "libvirt ownership manifest".

Definition ensure_ownership_valid (m : OwnershipManifest) : result WireError unit :=
  let field := valid_field OWNERSHIP in
  _ ← field "schema_version" (om_schema_version m =? 1);
  _ ← field "allocation_id" (negb (is_nil (om_allocation_id m)));
  _ ← field "service_instance" (negb (is_nil (om_service_instance m)));
  _ ← field "domain_uuid" (negb (is_nil (om_domain_uuid m)));
  _ ← field "created_unix_seconds" (negb (om_created_unix_seconds m =? 0));
  _ ← field "domain_name" (is_safe_name (om_domain_name m) MAX_SAFE_NAME_BYTES);
  _ ← field "overlay.name" (is_safe_name (art_name (om_overlay m)) MAX_SAFE_NAME_BYTES);
  _ ← field "seed.name" (is_safe_name (art_name (om_seed m)) MAX_SAFE_NAME_BYTES);
  _ ← field "mac_address" (is_mac (om_mac_address m));
  _ ← field "host_key_alias" (is_safe_name (om_host_key_alias m) MAX_SAFE_NAME_BYTES);
  _ ← field "known_hosts_file" (is_normal_absolute (om_known_hosts_file m) MAX_KNOWN_HOSTS_PATH_BYTES);
  _ ← field "overlay.key" (from_option (fun k => is_safe_key k MAX_ARTIFACT_KEY_BYTES) true
                             (art_key (om_overlay m)));
  field "seed.key" (from_option (fun k => is_safe_key k MAX_ARTIFACT_KEY_BYTES) true
                      (art_key (om_seed m))).

(** *** The tombstone *)

Record CleanupTombstone := {
  ct_schema_version : Z;
  ct_allocation_id : Uuid;
  ct_service_instance : Uuid;
  ct_domain_name : string;
  ct_domain_uuid : Uuid;
  ct_cleaned_unix_seconds : Z;
}.

#[export] Instance CleanupTombstone_eq_dec : EqDecision CleanupTombstone.
Proof. solve_decision. Defined.

Definition TOMBSTONE : string := "libvirt cleanup tombstone".

Definition tombstone_new (allocation_id service_instance : Uuid) (domain_name : string)
    (domain_uuid : Uuid) (cleaned_unix_seconds : Z) : CleanupTombstone :=
  {| ct_schema_version := 1; ct_allocation_id := allocation_id;
     ct_service_instance := service_instance; ct_domain_name := domain_name;
     ct_domain_uuid := domain_uuid; ct_cleaned_unix_seconds := cleaned_unix_seconds |}.

Definition ensure_tombstone_valid (t : CleanupTombstone) : result WireError unit :=
  let field := valid_field TOMBSTONE in
  _ ← field "schema_version" (ct_schema_version t =? 1);
  _ ← field "allocation_id" (negb (is_nil (ct_allocation_id t)));
  _ ← field "service_instance" (negb (is_nil (ct_service_instance t)));
  _ ← field "domain_uuid" (negb (is_nil (ct_domain_uuid t)));
  _ ← field "domain_name" (is_safe_name (ct_domain_name t) MAX_SAFE_NAME_BYTES);
  field "cleaned_unix_seconds" (negb (ct_cleaned_unix_seconds t =? 0)).

Definition parse_tombstone {JC : JsonCodec CleanupTombstone} : string -> result WireError CleanupTombstone :=
  parse_document TOMBSTONE "size" TOMBSTONE MAX_CLEANUP_TOMBSTONE_BYTES ensure_tombstone_valid.
Definition encode_tombstone {JC : JsonCodec CleanupTombstone} : CleanupTombstone -> result WireError string :=
  encode_document TOMBSTONE "size" MAX_CLEANUP_TOMBSTONE_BYTES ensure_tombstone_valid.

(** *** The domain's metadata *)

(** A parsed element, by what the reader asks of it. *)
Inductive XmlNode := XmlChildElement | XmlText (text : string) | XmlOther.

Record XmlElement := {
  xe_name : string;
  xe_namespace : option string;
  xe_attributes : list (string * string);
  xe_children : list XmlNode;
}.

Class XmlCodec := { xml_root : string -> option XmlElement }.

Definition attribute (root : XmlElement) (name : string) : option string :=
  snd <$> List.find (fun a => bool_decide (a.1 = name)) (xe_attributes root).

Record DomainOwnershipMetadata := {
  dm_allocation_id : Uuid;
  dm_service_instance : Uuid;
  dm_domain_uuid : Uuid;
  dm_overlay : string;
  dm_seed : string;
}.

Definition METADATA : string := "libvirt domain ownership metadata".

Section metadata.
Context {UC : UuidCodec} {XC : XmlCodec}.

Definition required_uuid (root : XmlElement) (field : string) : result WireError Uuid :=
  ok_or (value ← attribute root field; not_nil value) (WireInvalid METADATA field).

Definition required_key (root : XmlElement) (field : string) : result WireError string :=
  ok_or (value ← attribute root field;
         if is_safe_key value MAX_ARTIFACT_KEY_BYTES then Some value else None)
    (WireInvalid METADATA field).

Definition is_child_content (child : XmlNode) : bool :=
  match child with
  | XmlChildElement => true
  | XmlText content => negb (is_blank content)
  | XmlOther => false
  end.

Definition parse_domain_metadata (metadata : string) : result WireError DomainOwnershipMetadata :=
  if is_empty metadata || (MAX_DOMAIN_OWNERSHIP_METADATA_BYTES <? len metadata)
  then Err (WireInvalid METADATA "size")
  else
    root ← ok_or (xml_root metadata) (WireInvalid METADATA "xml");
    _ ← valid_field METADATA "root"
          (bool_decide (xe_name root = "allocation")
           && bool_decide (xe_namespace root = Some LIBVIRT_OWNERSHIP_METADATA_URI)
           && bool_decide (attribute root "schema" = Some "1")
           && (Z.of_nat (length (xe_attributes root)) =? 6)
           && negb (existsb is_child_content (xe_children root)));
    allocation_id ← required_uuid root "allocation";
    service_instance ← required_uuid root "instance";
    domain_uuid ← required_uuid root "domain";
    overlay ← required_key root "overlay";
    seed ← required_key root "seed";
    Ok {| dm_allocation_id := allocation_id; dm_service_instance := service_instance;
          dm_domain_uuid := domain_uuid; dm_overlay := overlay; dm_seed := seed |}.
End metadata.

(** ** Volume checkpoints ([volume_checkpoint/]) *)

Definition MAX_VOLUME_CHECKPOINT_BYTES : Z := 16384.
Definition MAX_CHECKPOINT_VOLUMES : Z := 2.
Definition MAX_VOLUME_KEY_BYTES : Z := 4096.

Inductive CheckpointOwner :=
| OwnerAllocation (allocation_id : Uuid)
| OwnerImport (import_id : Uuid)
| OwnerWarm (profile : string) (capture_id : Uuid).

Inductive CheckpointVolumeRole := RoleOverlay | RoleSeed | RoleBase | RoleWarm.

#[export] Instance CheckpointOwner_eq_dec : EqDecision CheckpointOwner.
Proof. solve_decision. Defined.
#[export] Instance CheckpointVolumeRole_eq_dec : EqDecision CheckpointVolumeRole.
Proof. solve_decision. Defined.

Record CheckpointVolume := {
  cv_role : CheckpointVolumeRole;
  cv_name : string;
  cv_key : string;
}.

#[export] Instance CheckpointVolume_eq_dec : EqDecision CheckpointVolume.
Proof. solve_decision. Defined.

Record VolumeCheckpoint := mkCheckpoint {
  vc_schema_version : Z;
  vc_service_instance : Uuid;
  vc_pool : string;
  vc_owner : CheckpointOwner;
  vc_volumes : list CheckpointVolume;
}.

#[export] Instance VolumeCheckpoint_eta : Eta VolumeCheckpoint := fun c =>
  mkCheckpoint (vc_schema_version c) (vc_service_instance c) (vc_pool c) (vc_owner c) (vc_volumes c).
#[export] Instance VolumeCheckpoint_eq_dec : EqDecision VolumeCheckpoint.
Proof. solve_decision. Defined.

Definition CHECKPOINT : string := "libvirt volume checkpoint".

Definition warm_volume_name (capture_id : Uuid) : string := "warm-" +:+ capture_id +:+ ".qcow2".
Definition import_volume_name (import_id : Uuid) : string :=
  "base-import-" +:+ import_id +:+ ".qcow2".

Definition is_role (role : CheckpointVolumeRole) (v : CheckpointVolume) : bool :=
  bool_decide (cv_role v = role).

Definition ensure_volume (v : CheckpointVolume) : result WireError unit :=
  valid_field CHECKPOINT "volume"
    (is_safe_name (cv_name v) MAX_SAFE_NAME_BYTES && is_safe_key (cv_key v) MAX_VOLUME_KEY_BYTES).

Definition is_same_checkpoint_volume (v other : CheckpointVolume) : bool :=
  bool_decide (cv_role other = cv_role v) || bool_decide (cv_name other = cv_name v)
  || bool_decide (cv_key other = cv_key v).

(** Each volume in order, against those [before] it. *)
Fixpoint ensure_volumes (before volumes : list CheckpointVolume) : result WireError unit :=
  match volumes with
  | [] => Ok tt
  | v :: volumes =>
      _ ← ensure_volume v;
      _ ← valid_field CHECKPOINT "duplicate volume" (negb (existsb (is_same_checkpoint_volume v) before));
      ensure_volumes (before ++ [v]) volumes
  end.

Section checkpoint.
Context {UC : UuidCodec}.

Definition artifact_id (value prefix suffix : string) : option Uuid :=
  value ← strip_prefix value prefix; value ← strip_suffix value suffix; not_nil value.

Definition ensure_allocation_roles (volumes : list CheckpointVolume) : result WireError unit :=
  _ ← valid_field CHECKPOINT "allocation role"
        (negb (existsb (fun v => is_role RoleBase v || is_role RoleWarm v) volumes));
  let overlay := v ← List.find (is_role RoleOverlay) volumes; artifact_id (cv_name v) "root-" ".qcow2" in
  let seed := v ← List.find (is_role RoleSeed) volumes; artifact_id (cv_name v) "seed-" ".img" in
  valid_field CHECKPOINT "allocation volume name"
    (negb ((bool_decide (overlay = None) && existsb (is_role RoleOverlay) volumes)
           || (bool_decide (seed = None) && existsb (is_role RoleSeed) volumes)
           || (bool_decide (is_Some overlay) && bool_decide (is_Some seed)
               && negb (bool_decide (overlay = seed))))).

(** At most one volume, of one role and name. *)
Definition ensure_sole_role (field : string) (role : CheckpointVolumeRole) (name : string)
    (volumes : list CheckpointVolume) : result WireError unit :=
  valid_field CHECKPOINT field
    (negb ((1 <? Z.of_nat (length volumes))
           || existsb (fun v => negb (is_role role v) || negb (bool_decide (cv_name v = name))) volumes)).

Definition ensure_import_roles (volumes : list CheckpointVolume) (import_id : Uuid) :
    result WireError unit :=
  ensure_sole_role "import role" RoleBase (import_volume_name import_id) volumes.

Definition ensure_warm_roles (volumes : list CheckpointVolume) (capture_id : Uuid) :
    result WireError unit :=
  ensure_sole_role "warm role" RoleWarm (warm_volume_name capture_id) volumes.

Definition owner_id (owner : CheckpointOwner) : result WireError Uuid :=
  match owner with
  | OwnerAllocation id | OwnerImport id => Ok id
  | OwnerWarm profile id =>
      _ ← valid_field CHECKPOINT "owner" (is_safe_name profile MAX_SAFE_NAME_BYTES); Ok id
  end.

Definition ensure_checkpoint_valid (c : VolumeCheckpoint) : result WireError unit :=
  _ ← valid_field CHECKPOINT "structure"
        ((vc_schema_version c =? 1) && negb (is_nil (vc_service_instance c))
         && is_safe_name (vc_pool c) MAX_SAFE_NAME_BYTES
         && (Z.of_nat (length (vc_volumes c)) <=? MAX_CHECKPOINT_VOLUMES));
  id ← owner_id (vc_owner c);
  _ ← valid_field CHECKPOINT "owner" (negb (is_nil id));
  _ ← ensure_volumes [] (vc_volumes c);
  match vc_owner c with
  | OwnerAllocation _ => ensure_allocation_roles (vc_volumes c)
  | OwnerImport id => ensure_import_roles (vc_volumes c) id
  | OwnerWarm _ id => ensure_warm_roles (vc_volumes c) id
  end.

Definition checkpoint_new (service_instance : Uuid) (pool : string) (owner : CheckpointOwner) :
    result WireError VolumeCheckpoint :=
  let checkpoint := mkCheckpoint 1 service_instance pool owner [] in
  _ ← ensure_checkpoint_valid checkpoint; Ok checkpoint.

Definition find_volume (role : CheckpointVolumeRole) (c : VolumeCheckpoint) : option CheckpointVolume :=
  List.find (is_role role) (vc_volumes c).

(** The answer and the checkpoint after it: a refused volume is taken back. *)
Definition record_volume (role : CheckpointVolumeRole) (name key : string) (c : VolumeCheckpoint) :
    result WireError unit * VolumeCheckpoint :=
  match find_volume role c with
  | Some existing =>
      if bool_decide (cv_name existing = name) && bool_decide (cv_key existing = key) then (Ok tt, c)
      else (Err (WireInvalid CHECKPOINT "role collision"), c)
  | None =>
      let added := c <| vc_volumes := vc_volumes c ++ [{| cv_role := role; cv_name := name; cv_key := key |}] |> in
      match ensure_checkpoint_valid added with
      | Ok _ => (Ok tt, added)
      | Err error => (Err error, c)
      end
  end.

Definition ensure_binding (field : string) (c : VolumeCheckpoint) (service_instance : Uuid)
    (pool : string) (owner : CheckpointOwner) (misnamed : CheckpointVolume -> bool) :
    result WireError unit :=
  _ ← ensure_checkpoint_valid c;
  valid_field CHECKPOINT field
    (bool_decide (vc_service_instance c = service_instance) && bool_decide (vc_pool c = pool)
     && bool_decide (vc_owner c = owner) && negb (existsb misnamed (vc_volumes c))).

Definition ensure_allocation (c : VolumeCheckpoint) (service_instance : Uuid) (pool : string)
    (allocation_id : Uuid) (overlay_name seed_name : string) : result WireError unit :=
  ensure_binding "allocation binding" c service_instance pool (OwnerAllocation allocation_id)
    (fun v => match cv_role v with
              | RoleOverlay => negb (bool_decide (cv_name v = overlay_name))
              | RoleSeed => negb (bool_decide (cv_name v = seed_name))
              | RoleBase | RoleWarm => true
              end).

Definition ensure_warm_binding (c : VolumeCheckpoint) (service_instance : Uuid) (pool profile : string)
    (capture_id : Uuid) : result WireError unit :=
  ensure_binding "warm binding" c service_instance pool (OwnerWarm profile capture_id) (fun _ => false).

Definition ensure_import_binding (c : VolumeCheckpoint) (service_instance : Uuid) (pool : string)
    (import_id : Uuid) (volume_name : string) : result WireError unit :=
  ensure_binding "import binding" c service_instance pool (OwnerImport import_id)
    (fun v => negb (is_role RoleBase v) || negb (bool_decide (cv_name v = volume_name))).

Definition parse_checkpoint {JC : JsonCodec VolumeCheckpoint} : string -> result WireError VolumeCheckpoint :=
  parse_document CHECKPOINT "size" CHECKPOINT MAX_VOLUME_CHECKPOINT_BYTES ensure_checkpoint_valid.
Definition encode_checkpoint {JC : JsonCodec VolumeCheckpoint} : VolumeCheckpoint -> result WireError string :=
  encode_document CHECKPOINT "size" MAX_VOLUME_CHECKPOINT_BYTES ensure_checkpoint_valid.
End checkpoint.

(** ** Images ([image/]) *)

Definition MAX_BASE_IMAGE_MANIFEST_BYTES : Z := 65536.
Definition MAX_PUBLISHED_BASE_BYTES : Z := 98304.
Definition MAX_IMAGE_FILE_BYTES : Z := 128.
Definition MAX_IMAGE_FORMAT_BYTES : Z := 32.
Definition MAX_LOGICAL_NAME_BYTES : Z := 128.
Definition MAX_VIRTUAL_IMAGE_BYTES : Z := 1024 ^ 4.
Definition GUEST_CONTRACT_AGENT_CHANNEL : Z := 2.
Definition MAX_GUEST_CONTRACT_VERSION : Z := GUEST_CONTRACT_AGENT_CHANNEL.
Definition MIN_JOB_ACCOUNT_UID : Z := 1000.
Definition MAX_BLOCK_RPCS_BYTES : Z := 512.

Record ImageSource := {
  os_image_url : string;
  os_image_sha256 : string;
  repository_revision : string;
  repository_dirty : bool;
}.

Record ImageBuilder := { packer_version : string; qemu_plugin_version : string }.

Record ImageFile := {
  im_file : string;
  im_format : string;
  im_sha256 : string;
  im_bytes : Z;
  im_virtual_bytes : Z;
}.

Record RunnerRelease := {
  api_url : string;
  download_base_url : string;
  signing_primary_fingerprint : string;
}.

Record DependencyProxy := { dp_configured : bool; dp_ca_sha256 : option string }.

Record Provenance := { pv_runner_release : RunnerRelease; pv_dependency_proxy : DependencyProxy }.

Record GuestOs := { go_id : string; go_version_id : string; go_architecture : string }.
Record GuestTool := { gt_version : string; gt_sha256 : string }.
Record Podman := { pm_version : string; pm_rootless : bool; pm_docker_api : bool }.
Record GuestAgent := { ga_exec_enabled : bool; ga_block_rpcs : string }.
Record JobAccount := { ja_name : string; ja_uid : Z }.

Record GuestRecord := {
  gr_schema_version : Z;
  gr_contract_version : Z;
  gr_os : GuestOs;
  gr_forgejo_runner : GuestTool;
  gr_podman : Podman;
  gr_agent : option GuestAgent;
  gr_job_account : option JobAccount;
  gr_privileged_account : option JobAccount;
  gr_dependency_proxy_configured : bool;
}.

Record BaseImageManifest := {
  bm_schema_version : Z;
  bm_created_at : option string;
  bm_source : option ImageSource;
  bm_builder : option ImageBuilder;
  bm_image : ImageFile;
  bm_provenance : option Provenance;
  bm_guest : option GuestRecord;
}.

Definition from_image (file format sha256 : string) (bytes virtual_bytes : Z) : BaseImageManifest :=
  {| bm_schema_version := 1; bm_created_at := None; bm_source := None; bm_builder := None;
     bm_image := {| im_file := file; im_format := format; im_sha256 := sha256; im_bytes := bytes;
                    im_virtual_bytes := virtual_bytes |};
     bm_provenance := None; bm_guest := None |}.

Definition is_guest_exec_enabled (m : BaseImageManifest) : option bool :=
  guest ← bm_guest m;
  Some ((GUEST_CONTRACT_AGENT_CHANNEL <=? gr_contract_version guest)
        && from_option ga_exec_enabled false (gr_agent guest)).

Definition guest_job_account (m : BaseImageManifest) : option (string * Z) :=
  guest ← bm_guest m; account ← gr_job_account guest; Some (ja_name account, ja_uid account).

Definition guest_privileged_account (m : BaseImageManifest) : option (string * Z) :=
  guest ← bm_guest m; account ← gr_privileged_account guest; Some (ja_name account, ja_uid account).

Definition is_bounded_graphic (value : string) (min max : Z) : bool :=
  in_range min max (len value) && all_bytes is_ascii_graphic value.

Definition is_lower_hex (c : ascii) : bool := is_ascii_digit c || in_range 97 102 (byte_val c).

Definition is_sha256 (value : string) : bool :=
  (len value =? 64) && all_bytes is_lower_hex value.

Definition is_safe_image_file (value : string) : bool :=
  in_range 1 MAX_IMAGE_FILE_BYTES (len value)
  && negb (bool_decide (value = ".")) && negb (bool_decide (value = ".."))
  && all_bytes (fun c => is_ascii_alphanumeric c || one_of "-_." c) value.

Definition is_block_list (value : string) : bool :=
  (len value <=? MAX_BLOCK_RPCS_BYTES)
  && all_bytes (fun c => is_ascii_lowercase c || is_ascii_digit c || one_of ",-" c) value.

Definition IMAGE_MANIFEST : string := "base image manifest".

Section image.
Context {WC : WireCodec}.

Definition is_https_url (value : string) : bool :=
  (len value <=? 2048)
  && match url_parse value with
     | None => false
     | Some url =>
         bool_decide (url_scheme url = "https") && bool_decide (is_Some (url_host_str url))
         && is_empty (url_username url) && bool_decide (url_password url = None)
         && bool_decide (url_fragment url = None)
     end.

Definition ensure_source_valid (m : BaseImageManifest) : result WireError unit :=
  let field := valid_field IMAGE_MANIFEST in
  match bm_source m with
  | None => Ok tt
  | Some source =>
      _ ← field "source.os_image_url" (is_https_url (os_image_url source));
      _ ← field "source.os_image_sha256" (is_sha256 (os_image_sha256 source));
      field "source.repository_revision" (is_bounded_graphic (repository_revision source) 1 128)
  end.

Definition ensure_builder_valid (m : BaseImageManifest) : result WireError unit :=
  let field := valid_field IMAGE_MANIFEST in
  match bm_builder m with
  | None => Ok tt
  | Some builder =>
      _ ← field "builder.packer_version" (is_bounded_graphic (packer_version builder) 1 64);
      field "builder.qemu_plugin_version" (is_bounded_graphic (qemu_plugin_version builder) 1 64)
  end.

Definition ensure_image_valid (m : BaseImageManifest) : result WireError unit :=
  let field := valid_field IMAGE_MANIFEST in
  let image := bm_image m in
  _ ← field "image.file" (is_safe_image_file (im_file image));
  _ ← field "image.format" (is_bounded_graphic (im_format image) 1 MAX_IMAGE_FORMAT_BYTES);
  _ ← field "image.sha256" (is_sha256 (im_sha256 image));
  field "image.bytes"
    (negb ((im_bytes image =? 0) || (im_virtual_bytes image <? im_bytes image)
           || (MAX_VIRTUAL_IMAGE_BYTES <? im_virtual_bytes image))).

Definition ensure_provenance_valid (m : BaseImageManifest) : result WireError unit :=
  let field := valid_field IMAGE_MANIFEST in
  match bm_provenance m with
  | None => Ok tt
  | Some provenance =>
      let release := pv_runner_release provenance in
      _ ← field "provenance.runner_release.api_url" (is_https_url (api_url release));
      _ ← field "provenance.runner_release.download_base_url" (is_https_url (download_base_url release));
      _ ← field "provenance.runner_release.signing_primary_fingerprint"
            ((len (signing_primary_fingerprint release) =? 40)
             && all_bytes (fun c => is_ascii_hexdigit c && negb (is_ascii_lowercase c))
                  (signing_primary_fingerprint release));
      field "provenance.dependency_proxy.ca_sha256"
        (from_option is_sha256 true (dp_ca_sha256 (pv_dependency_proxy provenance)))
  end.

Definition is_job_account (account : JobAccount) : bool :=
  is_safe_account_name (ja_name account) && (MIN_JOB_ACCOUNT_UID <=? ja_uid account).

Definition ensure_guest_record_valid (m : BaseImageManifest) : result WireError unit :=
  let field := valid_field IMAGE_MANIFEST in
  match bm_guest m with
  | None => Ok tt
  | Some guest =>
      _ ← field "guest.schema_version" (gr_schema_version guest =? 1);
      _ ← field "guest.guest_contract_version"
            (negb ((gr_contract_version guest =? 0)
                   || (MAX_GUEST_CONTRACT_VERSION <? gr_contract_version guest)));
      _ ← field "guest.os.id" (is_bounded_graphic (go_id (gr_os guest)) 1 64);
      _ ← field "guest.os.version_id" (is_bounded_graphic (go_version_id (gr_os guest)) 1 64);
      _ ← field "guest.os.architecture" (is_bounded_graphic (go_architecture (gr_os guest)) 1 64);
      _ ← field "guest.forgejo_runner"
            (is_bounded_graphic (gt_version (gr_forgejo_runner guest)) 1 128
             && is_sha256 (gt_sha256 (gr_forgejo_runner guest)));
      _ ← field "guest.podman" (is_bounded_graphic (pm_version (gr_podman guest)) 1 128);
      _ ← field "guest.guest_agent.block_rpcs"
            (from_option (fun a => is_block_list (ga_block_rpcs a)) true (gr_agent guest));
      _ ← field "guest.job_account" (from_option is_job_account true (gr_job_account guest));
      field "guest.privileged_account"
        (from_option is_job_account true (gr_privileged_account guest))
  end.

Definition ensure_manifest_valid (m : BaseImageManifest) : result WireError unit :=
  let field := valid_field IMAGE_MANIFEST in
  _ ← field "schema_version" (bm_schema_version m =? 1);
  _ ← field "created_at"
        (from_option (fun value => is_bounded_graphic value 20 64 && is_rfc3339 value) true
           (bm_created_at m));
  _ ← ensure_source_valid m;
  _ ← ensure_builder_valid m;
  _ ← ensure_image_valid m;
  _ ← ensure_provenance_valid m;
  _ ← ensure_guest_record_valid m;
  field "dependency_proxy_configured"
    match bm_provenance m, bm_guest m with
    | Some provenance, Some guest =>
        Bool.eqb (dp_configured (pv_dependency_proxy provenance)) (gr_dependency_proxy_configured guest)
    | _, _ => true
    end.

Definition parse_manifest {JC : JsonCodec BaseImageManifest} : string -> result WireError BaseImageManifest :=
  parse_document IMAGE_MANIFEST "size" IMAGE_MANIFEST MAX_BASE_IMAGE_MANIFEST_BYTES ensure_manifest_valid.
End image.

(** *** Pointers *)

Record VolumePointer := {
  vp_pool : string;
  vp_volume_name : string;
  vp_volume_key : string;
  vp_virtual_bytes : Z;
  vp_generation : Z;
  vp_produced_at_unix : Z;
}.

#[export] Instance VolumePointer_eq_dec : EqDecision VolumePointer.
Proof. solve_decision. Defined.

Definition POINTER : string := "libvirt volume pointer".

Definition ensure_pointer_valid (p : VolumePointer) : result WireError unit :=
  let field := valid_field POINTER in
  _ ← field "pool" (is_safe_name (vp_pool p) MAX_LOGICAL_NAME_BYTES);
  _ ← field "volume_name" (is_safe_name (vp_volume_name p) MAX_LOGICAL_NAME_BYTES);
  _ ← field "volume_key" (is_safe_key (vp_volume_key p) MAX_VOLUME_KEY_BYTES);
  field "virtual_bytes"
    (negb ((vp_virtual_bytes p =? 0) || (MAX_VIRTUAL_IMAGE_BYTES <? vp_virtual_bytes p))).

Definition pointer_new (pool volume_name volume_key : string) (virtual_bytes generation produced_at_unix : Z) :
    result WireError VolumePointer :=
  let pointer := {| vp_pool := pool; vp_volume_name := volume_name; vp_volume_key := volume_key;
                    vp_virtual_bytes := virtual_bytes; vp_generation := generation;
                    vp_produced_at_unix := produced_at_unix |} in
  _ ← ensure_pointer_valid pointer; Ok pointer.

Definition is_same_volume (p q : VolumePointer) : bool :=
  bool_decide (vp_volume_name p = vp_volume_name q) || bool_decide (vp_volume_key p = vp_volume_key q).

Record PublishedBase := {
  pb_schema_version : Z;
  pb_logical_name : string;
  pb_pool : string;
  pb_volume_name : string;
  pb_volume_key : string;
  pb_manifest : BaseImageManifest;
}.

Definition PUBLISHED_BASE : string := "published libvirt base".

Section published.
Context {WC : WireCodec}.

Definition ensure_published_valid (p : PublishedBase) : result WireError unit :=
  let field := valid_field PUBLISHED_BASE in
  _ ← field "schema_version" (pb_schema_version p =? 1);
  _ ← field "logical_name" (is_safe_name (pb_logical_name p) MAX_LOGICAL_NAME_BYTES);
  _ ← field "pool" (is_safe_name (pb_pool p) MAX_LOGICAL_NAME_BYTES);
  _ ← field "volume_name" (is_safe_name (pb_volume_name p) MAX_LOGICAL_NAME_BYTES);
  _ ← field "volume_key" (is_safe_key (pb_volume_key p) MAX_VOLUME_KEY_BYTES);
  ensure_manifest_valid (pb_manifest p).

Definition published_new (logical_name pool volume_name volume_key : string)
    (manifest : BaseImageManifest) : result WireError PublishedBase :=
  let publication := {| pb_schema_version := 1; pb_logical_name := logical_name; pb_pool := pool;
                        pb_volume_name := volume_name; pb_volume_key := volume_key;
                        pb_manifest := manifest |} in
  _ ← ensure_published_valid publication; Ok publication.

Definition published_pointer (p : PublishedBase) : result WireError VolumePointer :=
  pointer_new (pb_pool p) (pb_volume_name p) (pb_volume_key p)
    (im_virtual_bytes (bm_image (pb_manifest p))) 0 0.

Definition parse_published {JC : JsonCodec PublishedBase} : string -> result WireError PublishedBase :=
  parse_document PUBLISHED_BASE "size" PUBLISHED_BASE MAX_PUBLISHED_BASE_BYTES ensure_published_valid.

(** The writer leaves the size to the manifest's own bound. *)
Definition encode_published {JC : JsonCodec PublishedBase} (p : PublishedBase) : result WireError string :=
  _ ← ensure_published_valid p; Ok (to_json p).
End published.

(** ** Warm documents ([warm/]) *)

Definition MAX_PUBLISHED_WARM_BYTES : Z := 65536.
Definition MAX_SUPERSEDED_POINTERS : Z := 8.
Definition MAX_RETAINED_WARM_GENERATIONS : Z := 3.
Definition MAX_PROFILE_BYTES : Z := 128.

Record PublishedWarm := mkWarm {
  pw_schema_version : Z;
  pw_profile : string;
  pw_logical_name : string;
  pw_generation : Z;
  pw_produced_by : Uuid;
  pw_produced_at_unix : Z;
  pw_current : VolumePointer;
  pw_superseded : list VolumePointer;
}.

#[export] Instance PublishedWarm_eta : Eta PublishedWarm := fun d =>
  mkWarm (pw_schema_version d) (pw_profile d) (pw_logical_name d) (pw_generation d)
    (pw_produced_by d) (pw_produced_at_unix d) (pw_current d) (pw_superseded d).
#[export] Instance PublishedWarm_eq_dec : EqDecision PublishedWarm.
Proof. solve_decision. Defined.

Definition WARM : string := "published libvirt warm image".

Definition pointers (d : PublishedWarm) : list VolumePointer := pw_current d :: pw_superseded d.

(** No pointer names the volume of an earlier one. *)
Fixpoint ensure_pointers_distinct (before rest : list VolumePointer) : result WireError unit :=
  match rest with
  | [] => Ok tt
  | p :: rest =>
      _ ← valid_field WARM "duplicate pointer" (negb (existsb (fun other => is_same_volume other p) before));
      ensure_pointers_distinct (before ++ [p]) rest
  end.

Definition ensure_warm_valid (d : PublishedWarm) : result WireError unit :=
  let field := valid_field WARM in
  _ ← field "schema_version" (pw_schema_version d =? 1);
  _ ← field "profile" (is_safe_name (pw_profile d) MAX_PROFILE_BYTES);
  _ ← field "logical_name" (is_safe_name (pw_logical_name d) MAX_LOGICAL_NAME_BYTES);
  _ ← field "generation" (negb ((pw_generation d =? 0) || is_nil (pw_produced_by d)));
  _ ← field "superseded" (Z.of_nat (length (pw_superseded d)) <=? MAX_SUPERSEDED_POINTERS);
  _ ← try_for_each ensure_pointer_valid (pointers d);
  _ ← ensure_pointers_distinct [] (pointers d);
  _ ← field "current generation" (vp_generation (pw_current d) =? pw_generation d);
  field "superseded generation" (negb (existsb (fun p => vp_generation p =? 0) (pw_superseded d))).

Definition warm_document (d : PublishedWarm) : result WireError PublishedWarm :=
  _ ← ensure_warm_valid d; Ok d.

Definition warm_new (profile logical_name : string) (produced_by : Uuid) (produced_at_unix : Z)
    (current : VolumePointer) : result WireError PublishedWarm :=
  warm_document (mkWarm 1 profile logical_name (vp_generation current) produced_by produced_at_unix
                   current []).

Definition repointed (d : PublishedWarm) (logical_name : string) (produced_by : Uuid)
    (produced_at_unix : Z) (current : VolumePointer) : result WireError PublishedWarm :=
  warm_document (mkWarm 1 (pw_profile d) logical_name (vp_generation current) produced_by
                   produced_at_unix current (pw_current d :: pw_superseded d)).

(** The first of the list that matches, and the list without it. *)
Fixpoint take_first {A} (f : A -> bool) (l : list A) : option (A * list A) :=
  match l with
  | [] => None
  | x :: l => if f x then Some (x, l) else '(y, l) ← take_first f l; Some (y, x :: l)
  end.

Definition restored (d : PublishedWarm) (generation : Z) : result WireError PublishedWarm :=
  taken ← ok_or (take_first (fun p => vp_generation p =? generation) (pw_superseded d))
            (WireInvalid WARM "restored generation");
  let '(current, superseded) := taken in
  warm_document (mkWarm 1 (pw_profile d) (pw_logical_name d) (vp_generation current) (pw_produced_by d)
                   (vp_produced_at_unix current) current (pw_current d :: superseded)).

Definition without_superseded (d : PublishedWarm) (volume_key : string) : result WireError PublishedWarm :=
  warm_document (d <| pw_superseded :=
    List.filter (fun p => negb (bool_decide (vp_volume_key p = volume_key))) (pw_superseded d) |>).

Definition parse_warm {JC : JsonCodec PublishedWarm} : string -> result WireError PublishedWarm :=
  parse_document WARM "size" WARM MAX_PUBLISHED_WARM_BYTES ensure_warm_valid.
Definition encode_warm {JC : JsonCodec PublishedWarm} : PublishedWarm -> result WireError string :=
  encode_document WARM "size" MAX_PUBLISHED_WARM_BYTES ensure_warm_valid.

(** ** The helper ([libvirt_helper/]) *)

Definition MAX_LIBVIRT_HELPER_REQUEST_BYTES : Z := 33554432.
Definition MAX_LIBVIRT_HELPER_REPLY_BYTES : Z := 4194304.
Definition MAX_LIBVIRT_HELPER_FAILURE_BYTES : Z := 384.
Definition MAX_HELPER_PATH_BYTES : Z := 4096.
Definition MAX_SEED_BYTES : Z := 4194304.
Definition MAX_GUEST_SCRIPT_BYTES : Z := 65536.
Definition MAX_LOGIN_PRELUDE_BYTES : Z := 256.
Definition MAX_AGENT_ARGUMENT_BYTES : Z := 131072.
Definition MAX_AGENT_ARGUMENTS : Z := 16.
Definition MAX_AGENT_INPUT_BYTES : Z := 65536.
Definition MAX_AGENT_OUTPUT_BYTES : Z := 16384.
Definition MAX_AGENT_REASON_BYTES : Z := 320.
Definition MAX_RETIREMENT_POINTERS : Z := 512.
Definition MAX_RUNTIME_MAX_SEC : Z := 86400.
Definition MAX_READY_WAIT_SECONDS : Z := 120.

Record HelperConfig := {
  hcf_uri : string;
  hcf_pool : string;
  hcf_network : string;
  hcf_state_dir : PathBuf;
  hcf_service_instance : Uuid;
  hcf_min_storage_free_bytes : Z;
  hcf_allow_insecure_transport : bool;
  hcf_is_warm_declared : bool;
}.

Record AgentExecRequest := {
  ax_path : string;
  ax_arguments : list string;
  ax_input : option string;
  ax_is_output_captured : bool;
}.

Inductive AgentExecOutcome :=
| AgentRunning
| AgentLost (reason : string)
| AgentExited (exit_code signal : option Z) (stdout : string) (is_truncated : bool) (stderr : string).

Inductive HelperRequest :=
| HProbe (config : HelperConfig)
| HInventory (config : HelperConfig)
| HCheckSource (config : HelperConfig) (pointer : VolumePointer)
| HCreate (config : HelperConfig) (manifest : OwnershipManifest) (source : VolumePointer)
    (seed : string) (storage_bytes : Z)
| HDefine (config : HelperConfig) (manifest : OwnershipManifest) (cpu_count memory_mb : Z)
| HStart (config : HelperConfig) (manifest : OwnershipManifest)
| HAddress (config : HelperConfig) (manifest : OwnershipManifest) (timeout_seconds : Z)
| HCleanup (config : HelperConfig) (manifest : OwnershipManifest) (timeout_seconds : Z)
| HImport (config : HelperConfig) (logical_name volume_name : string) (staged_image_path : PathBuf)
    (manifest : BaseImageManifest)
| HDeleteVolume (config : HelperConfig) (key : option string) (name : string)
| HWarmQuiesce (config : HelperConfig) (manifest : OwnershipManifest) (timeout_seconds : Z)
| HWarmCapture (config : HelperConfig) (manifest : OwnershipManifest) (profile : string)
    (capture_id : Uuid) (generation virtual_bytes : Z)
| HWarmVerify (config : HelperConfig) (profile : string) (capture_id : Uuid)
    (generation produced_at_unix virtual_bytes : Z)
| HAgentProbe (config : HelperConfig) (manifest : OwnershipManifest) (timeout_seconds : Z)
| HAgentExec (config : HelperConfig) (manifest : OwnershipManifest) (request : AgentExecRequest)
    (timeout_seconds : Z)
| HAgentExecStatus (config : HelperConfig) (manifest : OwnershipManifest) (pid timeout_seconds : Z)
| HWarmRetire (config : HelperConfig) (candidates protected : list VolumePointer).

Definition request_config (request : HelperRequest) : HelperConfig :=
  match request with
  | HProbe config | HInventory config | HCheckSource config _ | HCreate config _ _ _ _
  | HDefine config _ _ _ | HStart config _ | HAddress config _ _ | HCleanup config _ _
  | HImport config _ _ _ _ | HDeleteVolume config _ _ | HWarmQuiesce config _ _
  | HWarmCapture config _ _ _ _ _ | HWarmVerify config _ _ _ _ _ | HAgentProbe config _ _
  | HAgentExec config _ _ _ | HAgentExecStatus config _ _ _ | HWarmRetire config _ _ => config
  end.

Definition HELPER : string := "libvirt helper".
Local Abbreviation helper_field := (valid_field HELPER).

Definition ensure_helper_config (config : HelperConfig) : result WireError unit :=
  helper_field "config"
    (is_supported_libvirt_uri (hcf_uri config) (hcf_allow_insecure_transport config)
     && is_safe_name (hcf_pool config) MAX_SAFE_NAME_BYTES
     && is_safe_name (hcf_network config) MAX_SAFE_NAME_BYTES
     && is_normal_absolute (hcf_state_dir config) MAX_HELPER_PATH_BYTES
     && negb (is_nil (hcf_service_instance config))
     && negb (hcf_min_storage_free_bytes config =? 0)).

Definition ensure_capture (profile : string) (capture_id : Uuid) (generation virtual_bytes : Z) :
    result WireError unit :=
  helper_field "warm capture"
    (is_safe_name profile MAX_SAFE_NAME_BYTES && negb (is_nil capture_id)
     && negb (generation =? 0) && negb (virtual_bytes =? 0)).

(** *** Commands in the guest ([validate/agent.rs]) *)

Definition RUNUSER : string := "/usr/sbin/runuser".
Definition SYSTEMD_RUN : string := "/usr/bin/systemd-run".
Definition SYSTEMCTL : string := "/usr/bin/systemctl".
Definition GUEST_READY : string := "/usr/local/libexec/flanforge-guest-ready".
Definition PRIVILEGED_ACCOUNT : string := "root".

Definition nul : ascii := ascii_of_nat 0.
Definition contains_nul (value : string) : bool := any_byte (Ascii.eqb nul) value.

Definition ensure_agent_timeout (timeout_seconds : Z) : result WireError unit :=
  helper_field "agent exec timeout" (in_range 1 5 timeout_seconds).

Definition ensure_login_shell (account script : string) : result WireError unit :=
  helper_field "agent exec login shell"
    (is_safe_account_name account && negb (bool_decide (account = PRIVILEGED_ACCOUNT))
     && negb (is_empty script) && (len script <=? MAX_GUEST_SCRIPT_BYTES + MAX_LOGIN_PRELUDE_BYTES)
     && negb (contains_nul script)).

Definition job_unit (id : Uuid) : string := "flanforge-job-" +:+ id +:+ ".service".

Section helper.
Context {UC : UuidCodec} {WC : WireCodec}.

Definition ensure_job_unit (unit_name : string) : result WireError unit :=
  let parsed :=
    value ← strip_prefix unit_name "flanforge-job-";
    value ← strip_suffix value ".service"; not_nil value in
  helper_field "agent exec unit"
    match parsed with
    | Some id => bool_decide (job_unit id = unit_name)
    | None => false
    end.

(** [str::parse::<u64>] of digits. *)
Definition parse_seconds (value : string) : option Z :=
  if is_empty value || negb (all_bytes is_ascii_digit value) || (u64_max <? digits_value 0 value)
  then None else Some (digits_value 0 value).

Definition ensure_bounded_seconds (value : string) (maximum : Z) (field : string) :
    result WireError unit :=
  helper_field field
    match parse_seconds value with
    | Some seconds => in_range 1 maximum seconds
    | None => false
    end.

Definition ensure_runtime_max (property : string) : result WireError unit :=
  match strip_prefix property "--property=RuntimeMaxSec=" with
  | None => Err (WireInvalid HELPER "agent exec runtime bound")
  | Some seconds => ensure_bounded_seconds seconds MAX_RUNTIME_MAX_SEC "agent exec runtime bound"
  end.

Definition ensure_capture_free (request : AgentExecRequest) : result WireError unit :=
  helper_field "agent exec capture" (negb (ax_is_output_captured request)).

Definition ensure_input_free (request : AgentExecRequest) : result WireError unit :=
  helper_field "agent exec input" (bool_decide (ax_input request = None)).

(** The arguments at literal positions. *)
Definition literals (expected : list (string * string)) : bool :=
  forallb (fun e => bool_decide (e.1 = e.2)) expected.

Definition ensure_shape (request : AgentExecRequest) : result WireError unit :=
  let refused := Err (WireInvalid HELPER "agent exec shape") in
  if bool_decide (ax_path request = RUNUSER) then
    match ax_arguments request with
    | [l; account; c; script] =>
        if literals [(l, "-l"); (c, "-c")] then ensure_login_shell account script else refused
    | _ => refused
    end
  else if bool_decide (ax_path request = SYSTEMD_RUN) then
    match ax_arguments request with
    | [unit_name; pipe; wait; runtime_max; stop; runuser; l; account; c; script] =>
        if literals [(pipe, "--pipe"); (wait, "--wait"); (stop, "--property=TimeoutStopSec=10");
                     (runuser, RUNUSER); (l, "-l"); (c, "-c")] then
          _ ← ensure_job_unit (default "" (strip_prefix unit_name "--unit="));
          _ ← ensure_runtime_max runtime_max;
          ensure_login_shell account script
        else refused
    | _ => refused
    end
  else if bool_decide (ax_path request = SYSTEMCTL) then
    match ax_arguments request with
    | [stop; unit_name] =>
        if literals [(stop, "stop")] then
          _ ← ensure_capture_free request;
          _ ← ensure_input_free request;
          ensure_job_unit unit_name
        else refused
    | _ => refused
    end
  else if bool_decide (ax_path request = GUEST_READY) then
    match ax_arguments request with
    | [wait; seconds] =>
        if literals [(wait, "--wait-seconds")] then
          _ ← ensure_input_free request;
          ensure_bounded_seconds seconds MAX_READY_WAIT_SECONDS "agent exec wait seconds"
        else refused
    | _ => refused
    end
  else refused.

(** The arguments' lengths added up; [None] where the sum overflows. *)
Fixpoint total_bytes (total : Z) (arguments : list string) : option Z :=
  match arguments with
  | [] => Some total
  | argument :: arguments =>
      if usize_max <? total + len argument then None
      else total_bytes (total + len argument) arguments
  end.

Definition ensure_exec_valid (request : AgentExecRequest) (timeout_seconds : Z) :
    result WireError unit :=
  _ ← ensure_agent_timeout timeout_seconds;
  _ ← helper_field "agent exec argv"
        (is_normal_absolute (ax_path request) MAX_HELPER_PATH_BYTES
         && (Z.of_nat (length (ax_arguments request)) <=? MAX_AGENT_ARGUMENTS)
         && from_option (fun total => total <=? MAX_AGENT_ARGUMENT_BYTES) false
              (total_bytes 0 (ax_arguments request))
         && negb (existsb contains_nul (ax_arguments request)));
  _ ← helper_field "agent exec input"
        (from_option (fun input => negb (is_empty input) && (len input <=? MAX_AGENT_INPUT_BYTES)) true
           (ax_input request));
  _ ← helper_field "agent exec capture"
        (negb (bool_decide (is_Some (ax_input request)) && ax_is_output_captured request));
  ensure_shape request.

Definition ensure_status_valid (pid timeout_seconds : Z) : result WireError unit :=
  _ ← ensure_agent_timeout timeout_seconds;
  helper_field "agent exec pid" (0 <? pid).

Definition ensure_outcome_valid (outcome : AgentExecOutcome) : result WireError unit :=
  match outcome with
  | AgentRunning => Ok tt
  | AgentLost reason =>
      helper_field "agent exec lost reason"
        (negb (is_empty reason) && (len reason <=? MAX_AGENT_REASON_BYTES)
         && all_bytes (fun c => is_ascii_graphic c || one_of " " c) reason)
  | AgentExited exit_code signal stdout _ stderr =>
      helper_field "agent exec outcome"
        ((len stdout <=? MAX_AGENT_OUTPUT_BYTES) && (len stderr <=? MAX_AGENT_OUTPUT_BYTES)
         && negb (Bool.eqb (bool_decide (is_Some exit_code)) (bool_decide (is_Some signal))))
  end.

(** *** Requests ([validate/request.rs]) *)

Definition ensure_import_request (config : HelperConfig) (logical_name volume_name : string)
    (staged_image_path : PathBuf) (manifest : BaseImageManifest) : result WireError unit :=
  match artifact_id volume_name "base-import-" ".qcow2" with
  | None => Err (WireInvalid HELPER "import volume_name")
  | Some import_id =>
      let expected_path :=
        join (join (join (hcf_state_dir config) "libvirt") "imports")
          ("import-" +:+ import_id +:+ ".qcow2") in
      _ ← helper_field "import"
            (is_safe_name logical_name MAX_SAFE_NAME_BYTES
             && is_normal_absolute staged_image_path MAX_HELPER_PATH_BYTES
             && path_eqb staged_image_path expected_path);
      ensure_manifest_valid manifest
  end.

Definition ensure_guest_request (request : HelperRequest) : result WireError unit :=
  match request with
  | HCreate _ manifest source seed storage_bytes =>
      _ ← ensure_ownership_valid manifest;
      _ ← ensure_pointer_valid source;
      helper_field "create"
        (negb (is_empty seed) && (len seed <=? MAX_SEED_BYTES) && negb (storage_bytes =? 0))
  | HDefine _ manifest cpu_count memory_mb =>
      _ ← ensure_ownership_valid manifest;
      helper_field "define" (negb (cpu_count =? 0) && (2048 <=? memory_mb))
  | HStart _ manifest => ensure_ownership_valid manifest
  | HAgentProbe _ manifest timeout_seconds =>
      _ ← ensure_ownership_valid manifest; ensure_agent_timeout timeout_seconds
  | HAgentExec _ manifest request timeout_seconds =>
      _ ← ensure_ownership_valid manifest; ensure_exec_valid request timeout_seconds
  | HAgentExecStatus _ manifest pid timeout_seconds =>
      _ ← ensure_ownership_valid manifest; ensure_status_valid pid timeout_seconds
  | HAddress _ manifest timeout_seconds =>
      _ ← ensure_ownership_valid manifest;
      helper_field "address timeout" (in_range 1 5 timeout_seconds)
  | HCleanup _ manifest timeout_seconds =>
      _ ← ensure_ownership_valid manifest;
      helper_field "cleanup timeout" (in_range 1 600 timeout_seconds)
  | _ => Ok tt
  end.

Definition ensure_warm_request (request : HelperRequest) : result WireError unit :=
  match request with
  | HWarmQuiesce _ manifest timeout_seconds =>
      _ ← ensure_ownership_valid manifest;
      helper_field "quiesce timeout" (in_range 1 600 timeout_seconds)
  | HWarmCapture _ manifest profile capture_id generation virtual_bytes =>
      _ ← ensure_ownership_valid manifest;
      ensure_capture profile capture_id generation virtual_bytes
  | HWarmVerify _ profile capture_id generation _ virtual_bytes =>
      ensure_capture profile capture_id generation virtual_bytes
  | HWarmRetire _ candidates protected =>
      _ ← helper_field "retire"
            (negb (bool_decide (candidates = []))
             && (Z.of_nat (length candidates) <=? MAX_RETIREMENT_POINTERS)
             && (Z.of_nat (length protected) <=? MAX_RETIREMENT_POINTERS));
      try_for_each ensure_pointer_valid (candidates ++ protected)
  | _ => Ok tt
  end.

Definition ensure_request_valid (request : HelperRequest) : result WireError unit :=
  let config := request_config request in
  _ ← ensure_helper_config config;
  match request with
  | HProbe _ | HInventory _ => Ok tt
  | HCheckSource _ pointer => ensure_pointer_valid pointer
  | HImport _ logical_name volume_name staged_image_path manifest =>
      ensure_import_request config logical_name volume_name staged_image_path manifest
  | HDeleteVolume _ key name =>
      helper_field "delete volume"
        (from_option (fun key => is_safe_key key MAX_VOLUME_KEY_BYTES) true key
         && is_safe_name name MAX_SAFE_NAME_BYTES)
  | request => _ ← ensure_guest_request request; ensure_warm_request request
  end.

(** *** Replies ([validate/reply.rs]) *)

Inductive HelperFailureCode :=
| HfInvalidRequest | HfConfiguration | HfUnavailable | HfDeadline | HfNotFound | HfTransient
| HfCapacity | HfConflict | HfLibvirt | HfOwnership | HfManifest | HfSeed | HfInternal.

#[export] Instance HelperFailureCode_eq_dec : EqDecision HelperFailureCode.
Proof. solve_decision. Defined.

Record HelperFailure := { hf_code : HelperFailureCode; hf_message : string }.

Definition failure_new (code : HelperFailureCode) (message : string) : HelperFailure :=
  let spaced := text (map (fun c => if is_ascii_control c then " "%char else c) (bytes message)) in
  {| hf_code := code;
     hf_message := bounded_text spaced (Z.to_nat MAX_LIBVIRT_HELPER_FAILURE_BYTES) |}.

Record HelperMachine := {
  hmc_name : string;
  hmc_state : MachineState;
  hmc_age_seconds : option Z;
  hmc_size : option GuestSize;
  hmc_ownership : MachineOwnership;
}.

Inductive HelperReply :=
| RUnit
| RInventory (machines : list HelperMachine)
| RManifest (manifest : OwnershipManifest)
| RAddress (address : option string)
| RPublished (publication : PublishedBase)
| RWarm (pointer : VolumePointer)
| RRetired (keys : list string)
| RAgentProbe (enabled : bool)
| RAgentStarted (pid : Z)
| RAgentOutcome (outcome : AgentExecOutcome)
| RError (failure : HelperFailure).

Definition is_machine_size (size : GuestSize) : bool :=
  negb ((cpu_count size =? 0) || (memory_mb size =? 0) || (storage_mb size =? 0)).

Definition ensure_reply_valid (reply : HelperReply) : result WireError unit :=
  match reply with
  | RUnit | RAddress _ | RAgentProbe _ => Ok tt
  | RAgentStarted pid => helper_field "agent started" (0 <? pid)
  | RAgentOutcome outcome => ensure_outcome_valid outcome
  | RManifest manifest => ensure_ownership_valid manifest
  | RPublished publication => ensure_published_valid publication
  | RWarm pointer => ensure_pointer_valid pointer
  | RRetired keys =>
      helper_field "retired"
        ((Z.of_nat (length keys) <=? MAX_RETIREMENT_POINTERS)
         && forallb (fun key => is_safe_key key MAX_VOLUME_KEY_BYTES) keys)
  | RInventory machines =>
      helper_field "inventory"
        ((Z.of_nat (length machines) <=? 4096)
         && forallb (fun m => is_safe_name (hmc_name m) MAX_SAFE_NAME_BYTES
                              && from_option is_machine_size true (hmc_size m)) machines)
  | RError failure =>
      helper_field "error"
        (negb (is_empty (hf_message failure))
         && (len (hf_message failure) <=? MAX_LIBVIRT_HELPER_FAILURE_BYTES)
         && negb (any_byte is_ascii_control (hf_message failure)))
  end.

Definition parse_request {JC : JsonCodec HelperRequest} : string -> result WireError HelperRequest :=
  parse_document HELPER "request size" "libvirt helper request" MAX_LIBVIRT_HELPER_REQUEST_BYTES ensure_request_valid.
Definition encode_request {JC : JsonCodec HelperRequest} : HelperRequest -> result WireError string :=
  encode_document HELPER "request size" MAX_LIBVIRT_HELPER_REQUEST_BYTES ensure_request_valid.
Definition parse_reply {JC : JsonCodec HelperReply} : string -> result WireError HelperReply :=
  parse_document HELPER "reply size" "libvirt helper reply" MAX_LIBVIRT_HELPER_REPLY_BYTES ensure_reply_valid.
Definition encode_reply {JC : JsonCodec HelperReply} : HelperReply -> result WireError string :=
  encode_document HELPER "reply size" MAX_LIBVIRT_HELPER_REPLY_BYTES ensure_reply_valid.
End helper.

(** ** What the helper may be asked to run *)

Lemma valid_field_ok contract field condition u :
  valid_field contract field condition = Ok u <-> condition = true.
Proof. unfold valid_field. by rewrite ensure_ok. Qed.

Section exec.
Context {UC : UuidCodec}.

(** A unit of one of the daemon's jobs. *)
Definition is_job_unit (unit_name : string) : Prop :=
  exists id, unit_name = job_unit id /\ id <> uuid_nil /\ uuid_parse id = Some id.

Lemma ensure_job_unit_spec unit_name : ensure_job_unit unit_name = Ok tt <-> is_job_unit unit_name.
Proof.
  unfold ensure_job_unit, not_nil, is_nil, mbind, option_bind. rewrite valid_field_ok. split.
  - destruct (strip_prefix unit_name "flanforge-job-") as [v|] eqn:Hp; [|done].
    apply strip_prefix_spec in Hp. destruct (strip_suffix v ".service") as [w|] eqn:Hs; [|done].
    apply strip_suffix_spec in Hs. destruct (uuid_parse w) as [id|] eqn:Hu; [|done].
    case_bool_decide as Hn; [done|]. intros Hj%bool_decide_eq_true. exists id.
    split_and!; [done|done|].
    subst unit_name v. unfold job_unit in Hj. apply string_app_inj_l, string_app_inj_r in Hj. by subst w.
  - intros (id & Hj & Hn & Hu).
    assert (strip_prefix unit_name "flanforge-job-" = Some (id +:+ ".service")) as ->
      by by apply strip_prefix_spec.
    assert (strip_suffix (id +:+ ".service") ".service" = Some id) as -> by by apply strip_suffix_spec.
    rewrite Hu, bool_decide_eq_false_2 by done. by apply bool_decide_eq_true.
Qed.

(** An unprivileged login shell running a bounded script. *)
Definition is_login_shell (account script : string) : Prop :=
  is_safe_account_name account = true /\ account <> "root" /\ script <> "" /\
  len script <= 65792 /\ contains_nul script = false.

Lemma ensure_login_shell_spec account script :
  ensure_login_shell account script = Ok tt <-> is_login_shell account script.
Proof.
  unfold ensure_login_shell, is_login_shell. rewrite valid_field_ok, !andb_true_iff, !negb_true_iff.
  rewrite bool_decide_eq_false, Z.leb_le. unfold PRIVILEGED_ACCOUNT. rewrite <- not_true_iff_false, is_empty_spec.
  tauto.
Qed.

Definition is_seconds (maximum : Z) (value : string) : Prop :=
  exists seconds, parse_seconds value = Some seconds /\ 1 <= seconds <= maximum.

Lemma ensure_bounded_seconds_spec value maximum field :
  ensure_bounded_seconds value maximum field = Ok tt <-> is_seconds maximum value.
Proof.
  unfold ensure_bounded_seconds, is_seconds. rewrite valid_field_ok.
  destruct (parse_seconds value) as [s|]; [rewrite in_range_spec|]; naive_solver.
Qed.

(** The commands the daemon sends: a login shell, one inside a bounded
    transient unit of its own, the stop of such a unit, and the readiness
    gate. *)
Inductive guest_command (r : AgentExecRequest) : Prop :=
| command_shell account script :
    ax_path r = "/usr/sbin/runuser" -> ax_arguments r = ["-l"; account; "-c"; script] ->
    is_login_shell account script -> guest_command r
| command_job unit_name seconds account script :
    ax_path r = "/usr/bin/systemd-run" ->
    ax_arguments r = ["--unit=" +:+ unit_name; "--pipe"; "--wait";
      "--property=RuntimeMaxSec=" +:+ seconds; "--property=TimeoutStopSec=10"; "/usr/sbin/runuser";
      "-l"; account; "-c"; script] ->
    is_job_unit unit_name -> is_seconds 86400 seconds -> is_login_shell account script ->
    guest_command r
| command_stop unit_name :
    ax_path r = "/usr/bin/systemctl" -> ax_arguments r = ["stop"; unit_name] ->
    ax_is_output_captured r = false -> ax_input r = None -> is_job_unit unit_name -> guest_command r
| command_ready seconds :
    ax_path r = "/usr/local/libexec/flanforge-guest-ready" ->
    ax_arguments r = ["--wait-seconds"; seconds] -> ax_input r = None -> is_seconds 120 seconds ->
    guest_command r.

Lemma ensure_shape_command r : ensure_shape r = Ok tt -> guest_command r.
Proof.
  unfold ensure_shape. destruct r as [path arguments input captured]. cbn [ax_path ax_arguments].
  case_bool_decide as H1; [|case_bool_decide as H2; [|case_bool_decide as H3; [|case_bool_decide as H4; [|done]]]].
  - do 4 (destruct arguments as [|? arguments]; [done|]). destruct arguments; [|done].
    destruct (literals _) eqn:Hl; [|done]. unfold literals in Hl. simpl in Hl. simplify_bool. subst.
    intros H%ensure_login_shell_spec. by eapply command_shell.
  - do 10 (destruct arguments as [|? arguments]; [done|]). destruct arguments; [|done].
    destruct (literals _) eqn:Hl; [|done]. unfold literals in Hl. simpl in Hl. simplify_bool. subst.
    intros ([] & Hu & Hr)%result_bind_ok. apply result_bind_ok in Hr as ([] & Hr & Hs).
    apply ensure_job_unit_spec in Hu. apply ensure_login_shell_spec in Hs.
    destruct (strip_prefix s "--unit=") as [u|] eqn:Hp.
    2: { destruct Hu as (id & Hu & _). simpl in Hu. unfold job_unit in Hu. discriminate Hu. }
    apply strip_prefix_spec in Hp. unfold ensure_runtime_max in Hr.
    destruct (strip_prefix s2 "--property=RuntimeMaxSec=") as [n|] eqn:Hn; [|done].
    apply strip_prefix_spec in Hn. apply ensure_bounded_seconds_spec in Hr. subst.
    by eapply command_job.
  - do 2 (destruct arguments as [|? arguments]; [done|]). destruct arguments; [|done].
    destruct (literals _) eqn:Hl; [|done]. unfold literals in Hl. simpl in Hl. simplify_bool. subst.
    intros ([] & Hc & Hr)%result_bind_ok. apply result_bind_ok in Hr as ([] & Hi & Hu).
    apply valid_field_ok in Hc, Hi. apply ensure_job_unit_spec in Hu. simplify_bool. by eapply command_stop.
  - do 2 (destruct arguments as [|? arguments]; [done|]). destruct arguments; [|done].
    destruct (literals _) eqn:Hl; [|done]. unfold literals in Hl. simpl in Hl. simplify_bool. subst.
    intros ([] & Hi & Hs)%result_bind_ok. apply valid_field_ok in Hi.
    apply ensure_bounded_seconds_spec in Hs. simplify_bool. by eapply command_ready.
Qed.

Lemma command_ensure_shape r : guest_command r -> ensure_shape r = Ok tt.
Proof.
  unfold ensure_shape. destruct r as [path arguments input captured].
  intros [account script Hp Ha Hs|u n account script Hp Ha Hu Hn Hs|u Hp Ha Hc Hi Hu|n Hp Ha Hi Hn];
    simpl in *; subst; simpl.
  - by apply ensure_login_shell_spec.
  - assert (strip_prefix ("--property=RuntimeMaxSec=" +:+ n) "--property=RuntimeMaxSec=" = Some n) as Hn'
      by by apply strip_prefix_spec.
    rewrite drop_0, string_nil_app, text_bytes, (proj2 (ensure_job_unit_spec u) Hu). simpl.
    unfold ensure_runtime_max. rewrite Hn'.
    rewrite (proj2 (ensure_bounded_seconds_spec n 86400 _) Hn). simpl. by apply ensure_login_shell_spec.
  - by apply ensure_job_unit_spec.
  - by apply ensure_bounded_seconds_spec.
Qed.

(** The privileged helper runs exactly the commands the daemon needs.  An
    exec request is accepted if and only if its timeout and sizes are bounded,
    no argument carries a NUL, a command that is fed a secret has no output
    captured, and it is a login shell of an unprivileged account, that shell
    inside a bounded unit of the daemon's own, the stop of such a unit, or the
    readiness gate: nothing else is spelled by any request. *)
Theorem ensure_exec_valid_spec request timeout_seconds :
  ensure_exec_valid request timeout_seconds = Ok tt <->
  (1 <= timeout_seconds <= 5) /\
  is_normal_absolute (ax_path request) MAX_HELPER_PATH_BYTES = true /\
  Z.of_nat (length (ax_arguments request)) <= MAX_AGENT_ARGUMENTS /\
  (exists total, total_bytes 0 (ax_arguments request) = Some total /\ total <= MAX_AGENT_ARGUMENT_BYTES) /\
  Forall (fun argument => contains_nul argument = false) (ax_arguments request) /\
  (forall input, ax_input request = Some input ->
     input <> "" /\ len input <= MAX_AGENT_INPUT_BYTES /\ ax_is_output_captured request = false) /\
  guest_command request.
Proof.
  unfold ensure_exec_valid, ensure_agent_timeout. rewrite !result_bind_ok.
  split.
  - intros ([] & Ht & Hr). rewrite valid_field_ok in Ht.
    apply result_bind_ok in Hr as ([] & Ha & Hr). apply result_bind_ok in Hr as ([] & Hi & Hr).
    apply result_bind_ok in Hr as ([] & Hc & Hs). rewrite valid_field_ok in Ha, Hi, Hc.
    apply ensure_shape_command in Hs. simplify_bool.
    split_and!; try done; try lia.
    + destruct (total_bytes 0 _) as [t|]; [|done]. exists t. simpl in *. by simplify_bool.
    + apply Forall_forall. intros a Hin. destruct (contains_nul a) eqn:Hn; [|done].
      match goal with H : existsb _ _ = false |- _ => apply not_true_iff_false in H; destruct H end.
      apply existsb_exists. exists a. split; [by apply list_elem_of_In|done].
    + intros input Hin. rewrite Hin in *. simpl in *. simplify_bool.
      split_and!; [by intros ->|done|done].
  - intros (Ht & Hp & Hn & (t & Hb & Hle) & Hnul & Hin & Hcmd). exists tt.
    rewrite valid_field_ok, in_range_spec. split; [done|]. apply result_bind_ok. exists tt.
    rewrite valid_field_ok, Hp, Hb. simpl. split.
    { apply andb_true_iff. split; [apply andb_true_iff; split; by apply Z.leb_le|].
      apply negb_true_iff, not_true_iff_false. intros (a & Ha & Hnil)%existsb_exists.
      rewrite Forall_forall in Hnul. rewrite Hnul in Hnil; [done|by apply list_elem_of_In]. }
    apply result_bind_ok. exists tt. rewrite valid_field_ok. split.
    { destruct (ax_input request) as [input|]; [|done]. destruct (Hin input eq_refl) as (Hne & Hl & _). simpl.
      apply andb_true_iff. split; [|by apply Z.leb_le]. apply negb_true_iff, not_true_iff_false.
      by rewrite is_empty_spec. }
    apply result_bind_ok. exists tt. rewrite valid_field_ok. split; [|by apply command_ensure_shape].
    destruct (ax_input request) as [input|]; [|done]. by destruct (Hin input eq_refl) as (_ & _ & ->).
Qed.
End exec.

(** ** Warm documents keep their volumes *)

(** The volumes are told apart by name and by key. *)
Definition distinct (l : list VolumePointer) : Prop :=
  NoDup (map vp_volume_name l) /\ NoDup (map vp_volume_key l).

Lemma distinct_perm l l' : l ≡ₚ l' -> distinct l -> distinct l'.
Proof.
  intros Hp [H1 H2]. by split; eapply NoDup_Permutation_proper;
    [symmetry; apply Permutation_map, Hp| |symmetry; apply Permutation_map, Hp|].
Qed.

Lemma is_same_volume_false p q :
  is_same_volume p q = false <->
  vp_volume_name p <> vp_volume_name q /\ vp_volume_key p <> vp_volume_key q.
Proof. unfold is_same_volume. by rewrite orb_false_iff, !bool_decide_eq_false. Qed.

Lemma ensure_pointers_distinct_ok before rest :
  distinct before ->
  ensure_pointers_distinct before rest = Ok tt <-> distinct (before ++ rest).
Proof.
  revert before. induction rest as [|p rest IH]; intros before Hb; simpl; [by rewrite app_nil_r|].
  assert (existsb (fun other => is_same_volume other p) before = false <-> distinct (before ++ [p])) as Hp.
  { rewrite existsb_false. unfold distinct in Hb |- *. rewrite !map_app. simpl. rewrite !NoDup_app.
    setoid_rewrite is_same_volume_false. setoid_rewrite list_elem_of_singleton. split.
    - intros Hd. split_and!; try tauto; try apply NoDup_singleton;
        intros x (q & -> & Hq)%list_elem_of_fmap He; by destruct (Hd q Hq).
    - intros [(_ & H1 & _) (_ & H2 & _)] q Hq. split; intros He;
        [eapply (H1 (vp_volume_name q)) | eapply (H2 (vp_volume_key q))]; try done;
        apply list_elem_of_fmap; eauto. }
  rewrite result_bind_ok. split.
  - intros ([] & Hd & Hr). rewrite valid_field_ok, negb_true_iff, Hp in Hd. apply IH in Hr; [|done]. by rewrite <- app_assoc in Hr.
  - intros Hd. assert (distinct (before ++ [p])) as Hd'.
    { rewrite (cons_middle p before rest), app_assoc in Hd. destruct Hd as [H1 H2].
      rewrite map_app in H1, H2. apply NoDup_app in H1 as [H1 _], H2 as [H2 _]. by split. }
    exists tt. rewrite valid_field_ok, negb_true_iff, Hp. split; [done|]. apply IH; [done|].
    by rewrite <- app_assoc.
Qed.

(** What a valid document is. *)
Record warm_ok (d : PublishedWarm) : Prop := {
  wo_schema : pw_schema_version d = 1;
  wo_profile : is_safe_name (pw_profile d) MAX_PROFILE_BYTES = true;
  wo_logical : is_safe_name (pw_logical_name d) MAX_LOGICAL_NAME_BYTES = true;
  wo_produced_by : pw_produced_by d <> uuid_nil;
  wo_superseded : Z.of_nat (length (pw_superseded d)) <= MAX_SUPERSEDED_POINTERS;
  wo_pointers : Forall (fun p => ensure_pointer_valid p = Ok tt /\ vp_generation p <> 0) (pointers d);
  wo_distinct : distinct (pointers d);
  wo_generation : vp_generation (pw_current d) = pw_generation d;
}.

Lemma ensure_warm_valid_ok d : ensure_warm_valid d = Ok tt <-> warm_ok d.
Proof.
  unfold ensure_warm_valid. split.
  - intros Hv. repeat (apply result_bind_ok in Hv as ([] & ? & Hv)).
    repeat match goal with H : valid_field _ _ _ = Ok _ |- _ => rewrite valid_field_ok in H end.
    match goal with H : try_for_each _ _ = Ok _ |- _ => rewrite try_for_each_ok in H; rename H into Hp end.
    match goal with H : ensure_pointers_distinct _ _ = Ok _ |- _ =>
      apply ensure_pointers_distinct_ok in H; [|by split; apply NoDup_nil] end.
    simplify_bool. unfold is_nil in *. simplify_bool. split; try done.
    inversion Hp as [|? ? Hc Hs]; subst. constructor; [split; [done|congruence]|].
    apply Forall_forall. intros p Hin. rewrite Forall_forall in Hs. split; [by apply Hs|].
    match goal with H : existsb _ _ = false |- _ => rewrite existsb_false in H; apply H in Hin end.
    by apply Z.eqb_neq.
  - intros [H1 H2 H3 H4 H5 H6 H7 H8]. unfold valid_field. rewrite H1, H2, H3. simpl.
    assert (Forall (fun p => ensure_pointer_valid p = Ok tt) (pointers d)) as Hp
      by (eapply Forall_impl; [exact H6|]; by intros ? [? _]).
    apply (try_for_each_ok ensure_pointer_valid (pointers d) tt) in Hp.
    inversion H6 as [|? ? [_ Hc] Hs]; subst.
    assert ((pw_generation d =? 0) = false) as -> by (apply Z.eqb_neq; congruence).
    unfold is_nil. rewrite bool_decide_eq_false_2 by done. simpl.
    assert ((Z.of_nat (length (pw_superseded d)) <=? MAX_SUPERSEDED_POINTERS) = true) as ->
      by by apply Z.leb_le. simpl.
    unfold pointers in *. simpl in Hp |- *.
    destruct (ensure_pointer_valid (pw_current d)) as [[]|]; [|done]. simpl in Hp |- *.
    rewrite Hp. simpl. change (ensure_pointers_distinct [pw_current d] (pw_superseded d))
      with (ensure_pointers_distinct [] (pw_current d :: pw_superseded d)).
    rewrite (proj2 (ensure_pointers_distinct_ok [] _ ltac:(by split; apply NoDup_nil)) H7). simpl.
    rewrite H8, Z.eqb_refl. simpl.
    assert (existsb (fun p => vp_generation p =? 0) (pw_superseded d) = false) as ->; [|done].
    apply existsb_false. intros p Hin. rewrite Forall_forall in Hs. apply Z.eqb_neq. by apply Hs.
Qed.

Lemma warm_document_ok d d' : warm_document d = Ok d' <-> d' = d /\ warm_ok d.
Proof.
  unfold warm_document. rewrite result_bind_ok. setoid_rewrite <- ensure_warm_valid_ok.
  split; [intros ([] & H & [= <-]); done|]. intros [-> H]. by exists tt.
Qed.

Lemma warm_document_of d : warm_ok d -> warm_document d = Ok d.
Proof. intros H. by apply warm_document_ok. Qed.

Lemma take_first_some {A} (f : A -> bool) l x l' :
  take_first f l = Some (x, l') <->
  exists l1 l2, l = l1 ++ x :: l2 /\ l' = l1 ++ l2 /\ f x = true /\ Forall (fun y => f y = false) l1.
Proof.
  revert l'. induction l as [|y l IH]; intros l'; simpl.
  { split; [done|]. intros (l1 & l2 & H & _). by destruct l1. }
  destruct (f y) eqn:Hf.
  - split.
    + intros [= <- <-]. exists [], l. by repeat split.
    + intros (l1 & l2 & H & -> & Hx & Hall). destruct l1 as [|z l1]; simplify_eq/=; [done|].
      inversion Hall; congruence.
  - split.
    + intros Hs. destruct (take_first f l) as [[z k]|]; simplify_eq/=.
      destruct (proj1 (IH k) eq_refl) as (l1 & l2 & -> & -> & Hx & Hall).
      exists (y :: l1), l2. repeat split; auto.
    + intros (l1 & l2 & H & -> & Hx & Hall). destruct l1 as [|z l1]; simplify_eq/=; [congruence|].
      inversion Hall; subst. rewrite (proj2 (IH (l1 ++ l2))); [done|]. exists l1, l2. done.
Qed.

Lemma take_first_none {A} (f : A -> bool) l : take_first f l = None <-> Forall (fun y => f y = false) l.
Proof.
  induction l as [|y l IH]; simpl; [by split|]. rewrite Forall_cons. destruct (f y) eqn:Hf; [naive_solver|].
  rewrite <- IH. destruct (take_first f l) as [[]|]; simpl; naive_solver.
Qed.

(** The document one move makes of another. *)
Lemma repointed_ok d logical_name produced_by produced_at current :
  warm_ok d ->
  warm_ok (mkWarm 1 (pw_profile d) logical_name (vp_generation current) produced_by produced_at
             current (pointers d)) <->
  is_safe_name logical_name MAX_LOGICAL_NAME_BYTES = true /\ produced_by <> uuid_nil /\
  (ensure_pointer_valid current = Ok tt /\ vp_generation current <> 0) /\
  Forall (fun p => is_same_volume p current = false) (pointers d) /\
  Z.of_nat (length (pw_superseded d)) < MAX_SUPERSEDED_POINTERS.
Proof.
  intros [H1 H2 H3 H4 H5 H6 H7 H8]. split.
  - intros [K1 K2 K3 K4 K5 K6 K7 K8]. simpl in *. apply Forall_cons in K6 as [K6 _]. split_and!; try tauto.
    + apply Forall_forall. intros p Hp. apply is_same_volume_false.
      change (distinct (current :: pointers d)) in K7. destruct K7 as [L1 L2]. rewrite !map_cons in *.
      apply NoDup_cons in L1 as [L1 _], L2 as [L2 _].
      split; intros He; [apply L1; rewrite <- He|apply L2; rewrite <- He]; apply list_elem_of_fmap; eauto.
    + unfold pointers in K5. simpl in K5. lia.
  - intros (K1 & K2 & K3 & K4 & K5). split; simpl; try done.
    + unfold pointers. simpl. lia.
    + by apply Forall_cons.
    + change (distinct (current :: pointers d)). rewrite Forall_forall in K4. destruct H7 as [L1 L2].
      split; rewrite map_cons; apply NoDup_cons; split; try done;
        intros (p & He & Hp)%list_elem_of_fmap; apply K4, is_same_volume_false in Hp as [? ?]; congruence.
Qed.

Lemma restored_ok d current newer older :
  warm_ok d -> pw_superseded d = newer ++ current :: older ->
  warm_ok (mkWarm 1 (pw_profile d) (pw_logical_name d) (vp_generation current) (pw_produced_by d)
             (vp_produced_at_unix current) current (pw_current d :: newer ++ older)) /\
  current :: pw_current d :: newer ++ older ≡ₚ pointers d.
Proof.
  intros [H1 H2 H3 H4 H5 H6 H7 H8] Hs.
  assert (current :: pw_current d :: newer ++ older ≡ₚ pointers d) as Hp.
  { unfold pointers. rewrite Hs. rewrite Permutation_swap. apply Permutation_skip.
    by rewrite Permutation_middle. }
  split; [|done]. split; simpl; try done.
  - rewrite Hs in H5. rewrite length_app in *. simpl in *. lia.
  - unfold pointers. simpl. by rewrite Hp.
  - by eapply distinct_perm.
Qed.

Lemma without_superseded_ok d key :
  warm_ok d -> exists d', without_superseded d key = Ok d' /\ warm_ok d' /\ pw_current d' = pw_current d /\
    forall p, p ∈ pw_superseded d' <-> p ∈ pw_superseded d /\ vp_volume_key p <> key.
Proof.
  intros [H1 H2 H3 H4 H5 H6 H7 H8]. unfold without_superseded.
  set (kept := List.filter _ _). assert (kept `sublist_of` pw_superseded d) as Hsub
    by apply filter_bool_sublist.
  assert (warm_ok (d <| pw_superseded := kept |>)) as Hok.
  { split; simpl; try done.
    - apply sublist_length in Hsub. lia.
    - unfold pointers in *. simpl. apply Forall_cons in H6 as [? H6]. apply Forall_cons. split; [done|].
      rewrite Forall_forall in H6 |- *. intros p Hp. apply H6.
      unfold kept in Hp. rewrite !list_elem_of_In, filter_In in *. tauto.
    - destruct H7 as [L1 L2]. unfold pointers in *. simpl in *.
      split; simpl; [eapply sublist_NoDup; [exact L1|] | eapply sublist_NoDup; [exact L2|]];
        apply sublist_skip, fmap_sublist, Hsub. }
  exists (d <| pw_superseded := kept |>). rewrite warm_document_ok. split_and!; try done.
  intros p. simpl. unfold kept. rewrite !list_elem_of_In, filter_In, negb_true_iff, bool_decide_eq_false. done.
Qed.

(** No move of a warm document forgets a volume or names one twice.  Of a
    valid document: promotion puts the new volume first and keeps every other,
    and is accepted when the volume is new, valid and within the bound; a
    rollback is accepted exactly when a superseded entry carries the generation,
    brings back the latest of them and keeps every volume; it undoes a
    promotion; and a retirement is always accepted, drops the one volume of the
    key and never the current.  Every result is again a valid document. *)
Theorem warm_moves_spec d :
  ensure_warm_valid d = Ok tt ->
  (forall logical_name produced_by produced_at current d',
     repointed d logical_name produced_by produced_at current = Ok d' ->
     ensure_warm_valid d' = Ok tt /\ pointers d' = current :: pointers d /\
     exists back, restored d' (pw_generation d) = Ok back /\ pw_current back = pw_current d /\
       pw_superseded back = current :: pw_superseded d) /\
  (forall logical_name produced_by produced_at current,
     is_safe_name logical_name MAX_LOGICAL_NAME_BYTES = true -> produced_by <> uuid_nil ->
     ensure_pointer_valid current = Ok tt -> vp_generation current <> 0 ->
     Forall (fun p => is_same_volume p current = false) (pointers d) ->
     Z.of_nat (length (pw_superseded d)) < MAX_SUPERSEDED_POINTERS ->
     is_ok (repointed d logical_name produced_by produced_at current) = true) /\
  (forall generation,
     is_ok (restored d generation) = true <->
     exists p, p ∈ pw_superseded d /\ vp_generation p = generation) /\
  (forall generation d', restored d generation = Ok d' ->
     ensure_warm_valid d' = Ok tt /\ pointers d' ≡ₚ pointers d /\ pw_generation d' = generation /\
     exists newer older, pw_superseded d = newer ++ pw_current d' :: older /\
       Forall (fun p => vp_generation p <> generation) newer) /\
  (forall key, exists d', without_superseded d key = Ok d' /\ ensure_warm_valid d' = Ok tt /\
     pw_current d' = pw_current d /\
     forall p, p ∈ pw_superseded d' <-> p ∈ pw_superseded d /\ vp_volume_key p <> key).
Proof.
  rewrite ensure_warm_valid_ok. intros Hd. split_and!.
  - intros ln by_ at_ current d' Hr. apply warm_document_ok in Hr as [-> Hok]. rewrite ensure_warm_valid_ok.
    split_and!; [done|done|]. eexists. split; [|split].
    + unfold restored. simpl. rewrite (wo_generation _ Hd), Z.eqb_refl. simpl. apply warm_document_ok.
      split; [done|]. exact (proj1 (restored_ok _ (pw_current d) [] (pw_superseded d) Hok eq_refl)).
    + done.
    + done.
  - intros ln by_ at_ current K1 K2 K3 K4 K5 K6. unfold repointed.
    rewrite warm_document_of; [done|]. by apply (repointed_ok d).
  - intros g. unfold restored. destruct (take_first _ _) as [[current superseded]|] eqn:Ht; simpl.
    + apply take_first_some in Ht as (newer & older & Hs & -> & Hg & _).
      rewrite warm_document_of by by apply (restored_ok d).
      split; [intros _|done]. exists current. rewrite Hs. simplify_bool. set_solver.
    + apply take_first_none in Ht. split; [done|]. intros (p & Hp & Hg). rewrite Forall_forall in Ht.
      apply Ht in Hp. by rewrite Hg, Z.eqb_refl in Hp.
  - intros g d' Hr. unfold restored in Hr. apply result_bind_ok in Hr as ([current superseded] & Ht & Hr).
    apply ok_or_ok in Ht. apply take_first_some in Ht as (newer & older & Hs & -> & Hg & Hall).
    apply warm_document_ok in Hr as [-> Hok]. rewrite ensure_warm_valid_ok. simpl. split_and!; [done| | |].
    + by apply (restored_ok d).
    + by simplify_bool.
    + exists newer, older. split; [done|]. eapply Forall_impl; [exact Hall|]. intros p Hp. by apply Z.eqb_neq.
  - intros key. destruct (without_superseded_ok d key Hd) as (d' & H1 & H2 & H3). exists d'.
    by rewrite ensure_warm_valid_ok.
Qed.

(** ** Checkpoints name what they own *)

Section checkpoints.
Context {UC : UuidCodec}.

Lemma find_volume_app role c v :
  find_volume role c = None -> cv_role v = role ->
  List.find (is_role role) (vc_volumes c ++ [v]) = Some v.
Proof.
  unfold find_volume. induction (vc_volumes c) as [|x l IH]; simpl.
  - intros _ Hr. unfold is_role. by rewrite bool_decide_eq_true_2.
  - destruct (is_role role x); [done|]. auto.
Qed.

Lemma find_volume_role role c v : find_volume role c = Some v -> v ∈ vc_volumes c /\ cv_role v = role.
Proof.
  intros [Hin Hr]%find_some. split; [by apply list_elem_of_In|]. by apply bool_decide_eq_true in Hr.
Qed.

Lemma sole_role_ok field role name volumes :
  ensure_sole_role field role name volumes = Ok tt ->
  forall v, v ∈ volumes -> cv_role v = role /\ cv_name v = name.
Proof.
  unfold ensure_sole_role. rewrite valid_field_ok, negb_true_iff, orb_false_iff, existsb_false.
  intros [_ Hall] v Hv. apply Hall in Hv. unfold is_role in Hv. by simplify_bool.
Qed.

Lemma binding_ok field c service_instance pool owner misnamed :
  ensure_binding field c service_instance pool owner misnamed = Ok tt ->
  ensure_checkpoint_valid c = Ok tt /\ vc_service_instance c = service_instance /\
  vc_pool c = pool /\ vc_owner c = owner /\ forall v, v ∈ vc_volumes c -> misnamed v = false.
Proof.
  intros ([] & Hv & Hb)%result_bind_ok. rewrite valid_field_ok in Hb. simplify_bool.
  by rewrite existsb_false in *.
Qed.

Lemma owned_volumes c :
  ensure_checkpoint_valid c = Ok tt ->
  match vc_owner c with
  | OwnerAllocation _ => True
  | OwnerImport id => forall v, v ∈ vc_volumes c -> cv_role v = RoleBase /\ cv_name v = import_volume_name id
  | OwnerWarm _ id => forall v, v ∈ vc_volumes c -> cv_role v = RoleWarm /\ cv_name v = warm_volume_name id
  end.
Proof.
  unfold ensure_checkpoint_valid. intros Hv. repeat (apply result_bind_ok in Hv as (? & ? & Hv)).
  destruct (vc_owner c); [done|..]; by eapply sole_role_ok.
Qed.

(** A checkpoint never names a volume its owner may not delete.
    Recording keeps a valid checkpoint valid and forgets nothing; it succeeds
    exactly when the role then holds that volume, and a refusal changes
    nothing.  A checkpoint bound to an allocation, a warm capture or an import
    names only volumes of that owner's own names. *)
Theorem checkpoint_owns role name key c :
  ensure_checkpoint_valid c = Ok tt ->
  (let '(answer, c') := record_volume role name key c in
   ensure_checkpoint_valid c' = Ok tt /\ vc_volumes c `prefix_of` vc_volumes c' /\
   (answer = Ok tt <-> find_volume role c' = Some {| cv_role := role; cv_name := name; cv_key := key |}) /\
   (answer <> Ok tt -> c' = c)) /\
  forall instance pool id v, v ∈ vc_volumes c ->
    (forall overlay seed, ensure_allocation c instance pool id overlay seed = Ok tt ->
       (cv_role v = RoleOverlay /\ cv_name v = overlay) \/ (cv_role v = RoleSeed /\ cv_name v = seed)) /\
    (forall profile, ensure_warm_binding c instance pool profile id = Ok tt ->
       cv_role v = RoleWarm /\ cv_name v = warm_volume_name id) /\
    (forall volume, ensure_import_binding c instance pool id volume = Ok tt ->
       cv_role v = RoleBase /\ cv_name v = volume /\ volume = import_volume_name id).
Proof.
  intros Hc. split.
  - unfold record_volume. destruct (find_volume role c) as [e|] eqn:Hf.
    + destruct (_ && _) eqn:He; (split; [done|]); split; try done; (split; [|done]).
      * simplify_bool. pose proof (find_volume_role _ _ _ Hf) as [_ Hr]. destruct e; simpl in *; subst.
        by rewrite Hf.
      * split; [done|]. rewrite Hf. intros [= ->]. simpl in He. by rewrite !bool_decide_eq_true_2 in He.
    + destruct (ensure_checkpoint_valid (c <| vc_volumes := _ |>)) as [[]|error] eqn:Hv.
      * split; [done|]. split; [by apply prefix_app_r|]. split; [|done]. split; [|done]. intros _.
        by apply find_volume_app.
      * split; [done|]. split; [done|]. split; [|done]. by rewrite Hf.
  - intros instance pool id v Hv. split_and!.
    + intros overlay seed (_ & _ & _ & _ & Hn)%binding_ok. apply Hn in Hv.
      destruct (cv_role v); simplify_bool; auto; done.
    + intros profile (_ & _ & _ & Ho & _)%binding_ok. pose proof (owned_volumes c Hc) as Hw.
      rewrite Ho in Hw. by apply Hw.
    + intros volume (_ & _ & _ & Ho & Hn)%binding_ok. pose proof (owned_volumes c Hc) as Hw.
      rewrite Ho in Hw. destruct (Hw v Hv) as [Hr Hname]. apply Hn in Hv. simplify_bool. by rewrite <- Hname.
Qed.
End checkpoints.

(** ** Documents read back *)

Section roundtrip.
Context {UC : UuidCodec} {WC : WireCodec}.

(** Decoding nothing fails. *)
Definition rejects_empty {D} (JC : JsonCodec D) : Prop := json_parse (A := D) "" = None.

Lemma encoded_reads_back {D} {JC : JsonCodec D} contract size decoded maximum valid document bytes :
  rejects_empty JC -> encode_document contract size maximum valid document = Ok bytes ->
  parse_document contract size decoded maximum valid bytes = Ok document.
Proof.
  intros He Hb. eapply document_roundtrip; [done|]. intros ->.
  apply encode_document_ok in Hb as (_ & _ & Hj). unfold rejects_empty in He.
  by rewrite Hj, json_roundtrip in He.
Qed.

(** What the daemon writes to recover from, it reads back.  Tombstones,
    checkpoints and warm documents read back as they were written; and whatever
    is read is bounded and valid. *)
Theorem documents_roundtrip
    {J1 : JsonCodec CleanupTombstone} {J2 : JsonCodec VolumeCheckpoint} {J3 : JsonCodec PublishedWarm} :
  rejects_empty J1 -> rejects_empty J2 -> rejects_empty J3 ->
  (forall d bytes, encode_tombstone d = Ok bytes -> parse_tombstone bytes = Ok d) /\
  (forall d bytes, encode_checkpoint d = Ok bytes -> parse_checkpoint bytes = Ok d) /\
  (forall d bytes, encode_warm d = Ok bytes -> parse_warm bytes = Ok d) /\
  (forall d bytes, parse_tombstone bytes = Ok d ->
     len bytes <= MAX_CLEANUP_TOMBSTONE_BYTES /\ ensure_tombstone_valid d = Ok tt) /\
  (forall d bytes, parse_checkpoint bytes = Ok d ->
     len bytes <= MAX_VOLUME_CHECKPOINT_BYTES /\ ensure_checkpoint_valid d = Ok tt) /\
  (forall d bytes, parse_warm bytes = Ok d ->
     len bytes <= MAX_PUBLISHED_WARM_BYTES /\ ensure_warm_valid d = Ok tt).
Proof.
  intros H1 H2 H3. split_and!; intros d bytes;
    [apply (encoded_reads_back (JC := J1)); done|apply (encoded_reads_back (JC := J2)); done
    |apply (encoded_reads_back (JC := J3)); done|..];
    intros (? & ? & _)%parse_document_ok; done.
Qed.

(** The two sides of the helper's pipe agree: each accepts what the other
    sends, and nothing else. *)
Lemma helper_boundary {J4 : JsonCodec HelperRequest} {J5 : JsonCodec HelperReply} :
  rejects_empty J4 -> rejects_empty J5 ->
  (forall d bytes, encode_request d = Ok bytes -> parse_request bytes = Ok d) /\
  (forall d bytes, encode_reply d = Ok bytes -> parse_reply bytes = Ok d) /\
  (forall d bytes, parse_request bytes = Ok d ->
     len bytes <= MAX_LIBVIRT_HELPER_REQUEST_BYTES /\ ensure_request_valid d = Ok tt) /\
  (forall d bytes, parse_reply bytes = Ok d ->
     len bytes <= MAX_LIBVIRT_HELPER_REPLY_BYTES /\ ensure_reply_valid d = Ok tt).
Proof.
  intros H4 H5. split_and!; intros d bytes;
    [apply (encoded_reads_back (JC := J4)); done|apply (encoded_reads_back (JC := J5)); done|..];
    intros (? & ? & _)%parse_document_ok; done.
Qed.
End roundtrip.

(** ** Witnesses *)

(** A codec of countable documents that rejects the empty text. *)
Definition braced_json A `{Countable A} : JsonCodec A.
Proof.
  refine {| to_json a := "{" +:+ bits (encode a);
            json_parse s := s ← strip_prefix s "{"; decode (of_bits s) |}.
  intros a. rewrite (proj2 (strip_prefix_spec _ _ _) eq_refl). simpl.
  by rewrite of_bits_bits, decode_encode.
Defined.

#[export] Instance tombstone_countable : Countable CleanupTombstone.
Proof.
  refine (inj_countable' (fun t => (ct_schema_version t, ct_allocation_id t, ct_service_instance t,
      ct_domain_name t, ct_domain_uuid t, ct_cleaned_unix_seconds t))
    (fun '(a, b, c, d, e, f) => {| ct_schema_version := a; ct_allocation_id := b;
       ct_service_instance := c; ct_domain_name := d; ct_domain_uuid := e; ct_cleaned_unix_seconds := f |}) _).
  by intros [].
Defined.

#[export] Instance owner_countable : Countable CheckpointOwner.
Proof.
  refine (inj_countable' (fun o => match o with
      | OwnerAllocation id => inl id | OwnerImport id => inr (inl id)
      | OwnerWarm profile id => inr (inr (profile, id)) end)
    (fun o => match o with
      | inl id => OwnerAllocation id | inr (inl id) => OwnerImport id
      | inr (inr (profile, id)) => OwnerWarm profile id end) _).
  by intros [].
Defined.

#[export] Instance volume_countable : Countable CheckpointVolume.
Proof.
  refine (inj_countable' (fun v => (match cv_role v with RoleOverlay => 0 | RoleSeed => 1 | RoleBase => 2
                                    | RoleWarm => 3 end, cv_name v, cv_key v))
    (fun '(r, n, k) => {| cv_role := if r =? 0 then RoleOverlay else if r =? 1 then RoleSeed
                            else if r =? 2 then RoleBase else RoleWarm; cv_name := n; cv_key := k |}) _).
  by intros [[] n k].
Defined.

#[export] Instance checkpoint_countable : Countable VolumeCheckpoint.
Proof.
  refine (inj_countable' (fun c => (vc_schema_version c, vc_service_instance c, vc_pool c, vc_owner c,
      vc_volumes c))
    (fun '(a, b, c, d, e) => mkCheckpoint a b c d e) _).
  by intros [].
Defined.

#[export] Instance pointer_countable : Countable VolumePointer.
Proof.
  refine (inj_countable' (fun p => (vp_pool p, vp_volume_name p, vp_volume_key p, vp_virtual_bytes p,
      vp_generation p, vp_produced_at_unix p))
    (fun '(a, b, c, d, e, f) => {| vp_pool := a; vp_volume_name := b; vp_volume_key := c;
       vp_virtual_bytes := d; vp_generation := e; vp_produced_at_unix := f |}) _).
  by intros [].
Defined.

#[export] Instance warm_countable : Countable PublishedWarm.
Proof.
  refine (inj_countable' (fun d => (pw_schema_version d, pw_profile d, pw_logical_name d, pw_generation d,
      pw_produced_by d, pw_produced_at_unix d, pw_current d, pw_superseded d))
    (fun '(a, b, c, d, e, f, g, h) => mkWarm a b c d e f g h) _).
  by intros [].
Defined.

Definition example_id : Uuid := "5a0c1f64-9f52-4f43-8a54-0d9d2f6c8b11".

#[local] Instance example_uuids : UuidCodec := {| uuid_parse := Some |}.

Definition example_pointer (name : string) (generation : Z) : VolumePointer :=
  {| vp_pool := "flanforge"; vp_volume_name := name; vp_volume_key := "/pool/" +:+ name;
     vp_virtual_bytes := 42949672960; vp_generation := generation; vp_produced_at_unix := 1000 |}.

(** Two generations, the older one superseded. *)
Definition example_warm : PublishedWarm :=
  mkWarm 1 "linux" "linux-warm" 2 example_id 1000 (example_pointer "warm-2.qcow2" 2)
    [example_pointer "warm-1.qcow2" 1].

Definition example_checkpoint : VolumeCheckpoint :=
  mkCheckpoint 1 example_id "flanforge" (OwnerAllocation example_id)
    [{| cv_role := RoleOverlay; cv_name := "root-" +:+ example_id +:+ ".qcow2"; cv_key := "/pool/root" |}].

(** A rollback to the first generation. *)
Lemma warm_moves_spec_witness :
  is_ok (restored example_warm 1) = true /\ is_ok (restored example_warm 3) = false.
Proof.
  pose proof (warm_moves_spec example_warm ltac:(vm_compute; reflexivity)) as (_ & _ & Hr & _).
  split; [|by vm_compute]. apply Hr. exists (example_pointer "warm-1.qcow2" 1). split; [by left|done].
Defined.

(** The seed is recorded beside the root volume. *)
Lemma checkpoint_owns_witness :
  let '(answer, c') := record_volume RoleSeed ("seed-" +:+ example_id +:+ ".img") "/pool/seed" example_checkpoint in
  answer = Ok tt /\ find_volume RoleSeed c' =
    Some {| cv_role := RoleSeed; cv_name := "seed-" +:+ example_id +:+ ".img"; cv_key := "/pool/seed" |}.
Proof.
  pose proof (checkpoint_owns (UC := example_uuids) RoleSeed ("seed-" +:+ example_id +:+ ".img") "/pool/seed" example_checkpoint
    ltac:(vm_compute; reflexivity)) as [Hr _].
  destruct (record_volume _ _ _ _) as [answer c'] eqn:He. destruct Hr as (_ & _ & Hr & _).
  assert (answer = Ok tt) as Ha by (apply (f_equal fst) in He; by vm_compute in He).
  split; [done|]. by apply Hr.
Defined.

Lemma documents_roundtrip_witness :
  let J1 := braced_json CleanupTombstone in
  let J2 := braced_json VolumeCheckpoint in
  let J3 := braced_json PublishedWarm in
  is_ok (encode_warm example_warm) = true /\
  forall bytes, encode_warm example_warm = Ok bytes -> parse_warm bytes = Ok example_warm.
Proof.
  intros J1 J2 J3. split; [by vm_compute|].
  apply (documents_roundtrip (J1 := J1) (J2 := J2) (J3 := J3)); by vm_compute.
Defined.
