(* ===== verification/Futures.v ===== *)
(** * Futures ([tokio], as [crates/flanforge-runtime] uses it)

    A backend's steps wait on other processes, under timeouts and a
    cancellation token.  Such a step is a function of the state it shares with
    the host; besides answering it may be dropped where it waits, when the
    clock or the token ends the wait around it, and the daemon may die.  The
    state is what the host and the daemon made of the step up to there.

    [wp] is the program logic the backends' theorems use: one postcondition
    per way a step can end. *)

From S2P Require Import Prelude Rust Text Admission.

Open Scope Z_scope.
Open Scope stdpp_scope.

(** [Dropped cancelled]: ended where it waited, by the cancellation token or
    by the clock.  [Crashed]: the daemon died. *)
Inductive outcome (A : Type) :=
| Done (a : A)
| Dropped (cancelled : bool)
| Crashed.

Arguments Done {A} a.
Arguments Dropped {A} cancelled.
Arguments Crashed {A}.

Definition Fut (S A : Type) : Type := S -> outcome A * S.

#[export] Instance Fut_ret S : MRet (Fut S) := fun _ a s => (Done a, s).

#[export] Instance Fut_bind S : MBind (Fut S) := fun _ _ k c s =>
  match c s with
  | (Done a, s) => k a s
  | (Dropped cancelled, s) => (Dropped cancelled, s)
  | (Crashed, s) => (Crashed, s)
  end.

(** A step that always answers. *)
Definition answer {S A} (f : S -> A * S) : Fut S A := fun s => let '(a, s) := f s in (Done a, s).

(** A step on a part of the state. *)
Definition on {S T A} (get : S -> T) (put : T -> S -> S) (c : Fut T A) : Fut S A := fun s =>
  let '(o, t) := c (get s) in (o, put t s).

(** The [?] operator. *)
Definition fut_try {S E A B} (c : Fut S (result E A)) (k : A -> Fut S (result E B)) :
    Fut S (result E B) :=
  r ← c; match r with Ok a => k a | Err e => mret (Err e) end.

Notation "x ←! c ; k" := (fut_try c (fun x => k))
  (at level 20, c at level 100, k at level 200, right associativity) : stdpp_scope.

Definition fut_map_err {S E F A} (f : E -> F) (c : Fut S (result E A)) : Fut S (result F A) :=
  r ← c; mret (map_err f r).

(** [tokio::time::timeout(..).await.map_err(..)??]: a wait the clock ends is
    the error. *)
Definition timed {S E A} (elapsed : E) (c : Fut S (result E A)) : Fut S (result E A) := fun s =>
  match c s with
  | (Dropped _, s) => (Done (Err elapsed), s)
  | done => done
  end.

(** [let _ = tokio::time::timeout(..).await]. *)
Definition attempted {S A} (c : Fut S A) : Fut S unit := fun s =>
  match c s with
  | (Crashed, s) => (Crashed, s)
  | (_, s) => (Done tt, s)
  end.

(** [GuestJob::phase]. *)
Definition phase {S A} (timeout_message : string) (c : Fut S (result WorkerError A)) :
    Fut S (result WorkerError A) := fun s =>
  match c s with
  | (Dropped true, s) => (Done (Err (worker_error_new "allocation was cancelled")), s)
  | (Dropped false, s) => (Done (Err (worker_error_new timeout_message)), s)
  | done => done
  end.

(** ** The program logic *)

Section wp.
Context {S : Type}.
Implicit Types D C : S -> Prop.

Definition wp {A} (c : Fut S A) (Q : A -> S -> Prop) D C (s : S) : Prop :=
  match c s with
  | (Done a, s) => Q a s
  | (Dropped _, s) => D s
  | (Crashed, s) => C s
  end.

Lemma wp_ret {A} (a : A) Q D C s : Q a s -> wp (mret a) Q D C s.
Proof. done. Qed.

Lemma wp_answer {A} (f : S -> A * S) Q D C s : Q (f s).1 (f s).2 -> wp (answer f) Q D C s.
Proof. unfold wp, answer. by destruct (f s). Qed.

Lemma wp_mono {A} (c : Fut S A) (Q Q' : A -> S -> Prop) D D' C C' s :
  wp c Q D C s ->
  (forall a s, Q a s -> Q' a s) -> (forall s, D s -> D' s) -> (forall s, C s -> C' s) ->
  wp c Q' D' C' s.
Proof. unfold wp. destruct (c s) as [[] ?]; eauto. Qed.

Lemma wp_bind {A B} (c : Fut S A) (k : A -> Fut S B) Q D C s :
  wp c (fun a => wp (k a) Q D C) D C s -> wp (x ← c; k x) Q D C s.
Proof. unfold wp, mbind, Fut_bind. by destruct (c s) as [[] ?]. Qed.

Lemma wp_try {E A B} (c : Fut S (result E A)) (k : A -> Fut S (result E B)) Q D C s :
  wp c (fun r s => match r with Ok a => wp (k a) Q D C s | Err e => Q (Err e) s end) D C s ->
  wp (fut_try c k) Q D C s.
Proof.
  intros H. apply wp_bind. eapply wp_mono; [exact H| |done|done]. by intros [] ?.
Qed.

Lemma wp_map_err {E F A} (f : E -> F) (c : Fut S (result E A)) Q D C s :
  wp c (fun r => Q (map_err f r)) D C s -> wp (fut_map_err f c) Q D C s.
Proof. intros H. apply wp_bind. eapply wp_mono; [exact H|done..]. Qed.

Lemma wp_timed {E A} (e : E) (c : Fut S (result E A)) Q D C s :
  wp c Q (Q (Err e)) C s -> wp (timed e c) Q D C s.
Proof. unfold wp, timed. by destruct (c s) as [[] ?]. Qed.

Lemma wp_attempted {A} (c : Fut S A) Q D C s :
  wp c (fun _ => Q tt) (Q tt) C s -> wp (attempted c) Q D C s.
Proof. unfold wp, attempted. by destruct (c s) as [[] ?]. Qed.

(** A phase answers an error of its own when its wait is ended. *)
Lemma wp_phase {A} message (c : Fut S (result WorkerError A)) Q D C s :
  wp c Q (fun s => forall e, Q (Err e) s) C s -> wp (phase message c) Q D C s.
Proof. unfold wp, phase. by destruct (c s) as [[|[]|] ?]; simpl. Qed.

(** ** Invariants: what holds whichever way a step ends *)

Definition maintains {A} (I : S -> Prop) (c : Fut S A) : Prop :=
  forall s, I s -> wp c (fun _ => I) I I s.

Lemma maintains_ret {A} I (a : A) : maintains I (mret a).
Proof. by intros s Hs. Qed.

Lemma maintains_answer {A} (I : S -> Prop) (f : S -> A * S) :
  (forall s, I s -> I (f s).2) -> maintains I (answer f).
Proof. intros H s Hs. by apply wp_answer, H. Qed.

Lemma maintains_bind {A B} I (c : Fut S A) (k : A -> Fut S B) :
  maintains I c -> (forall a, maintains I (k a)) -> maintains I (x ← c; k x).
Proof.
  intros Hc Hk s Hs. apply wp_bind. eapply wp_mono; [by apply Hc| |done|done].
  intros a s' Hs'. by apply Hk.
Qed.

Lemma maintains_try {E A B} I (c : Fut S (result E A)) (k : A -> Fut S (result E B)) :
  maintains I c -> (forall a, maintains I (k a)) -> maintains I (fut_try c k).
Proof. intros Hc Hk. apply maintains_bind; [done|]. intros []; [done | apply maintains_ret]. Qed.

Lemma maintains_map_err {E F A} I (f : E -> F) (c : Fut S (result E A)) :
  maintains I c -> maintains I (fut_map_err f c).
Proof. intros H. apply maintains_bind; [done|]. intros. apply maintains_ret. Qed.

Lemma maintains_timed {E A} I (e : E) (c : Fut S (result E A)) : maintains I c -> maintains I (timed e c).
Proof. intros H s Hs. apply wp_timed. by apply H. Qed.

Lemma maintains_attempted {A} I (c : Fut S A) : maintains I c -> maintains I (attempted c).
Proof. intros H s Hs. apply wp_attempted. by apply H. Qed.

Lemma maintains_phase {A} I message (c : Fut S (result WorkerError A)) :
  maintains I c -> maintains I (phase message c).
Proof.
  intros H s Hs. apply wp_phase. eapply wp_mono; [by apply H|done| |done]. by intros ? ? ?.
Qed.

Lemma maintains_if {A} I (b : bool) (c d : Fut S A) :
  maintains I c -> maintains I d -> maintains I (if b then c else d).
Proof. by destruct b. Qed.

(** A step whose waits all end: it answers, or the daemon dies. *)
Definition ends {A} (c : Fut S A) : Prop := forall s cancelled, (c s).1 <> Dropped cancelled.

Lemma ends_ret {A} (a : A) : ends (mret a).
Proof. by intros s b. Qed.

Lemma ends_answer {A} (f : S -> A * S) : ends (answer f).
Proof. intros s b. unfold answer. by destruct (f s). Qed.

Lemma ends_bind {A B} (c : Fut S A) (k : A -> Fut S B) :
  ends c -> (forall a, ends (k a)) -> ends (x ← c; k x).
Proof.
  intros Hc Hk s b. unfold mbind, Fut_bind. specialize (Hc s).
  destruct (c s) as [[] ?]; simpl; [apply Hk| |done]. intros [= ->]. by apply (Hc b).
Qed.

Lemma ends_try {E A B} (c : Fut S (result E A)) (k : A -> Fut S (result E B)) :
  ends c -> (forall a, ends (k a)) -> ends (fut_try c k).
Proof. intros Hc Hk. apply ends_bind; [done|]. intros []; [done | apply ends_ret]. Qed.

Lemma ends_timed {E A} (e : E) (c : Fut S (result E A)) : ends (timed e c).
Proof. intros s b. unfold timed. by destruct (c s) as [[] ?]. Qed.

Lemma ends_attempted {A} (c : Fut S A) : ends (attempted c).
Proof. intros s b. unfold attempted. by destruct (c s) as [[] ?]. Qed.

Lemma ends_phase {A} message (c : Fut S (result WorkerError A)) : ends (phase message c).
Proof. intros s b. unfold phase. by destruct (c s) as [[|[]|] ?]. Qed.

Lemma maintains_ends {A} (I : S -> Prop) (c : Fut S A) s :
  maintains I c -> ends c -> I s -> wp c (fun _ => I) (fun _ => False) I s.
Proof.
  intros Hm He Hs. specialize (Hm s Hs). specialize (He s). unfold wp in *.
  destruct (c s) as [[] ?]; try done. by apply (He cancelled).
Qed.
End wp.

Arguments wp {S A} c Q D C s : simpl never.

(** Automation for invariants and for waits that end. *)
Create HintDb maintains.
#[export] Hint Resolve maintains_ret maintains_bind maintains_try maintains_map_err maintains_timed maintains_attempted
  maintains_phase maintains_if : maintains.

Create HintDb ends.
#[export] Hint Resolve ends_ret ends_answer ends_timed ends_attempted ends_phase : ends.

(** Steps through a computation down to its calls and case analyses. *)
Ltac walk_maintains :=
  repeat first
    [ progress intros
    | solve [eauto with maintains]
    | apply maintains_bind | apply maintains_try | apply maintains_map_err | apply maintains_timed
    | apply maintains_attempted | apply maintains_phase
    | match goal with |- maintains _ (match ?x with _ => _ end) => destruct x end ].

Ltac walk_ends :=
  repeat first
    [ progress intros
    | solve [eauto with ends]
    | apply ends_bind | apply ends_try
    | match goal with |- ends (match ?x with _ => _ end) => destruct x end ].

(** A step on a part of the state moves nothing else. *)
Lemma wp_on {S T A} (get : S -> T) put (c : Fut T A) Q D C s :
  wp c (fun a t => Q a (put t s)) (fun t => D (put t s)) (fun t => C (put t s)) (get s) ->
  wp (on get put c) Q D C s.
Proof. unfold wp, on. by destruct (c (get s)) as [[] ?]. Qed.

Lemma ends_on {S T A} (get : S -> T) put (c : Fut T A) : ends c -> ends (on get put c).
Proof.
  intros H s b. unfold on. specialize (H (get s) b). by destruct (c (get s)).
Qed.

#[export] Hint Resolve ends_on : ends.

(** ** Polling

    [loop { attempt; if now >= deadline { return Err }; sleep(poll) }]: what
    [attempt] answers ends the loop unless it is [Ok None].  The fuel is for
    the number of sleeps the wait has room for. *)

Section poll.
Context {S A : Type} (now : S -> Z * S) (sleep : Z -> S -> S).
Context (attempt : Fut S (result WorkerError (option A))) (expired : WorkerError) (pause : Z).

Fixpoint poll_until (fuel : nat) (deadline : Z) : Fut S (result WorkerError A) :=
  match fuel with
  | O => fun s => (Dropped false, s)
  | Datatypes.S fuel =>
      r ←! attempt;
      match r with
      | Some a => mret (Ok a)
      | None =>
          t ← answer now;
          if deadline <=? t then mret (Err expired)
          else _ ← answer (fun s => (tt, sleep pause s)); poll_until fuel deadline
      end
  end.

(** The sleeps a wait of [timeout] has room for, one attempt more, and the
    attempt after the last. *)
Definition poll_fuel (timeout : Z) : nat := Z.to_nat (timeout / pause) + 2.

(** A clock the loop can rely on: it does not go back over an attempt, and a
    sleep moves it on by its length. *)
Definition clocked (clock : S -> Z) : Prop :=
  (forall s, clock s <= (now s).1 /\ (now s).1 <= clock (now s).2) /\
  (forall s, clock s + pause <= clock (sleep pause s)) /\
  (forall s, clock s <= clock (attempt s).2).

Lemma poll_until_ends clock fuel deadline s cancelled :
  0 < pause -> clocked clock -> ends attempt ->
  Z.max 0 (deadline - clock s) <= pause * (Z.of_nat fuel - 1) ->
  (poll_until fuel deadline s).1 <> Dropped cancelled.
Proof.
  intros Hpause (Hnow & Hsleep & Hatt) Hends. revert s.
  induction fuel as [|fuel IH]; intros s Hfuel; [exfalso; lia|]. simpl.
  unfold fut_try, mbind, Fut_bind. specialize (Hends s). specialize (Hatt s).
  destruct (attempt s) as [[[[a|]|e]|b|] s1]; simpl in *; try done; [|by intros [= ->]; apply (Hends cancelled)].
  unfold answer. specialize (Hnow s1). destruct (now s1) as [t s2]. simpl in Hnow.
  destruct (Z.leb_spec deadline t); simpl; [done|].
  specialize (Hsleep s2). apply IH.
  replace (pause * (Z.of_nat (Datatypes.S fuel) - 1)) with (pause * (Z.of_nat fuel - 1) + pause)
    in Hfuel by lia.
  assert (1 <= Z.of_nat fuel) by (destruct fuel; lia).
  pose proof (Z.mul_nonneg_nonneg pause (Z.of_nat fuel - 1)). lia.
Qed.

(** With fuel for the whole wait the loop ends of its own. *)
Lemma poll_fuel_enough clock timeout s cancelled :
  0 < pause -> clocked clock -> ends attempt ->
  (poll_until (poll_fuel timeout) (clock s + timeout) s).1 <> Dropped cancelled.
Proof.
  intros Hpause Hclock Hends. apply (poll_until_ends clock); try done.
  unfold poll_fuel. pose proof (Z.mul_succ_div_gt timeout pause Hpause).
  destruct (Z.le_gt_cases 0 timeout) as [Ht|Ht].
  - assert (0 <= timeout / pause) by (apply Z.div_pos; lia). nia.
  - nia.
Qed.
End poll.

(** ** Guest processes ([flanforge-runtime/src/channel/exit.rs]) *)

Inductive GuestExit := ECode (code : Z) | ESignal (signal : Z) | ELost.

Record GuestOutput := {
  go_exit : GuestExit;
  go_stdout : string;
  go_is_truncated : bool;
}.

Definition is_success (exit : GuestExit) : bool :=
  match exit with ECode code => code =? 0 | _ => false end.

(** A lost observation is no exit. *)
Definition is_verdict (exit : GuestExit) : bool :=
  match exit with ELost => false | _ => true end.
