(* ===== verification/Forgejo.v ===== *)
(** * The Forgejo client ([crates/flanforge-forgejo])

    [models.rs]: the records Forgejo answers with and their validators, and
    how a response is split by status and bounded.  [client.rs]: the runner
    operations.  [jobs.rs] and [jobs/diagnosis.rs]: which listed job an
    allocation may run, and why none is.  [secret.rs]: the credential file.
    [flanforge-runtime/src/job/{registration,wait}.rs]: the deletion of an
    allocation's registration and the wait for its job.

    The HTTP exchange and the JSON decoder are an interface ([ForgejoHost]). *)

From S2P Require Import Prelude Rust Text Identifiers Images Guest Hot Allocation Config Claims Admission Convert Futures.

Open Scope Z_scope.
Open Scope stdpp_scope.

(** ** Errors *)

Inductive ForgejoError :=
| Unavailable | Transient (status : Z) | AbsentE | Malformed | Api | ConfigurationE | CredentialE.

#[export] Instance ForgejoError_eq_dec : EqDecision ForgejoError.
Proof. solve_decision. Defined.

Definition is_retryable (e : ForgejoError) : bool :=
  match e with Unavailable | Transient _ => true | _ => false end.

Definition is_rejection (e : ForgejoError) : bool :=
  match e with AbsentE | Api | ConfigurationE | CredentialE => true | _ => false end.

(** ** Records ([models.rs]) *)

Inductive RunnerStatus := Offline | Idle | Active.

#[export] Instance RunnerStatus_eq_dec : EqDecision RunnerStatus.
Proof. solve_decision. Defined.

Record RunnerCredentials := {
  rcr_id : Z;
  rcr_uuid : string;
  rcr_token : string;
}.

Record RunnerRecord := {
  rrd_id : Z;
  rrd_name : string;
  rrd_status : string;
}.

Record ActionRunJob := {
  jb_attempt : Z;
  jb_run_id : option Z;
  jb_handle : string;
  jb_name : string;
  jb_runs_on : list string;
  jb_status : string;
}.

Definition is_opaque_token (value : string) : bool :=
  negb (is_empty value) && (len value <=? 128)
  && all_bytes (fun c => is_ascii_alphanumeric c || one_of "-_.:" c) value.

Definition validate_runner_token (value : string) : bool :=
  (len value =? 40) && all_bytes is_ascii_hexdigit value.

Definition validate_text (value : string) : bool :=
  all_bytes (fun c => negb (is_ascii_control c)) value.

Definition validate_token (value : string) : bool :=
  all_bytes (fun c => is_ascii_alphanumeric c || one_of "_" c) value.

Definition validate_runner_labels (values : list string) : bool :=
  negb (bool_decide (values = []) || (32 <? Z.of_nat (length values))
        || negb (forallb is_opaque_token values)).

Definition validate_credentials {UC : UuidCodec} (c : RunnerCredentials) : bool :=
  (1 <=? rcr_id c) && bool_decide (is_Some (uuid_parse (rcr_uuid c)))
  && validate_runner_token (rcr_token c).

Definition validate_runner (r : RunnerRecord) : bool :=
  (1 <=? rrd_id r) && (char_count (rrd_name r) <=? 255) && validate_text (rrd_name r)
  && length_between 1 32 (rrd_status r) && validate_token (rrd_status r).

Definition validate_job (j : ActionRunJob) : bool :=
  (1 <=? jb_attempt j) && is_opaque_token (jb_handle j)
  && length_between 1 128 (jb_name j) && validate_text (jb_name j)
  && validate_runner_labels (jb_runs_on j)
  && length_between 1 32 (jb_status j) && validate_token (jb_status j).

(** ** Exchanges *)

(** A request, by what distinguishes its URL and body. *)
Inductive Request :=
| PostRunner (repository : RepositoryName) (name : string)
| GetRunner (repository : RepositoryName) (id : Z)
| DeleteRunner (repository : RepositoryName) (id : Z)
| GetRunnerPage (repository : RepositoryName) (page : Z)
| GetJobs (repository : RepositoryName) (label : option string).

(** The status, and the body in the chunks it arrives in ([None] where the
    connection fails). *)
Record Response := {
  rs_status : Z;
  rs_chunks : list (option string);
}.

Class ForgejoHost (H : Type) := {
  (** The exchange under the client's own timeout. *)
  fg_send : Request -> Fut H (option Response);
  (** Whether the configured URL can carry a path. *)
  fg_is_base : bool;
  (** The [serde] decoders; [None] is invalid JSON, and an absent list the
      JSON [null]. *)
  fg_decode_credentials : string -> option RunnerCredentials;
  fg_decode_runner : string -> option RunnerRecord;
  fg_decode_runners : string -> option (option (list RunnerRecord));
  fg_decode_jobs : string -> option (option (list ActionRunJob));
}.

Definition is_success_status (status : Z) : bool := in_range 200 299 status.

Definition ensure_success (r : Response) : result ForgejoError Response :=
  if is_success_status (rs_status r) then Ok r
  else if in_range 500 599 (rs_status r) || (rs_status r =? 429)
  then Err (Transient (rs_status r))
  else if rs_status r =? 404 then Err AbsentE
  else Err Api.

Definition BODY_LIMIT : Z := 65536.

Fixpoint read_body (body : string) (chunks : list (option string)) : result ForgejoError string :=
  match chunks with
  | [] => Ok body
  | None :: _ => Err Unavailable
  | Some chunk :: chunks =>
      if BODY_LIMIT <? sat_add usize_max (len body) (len chunk) then Err Malformed
      else read_body (body +:+ chunk) chunks
  end.

Definition bounded_json {A} (decode : string -> option A) (validate : A -> bool) (r : Response) :
    result ForgejoError A :=
  body ← read_body "" (rs_chunks r);
  value ← ok_or (decode (if is_empty body then "null" else body)) Malformed;
  if validate value then Ok value else Err Malformed.

(** [ForgejoList::validate] and [into_inner]. *)
Definition validate_list {A} (items : option (list A)) : bool :=
  match items with Some items => Z.of_nat (length items) <=? 1000 | None => true end.

Section client.
Context {H : Type} {FH : ForgejoHost H} {UC : UuidCodec}.

Definition runner_url : Fut H (result ForgejoError unit) :=
  mret (ensure fg_is_base ConfigurationE).

Definition send (request : Request) : Fut H (result ForgejoError Response) :=
  _ ←! runner_url;
  response ← fg_send request;
  mret (ok_or response Unavailable).

(** A request answered by one validated value. *)
Definition fetch {A} (request : Request) (decode : string -> option A) (validate : A -> bool) :
    Fut H (result ForgejoError A) :=
  response ←! send request;
  mret (response ← ensure_success response; bounded_json decode validate response).

(** ** Runners ([client.rs]) *)

Definition RUNNER_PAGE_BUDGET : nat := 10.

Definition create_runner (repository : RepositoryName) (name : string) :
    Fut H (result ForgejoError RunnerCredentials) :=
  fetch (PostRunner repository name) fg_decode_credentials validate_credentials.

Definition runner_status (repository : RepositoryName) (id : Z) :
    Fut H (result ForgejoError RunnerStatus) :=
  runner ←! fetch (GetRunner repository id) fg_decode_runner validate_runner;
  mret (if bool_decide (rrd_status runner = "offline") then Ok Offline
        else if bool_decide (rrd_status runner = "idle") then Ok Idle
        else if bool_decide (rrd_status runner = "active") then Ok Active
        else Err Malformed).

Definition delete_runner (repository : RepositoryName) (id : Z) : Fut H (result ForgejoError unit) :=
  response ←! send (DeleteRunner repository id);
  mret (if is_success_status (rs_status response) || (rs_status response =? 404)
        then Ok tt else Err Api).

Definition runner_page (repository : RepositoryName) (page : Z) :
    Fut H (result ForgejoError (list RunnerRecord)) :=
  runners ←! fetch (GetRunnerPage repository page) fg_decode_runners validate_list;
  mret (Ok (default [] runners)).

(** The identifiers one page contributes. *)
Fixpoint matching_ids (name : string) (runners : list RunnerRecord) :
    result ForgejoError (list Z) :=
  match runners with
  | [] => Ok []
  | runner :: runners =>
      if negb (bool_decide (rrd_name runner = name)) then matching_ids name runners
      else
        _ ← ensure (validate_runner runner) Malformed;
        ids ← matching_ids name runners;
        Ok (rrd_id runner :: ids)
  end.

(** The pages left to read, from [page] on: the matches so far and whether an
    empty page ended the listing. *)
Fixpoint read_pages (budget : nat) (repository : RepositoryName) (name : string) (page : Z)
    (found : list Z) : Fut H (result ForgejoError (list Z * bool)) :=
  match budget with
  | O => mret (Ok (found, false))
  | S budget =>
      runners ←! runner_page repository page;
      if bool_decide (runners = []) then mret (Ok (found, true))
      else
        ids ←! mret (matching_ids name runners);
        read_pages budget repository name (page + 1) (found ++ ids)
  end.

Fixpoint delete_all (repository : RepositoryName) (ids : list Z) : Fut H (result ForgejoError unit) :=
  match ids with
  | [] => mret (Ok tt)
  | id :: ids => _ ←! delete_runner repository id; delete_all repository ids
  end.

Definition delete_runners_named (repository : RepositoryName) (name : string) :
    Fut H (result ForgejoError unit) :=
  pages ←! read_pages RUNNER_PAGE_BUDGET repository name 1 [];
  _ ←! delete_all repository pages.1;
  mret (if pages.2 : bool then Ok tt else Err Malformed).

(** [ForgejoClient::list_jobs]. *)
Definition list_jobs (repository : RepositoryName) (label : option string) :
    Fut H (result ForgejoError (list ActionRunJob)) :=
  jobs ←! fetch (GetJobs repository label) fg_decode_jobs validate_list;
  mret (Ok (default [] jobs)).
End client.

(** ** Jobs ([jobs.rs]) *)

Record JobBinding := {
  bd_label : string;
  bd_job_name : string;
  bd_run_id : Z;
}.

Definition run_id (job : ActionRunJob) : option Z :=
  value ← jb_run_id job;
  if (0 <? value) && (value <=? u64_max) then Some value else None.

Definition is_only_label (runs_on : list string) (label : string) : bool :=
  match runs_on with [only] => bool_decide (only = label) | _ => false end.

Inductive JobReject := RejectStructure | RejectName | RejectStatus | RejectLabel | RejectHandle.

Definition job_reject (job : ActionRunJob) (binding : JobBinding) : option JobReject :=
  if negb (validate_job job) then Some RejectStructure
  else if negb (bool_decide (jb_name job = bd_job_name binding)) then Some RejectName
  else if negb (bool_decide (jb_status job = "waiting")) then Some RejectStatus
  else if negb (is_only_label (jb_runs_on job) (bd_label binding)) then Some RejectLabel
  else if negb (is_opaque_token (jb_handle job)) then Some RejectHandle
  else None.

Definition is_signed (binding : JobBinding) (job : ActionRunJob) : bool :=
  bool_decide (run_id job = Some (bd_run_id binding)).

(** The listed jobs the binding leaves: those of the signed run, where any
    listed job publishes one. *)
Definition authorized_jobs (jobs : list ActionRunJob) (binding : JobBinding) : list ActionRunJob :=
  if existsb (fun job => bool_decide (is_Some (jb_run_id job))) jobs
  then List.filter (is_signed binding) jobs else jobs.

Definition select_job_handle (jobs : list ActionRunJob) (binding : JobBinding) :
    result ForgejoError (option string) :=
  match authorized_jobs jobs binding with
  | [] => Ok None
  | [job] =>
      match job_reject job binding with
      | Some _ => Err Api
      | None => Ok (Some (jb_handle job))
      end
  | _ => Err Api
  end.

(** ** Diagnosis ([jobs/diagnosis.rs]) *)

Inductive JobDiagnosis :=
| Pending | Unattributed | Ambiguous | RunsOnMismatch (runs_on : list string).

Definition diagnosis_reason (d : JobDiagnosis) : string :=
  match d with
  | Pending => "no waiting job with the configured job name is queued for this run"
  | Unattributed => "a waiting job with the configured job name is queued outside the signed run"
  | Ambiguous => "more than one waiting job with the configured job name is queued in this run"
  | RunsOnMismatch _ => "the dependent job's runs-on is not the allocation label alone"
  end.

Definition is_dependent_job (binding : JobBinding) (job : ActionRunJob) : bool :=
  validate_job job && bool_decide (jb_name job = bd_job_name binding)
  && bool_decide (jb_status job = "waiting").

Definition diagnose_jobs (jobs : list ActionRunJob) (binding : JobBinding) : JobDiagnosis :=
  match List.filter (is_dependent_job binding) jobs with
  | [] => Pending
  | named =>
      match List.filter (is_signed binding) named with
      | [] => Unattributed
      | [job] => if is_only_label (jb_runs_on job) (bd_label binding) then Pending
                 else RunsOnMismatch (jb_runs_on job)
      | _ => Ambiguous
      end
  end.

(** ** The credential file ([secret.rs]) *)

(** The file: whether it is a regular one, its permission bits and length, and
    what a read of it gives. *)
Record SecretFile := {
  sf_is_file : bool;
  sf_mode : Z;
  sf_len : Z;
  sf_read : option string;
}.

(** Bytes that are not UTF-8 fail the last check, with the same error as the
    decoding does. *)
Definition read_secret_file (file : option SecretFile) : result ForgejoError string :=
  match file with
  | None => Err CredentialE
  | Some f =>
      if negb (sf_is_file f) then Err CredentialE
      else if negb (Z.land (sf_mode f) 63 =? 0) then Err CredentialE
      else if 1024 <? sf_len f then Err CredentialE
      else match sf_read f with
      | None => Err CredentialE
      | Some raw =>
          let value := trim_end raw in
          if negb (in_range 20 512 (len value))
             || any_byte (fun c => is_space_byte c || negb (is_ascii_graphic c)) value
          then Err CredentialE else Ok value
      end
  end.

(** ** The registration of an allocation ([job/registration.rs]) *)

Definition forgejo_text (e : ForgejoError) (status_text : Z -> string) : string :=
  match e with
  | Unavailable => "Forgejo is unavailable"
  | Transient status => "Forgejo returned a transient failure (" +:+ status_text status +:+ ")"
  | AbsentE => "Forgejo has no such resource"
  | Malformed => "Forgejo returned a response this client cannot read"
  | Api => "Forgejo rejected the runner operation"
  | ConfigurationE => "Forgejo configuration is invalid"
  | CredentialE => "Forgejo credential file is invalid"
  end.

(** The [Display] of an HTTP status. *)
Class StatusText := { status_text : Z -> string }.

Definition worker_forgejo {ST : StatusText} (e : ForgejoError) : WorkerError :=
  worker_error_new (forgejo_text e status_text).

Section registration.
Context {H : Type} {FH : ForgejoHost H} {UC : UuidCodec} {ST : StatusText}.

Definition runner_name (a : Allocation) : string := "flanforged-" +:+ a_id a.

Definition delete_registration (a : Allocation) : Fut H (result WorkerError unit) :=
  fut_map_err worker_forgejo
    match a_runner_id a with
    | Some runner_id => delete_runner (rq_repository (a_request a)) runner_id
    | None => delete_runners_named (rq_repository (a_request a)) (runner_name a)
    end.

(** ** Waiting for the job ([job/wait.rs]) *)

Definition NOT_READY : string := "authorized Forgejo job did not become ready".

Definition binding_of (a : Allocation) (profile : Profile) : JobBinding :=
  {| bd_label := a_runner_label a; bd_job_name := p_job_name profile;
     bd_run_id := rq_run_id (a_request a) |}.

Definition mismatch_error (binding : JobBinding) (runs_on : list string) : WorkerError :=
  worker_error_new ("dependent Forgejo job " +:+ String (ascii_of_nat 34) (bd_job_name binding)
    +:+ String (ascii_of_nat 34) " is queued with runs-on ["
    +:+ String.concat ", " runs_on
    +:+ "]; the allocation label must be its only entry (expected ["
    +:+ String (ascii_of_nat 34) (bd_label binding)
    +:+ String (ascii_of_nat 34) "])").

(** The reason last seen, and the error only a mismatch is. *)
Definition diagnose_wait (a : Allocation) (binding : JobBinding) :
    Fut H (option string * option WorkerError) :=
  jobs ← list_jobs (rq_repository (a_request a)) None;
  mret (match jobs with
        | Err _ => (None, None)
        | Ok jobs =>
            let diagnosis := diagnose_jobs jobs binding in
            (Some (diagnosis_reason diagnosis),
             match diagnosis with
             | RunsOnMismatch runs_on => Some (mismatch_error binding runs_on)
             | _ => None
             end)
        end).

(** One round of [poll_for_job_handle]: what it answers, if it ends the wait,
    and the reason last seen. *)
Definition poll_round (a : Allocation) (binding : JobBinding) (observed : option string) :
    Fut H (option (result WorkerError string) * option string) :=
  jobs ← list_jobs (rq_repository (a_request a)) (Some (bd_label binding));
  match (jobs ← jobs; select_job_handle jobs binding) with
  | Ok (Some handle) => mret (Some (Ok handle), observed)
  | Ok None =>
      diagnosed ← diagnose_wait a binding;
      mret (option_map Err diagnosed.2,
            match diagnosed.1 with Some reason => Some reason | None => observed end)
  | Err error =>
      mret (if is_retryable error then (None, observed) else (Some (Err (worker_forgejo error)), observed))
  end.
End registration.

(** ** What a repository's runners are

    The listing in pages of one size, deletion by identifier, and nothing else
    that changes the list. *)

Class LawfulForgejo (H : Type) {FH : ForgejoHost H} := {
  fg_runners : RepositoryName -> H -> list RunnerRecord;
  fg_page_size : nat;
  fg_page_size_positive : (0 < fg_page_size)%nat;
  law_page : forall repository (page : nat) h runners h',
    runner_page repository (Z.of_nat page + 1) h = (Done (Ok runners), h') ->
    runners = take fg_page_size (drop (fg_page_size * page) (fg_runners repository h));
  law_read : forall repository page h other,
    fg_runners other (fg_send (GetRunnerPage repository page) h).2 = fg_runners other h;
  law_delete : forall repository id h,
    let '(o, h') := fg_send (DeleteRunner repository id) h in
    let removed := List.filter (fun r => negb (rrd_id r =? id)) (fg_runners repository h) in
    (fg_runners repository h' = fg_runners repository h \/ fg_runners repository h' = removed) /\
    (forall response, o = Done (Some response) ->
       is_success_status (rs_status response) || (rs_status response =? 404) = true ->
       fg_runners repository h' = removed);
}.

Section runners.
Context {H : Type} {FH : ForgejoHost H} {LF : LawfulForgejo H} (repository : RepositoryName).
Local Abbreviation runners := (fg_runners repository).

Lemma wp_send request Q D C h :
  (fg_is_base = false -> Q (Err ConfigurationE) h) ->
  (let '(o, h') := fg_send request h in
   match o with
   | Done (Some r) => Q (Ok r) h'
   | Done None => Q (Err Unavailable) h'
   | Dropped _ => D h'
   | Crashed => C h'
   end) ->
  wp (send request) Q D C h.
Proof.
  intros Hbase Hs. apply wp_try, wp_ret. destruct fg_is_base eqn:Hb; simpl; [|auto].
  apply wp_bind. unfold wp. by destruct (fg_send request h) as [[[]| |] h'].
Qed.

Lemma maintains_page (I : H -> Prop) page :
  (forall h, I h -> I (fg_send (GetRunnerPage repository page) h).2) ->
  maintains I (runner_page repository page).
Proof.
  intros Hs h Hh. apply wp_try, wp_try, wp_send; [done|]. specialize (Hs h Hh).
  destruct (fg_send _ h) as [[[r|]| |] h']; simpl in *; try done.
  apply wp_ret. by destruct (ensure_success r ≫= _).
Qed.

(** A page answers its slice and moves nothing. *)
Lemma wp_page page h :
  wp (runner_page repository (Z.of_nat page + 1)) (fun r h' => runners h' = runners h /\
      forall l, r = Ok l -> l = take fg_page_size (drop (fg_page_size * page) (runners h)))
    (fun h' => runners h' = runners h) (fun h' => runners h' = runners h) h.
Proof.
  assert (wp (runner_page repository (Z.of_nat page + 1)) (fun _ h' => runners h' = runners h)
    (fun h' => runners h' = runners h) (fun h' => runners h' = runners h) h) as Hm.
  { apply (maintains_page (fun h' => runners h' = runners h)); [|done].
    intros h1 H1. by rewrite law_read. }
  unfold wp in *. destruct (runner_page repository (Z.of_nat page + 1) h) as [[r| |] h'] eqn:Hp; try done.
  split; [done|]. intros l ->. by eapply law_page.
Qed.

Lemma matching_ids_ok name l ids :
  matching_ids name l = Ok ids ->
  ids = map rrd_id (List.filter (fun r => bool_decide (rrd_name r = name)) l).
Proof.
  revert ids. induction l as [|r l IH]; intros ids; simpl; [by intros [= <-]|].
  destruct (bool_decide (rrd_name r = name)); simpl; [|apply IH]. intros Hm. simplify_result.
  simpl. f_equal. by apply IH.
Qed.

Definition named (name : string) (l : list RunnerRecord) : list RunnerRecord :=
  List.filter (fun r => bool_decide (rrd_name r = name)) l.

Lemma named_app name l k : named name (l ++ k) = named name l ++ named name k.
Proof. apply List.filter_app. Qed.

Lemma named_take name n l id :
  id ∈ map rrd_id (named name (take n l)) -> id ∈ map rrd_id (named name l).
Proof.
  rewrite <- (take_drop n l) at 2. rewrite named_app, map_app. intros. by apply elem_of_app; left.
Qed.

(** The matches of the pages read; the whole list when an empty page ended
    them. *)
Lemma wp_read_pages budget name page found h :
  found = map rrd_id (named name (take (fg_page_size * page) (runners h))) ->
  wp (read_pages budget repository name (Z.of_nat page + 1) found)
    (fun r h' => runners h' = runners h /\ forall ids ended, r = Ok (ids, ended) ->
       (forall id, id ∈ ids -> id ∈ map rrd_id (named name (runners h))) /\
       (ended = true -> ids = map rrd_id (named name (runners h))))
    (fun h' => runners h' = runners h) (fun h' => runners h' = runners h) h.
Proof.
  revert page found h. induction budget as [|budget IH]; intros page found h Hf; simpl.
  { apply wp_ret. split; [done|]. intros ids ended [= <- <-]. split; [|done].
    intros id Hid. subst found. by eapply named_take. }
  apply wp_try. eapply wp_mono; [apply wp_page| |done|done]. intros [l|e] h1 [Hr Hl]; [|by split].
  specialize (Hl l eq_refl). case_bool_decide as Hnil.
  { apply wp_ret. split; [done|]. intros ids ended [= <- <-]. subst found.
    assert (drop (fg_page_size * page) (runners h) = []) as Hend.
    { pose proof fg_page_size_positive as Hpos. rewrite Hnil in Hl.
      destruct (drop _ _); [done|]. by destruct fg_page_size; [lia|]. }
    assert (take (fg_page_size * page) (runners h) = runners h) as ->; [|by split].
    rewrite <- (take_drop (fg_page_size * page) (runners h)) at 2. by rewrite Hend, app_nil_r. }
  apply wp_try, wp_ret. destruct (matching_ids name l) as [ids|e] eqn:Hm; [|by split].
  apply matching_ids_ok in Hm. fold (named name l) in Hm.
  replace (Z.of_nat page + 1 + 1) with (Z.of_nat (S page) + 1) by lia. rewrite <- Hr.
  apply IH. rewrite Hr. subst found ids. rewrite <- map_app, <- named_app. subst l.
  rewrite take_take_drop. do 2 f_equal. f_equal. lia.
Qed.

(** What is left of a list: nothing new, and without at most the identifiers. *)
Definition pruned (ids : list Z) (l l' : list RunnerRecord) : Prop :=
  (forall r, r ∈ l' -> r ∈ l) /\ (forall r, r ∈ l -> r ∈ l' \/ rrd_id r ∈ ids).

Lemma pruned_refl ids l : pruned ids l l.
Proof. split; auto. Qed.

Lemma pruned_cons id ids l l1 l2 : pruned [id] l l1 -> pruned ids l1 l2 -> pruned (id :: ids) l l2.
Proof. unfold pruned. set_solver. Qed.

Lemma pruned_weaken ids ids' l l' :
  (forall id, id ∈ ids -> id ∈ ids') -> pruned ids l l' -> pruned ids' l l'.
Proof. unfold pruned. set_solver. Qed.

Lemma elem_of_removed id (l : list RunnerRecord) r :
  r ∈ List.filter (fun r => negb (rrd_id r =? id)) l <-> r ∈ l /\ rrd_id r <> id.
Proof.
  rewrite !list_elem_of_In, filter_In, negb_true_iff, Z.eqb_neq. done.
Qed.

Lemma wp_delete_runner id h :
  wp (delete_runner repository id)
    (fun r h' => pruned [id] (runners h) (runners h') /\
       (r = Ok tt -> forall x, x ∈ runners h' -> rrd_id x <> id))
    (fun h' => pruned [id] (runners h) (runners h'))
    (fun h' => pruned [id] (runners h) (runners h')) h.
Proof.
  apply wp_try, wp_send; [intros _; by split; [apply pruned_refl|]|].
  pose proof (law_delete repository id h) as Hl. destruct (fg_send _ h) as [o h'].
  destruct Hl as [Hl Hok].
  assert (pruned [id] (runners h) (runners h')) as Hp.
  { destruct Hl as [-> | ->]; [apply pruned_refl|]. split; intros r; rewrite elem_of_removed; [tauto|].
    intros Hr. destruct (Z.eq_dec (rrd_id r) id) as [->|]; [right; by left|by left]. }
  destruct o as [[response|]| |]; try done. apply wp_ret. split; [done|].
  destruct (_ || _) eqn:Hs; [|done]. intros _ x. rewrite (Hok response eq_refl Hs).
  rewrite elem_of_removed. tauto.
Qed.

Lemma wp_delete_all ids h :
  wp (delete_all repository ids)
    (fun r h' => pruned ids (runners h) (runners h') /\
       (r = Ok tt -> forall x, x ∈ runners h' -> rrd_id x ∉ ids))
    (fun h' => pruned ids (runners h) (runners h'))
    (fun h' => pruned ids (runners h) (runners h')) h.
Proof.
  revert h. induction ids as [|id ids IH]; intros h; simpl.
  { apply wp_ret. split; [apply pruned_refl|]. intros _ x _. apply not_elem_of_nil. }
  assert (forall l l', pruned [id] l l' -> pruned (id :: ids) l l') as Hw.
  { intros l l' Hp. eapply pruned_weaken; [|exact Hp]. set_solver. }
  apply wp_try. eapply wp_mono; [apply wp_delete_runner|..]; [|intros h2 H2; by apply Hw..].
  intros [[]|e] h1 [H1 Hid]; [|split; [by apply Hw|done]].
  eapply wp_mono; [apply IH|..]; simpl.
  - intros r h2 [H2 Hrest]. split; [by eapply pruned_cons|]. intros Hok x Hx.
    rewrite not_elem_of_cons. split; [|by apply Hrest]. apply (Hid eq_refl). by apply H2.
  - intros h2 H2. by eapply pruned_cons.
  - intros h2 H2. by eapply pruned_cons.
Qed.

(** Reconciling an allocation's runners by name leaves none behind and
    takes no other.  However it ends, only runners whose identifier belongs to
    a runner of that name are gone; and when it answers success, no runner of
    that name is left: success needs the listing to have ended within the page
    budget and every deletion to have been answered. *)
Theorem delete_runners_named_spec name h :
  let '(ended, h') := delete_runners_named repository name h in
  pruned (map rrd_id (named name (runners h))) (runners h) (runners h') /\
  (ended = Done (Ok tt) -> forall r, r ∈ runners h' -> rrd_name r <> name).
Proof.
  assert (wp (delete_runners_named repository name)
    (fun r h' => pruned (map rrd_id (named name (runners h))) (runners h) (runners h') /\
       (r = Ok tt -> forall x, x ∈ runners h' -> rrd_name x <> name))
    (fun h' => pruned (map rrd_id (named name (runners h))) (runners h) (runners h'))
    (fun h' => pruned (map rrd_id (named name (runners h))) (runners h) (runners h')) h) as Hwp; cycle 1.
  { unfold wp in Hwp. destruct (delete_runners_named repository name h) as [[r| |] h']; [|by split..].
    destruct Hwp as [Hp Hok]. split; [done|]. intros [= ->]. by apply Hok. }
  apply wp_try. eapply wp_mono; [apply (wp_read_pages _ name 0 [])|..].
  { rewrite Nat.mul_0_r. done. }
  2, 3: intros h' ->; apply pruned_refl.
  intros [[ids ended]|e] h1 [Hr Hids]; [|split; [rewrite Hr; apply pruned_refl|done]].
  destruct (Hids ids ended eq_refl) as [Hsub Hall]. simpl. apply wp_try.
  eapply wp_mono; [apply wp_delete_all|..]; rewrite Hr;
    [|intros h2 H2; eapply pruned_weaken; eauto..].
  intros [[]|e] h2 [H2 Hgone]; [|split; [by eapply pruned_weaken|done]].
  apply wp_ret. split; [by eapply pruned_weaken|]. destruct ended; [|done]. intros _ r Hr2 Hname.
  apply (Hgone eq_refl r Hr2). rewrite (Hall eq_refl). apply list_elem_of_fmap. exists r. split; [done|].
  unfold named. apply list_elem_of_In, filter_In. split; [|by apply bool_decide_eq_true].
  apply list_elem_of_In. by apply H2.
Qed.
End runners.

(** ** Binding a job *)

Section jobs.
Context (binding : JobBinding).

(** A job the binding accepts. *)
Definition bound (job : ActionRunJob) : Prop :=
  validate_job job = true /\ jb_name job = bd_job_name binding /\ jb_status job = "waiting" /\
  jb_runs_on job = [bd_label binding].

Lemma job_reject_none job : job_reject job binding = None <-> bound job.
Proof.
  unfold job_reject, bound. split.
  - destruct (validate_job job) eqn:Hv; simpl; [|done].
    case_bool_decide; simpl; [|done]. case_bool_decide; simpl; [|done].
    unfold is_only_label. destruct (jb_runs_on job) as [|x [|]]; simpl; try done.
    case_bool_decide; simpl; [|done]. intros _. subst. done.
  - intros (Hv & -> & -> & ->). rewrite Hv, !bool_decide_eq_true_2 by done. simpl.
    rewrite bool_decide_eq_true_2 by done. simpl.
    unfold validate_job in Hv. rewrite !andb_true_iff in Hv. destruct_and!.
    by match goal with H : is_opaque_token _ = true |- _ => rewrite H end.
Qed.

Definition publishes_runs (jobs : list ActionRunJob) : Prop :=
  exists job, job ∈ jobs /\ is_Some (jb_run_id job).

Lemma authorized_publishing jobs :
  publishes_runs jobs -> authorized_jobs jobs binding = List.filter (is_signed binding) jobs.
Proof.
  intros (job & Hin & Hr). unfold authorized_jobs.
  rewrite (proj2 (existsb_exists _ jobs)); [done|]. exists job. split; [by apply list_elem_of_In|].
  by apply bool_decide_eq_true.
Qed.

Lemma authorized_silent jobs : ~ publishes_runs jobs -> authorized_jobs jobs binding = jobs.
Proof.
  intros Hn. unfold authorized_jobs. destruct (existsb _ jobs) eqn:He; [|done]. destruct Hn.
  apply existsb_exists in He as (job & Hin & Hb). exists job. apply list_elem_of_In in Hin.
  split; [done|]. by apply bool_decide_eq_true in Hb.
Qed.
End jobs.

(** A runner is handed at most the one job it was allocated for.  A handle
    is selected only when exactly one listed job belongs to the signed run (or,
    where Forgejo publishes no runs, exactly one is listed at all) and that job
    is valid, waiting, of the profile's job name and labelled with the
    allocation's label alone.  A job of another run, which repository code may
    queue under the same label, never changes the answer. *)
Theorem select_job_handle_spec jobs binding handle :
  (select_job_handle jobs binding = Ok (Some handle) <->
   exists job, bound binding job /\ jb_handle job = handle /\
     ((publishes_runs jobs /\ List.filter (is_signed binding) jobs = [job]) \/
      (~ publishes_runs jobs /\ jobs = [job]))) /\
  (forall decoy, publishes_runs jobs -> is_signed binding decoy = false ->
     select_job_handle (decoy :: jobs) binding = select_job_handle jobs binding).
Proof.
  split.
  - assert (publishes_runs jobs \/ ~ publishes_runs jobs) as Hdec.
    { destruct (existsb (fun job => bool_decide (is_Some (jb_run_id job))) jobs) eqn:He; [left|right].
      - apply existsb_exists in He as (job & ?%list_elem_of_In & ?%bool_decide_eq_true). by exists job.
      - intros (job & Hin%list_elem_of_In & Hr). rewrite <- not_true_iff_false in He. apply He.
        apply existsb_exists. exists job. split; [done|]. by apply bool_decide_eq_true. }
    assert (select_job_handle jobs binding = Ok (Some handle) <->
      exists job, bound binding job /\ jb_handle job = handle /\ authorized_jobs jobs binding = [job])
      as Hsel.
    { unfold select_job_handle. destruct (authorized_jobs jobs binding) as [|job [|? ?]];
        [naive_solver| |naive_solver].
      pose proof (job_reject_none binding job) as Hrej. destruct (job_reject job binding); naive_solver. }
    rewrite Hsel. destruct Hdec as [Hp|Hp];
      [rewrite (authorized_publishing _ _ Hp) | rewrite (authorized_silent _ _ Hp)]; naive_solver.
  - intros decoy Hp Hs. unfold select_job_handle. rewrite (authorized_publishing binding jobs Hp).
    rewrite authorized_publishing; [|destruct Hp as (job & Hin & Hr); exists job; split; [by right|done]].
    simpl. by rewrite Hs.
Qed.

(** ** Witnesses: a registry of one repository, one byte per runner *)

Definition sim_record (c : ascii) : RunnerRecord :=
  {| rrd_id := byte_val c;
     rrd_name := if byte_val c <? 100 then "flanforged-id-1" else "other"; rrd_status := "idle" |}.

#[export] Instance sim_forgejo : ForgejoHost (list ascii) := {|
  fg_send request h :=
    match request with
    | GetRunnerPage _ page =>
        (Done (Some {| rs_status := 200;
           rs_chunks := [Some (text (take 2 (drop (2 * Z.to_nat (page - 1)) h)))] |}), h)
    | DeleteRunner _ id =>
        (Done (Some {| rs_status := 204; rs_chunks := [] |}),
         List.filter (fun c => negb (byte_val c =? id)) h)
    | _ => (Done None, h)
    end;
  fg_is_base := true;
  fg_decode_credentials _ := None;
  fg_decode_runner _ := None;
  fg_decode_runners body :=
    if bool_decide (body = "null") then Some None else Some (Some (map sim_record (bytes body)));
  fg_decode_jobs _ := None;
|}.

#[export] Instance sim_lawful_forgejo : LawfulForgejo (list ascii).
Proof.
  refine {| fg_runners _ h := map sim_record h; fg_page_size := 2 |}; [lia| |done|].
  - intros repository page h runners h' Hp. unfold runner_page, fetch, send, runner_url, fut_try,
      mbind, Fut_bind, mret, Fut_ret in Hp. simpl in Hp.
    replace (Z.to_nat (Z.of_nat page + 1 - 1)) with page in Hp by lia.
    change (2 * page)%nat with (page + (page + 0))%nat.
    rewrite skipn_map, firstn_map. remember (drop (page + (page + 0)) h) as l.
    unfold bounded_json, ensure_success, read_body in Hp. simpl in Hp.
    destruct l as [|a [|b l]]; simpl in Hp; [by simplify_eq|..];
      rewrite bool_decide_eq_false_2 in Hp by (by intros [=]); by simplify_eq/=.
  - intros repository id h. simpl.
    assert (map sim_record (List.filter (fun c => negb (byte_val c =? id)) h) =
      List.filter (fun r => negb (rrd_id r =? id)) (map sim_record h)) as He.
    { induction h as [|c h IH]; [done|]. simpl. destruct (byte_val c =? id); simpl; [done|]. by rewrite IH. }
    split; [by right|done].
Defined.

Lemma delete_runners_named_spec_witness :
  (delete_runners_named "owner/repo" "flanforged-id-1" (map ascii_of_nat [1; 200; 2; 3; 201]%nat)).2
    = map ascii_of_nat [200; 201]%nat /\
  forall r, r ∈ fg_runners "owner/repo"
      (delete_runners_named "owner/repo" "flanforged-id-1" (map ascii_of_nat [1; 200; 2; 3; 201]%nat)).2
    -> rrd_name r <> "flanforged-id-1".
Proof.
  pose proof (delete_runners_named_spec "owner/repo" "flanforged-id-1"
    (map ascii_of_nat [1; 200; 2; 3; 201]%nat)) as Hs.
  destruct (delete_runners_named _ _ _) as [ended h'] eqn:He.
  pose proof (f_equal fst He) as H1. pose proof (f_equal snd He) as H2. vm_compute in H1, H2.
  split; [by rewrite <- H2; vm_compute|]. apply Hs. by rewrite <- H1.
Defined.
