(* ===== verification/Manager.v ===== *)
(** * The manager's state ([crates/flanforge-manager/src/{service,state,shutdown}.rs])

    [Inner] as a record, the stores it writes ([crates/flanforge-orm/src/stores]),
    the backend it drives ([worker/contract.rs]) as an interface, and the
    operations on one resident entry: read, update-and-persist, transition,
    the setters the worker's reporter calls, leaks and the history bound.

    Every operation runs in [IO], a state monad over the manager and the
    backend's own world.  The world also answers what the daemon cannot
    decide: the clocks, fresh identifiers and whether a store call fails, so a
    theorem holds for every behaviour of the host, the clock and the disk. *)

From S2P Require Import Prelude Rust Text Identifiers Images Guest Hot Allocation Config ConfigValidate Claims Sizing Admission HotSelect Reaper Convert.

Open Scope Z_scope.
Open Scope stdpp_scope.

(** ** The backend ([AllocationWorker]) and the world *)

Record HotReset := {
  hr_simulator_reset : SimulatorReset;
  hr_budget : CleanupBudget;
}.

Record HotRetainRequest := {
  hrr_guest : HotGuest;
  hrr_allocation : Allocation;
  hrr_profile : Profile;
  hrr_reset : HotReset;
}.

Inductive WarmAvailability := WReady | WBusy | WAbsent.

(** The trait's operations as functions of the world.  [bk_cleanup] also
    answers how long the attempt takes, which the caller's timeout reads. *)
Class Backend (W : Type) := {
  bk_unix_time : W -> Z * W;
  bk_instant : W -> Z * W;
  bk_uuid : W -> string * W;
  bk_store_fault : W -> bool * W;
  bk_machines : W -> result WorkerError (list HostMachine) * W;
  bk_cleanup : Allocation -> CleanupBudget -> W -> (result WorkerError unit * Z) * W;
  bk_base_fingerprint : VmName -> W -> option BaseFingerprint * W;
  bk_base_storage_mb : ProfileName -> CloneSource -> W -> option Z * W;
  bk_warm_availability : Profile -> WarmImageRecord -> list HostMachine -> W ->
    result WorkerError WarmAvailability * W;
  bk_is_unclaimed_image : VmName -> list HostMachine -> W -> result WorkerError bool * W;
  bk_hot_retained : HotRetainRequest -> W -> result WorkerError unit * W;
  bk_hot_reset : HotGuest -> HotReset -> W -> result WorkerError unit * W;
  bk_hot_live : HotGuest -> W -> bool * W;
  bk_hot_evicted : HotGuest -> CleanupBudget -> W -> result WorkerError unit * W;
  bk_warm_restored : Profile -> WarmImageRecord -> W -> result WorkerError unit * W;
  bk_delete_vm : ReapRequest -> W -> result WorkerError unit * W;
  bk_recovered : W -> result WorkerError unit * W;
  bk_sweep_images : ImageSweep -> W -> result WorkerError (list RetiredImage) * W;
  bk_warm_images : bool;
  bk_hot_guests : bool;
  bk_clone_source_deferred : bool;
}.

(** The [Display] of the errors whose text the database driver or the
    manager's error type writes. *)
Class ErrorText := {
  store_text : StoreError -> string;
  manager_text : ManagerError -> string;
}.

(** ** State *)

Inductive EventKind :=
| AllocationStateChanged | AllocationErrorEvent | HotClaimed | HotRecycled | HotEvicted
| ReaperDeleted | ReaperSweep | ConfigReloadedEvent | ConfigEdited | AllocationLeaked
| RecoveryCompleted.

(** The facts of an event other than its JSON payload and actor. *)
Record Event := {
  ev_kind : EventKind;
  ev_allocation : option AllocationId;
  ev_vm_name : option VmName;
  ev_profile : option ProfileName;
}.

Inductive LeakReason := CleanupFailed | NotTerminal.

Record AllocationLeak := {
  al_id : AllocationId;
  al_state : AllocationState;
  al_repository : RepositoryName;
  al_vm_name : VmName;
  al_is_vm_created : bool;
  al_runner_id : option Z;
  al_reason : LeakReason;
}.

Definition allocation_leak_new (a : Allocation) (reason : LeakReason) : AllocationLeak :=
  {| al_id := a_id a; al_state := a_state a; al_repository := rq_repository (a_request a);
     al_vm_name := a_vm_name a; al_is_vm_created := a_vm_created a;
     al_runner_id := a_runner_id a; al_reason := reason |}.

(** [Inner], with the three tables the stores keep and the world. *)
Record Manager (W : Type) := mkManager {
  m_startup : Config;
  m_config : Config;
  m_generation : Z;
  m_rows : gmap string Allocation;
  m_images : gmap string WarmImageRecord;
  m_hot : gmap string HotGuest;
  m_events : list Event;
  m_entries : gmap string Entry;
  m_quarantined : gset string;
  m_last_sweep : option SweepReport;
  m_probe : option (Z * list HostMachine);
  m_is_closing : bool;
  m_history_limit : nat;
  m_teardown_deadline : option Z;
  m_leaked : list AllocationLeak;
  m_world : W;
}.

Arguments mkManager {W}.
Arguments m_startup {W}. Arguments m_generation {W}.
Arguments m_config {W}. Arguments m_rows {W}. Arguments m_images {W}. Arguments m_hot {W}.
Arguments m_events {W}. Arguments m_entries {W}. Arguments m_quarantined {W}.
Arguments m_last_sweep {W}.
Arguments m_probe {W}. Arguments m_is_closing {W}. Arguments m_history_limit {W}.
Arguments m_teardown_deadline {W}. Arguments m_leaked {W}. Arguments m_world {W}.

#[export] Instance Manager_eta W : Eta (Manager W) := fun m =>
  mkManager (m_startup m) (m_config m) (m_generation m) (m_rows m) (m_images m) (m_hot m) (m_events m) (m_entries m)
    (m_quarantined m) (m_last_sweep m) (m_probe m) (m_is_closing m) (m_history_limit m)
    (m_teardown_deadline m) (m_leaked m) (m_world m).

(** ** Effects *)

Definition IO (W A : Type) : Type := Manager W -> A * Manager W.

#[export] Instance IO_ret W : MRet (IO W) := fun _ a m => (a, m).
#[export] Instance IO_bind W : MBind (IO W) := fun _ _ f c m => let '(a, m) := c m in f a m.

Definition gets {W A} (f : Manager W -> A) : IO W A := fun m => (f m, m).
Definition modify {W} (f : Manager W -> Manager W) : IO W unit := fun m => (tt, f m).

(** A call into the world. *)
Definition call {W A} (f : W -> A * W) : IO W A := fun m =>
  let '(a, w) := f (m_world m) in (a, m <| m_world := w |>).

(** The [?] operator: an error ends the operation with it. *)
Definition try_ {W E A B} (c : IO W (result E A)) (k : A -> IO W (result E B)) :
    IO W (result E B) :=
  r ← c; match r with Ok a => k a | Err e => mret (Err e) end.

Notation "x ←? c ; k" := (try_ c (fun x => k))
  (at level 20, c at level 100, k at level 200, right associativity) : stdpp_scope.

Definition io_map_err {W E F A} (f : E -> F) (c : IO W (result E A)) : IO W (result F A) :=
  r ← c; mret (map_err f r).

(** A [for] loop over a list. *)
Fixpoint for_each {W A} (f : A -> IO W unit) (l : list A) : IO W unit :=
  match l with
  | [] => mret tt
  | x :: l => _ ← f x; for_each f l
  end.

Section manager.
Context {W : Type} {BK : Backend W} {HO : HashOrder}.

Definition unix_time : IO W Z := call bk_unix_time.
Definition instant : IO W Z := call bk_instant.

Definition emit (kind : EventKind) (allocation : option AllocationId) (vm_name : option VmName)
    (profile : option ProfileName) : IO W unit :=
  modify (fun m => m <| m_events := m_events m ++
    [ {| ev_kind := kind; ev_allocation := allocation; ev_vm_name := vm_name;
         ev_profile := profile |} ] |>).

(** ** Stores ([crates/flanforge-orm/src/stores])

    A table is the map of the records its rows encode; [Convert] shows the
    encoding keeps a record that validates and makes any other unreadable. *)

(** A database call that may fail. *)
Definition stored {A} (c : IO W A) : IO W (result StoreError A) :=
  failed ← call bk_store_fault;
  if failed : bool then mret (Err StoreIo) else a ← c; mret (Ok a).

Definition allocation_save (a : Allocation) : IO W (result StoreError unit) :=
  if negb (validate_allocation a) then mret (Err StoreInvalid)
  else if negb (is_ok (allocation_columns a)) then mret (Err StoreInvalid)
  else stored (modify (fun m => m <| m_rows := <[a_id a := a]> (m_rows m) |>)).

Definition hot_save (g : HotGuest) : IO W (result StoreError unit) :=
  if negb (is_ok (hot_guest_to_model g)) then mret (Err StoreInvalid)
  else stored (modify (fun m => m <| m_hot := <[hg_vm_name g := g]> (m_hot m) |>)).

Definition hot_load (name : VmName) : IO W (result StoreError (option HotGuest)) :=
  row ←? stored (gets (fun m => m_hot m !! name));
  mret (match row with
        | None => Ok None
        | Some g => if validate_hot_guest g then Ok (Some g) else Err StoreInvalid
        end).

Definition hot_load_all : IO W (result StoreError (list HotGuest)) :=
  stored (gets (fun m => List.filter validate_hot_guest (hash_values (m_hot m)))).

Definition hot_remove (name : VmName) : IO W (result StoreError unit) :=
  stored (modify (fun m => m <| m_hot := delete name (m_hot m) |>)).

Definition images_load (profile : ProfileName) : IO W (result StoreError (option WarmImageRecord)) :=
  row ←? stored (gets (fun m => m_images m !! profile));
  mret (match row with
        | None => Ok None
        | Some r => if validate_warm_image r then Ok (Some r) else Err StoreInvalid
        end).

Definition images_save (r : WarmImageRecord) : IO W (result StoreError unit) :=
  if negb ((wi_generation r <=? i64_max) && (wi_produced_at_unix r <=? i64_max))
  then mret (Err StoreInvalid)
  else stored (modify (fun m => m <| m_images := <[wi_profile r := r]> (m_images m) |>)).

Definition images_load_all : IO W (result StoreError (list WarmImageRecord)) :=
  stored (gets (fun m => List.filter validate_warm_image (hash_values (m_images m)))).

Definition images_remove (profile : ProfileName) : IO W (result StoreError unit) :=
  stored (modify (fun m => m <| m_images := delete profile (m_images m) |>)).

(** ** The host listing ([admission/probe.rs]) *)

(** Lists the host and caches the listing; a failed listing is not cached. *)
Definition probe_machines : IO W (result WorkerError (list HostMachine)) :=
  listed ← call bk_machines;
  match listed with
  | Ok machines =>
      taken_at ← instant;
      _ ← modify (fun m => m <| m_probe := Some (taken_at, machines) |>);
      mret (Ok machines)
  | Err e => mret (Err e)
  end.

Definition host_machines : IO W (result WorkerError (list HostMachine)) :=
  config ← gets m_config;
  cached ← gets m_probe;
  match cached with
  | Some (taken_at, machines) =>
      now ← instant;
      if now - taken_at <? from_secs (rt_poll_seconds (c_runtime config))
      then mret (Ok machines) else probe_machines
  | None => probe_machines
  end.

(** ** One entry ([state.rs]) *)

Definition get (id : AllocationId) : IO W (result ManagerError Allocation) :=
  entries ← gets m_entries;
  mret (ok_or (option_map e_allocation (entries !! id)) (NotFound id)).

Definition set_entry (id : AllocationId) (f : Entry -> Entry) : IO W unit :=
  modify (fun m => m <| m_entries := alter f id (m_entries m) |>).

(** [update]: applies [f] to a copy, persists it, then publishes it to the
    entry and its watch channel. *)
Definition update (id : AllocationId) (f : Z -> Allocation -> result ManagerError Allocation) :
    IO W (result ManagerError unit) :=
  allocation ←? get id;
  now ← unix_time;
  allocation ←? mret (f now allocation);
  _ ←? io_map_err StoreE (allocation_save allocation);
  entries ← gets m_entries;
  match entries !! id with
  | None => mret (Err (NotFound id))
  | Some _ =>
      _ ← set_entry id (fun e => e <| e_allocation := allocation |> <| e_sent := allocation |>);
      mret (Ok tt)
  end.

Definition transition_to (id : AllocationId) (state : AllocationState) :
    IO W (result ManagerError unit) :=
  before ←? get id;
  _ ←? update id (fun now a => map_err TransitionE (transition now state a));
  _ ← emit AllocationStateChanged (Some id) (Some (a_vm_name before))
        (Some (rq_profile (a_request before)));
  mret (Ok tt).

Definition record_runner_id (id : AllocationId) (runner_id : Z) : IO W (result ManagerError unit) :=
  if runner_id <=? 0 then mret (Err InvalidRunnerId)
  else update id (fun now a => Ok (set_runner_id now runner_id a)).

Definition record_vm_created (id : AllocationId) : IO W (result ManagerError unit) :=
  update id (fun now a => Ok (set_vm_created now a)).

Definition record_source (id : AllocationId) (source : CloneSource) :
    IO W (result ManagerError unit) :=
  update id (fun now a => Ok (set_source now source a)).

Definition record_clone_source (id : AllocationId) (source : CloneSource)
    (warm_generation : option Z) : IO W (result ManagerError unit) :=
  update id (fun now a => Ok (set_clone_source now source warm_generation a)).

Definition record_retention (id : AllocationId) (outcome : RetentionOutcome) :
    IO W (result ManagerError unit) :=
  update id (fun now a => Ok (set_retention now outcome a)).

(** [WorkerError]'s [Display]. *)
Definition worker_message (e : WorkerError) : string :=
  match e with WorkerFailed message | WorkerCapacity message => message end.

Definition set_worker_error (id : AllocationId) (error : WorkerError) :
    IO W (result ManagerError unit) :=
  _ ←? update id (fun now a =>
         let a := if is_capacity error then set_capacity_busy now a else a in
         Ok (set_error now (worker_message error) a));
  _ ← emit AllocationErrorEvent (Some id) None None;
  mret (Ok tt).

Definition record_error (id : AllocationId) (error : string) : IO W (result ManagerError unit) :=
  _ ←? update id (fun now a => Ok (set_error now error a));
  _ ← emit AllocationErrorEvent (Some id) None None;
  mret (Ok tt).

Definition ensure_cleaning (id : AllocationId) : IO W (result ManagerError unit) :=
  allocation ←? get id;
  if bool_decide (a_state allocation = Cleaning) || is_terminal (a_state allocation)
  then mret (Ok tt)
  else transition_to id Cleaning.

(** ** Leaks ([shutdown.rs]) *)

Definition record_leak (a : Allocation) (reason : LeakReason) : IO W unit :=
  leaked ← gets m_leaked;
  if existsb (fun leak => bool_decide (al_id leak = a_id a)) leaked then mret tt
  else modify (fun m => m <| m_leaked := m_leaked m ++ [allocation_leak_new a reason] |>).

Definition budget_for (allowance : Z) : IO W CleanupBudget :=
  deadline ← gets m_teardown_deadline;
  mret (teardown_budget deadline allowance).
End manager.

(** ** Invariants of operations

    [triple I c φ]: run where [I] holds, [c] answers something that satisfies
    [φ] and leaves [I] true; [preserves I c] when the answer does not matter. *)

Section triples.
Context {W : Type}.
Implicit Types I : Manager W -> Prop.

Definition triple {A} I (c : IO W A) (φ : A -> Prop) : Prop :=
  forall m, I m -> I (c m).2 /\ φ (c m).1.

Definition preserves {A} I (c : IO W A) : Prop := triple I c (fun _ => True).

Lemma triple_ret {A} I (a : A) (φ : A -> Prop) : φ a -> triple I (mret a) φ.
Proof. intros H m Hm. done. Qed.

Lemma triple_bind {A B} I (c : IO W A) (k : A -> IO W B) φ ψ :
  triple I c φ -> (forall a, φ a -> triple I (k a) ψ) -> triple I (c ≫= k) ψ.
Proof.
  intros Hc Hk m Hm. unfold mbind, IO_bind. destruct (Hc m Hm) as [Hm' Ha].
  destruct (c m) as [a m']. by apply Hk.
Qed.

Lemma preserves_bind {A B} I (c : IO W A) (k : A -> IO W B) ψ :
  preserves I c -> (forall a, triple I (k a) ψ) -> triple I (c ≫= k) ψ.
Proof. intros Hc Hk. eapply triple_bind; eauto. Qed.

Lemma triple_weaken {A} I (c : IO W A) (φ ψ : A -> Prop) :
  triple I c φ -> (forall a, φ a -> ψ a) -> triple I c ψ.
Proof. intros Hc H m Hm. destruct (Hc m Hm). auto. Qed.

Lemma triple_gets {A} I (f : Manager W -> A) (φ : A -> Prop) :
  (forall m, I m -> φ (f m)) -> triple I (gets f) φ.
Proof. intros H m Hm. split; [done|]. by apply H. Qed.

Lemma preserves_gets {A} I (f : Manager W -> A) : preserves I (gets f).
Proof. intros m Hm. done. Qed.

Lemma preserves_modify I (f : Manager W -> Manager W) :
  (forall m, I m -> I (f m)) -> preserves I (modify f).
Proof. intros H m Hm. split; [by apply H|done]. Qed.

Lemma preserves_call {A} I (f : W -> A * W) :
  (forall m, I m -> I (m <| m_world := (f (m_world m)).2 |>)) -> preserves I (call f).
Proof.
  intros H m Hm. specialize (H m Hm). unfold call. by destruct (f (m_world m)) as [a w].
Qed.

Lemma triple_try {E A B} I (c : IO W (result E A)) (k : A -> IO W (result E B)) φ ψ :
  triple I c (fun r => forall a, r = Ok a -> φ a) -> (forall a, φ a -> triple I (k a) ψ) ->
  (forall e, ψ (Err e)) -> triple I (try_ c k) ψ.
Proof.
  intros Hc Hk He. eapply triple_bind; [done|]. intros [a|e] Ha; [auto|]. by apply triple_ret.
Qed.

Lemma preserves_try {E A B} I (c : IO W (result E A)) (k : A -> IO W (result E B)) :
  preserves I c -> (forall a, preserves I (k a)) -> preserves I (try_ c k).
Proof.
  intros Hc Hk. apply preserves_bind; [done|]. intros [a|e]; [apply Hk|by apply triple_ret].
Qed.

Lemma preserves_map_err {E F A} I (f : E -> F) (c : IO W (result E A)) :
  preserves I c -> preserves I (io_map_err f c).
Proof. intros Hc. apply preserves_bind; [done|]. intros r. by apply triple_ret. Qed.

Lemma triple_map_err {E F A} I (f : E -> F) (c : IO W (result E A)) φ :
  triple I c (fun r => forall a, r = Ok a -> φ a) ->
  triple I (io_map_err f c) (fun r => forall a, r = Ok a -> φ a).
Proof.
  intros Hc. eapply triple_bind; [done|]. intros [a|e] Ha; apply triple_ret; simpl; intros ? [=].
  subst. auto.
Qed.

Lemma preserves_for_each {A} I (f : A -> IO W unit) l :
  (forall x, x ∈ l -> preserves I (f x)) -> preserves I (for_each f l).
Proof.
  induction l as [|x l IH]; intros Hf; simpl; [by apply triple_ret|].
  apply preserves_bind; [apply Hf; left|]. intros _. apply IH. intros y Hy. apply Hf. by right.
Qed.
End triples.

(** Walks an operation down to its primitive effects; [tac] closes those. *)
Ltac walk tac :=
  repeat first
    [ assumption | solve [tac] | apply triple_ret; done | apply preserves_gets
    | apply preserves_map_err | apply preserves_try; [|intros] | apply preserves_for_each; intros
    | apply preserves_bind; [|intros] | case_match ].

(** ** An executable host

    A concrete world, so that witnesses run: a still clock, a listing, the
    machines the pool holds, the outcome of each store call and each cleanup
    attempt in order (success once the script runs out), and whether evictions
    are refused. *)

Record Sim := mkSim {
  sim_now : Z;
  sim_next : nat;
  sim_machines : list HostMachine;
  sim_pool : gset string;
  sim_faults : list bool;
  sim_cleanups : list (result WorkerError unit);
  sim_refuses : bool;
}.

#[export] Instance Sim_eta : Eta Sim := fun w =>
  mkSim (sim_now w) (sim_next w) (sim_machines w) (sim_pool w) (sim_faults w)
    (sim_cleanups w) (sim_refuses w).

Definition pool_machine (name : string) : HostMachine :=
  {| hm_name := name; hm_state := MRunning; hm_age_seconds := Some 7200;
     hm_size := None; hm_ownership := Owned |}.

Definition sim_with (fault : Sim -> bool * Sim) : Backend Sim := {|
  bk_unix_time w := (Z.max 0 (Z.min (sim_now w) i64_max), w);
  bk_instant w := (sim_now w, w);
  bk_uuid w := ("id-" +:+ pretty (sim_next w), w <| sim_next := S (sim_next w) |>);
  bk_store_fault := fault;
  bk_machines w := (Ok (sim_machines w ++ map pool_machine (elements (sim_pool w))), w);
  bk_cleanup _ _ w :=
    match sim_cleanups w with
    | [] => ((Ok tt, 0), w)
    | r :: rest => ((r, 0), w <| sim_cleanups := rest |>)
    end;
  bk_base_fingerprint _ w := (None, w);
  bk_base_storage_mb _ _ w := (None, w);
  bk_warm_availability _ _ _ w := (Ok WAbsent, w);
  bk_is_unclaimed_image _ _ w := (Ok false, w);
  bk_hot_retained r w :=
    (Ok tt, w <| sim_pool := {[ hg_vm_name (hrr_guest r) ]} ∪ sim_pool w |>);
  bk_hot_reset _ _ w := (Ok tt, w);
  bk_hot_live g w := (bool_decide (hg_vm_name g ∈ sim_pool w), w);
  bk_hot_evicted g _ w :=
    if sim_refuses w then (Err (WorkerFailed "refused"), w)
    else (Ok tt, w <| sim_pool := sim_pool w ∖ {[ hg_vm_name g ]} |>);
  bk_warm_restored _ _ w := (Ok tt, w);
  bk_delete_vm r w :=
    (Ok tt, w <| sim_machines :=
       List.filter (fun m => negb (bool_decide (hm_name m = rr_name r))) (sim_machines w) |>);
  bk_recovered w := (Ok tt, w);
  bk_sweep_images _ w := (Ok [], w);
  bk_warm_images := true;
  bk_hot_guests := true;
  bk_clone_source_deferred := false;
|}.

(** Store calls fail by the script. *)
#[export] Instance sim_backend : Backend Sim := sim_with (fun w =>
  match sim_faults w with
  | [] => (false, w)
  | b :: faults => (b, w <| sim_faults := faults |>)
  end).

(** No store call fails. *)
Definition calm_backend : Backend Sim := sim_with (fun w => (false, w)).

Definition sim_world : Sim := mkSim 1000 0 [] ∅ [] [] false.

Definition sim_manager (config : Config) (hot : list HotGuest) (w : Sim) : Manager Sim :=
  mkManager config config 0 ∅ ∅ (list_to_map (map (fun g => (hg_vm_name g, g)) hot)) [] ∅ ∅ None None false
    1000 None [] w.

(** ** The history bound ([prune_terminal_history]) *)

(** The sort key: last update, creation, then the identifier's text. *)
Definition history_le : relation Allocation := fun a b =>
  a_updated_at_unix a < a_updated_at_unix b \/
  (a_updated_at_unix a = a_updated_at_unix b /\
   (a_created_at_unix a < a_created_at_unix b \/
    (a_created_at_unix a = a_created_at_unix b /\ String.le (a_id a) (a_id b)))).

#[export] Instance history_le_dec : RelDecision history_le.
Proof. intros a b. unfold history_le. apply _. Defined.

Definition prune_terminal_history {HO : HashOrder} (entries : gmap string Entry) (limit : nat) :
    gmap string Entry :=
  let remove_count := (size entries - limit)%nat in
  let terminal := List.filter (fun a => is_terminal (a_state a)) (allocations entries) in
  let oldest := take remove_count (merge_sort history_le terminal) in
  foldl (fun entries a => delete (a_id a) entries) entries oldest.

(** ** Lemmas *)

(** Every entry is filed under its allocation's identifier. *)
Definition keyed (entries : gmap string Entry) : Prop :=
  forall id e, entries !! id = Some e -> a_id (e_allocation e) = id.

Lemma foldl_delete_lookup (l : list Allocation) (entries : gmap string Entry) id :
  foldl (fun entries a => delete (a_id a) entries) entries l !! id =
  if bool_decide (id ∈ map a_id l) then None else entries !! id.
Proof.
  revert entries. induction l as [|a l IH]; intros entries; [done|].
  simpl. rewrite IH. destruct (bool_decide (id ∈ map a_id l)) eqn:H; simplify_bool.
  - rewrite bool_decide_true; [done|]. by right.
  - destruct (decide (id = a_id a)) as [->|Hne].
    + rewrite lookup_delete_eq, bool_decide_true; [done|]. left.
    + rewrite lookup_delete_ne by done. rewrite bool_decide_false; [done|].
      rewrite not_elem_of_cons. done.
Qed.

Lemma foldl_delete_dom (l : list Allocation) (entries : gmap string Entry) :
  dom (foldl (fun entries a => delete (a_id a) entries) entries l) =
  dom entries ∖ list_to_set (map a_id l).
Proof.
  apply set_eq. intros id. rewrite elem_of_difference, elem_of_list_to_set, !elem_of_dom.
  rewrite foldl_delete_lookup.
  destruct (bool_decide (id ∈ map a_id l)) eqn:H; simplify_bool; [|tauto].
  split; [intros [? ?]; done | tauto].
Qed.

#[export] Instance history_le_total : Total history_le.
Proof.
  intros a b. unfold history_le.
  destruct (Z.lt_trichotomy (a_updated_at_unix a) (a_updated_at_unix b)) as [?|[?|?]]; [auto| |auto].
  destruct (Z.lt_trichotomy (a_created_at_unix a) (a_created_at_unix b)) as [?|[?|?]]; [auto| |auto].
  destruct (total String.le (a_id a) (a_id b)); auto 10.
Qed.

#[export] Instance history_le_trans : Transitive history_le.
Proof.
  intros a b c. unfold history_le. intros [?|(? & [?|[? Hab]])] [?|(? & [?|[? Hbc]])]; try lia.
  right. split; [lia|]. right. split; [lia|]. by transitivity (a_id b).
Qed.

Section history.
Context {HO : HashOrder}.
Implicit Types entries : gmap string Entry.

Lemma elem_of_allocations entries a :
  a ∈ allocations entries <-> exists id e, entries !! id = Some e /\ e_allocation e = a.
Proof.
  unfold allocations. rewrite list_elem_of_fmap. setoid_rewrite elem_of_hash_values. naive_solver.
Qed.

Lemma keyed_lookup entries a :
  keyed entries -> a ∈ allocations entries ->
  exists e, entries !! a_id a = Some e /\ e_allocation e = a.
Proof. intros Hk (id & e & He & <-)%elem_of_allocations. rewrite (Hk _ _ He). eauto. Qed.

Lemma allocations_length entries : length (allocations entries) = size entries.
Proof.
  unfold allocations, hash_values. rewrite length_map, length_fmap, hash_order_perm.
  by rewrite length_map_to_list.
Qed.

Lemma NoDup_allocation_ids entries : keyed entries -> NoDup (map a_id (allocations entries)).
Proof.
  intros Hk. unfold allocations, hash_values. change (map ?f ?l) with (f <$> l).
  rewrite <- !list_fmap_compose.
  rewrite (list_fmap_ext _ fst); [rewrite hash_order_perm; apply NoDup_fst_map_to_list|].
  intros i [id e] Hi. simpl. apply Hk, elem_of_hash_order. by apply list_elem_of_lookup_2 in Hi.
Qed.

(** The allocations [prune_terminal_history] drops. *)
Definition pruned entries (limit : nat) : list Allocation :=
  take (size entries - limit) (merge_sort history_le
    (List.filter (fun a => is_terminal (a_state a)) (allocations entries))).

Lemma pruned_terminal entries limit a :
  a ∈ pruned entries limit -> a ∈ allocations entries /\ is_terminal (a_state a) = true.
Proof.
  unfold pruned. intros (i & Ha%list_elem_of_lookup_2 & _)%elem_of_take. revert Ha.
  rewrite merge_sort_Permutation. intros Ha%list_elem_of_In. apply List.filter_In in Ha as [Ha%list_elem_of_In Ht]. done.
Qed.

Lemma pruned_ids_NoDup entries limit : keyed entries -> NoDup (map a_id (pruned entries limit)).
Proof.
  intros Hk. unfold pruned. change (map ?f ?l) with (f <$> l). rewrite fmap_take.
  eapply sublist_NoDup; [|apply sublist_take]. rewrite merge_sort_Permutation.
  eapply sublist_NoDup; [by apply (NoDup_allocation_ids entries)|].
  apply fmap_sublist, filter_bool_sublist.
Qed.

(** How many resident allocations are still live. *)
Definition live_count entries : nat := length (active_allocations entries).

Lemma count_live_terminal entries :
  (length (List.filter (fun a => is_terminal (a_state a)) (allocations entries))
   + live_count entries = size entries)%nat.
Proof.
  rewrite <- allocations_length. unfold live_count, active_allocations.
  induction (allocations entries) as [|a l IH]; simpl; [done|].
  destruct (is_terminal (a_state a)); simpl; lia.
Qed.

Lemma pruned_length entries limit :
  length (pruned entries limit) = Nat.min (size entries - limit) (size entries - live_count entries).
Proof.
  unfold pruned. rewrite length_take, merge_sort_Permutation.
  pose proof (count_live_terminal entries). lia.
Qed.

Lemma prune_lookup entries limit id :
  prune_terminal_history entries limit !! id =
  if bool_decide (id ∈ map a_id (pruned entries limit)) then None else entries !! id.
Proof. apply foldl_delete_lookup. Qed.

Lemma prune_subseteq entries limit id e :
  prune_terminal_history entries limit !! id = Some e -> entries !! id = Some e.
Proof. rewrite prune_lookup. by case_bool_decide. Qed.

Lemma prune_keeps_live entries limit id e :
  keyed entries -> entries !! id = Some e -> is_terminal (a_state (e_allocation e)) = false ->
  prune_terminal_history entries limit !! id = Some e.
Proof.
  intros Hk He Hl. rewrite prune_lookup, bool_decide_false; [done|].
  intros (a & -> & [Ha Ht]%pruned_terminal)%list_elem_of_fmap.
  apply keyed_lookup in Ha as (e' & He' & <-); [|done]. congruence.
Qed.

Lemma prune_size entries limit :
  keyed entries ->
  size (prune_terminal_history entries limit) =
  (size entries - length (pruned entries limit))%nat.
Proof.
  intros Hk. rewrite <- !(size_dom (D := gset string)). unfold prune_terminal_history.
  rewrite foldl_delete_dom. fold (pruned entries limit).
  rewrite size_difference, size_list_to_set, length_map; [done|by apply pruned_ids_NoDup|].
  intros id Hid. apply elem_of_list_to_set, list_elem_of_fmap in Hid as (a & -> & Ha).
  apply pruned_terminal in Ha as [Ha _]. apply keyed_lookup in Ha as (e & He & _); [|done].
  apply elem_of_dom. eauto.
Qed.
End history.

(** ** Properties *)

(** Trimming the resident history keeps every unfinished allocation,
    leaves exactly the larger of the limit and the unfinished count when it is
    over the limit and everything otherwise, never alters an entry it keeps,
    and drops oldest first: whatever it drops is no newer than any finished
    allocation it keeps. *)
Theorem prune_terminal_history_spec {HO : HashOrder} entries limit :
  keyed entries ->
  let kept := prune_terminal_history entries limit in
  (forall id e, kept !! id = Some e -> entries !! id = Some e) /\
  (forall id e, entries !! id = Some e -> is_terminal (a_state (e_allocation e)) = false ->
    kept !! id = Some e) /\
  size kept = (if decide (size entries <= limit)%nat then size entries
               else Nat.max limit (live_count entries)) /\
  (forall id e id' e', entries !! id = Some e -> kept !! id = None -> kept !! id' = Some e' ->
    is_terminal (a_state (e_allocation e')) = true ->
    history_le (e_allocation e) (e_allocation e')).
Proof.
  intros Hk kept. split_and!.
  - apply prune_subseteq.
  - intros id e. by apply prune_keeps_live.
  - unfold kept. rewrite prune_size, pruned_length by done.
    pose proof (count_live_terminal entries). destruct (decide _); lia.
  - intros id e id' e' He Hn He' Ht'. unfold kept in Hn, He'. rewrite prune_lookup in Hn, He'.
    destruct (bool_decide (id ∈ _)) eqn:Hid; [|congruence].
    destruct (bool_decide (id' ∈ _)) eqn:Hid'; [done|]. simplify_bool.
    set (sorted := merge_sort history_le
      (List.filter (fun a => is_terminal (a_state a)) (allocations entries))).
    assert (StronglySorted history_le sorted) as Hs
      by (apply StronglySorted_merge_sort; apply _).
    rewrite <- (take_drop (size entries - limit) sorted) in Hs.
    apply (StronglySorted_app_1_elem_of _ _ _ _ _ Hs).
    + apply list_elem_of_fmap in Hid as (a & -> & Ha). fold sorted in Ha.
      pose proof (pruned_terminal _ _ _ Ha) as [Hin _].
      apply keyed_lookup in Hin as (e1 & He1 & <-); [|done]. by simplify_eq.
    + assert (e_allocation e' ∈ sorted) as Hin.
      { unfold sorted. rewrite merge_sort_Permutation. apply list_elem_of_In, List.filter_In.
        split; [|done]. apply list_elem_of_In, elem_of_allocations. eauto. }
      rewrite <- (take_drop (size entries - limit) sorted) in Hin.
      apply elem_of_app in Hin as [Hin|Hin]; [|done].
      destruct Hid'. apply list_elem_of_fmap. exists (e_allocation e'). split; [|done].
      symmetry. by apply Hk.
Qed.

Lemma prune_terminal_history_spec_witness :
  size (prune_terminal_history example_entries 0) =
    (if decide (size example_entries <= 0)%nat then size example_entries
     else Nat.max 0 (live_count example_entries)).
Proof.
  refine (proj1 (proj2 (proj2 (prune_terminal_history_spec example_entries 0 _)))).
  intros id e He. unfold example_entries in He.
  apply lookup_singleton_Some in He as [<- <-]. vm_compute. reflexivity.
Defined.
