(* ===== verification/Supervise.v ===== *)
(** * The runner of an allocation ([crates/flanforge-runtime])

    [supervisor/{window,run}.rs]: the deadlines of one supervised guest runner
    and the loop that watches it.  [job/{runner,wait}.rs]: its registration,
    the wait for the job it may run, and its start.

    The guest's process and the cancellation token are an interface
    ([RunnerHost]) beside the backend's world and the Forgejo exchange. *)

From S2P Require Import Prelude Rust Text Identifiers Images Guest Hot Allocation Config ConfigValidate Claims Admission Reaper Convert Futures Forgejo Manager.

Open Scope Z_scope.
Open Scope stdpp_scope.

(** ** Deadlines ([supervisor/window.rs]) *)

Definition RELEASED_RUNNER_GRACE : Z := from_secs 60.
Definition POST_BINDING_GRACE : Z := from_secs 60.

Inductive ObservedPhase := PWaiting | PReady | PRunning.

#[export] Instance ObservedPhase_eq_dec : EqDecision ObservedPhase.
Proof. solve_decision. Defined.

Record SupervisionWindow := mkWindow {
  sw_idle_timeout : Z;
  sw_job_timeout : Z;
  sw_idle_deadline : Z;
  sw_supervised_deadline : Z;
  sw_job_deadline : option Z;
  sw_phase : ObservedPhase;
  sw_observation_failures : Z;
}.

#[export] Instance SupervisionWindow_eta : Eta SupervisionWindow := fun w =>
  mkWindow (sw_idle_timeout w) (sw_job_timeout w) (sw_idle_deadline w)
    (sw_supervised_deadline w) (sw_job_deadline w) (sw_phase w) (sw_observation_failures w).

Definition window_new (profile : Profile) (idle_deadline now : Z) : SupervisionWindow :=
  let idle_timeout := from_secs (p_idle_timeout_seconds profile) in
  let job_timeout := from_secs (p_job_timeout_seconds profile) in
  {| sw_idle_timeout := idle_timeout; sw_job_timeout := job_timeout;
     sw_idle_deadline := Z.max idle_deadline (now + Z.min idle_timeout POST_BINDING_GRACE);
     sw_supervised_deadline := now + job_timeout; sw_job_deadline := None;
     sw_phase := PWaiting; sw_observation_failures := 0 |}.

Definition is_job_running (w : SupervisionWindow) : bool := bool_decide (sw_phase w = PRunning).

Definition start_job (now : Z) (w : SupervisionWindow) : SupervisionWindow :=
  w <| sw_phase := PRunning |> <| sw_observation_failures := 0 |>
    <| sw_job_deadline := Some (now + sw_job_timeout w) |>.

(** The states a status reports, and the window after it. *)
Definition advance (now : Z) (status : RunnerStatus) (w : SupervisionWindow) :
    list AllocationState * SupervisionWindow :=
  match status, sw_phase w with
  | Idle, PWaiting => ([Ready], w <| sw_phase := PReady |>)
  | Active, PWaiting => ([Ready; Running], start_job now w)
  | Active, PReady => ([Running], start_job now w)
  | _, _ => ([], w)
  end.

Definition observed (w : SupervisionWindow) : SupervisionWindow :=
  w <| sw_observation_failures := 0 |>.

Definition unobserved (now : Z) (error : ForgejoError) (w : SupervisionWindow) : SupervisionWindow :=
  let w := w <| sw_observation_failures := sat_add u32_max (sw_observation_failures w) 1 |> in
  if is_rejection error then w else w <| sw_idle_deadline := now + sw_idle_timeout w |>.

Definition released_deadline (now : Z) (w : SupervisionWindow) : Z :=
  Z.min (now + RELEASED_RUNNER_GRACE) (sw_supervised_deadline w).

Definition ensure_exit_completed_a_job (w : SupervisionWindow) (exit : GuestExit) :
    result WorkerError unit :=
  if is_success exit then Ok tt
  else if is_job_running w then Ok tt
  else Err (worker_error_new "guest runner exited before completing a job").

Definition ensure_exit_is_a_verdict (w : SupervisionWindow) (exit : GuestExit) :
    result WorkerError unit :=
  if is_verdict exit then ensure_exit_completed_a_job w exit
  else Err (worker_error_new "guest runner became unobservable").

Definition overrun (now : Z) (w : SupervisionWindow) : option string :=
  if sw_supervised_deadline w <=? now then Some "guest runner exceeded its supervised lifetime"
  else if match sw_job_deadline w with Some deadline => deadline <=? now | None => false end
  then Some "guest job exceeded its timeout"
  else if negb (is_job_running w) && (sw_idle_deadline w <=? now)
  then Some "guest runner did not receive a job before its idle timeout"
  else None.

(** ** The loop ([supervisor/run.rs]) *)

Class RunnerHost (W : Type) := {
  rn_is_cancelled : W -> bool;
  (** [GuestProcess::try_exit], [ensure_stopped] and [probe_now]. *)
  rn_try_exit : Fut W (result WorkerError (option GuestExit));
  rn_stop : W -> W;
  rn_probe_now : W -> W;
  (** The poll interval, or the cancellation that ends it. *)
  rn_pause : W -> W;
  (** Delivering the runner, and starting it with a job's handle. *)
  rn_prepare : Fut W (result WorkerError unit);
  rn_spawn : RunnerCredentials -> string -> Z -> Fut W (result WorkerError unit);
}.

Section supervise.
Context {W : Type} {BK : Backend W} {FH : ForgejoHost W} {RH : RunnerHost W} {ET : ErrorText}.
Local Abbreviation M := (Manager W).

(** A step of the world, and one of the manager. *)
Definition world {A} (step : Fut W A) : Fut M A := on m_world (fun w m => m <| m_world := w |>) step.
Definition managed {A} (step : IO W A) : Fut M A := answer step.
Definition touch (f : W -> W) : Fut M unit := world (answer (fun w => (tt, f w))).

Definition stopped_with (message : string) : Fut M (result WorkerError unit) :=
  _ ← touch rn_stop; mret (Err (worker_error_new message)).

Fixpoint report_states (id : AllocationId) (states : list AllocationState) :
    Fut M (result WorkerError unit) :=
  match states with
  | [] => mret (Ok tt)
  | state :: states =>
      _ ←! fut_map_err (fun error => worker_error_new (manager_text error))
             (managed (transition_to id state));
      report_states id states
  end.

(** A status, or the cancellation that ended the wait for it. *)
Definition observe (a : Allocation) : Fut M (option (result ForgejoError RunnerStatus)) := fun m =>
  match world (runner_status (rq_repository (a_request a)) (default 0 (a_runner_id a))) m with
  | (Done status, m) => (Done (Some status), m)
  | (Dropped true, m) => (Done None, m)
  | (Dropped false, m) => (Dropped false, m)
  | (Crashed, m) => (Crashed, m)
  end.

Fixpoint await_release (fuel : nat) (w : SupervisionWindow) (deadline : Z) :
    Fut M (result WorkerError unit) :=
  match fuel with
  | O => fun m => (Dropped false, m)
  | S fuel =>
      _ ← touch rn_probe_now;
      cancelled ← managed (gets (fun m => rn_is_cancelled (m_world m)));
      if cancelled : bool then stopped_with "allocation was cancelled"
      else
        exit ←! world rn_try_exit;
        match exit with
        | Some exit => mret (ensure_exit_is_a_verdict w exit)
        | None =>
            now ← managed instant;
            if deadline <=? now
            then stopped_with "guest runner did not exit after Forgejo released its registration"
            else _ ← touch rn_pause; await_release fuel w deadline
        end
  end.

Definition ensure_released_runner_exits (fuel : nat) (w : SupervisionWindow) :
    Fut M (result WorkerError unit) :=
  now ← managed instant;
  await_release fuel w (released_deadline now w).

Fixpoint supervise_loop (fuel : nat) (a : Allocation) (w : SupervisionWindow) :
    Fut M (result WorkerError unit) :=
  match fuel with
  | O => fun m => (Dropped false, m)
  | S rest =>
      cancelled ← managed (gets (fun m => rn_is_cancelled (m_world m)));
      if cancelled : bool then stopped_with "allocation was cancelled"
      else
        exit ←! world rn_try_exit;
        match exit with
        | Some exit => mret (ensure_exit_is_a_verdict w exit)
        | None =>
            status ← observe a;
            match status with
            | None => supervise_loop rest a w
            | Some (Err AbsentE) => ensure_released_runner_exits fuel w
            | Some status =>
                seen ← managed instant;
                let '(states, w) :=
                  match status with
                  | Ok status => advance seen status (observed w)
                  | Err error => ([], unobserved seen error w)
                  end in
                _ ←! report_states (a_id a) states;
                now ← managed instant;
                match overrun now w with
                | Some message => stopped_with message
                | None => _ ← touch rn_pause; supervise_loop rest a w
                end
            end
        end
  end.

(** The polls the job's lifetime has room for, and the rounds that end it. *)
Definition supervise_fuel (poll : Z) (profile : Profile) : nat :=
  Z.to_nat (from_secs (p_job_timeout_seconds profile) / poll) + 3.

Definition supervise (poll : Z) (a : Allocation) (profile : Profile) (idle_deadline : Z) :
    Fut M (result WorkerError unit) :=
  now ← managed instant;
  supervise_loop (supervise_fuel poll profile) a (window_new profile idle_deadline now).

(** ** Registration and start ([job/runner.rs], [job/wait.rs]) *)

Context {UC : UuidCodec} {ST : StatusText}.

Definition not_ready (observed : option string) : WorkerError :=
  worker_error_new (match observed with
                    | None => NOT_READY
                    | Some reason => NOT_READY +:+ ": " +:+ reason
                    end).

(** The rounds of [wait_for_job_handle] up to the deadline. *)
Fixpoint wait_rounds (fuel : nat) (a : Allocation) (binding : JobBinding) (deadline : Z)
    (observed : option string) : Fut M (result WorkerError string) :=
  match fuel with
  | O => fun m => (Dropped false, m)
  | S fuel => fun m =>
      match world (poll_round a binding observed) m with
      | (Crashed, m) => (Crashed, m)
      | (Dropped true, m) => (Done (Err (worker_error_new "allocation was cancelled")), m)
      | (Dropped false, m) => (Done (Err (not_ready observed)), m)
      | (Done (Some answer, _), m) => (Done answer, m)
      | (Done (None, observed), m) =>
          (_ ← touch rn_pause;
           cancelled ← managed (gets (fun m => rn_is_cancelled (m_world m)));
           if cancelled : bool then mret (Err (worker_error_new "allocation was cancelled"))
           else
             now ← managed instant;
             if deadline <=? now then mret (Err (not_ready observed))
             else wait_rounds fuel a binding deadline observed) m
      end
  end.

Definition wait_for_job_handle (poll : Z) (a : Allocation) (profile : Profile) (deadline : Z) :
    Fut M (result WorkerError string) :=
  now ← managed instant;
  wait_rounds (Z.to_nat ((deadline - now) / poll) + 3) a (binding_of a profile) deadline None.

(** [Duration::MAX]. *)
Definition duration_max : Z := from_secs u64_max + 999999999.

(** The guest's own bound on the runner, past every bound the host keeps. *)
Definition guest_lifetime (profile : Profile) : Z :=
  sat_add duration_max (from_secs (p_job_timeout_seconds profile)) RELEASED_RUNNER_GRACE.

Inductive RunnerDelivery := HostCopy (source : string) | Image.

Record GuestJob := {
  gj_poll : Z;
  gj_backend : RuntimeBackendKind;
  gj_delivery : RunnerDelivery;
  gj_is_transfer_bound : bool;
}.

Definition ensure_session (job : GuestJob) (is_allocation_pinned : bool) : result WorkerError unit :=
  match gj_delivery job, gj_is_transfer_bound job with
  | HostCopy _, false =>
      Err (worker_error_new "the guest control channel cannot deliver a host-copied runner")
  | delivery, _ =>
      match gj_backend job, delivery, is_allocation_pinned with
      | TartKind, _, false | LibvirtKind, Image, true => Ok tt
      | _, _, _ =>
          Err (worker_error_new "guest trust or runner delivery does not match the runtime backend")
      end
  end.

(** The allocation with its runner's id, and the runner's credentials. *)
Definition register (a : Allocation) :
    Fut M (result WorkerError (Allocation * RunnerCredentials)) :=
  credentials ←! phase "runner registration exceeded its timeout"
    (fut_map_err worker_forgejo
       (world (create_runner (rq_repository (a_request a)) (runner_name a))));
  recorded ← managed (record_runner_id (a_id a) (rcr_id credentials));
  match recorded with
  | Err error =>
      _ ← world (delete_runner (rq_repository (a_request a)) (rcr_id credentials));
      mret (Err (worker_error_new (manager_text error)))
  | Ok _ =>
      now ← managed unix_time;
      mret (Ok (set_runner_id now (rcr_id credentials) a, credentials))
  end.

(** The allocation with its runner's id, and the idle deadline the supervision
    inherits. *)
Definition start_runner (job : GuestJob) (is_allocation_pinned : bool) (a : Allocation)
    (profile : Profile) : Fut M (result WorkerError (Allocation * Z)) :=
  _ ←! mret (ensure_session job is_allocation_pinned);
  registered ←! register a;
  let '(a, credentials) := registered in
  _ ←! phase "guest runner preparation exceeded its timeout" (world rn_prepare);
  _ ←! fut_map_err (fun error => worker_error_new (manager_text error))
         (managed (transition_to (a_id a) WaitingForJob));
  now ← managed instant;
  let idle_deadline := now + from_secs (p_idle_timeout_seconds profile) in
  handle ←! wait_for_job_handle (gj_poll job) a profile idle_deadline;
  _ ←! phase "guest runner start exceeded its timeout"
         (world (rn_spawn credentials handle (guest_lifetime profile)));
  mret (Ok (a, idle_deadline)).
End supervise.

(** ** The loop ends *)

Section pacing.
Context {W : Type} {BK : Backend W} {FH : ForgejoHost W} {RH : RunnerHost W} {ET : ErrorText}.
Local Abbreviation M := (Manager W).

(** What the supervision relies on: no call turns the clock back, a pause
    takes its time unless the token ends it, and the calls answer unless the
    token ends them. *)
Record pacing (clock : W -> Z) (poll : Z) : Prop := {
  pc_poll : 0 < poll;
  pc_instant : forall w, clock w <= (bk_instant w).1 /\ (bk_instant w).1 <= clock (bk_instant w).2;
  pc_pause : forall w, rn_is_cancelled (rn_pause w) = true \/ clock w + poll <= clock (rn_pause w);
  pc_probe : forall w, clock w <= clock (rn_probe_now w) /\
    rn_is_cancelled (rn_probe_now w) = rn_is_cancelled w;
  pc_exit : forall w, clock w <= clock (rn_try_exit w).2;
  pc_exit_ends : ends rn_try_exit;
  pc_send : forall request w, clock w <= clock (fg_send request w).2;
  pc_send_ends : forall request w b, (fg_send request w).1 = Dropped b ->
    b = true /\ rn_is_cancelled (fg_send request w).2 = true;
  pc_unix : forall w, clock w <= clock (bk_unix_time w).2;
  pc_fault : forall w, clock w <= clock (bk_store_fault w).2;
}.

Context (clock : W -> Z) (poll : Z) (Hpace : pacing clock poll).

Definition time (m : M) : Z := clock (m_world m).
Definition since (t : Z) (m : M) : Prop := t <= time m.

Lemma wp_instant (Q : Z -> M -> Prop) D C m :
  (forall now m', time m <= now -> now <= time m' -> Q now m') -> wp (managed instant) Q D C m.
Proof using Hpace.
  intros HQ. apply wp_answer. unfold instant, call, time in *.
  pose proof (pc_instant _ _ Hpace (m_world m)) as [H1 H2].
  destruct (bk_instant (m_world m)) as [now w]. simpl in *. by apply HQ.
Qed.

Lemma since_call {A} t (f : W -> A * W) :
  (forall w, clock w <= clock (f w).2) -> preserves (since t) (call f).
Proof.
  intros Hf. apply preserves_call. intros m Hm. unfold since, time in *. simpl.
  specialize (Hf (m_world m)). lia.
Qed.

Lemma since_transition t id state : preserves (since t) (transition_to id state).
Proof using Hpace.
  unfold transition_to, update, get, unix_time, allocation_save, stored, set_entry, emit.
  walk ltac:(first [ apply since_call, (pc_unix _ _ Hpace) | apply since_call, (pc_fault _ _ Hpace)
                   | by apply preserves_modify ]).
Qed.

Lemma wp_report t id states m :
  since t m ->
  wp (report_states id states) (fun _ => since t) (fun _ => False) (fun _ => False) m.
Proof using Hpace.
  revert m. induction states as [|state states IH]; intros m Hm; [done|]. apply wp_try, wp_map_err, wp_answer.
  destruct (since_transition t id state m Hm) as [H1 _]. destruct (transition_to id state m) as [[u|e] m1];
    simpl in *; [by apply IH|done].
Qed.

Lemma wp_exit (Q : result WorkerError (option GuestExit) -> M -> Prop) D m :
  (forall r m', time m <= time m' -> Q r m') -> wp (world rn_try_exit) Q D (fun _ => True) m.
Proof using Hpace.
  intros HQ. apply wp_on. pose proof (pc_exit _ _ Hpace (m_world m)) as Hx.
  pose proof (pc_exit_ends _ _ Hpace (m_world m)) as He. unfold wp.
  destruct (rn_try_exit (m_world m)) as [[r|b|] w]; simpl in *; [by apply HQ| |done].
  by destruct (He b).
Qed.

Lemma wp_observe (Q : option (result ForgejoError RunnerStatus) -> M -> Prop) D a m :
  (forall r m', time m <= time m' -> Q (Some r) m') ->
  (forall m', rn_is_cancelled (m_world m') = true -> Q None m') ->
  wp (observe a) Q D (fun _ => True) m.
Proof using Hpace.
  intros HS HN. unfold wp, observe.
  assert (wp (world (runner_status (rq_repository (a_request a)) (default 0 (a_runner_id a))))
    (fun _ m' => time m <= time m') (fun m' => rn_is_cancelled (m_world m') = true) (fun _ => True) m
    /\ (world (runner_status (rq_repository (a_request a)) (default 0 (a_runner_id a))) m).1 <> Dropped false)
    as [Hw Hd].
  { set (request := GetRunner (rq_repository (a_request a)) (default 0 (a_runner_id a))).
    pose proof (pc_send _ _ Hpace request (m_world m)) as Hs.
    pose proof (pc_send_ends _ _ Hpace request (m_world m)) as He.
    unfold wp, world, on, runner_status, fetch, send, runner_url, fut_try, mbind, Fut_bind, mret, Fut_ret.
    destruct fg_is_base; simpl; [|unfold time; simpl; split; [lia|done]].
    fold request. destruct (fg_send request (m_world m)) as [[[resp|]|b|] w]; simpl in *.
    - destruct (ensure_success resp) as [r|e]; simpl; [|by split].
      destruct (bounded_json _ _ r); simpl; [|by split]. repeat case_bool_decide; by split.
    - by split.
    - destruct (He b eq_refl) as [-> Hc]. by split.
    - by split. }
  unfold wp in Hw. destruct (world _ m) as [[r|[]|] m']; simpl in *; [auto|auto|by destruct Hd|done].
Qed.

(** The rounds left are enough: the token ends the next one, or the deadline
    is within reach of the pauses they hold. *)
Definition enough (fuel : nat) (deadline : Z) (m : M) : Prop :=
  (rn_is_cancelled (m_world m) = true /\ (1 <= fuel)%nat) \/
  ((2 <= fuel)%nat /\ deadline - time m <= poll * (Z.of_nat fuel - 2)).

Lemma enough_later fuel deadline deadline' m m' :
  (2 <= fuel)%nat -> deadline - time m <= poll * (Z.of_nat fuel - 2) -> deadline' <= deadline ->
  time m <= time m' -> enough fuel deadline' m'.
Proof. intros Hf Hd Hle Ht. right. split; [done|]. lia. Qed.

(** After a pause one round less is enough, if one was left before the
    deadline. *)
Lemma wp_pause fuel deadline now (Q : unit -> M -> Prop) D C t m :
  deadline - t <= poll * (Z.of_nat (S fuel) - 2) -> t <= now -> now < deadline -> t <= time m ->
  (forall m', enough fuel deadline m' -> Q tt m') -> wp (touch rn_pause) Q D C m.
Proof using Hpace.
  intros Hd Hn Hlt Ht HQ. apply wp_on, wp_answer, HQ. pose proof (pc_poll _ _ Hpace) as Hp.
  unfold enough, time in *. simpl. replace (Z.of_nat (S fuel) - 2) with (Z.of_nat fuel - 1) in Hd by lia.
  assert (2 <= Z.of_nat fuel) by nia.
  destruct (pc_pause _ _ Hpace (m_world m)) as [Hc|Hc]; [left; split; [done|lia]|right].
  split; [lia|]. replace (poll * (Z.of_nat fuel - 2)) with (poll * (Z.of_nat fuel - 1) - poll) by lia. lia.
Qed.

Lemma await_release_ends fuel w deadline m :
  enough fuel deadline m ->
  wp (await_release fuel w deadline) (fun _ _ => True) (fun _ => False) (fun _ => True) m.
Proof using Hpace.
  revert m. induction fuel as [|fuel IH]; intros m Hm; [destruct Hm as [[_ ?]|[? _]]; lia|]. simpl.
  apply wp_bind, wp_on, wp_answer. simpl. apply wp_bind, wp_answer. simpl.
  destruct (pc_probe _ _ Hpace (m_world m)) as [Hp Hc].
  destruct (rn_is_cancelled (rn_probe_now (m_world m))) eqn:Hcan; [by apply wp_bind, wp_on, wp_answer|].
  destruct Hm as [[Hm _]|[Hf Hd]]; [congruence|]. apply wp_try, wp_exit. intros [[exit|]|e] m1 H1; try done.
  unfold time in H1. simpl in H1. apply wp_bind, wp_instant. intros now m2 Hn1 Hn2.
  destruct (Z.leb_spec deadline now); [by apply wp_bind, wp_on, wp_answer|].
  apply wp_bind, (wp_pause fuel deadline now _ _ _ (time m)); [done|unfold time in *; lia..|].
  intros m3 H3. by apply IH.
Qed.

Lemma advance_deadlines now status w :
  sw_supervised_deadline (advance now status w).2 = sw_supervised_deadline w.
Proof. by destruct status, w as [? ? ? ? ? [] ?]. Qed.

Lemma unobserved_deadlines now error w :
  sw_supervised_deadline (unobserved now error w) = sw_supervised_deadline w.
Proof. unfold unobserved. by destruct (is_rejection error). Qed.

Lemma overrun_none now w : overrun now w = None -> now < sw_supervised_deadline w.
Proof. unfold overrun. by destruct (Z.leb_spec (sw_supervised_deadline w) now). Qed.

Lemma supervise_loop_ends fuel a w m :
  enough fuel (sw_supervised_deadline w) m ->
  wp (supervise_loop fuel a w) (fun _ _ => True) (fun _ => False) (fun _ => True) m.
Proof using Hpace.
  revert w m. induction fuel as [|fuel IH]; intros w m Hm; [destruct Hm as [[_ ?]|[? _]]; lia|].
  cbn [supervise_loop]. apply wp_bind, wp_answer. simpl.
  destruct (rn_is_cancelled (m_world m)) eqn:Hcan; [by apply wp_bind, wp_on, wp_answer|].
  destruct Hm as [[Hm _]|[Hf Hd]]; [congruence|]. apply wp_try, wp_exit. intros [[exit|]|e] m1 H1; try done.
  apply wp_bind, wp_observe; [|intros m2 H2; apply IH; left; split; [done|lia]].
  intros status m2 H2.
  assert (forall w', sw_supervised_deadline w' = sw_supervised_deadline w -> forall states seen m3,
    seen <= time m3 -> time m2 <= seen ->
    wp (_ ←! report_states (a_id a) states;
        now ← managed instant;
        match overrun now w' with
        | Some message => stopped_with message
        | None => _ ← touch rn_pause; supervise_loop fuel a w'
        end) (fun _ _ => True) (fun _ => False) (fun _ => True) m3) as Hround.
  { intros w' Hw' states seen m3 Hs H3. apply wp_try.
    eapply wp_mono; [apply (wp_report seen)| |done|done]; [done|]. intros [[]|e] m4 H4; [|done].
    apply wp_bind, wp_instant. intros now m5 Hn1 Hn2.
    destruct (overrun now w') eqn:Ho; [by apply wp_bind, wp_on, wp_answer|]. apply overrun_none in Ho.
    apply wp_bind, (wp_pause fuel (sw_supervised_deadline w') now _ _ _ (time m));
      [by rewrite Hw'|unfold since in *; lia..|]. intros m6 H6. by apply IH. }
  destruct status as [status|[]].
  4: { apply wp_bind, wp_instant. intros now m3 Hn1 Hn2. apply await_release_ends.
       eapply (enough_later _ (sw_supervised_deadline w) _ m); [done|done| |lia]. unfold released_deadline. lia. }
  all: apply wp_bind, wp_instant; intros seen m3 Hn1 Hn2.
  1: destruct (advance seen status (observed w)) as [states w'] eqn:Ha.
  all: eapply Hround; [|exact Hn2|exact Hn1].
  1: pose proof (advance_deadlines seen status (observed w)) as Hw'; by rewrite Ha in Hw'.
  all: apply unobserved_deadlines.
Qed.

(** C37: the supervision of a guest runner ends within the job's lifetime.
    On a host whose clock does not go back and whose calls answer or are ended
    by the token, the loop needs no more rounds than the job timeout has polls,
    and three: whatever Forgejo answers, the supervised deadline, the released
    runner's and the token each end it. *)
Theorem supervise_terminates a profile idle_deadline m cancelled :
  (supervise poll a profile idle_deadline m).1 <> Dropped cancelled.
Proof using Hpace.
  assert (wp (supervise poll a profile idle_deadline) (fun _ _ => True) (fun _ => False)
    (fun _ => True) m) as Hw.
  { apply wp_bind, wp_instant. intros now m1 H1 H2. apply supervise_loop_ends. right.
    unfold supervise_fuel. cbn [window_new sw_supervised_deadline].
    pose proof (pc_poll _ _ Hpace) as Hp. set (job := from_secs _).
    pose proof (Z.mul_succ_div_gt job poll Hp). split; [lia|]. nia. }
  unfold wp in Hw. by destruct (supervise _ _ _ _ m) as [[] ?].
Qed.
End pacing.

(** ** What the supervision's answer means *)

Section verdict.
Context {W : Type} {BK : Backend W} {FH : ForgejoHost W} {RH : RunnerHost W} {ET : ErrorText}.
Local Abbreviation M := (Manager W).

Definition entry_state (id : AllocationId) (m : M) : option AllocationState :=
  option_map (fun e => a_state (e_allocation e)) (m_entries m !! id).

Lemma try_ok {E A B} (c : IO W (result E A)) (k : A -> IO W (result E B)) m b m' :
  try_ c k m = (Ok b, m') -> exists a m1, c m = (Ok a, m1) /\ k a m1 = (Ok b, m').
Proof.
  unfold try_, mbind, IO_bind. destruct (c m) as [[a|e] m1]; [by exists a, m1|done].
Qed.

(** An update that succeeds has published what [f] made of the entry. *)
Lemma update_ok id f m m' :
  update id f m = (Ok tt, m') ->
  exists a now b, f now a = Ok b /\ option_map e_allocation (m_entries m' !! id) = Some b.
Proof.
  intros (a & m1 & _ & H1)%try_ok. unfold mbind, IO_bind in H1.
  destruct (unix_time m1) as [now m2]. apply try_ok in H1 as (b & m3 & Hf & H3).
  apply try_ok in H3 as (? & m4 & _ & H4). unfold gets in H4.
  exists a, now, b. split; [by injection Hf|].
  destruct (m_entries m4 !! id) as [e|] eqn:He; [|done]. injection H4 as <-.
  simpl. by rewrite lookup_alter_eq, He.
Qed.

Lemma transition_to_ok id state m m' :
  transition_to id state m = (Ok tt, m') -> entry_state id m' = Some state.
Proof.
  intros (before & m1 & _ & H1)%try_ok. apply try_ok in H1 as ([] & m2 & H2 & H3).
  apply update_ok in H2 as (a & now & b & Hf & He). injection H3 as <-.
  change (entry_state id m2 = Some state). unfold entry_state.
  destruct (m_entries m2 !! id); [|done]. simpl. injection He as Hb. rewrite Hb. unfold transition in Hf.
  destruct (negb _); [done|]. by injection Hf as <-.
Qed.

(** The runner's process was seen to end. *)
Definition exited (exit : GuestExit) (m : M) : Prop :=
  exists w, rn_try_exit w = (Done (Ok (Some exit)), m_world m).

(** What each answer stands for.  A success is an exit that says so, or any
    exit the guest reported of a runner whose job was recorded as running; a
    failure is an exit that is neither, a process that could not be read, one
    that was stopped, or a step of the allocation the manager refused. *)
Inductive verdict (id : AllocationId) (m : M) : result WorkerError unit -> Prop :=
| verdict_completed exit : exited exit m -> is_verdict exit = true ->
    is_success exit = true \/ entry_state id m = Some Running -> verdict id m (Ok tt)
| verdict_incomplete exit e : exited exit m -> is_success exit = false -> verdict id m (Err e)
| verdict_unreadable w e : rn_try_exit w = (Done (Err e), m_world m) -> verdict id m (Err e)
| verdict_stopped w e : m_world m = rn_stop w -> verdict id m (Err e)
| verdict_refused state m' error : transition_to id state m' = (Err error, m) ->
    verdict id m (Err (worker_error_new (manager_text error))).

(** A window that says the job runs is of an allocation recorded as running. *)
Definition recorded (id : AllocationId) (w : SupervisionWindow) (m : M) : Prop :=
  is_job_running w = true -> entry_state id m = Some Running.

Lemma exit_verdict id w exit m :
  recorded id w m -> exited exit m -> verdict id m (ensure_exit_is_a_verdict w exit).
Proof.
  intros Hw He. unfold ensure_exit_is_a_verdict, ensure_exit_completed_a_job.
  destruct (is_verdict exit) eqn:Hv.
  - destruct (is_success exit) eqn:Hs; [apply (verdict_completed _ _ exit); auto|].
    destruct (is_job_running w) eqn:Hr; [apply (verdict_completed _ _ exit); auto|].
    by apply (verdict_incomplete _ _ exit).
  - apply (verdict_incomplete _ _ exit); [done|]. by destruct exit.
Qed.

Lemma stopped_verdict id message m :
  wp (stopped_with message) (fun r m => verdict id m r) (fun _ => True) (fun _ => True) m.
Proof. apply wp_bind, wp_on, wp_answer, wp_ret. by eapply verdict_stopped. Qed.

(** A step of the world leaves the table. *)
Lemma wp_world {A} (step : Fut W A) (Q : A -> M -> Prop) m :
  (forall a w, step (m_world m) = (Done a, w) -> Q a (m <| m_world := w |>)) ->
  wp (world step) Q (fun _ => True) (fun _ => True) m.
Proof.
  intros HQ. apply wp_on. unfold wp. destruct (step (m_world m)) as [[a|b|] w] eqn:Hs; [by apply HQ|done..].
Qed.

(** Asking the process settles the answer, or goes on. *)
Lemma wp_try_exit id w m (k : Fut M (result WorkerError unit)) :
  recorded id w m ->
  (forall w', wp k (fun r m => verdict id m r) (fun _ => True) (fun _ => True) (m <| m_world := w' |>)) ->
  wp (exit ←! world rn_try_exit;
      match exit with Some exit => mret (ensure_exit_is_a_verdict w exit) | None => k end)
    (fun r m => verdict id m r) (fun _ => True) (fun _ => True) m.
Proof.
  intros Hw Hk. apply wp_try, wp_world. intros [[exit|]|e] w' Hx; [|by apply Hk|by eapply verdict_unreadable].
  apply wp_ret, exit_verdict; [done|]. by exists (m_world m).
Qed.

Lemma wp_read_instant (Q : Z -> M -> Prop) D C m :
  (forall now w, Q now (m <| m_world := w |>)) -> wp (managed instant) Q D C m.
Proof.
  intros HQ. apply wp_answer. unfold instant, call. destruct (bk_instant (m_world m)). apply HQ.
Qed.

Lemma await_release_verdict id fuel w deadline m :
  recorded id w m ->
  wp (await_release fuel w deadline) (fun r m => verdict id m r) (fun _ => True) (fun _ => True) m.
Proof.
  revert m. induction fuel as [|fuel IH]; intros m Hm; [done|]. simpl.
  apply wp_bind, wp_on, wp_answer. simpl. apply wp_bind, wp_answer. simpl.
  destruct (rn_is_cancelled _); [apply stopped_verdict|]. apply wp_try_exit; [done|]. intros w1.
  apply wp_bind, wp_read_instant. intros now w2. destruct (deadline <=? now); [apply stopped_verdict|].
  apply wp_bind, wp_on, wp_answer. by apply IH.
Qed.

Lemma wp_report_last id states m :
  wp (report_states id states)
    (fun r m' => match r with
                 | Ok _ => entry_state id m' = default (entry_state id m) (Some <$> last states)
                 | Err _ => verdict id m' r
                 end) (fun _ => True) (fun _ => True) m.
Proof.
  revert m. induction states as [|state states IH]; intros m; [done|].
  apply wp_try, wp_map_err, wp_answer.
  destruct (transition_to id state m) as [[[]|error] m1] eqn:Ht; simpl; [|by eapply verdict_refused].
  eapply wp_mono; [apply IH| |done|done]. intros [[]|e] m2 H2; [|done]. rewrite H2.
  apply transition_to_ok in Ht. destruct states as [|s l]; [by rewrite Ht|]. by rewrite last_cons_cons; destruct (last (s :: l)) eqn:Hl; [|apply last_None in Hl].
Qed.

(** What a round reports keeps the window's word. *)
Lemma advance_recorded id now status w m m' :
  recorded id w m ->
  entry_state id m' = default (entry_state id m) (Some <$> last (advance now status w).1) ->
  recorded id (advance now status w).2 m'.
Proof.
  unfold recorded, is_job_running.
  destruct status, w as [? ? ? ? ? [] ?]; simpl; intros Hm -> Hr; try done; try by apply Hm.
Qed.

Lemma unobserved_recorded id now error w m :
  recorded id w m -> recorded id (unobserved now error w) m.
Proof. unfold recorded, is_job_running, unobserved. by destruct (is_rejection error). Qed.

Lemma supervise_loop_verdict fuel a w m :
  recorded (a_id a) w m ->
  wp (supervise_loop fuel a w) (fun r m => verdict (a_id a) m r) (fun _ => True) (fun _ => True) m.
Proof.
  revert w m. induction fuel as [|fuel IH]; intros w m Hm; [done|].
  cbn [supervise_loop]. apply wp_bind, wp_answer. simpl.
  destruct (rn_is_cancelled _); [apply stopped_verdict|]. apply wp_try_exit; [done|]. intros w1.
  set (m1 := m <| m_world := w1 |>). assert (recorded (a_id a) w m1) as H1 by done. clearbody m1.
  assert (forall states w' m2,
    (forall m3, entry_state (a_id a) m3 = default (entry_state (a_id a) m2) (Some <$> last states) ->
       recorded (a_id a) w' m3) ->
    wp (_ ←! report_states (a_id a) states;
        now ← managed instant;
        match overrun now w' with
        | Some message => stopped_with message
        | None => _ ← touch rn_pause; supervise_loop fuel a w'
        end) (fun r m => verdict (a_id a) m r) (fun _ => True) (fun _ => True) m2) as Hround.
  { intros states w' m2 Hrec. apply wp_try. eapply wp_mono; [apply wp_report_last| |done|done].
    intros [[]|e] m3 H3; [|done]. apply Hrec in H3. apply wp_bind, wp_read_instant. intros now w3.
    destruct (overrun now w'); [apply stopped_verdict|]. apply wp_bind, wp_on, wp_answer. by apply IH. }
  apply wp_bind. unfold observe. unfold wp at 1.
  assert (wp (world (runner_status (rq_repository (a_request a)) (default 0 (a_runner_id a))))
    (fun _ m2 => recorded (a_id a) w m2) (fun m2 => recorded (a_id a) w m2) (fun _ => True) m1) as Ho.
  { apply wp_on. unfold wp. by destruct (runner_status _ _ _) as [[] ?]. }
  unfold wp in Ho. destruct (world _ m1) as [[status|[]|] m2]; try done; [|by apply IH].
  destruct status as [status|[]].
  4: { apply wp_bind, wp_read_instant. intros now w3. by apply await_release_verdict. }
  all: apply wp_bind, wp_read_instant; intros seen w3.
  1: destruct (advance seen status (observed w)) as [states w'] eqn:Ha.
  all: apply Hround; intros m3 H3; try by apply unobserved_recorded; unfold recorded; rewrite H3.
  pose proof (advance_recorded (a_id a) seen status (observed w) m2 m3) as Hr. rewrite Ha in Hr. by apply Hr.
Qed.

(** C36: the supervision never mistakes a lost, failed or stopped runner for a
    completed one.  It answers success only on an exit the guest reported,
    which is a success of its own or that of a runner whose job the manager
    has recorded as running; every failure is an exit that is neither, a
    process that could not be read, one the host has stopped, or a transition
    the manager refused. *)
Theorem supervise_verdict poll a profile idle_deadline m r m' :
  supervise poll a profile idle_deadline m = (Done r, m') -> verdict (a_id a) m' r.
Proof.
  intros Hs. assert (wp (supervise poll a profile idle_deadline) (fun r m => verdict (a_id a) m r)
    (fun _ => True) (fun _ => True) m) as Hw.
  { apply wp_bind, wp_read_instant. intros now w. by apply supervise_loop_verdict. }
  unfold wp in Hw. by rewrite Hs in Hw.
Qed.
End verdict.

(** The states a sequence of statuses reports, from a window on. *)
Fixpoint reports (w : SupervisionWindow) (statuses : list (Z * RunnerStatus)) : list AllocationState :=
  match statuses with
  | [] => []
  | (now, status) :: statuses =>
      let '(states, w) := advance now status w in states ++ reports w statuses
  end.

Lemma reports_running w statuses : sw_phase w = PRunning -> reports w statuses = [].
Proof.
  revert w. induction statuses as [|[t []] l IH]; intros w Hw; simpl; rewrite ?Hw; by try apply IH.
Qed.

Lemma reports_ready w statuses : sw_phase w = PReady -> reports w statuses `prefix_of` [Running].
Proof.
  revert w. induction statuses as [|[t []] l IH]; intros w Hw; simpl; rewrite ?Hw; try by apply IH.
  - apply prefix_nil.
  - simpl. by rewrite reports_running.
Qed.

(** A status is information, not an instruction: whatever sequence of them is
    observed, the states they report from a new window on are [Ready] and then
    [Running], each once and in that order, or fewer. *)
Lemma reports_in_order profile idle_deadline now statuses :
  reports (window_new profile idle_deadline now) statuses `prefix_of` [Ready; Running].
Proof.
  set (w := window_new _ _ _). assert (sw_phase w = PWaiting) as Hw by done. clearbody w.
  revert w Hw. induction statuses as [|[t []] l IH]; intros w Hw; simpl; rewrite ?Hw; try by apply IH.
  - apply prefix_nil.
  - by apply prefix_cons, reports_ready.
  - simpl. by rewrite reports_running.
Qed.

(** ** Witnesses: a runner that is idle, then active, then exits with a failure

    Its states are a function of the clock, which only pauses move. *)

Definition sim_poll : Z := from_secs 5.

#[local] Instance sim_calm : Backend Sim := calm_backend.

Definition sim_started : Z := 1000.

#[local] Instance sim_status : ForgejoHost Sim := {|
  fg_send _ w :=
    (Done (Some {| rs_status := 200;
       rs_chunks := [Some (if sim_now w <? sim_started + sim_poll then "idle" else "active")] |}), w);
  fg_is_base := true;
  fg_decode_credentials _ := None;
  fg_decode_runner body := Some {| rrd_id := 7; rrd_name := "flanforged-id-1"; rrd_status := body |};
  fg_decode_runners _ := None;
  fg_decode_jobs _ := None;
|}.

#[local] Instance sim_runner : RunnerHost Sim := {|
  rn_is_cancelled _ := false;
  rn_try_exit w :=
    (Done (Ok (if sim_started + 3 * sim_poll <=? sim_now w then Some (ECode 1) else None)), w);
  rn_stop w := w;
  rn_probe_now w := w;
  rn_pause w := w <| sim_now := sim_now w + sim_poll |>;
  rn_prepare w := (Done (Ok tt), w);
  rn_spawn _ _ _ w := (Done (Ok tt), w);
|}.

#[local] Instance sim_text : ErrorText :=
  {| store_text _ := "the store failed"; manager_text _ := "the manager refused" |}.

Lemma sim_pacing : pacing sim_now sim_poll.
Proof. split; intros; simpl; try done; unfold sim_poll, from_secs; simpl; try lia. Qed.

Definition waiting_allocation : Allocation :=
  e_allocation example_entry <| a_state := WaitingForJob |> <| a_runner_id := Some 7 |>.

Definition supervised_manager : Manager Sim :=
  sim_manager example_config [] sim_world <| m_entries :=
    {[ "id-1" := example_entry <| e_allocation := waiting_allocation |> ]} |>.

Definition supervised : outcome (result WorkerError unit) * Manager Sim :=
  supervise sim_poll waiting_allocation example_profile (sim_started + from_secs 600) supervised_manager.

Lemma supervise_terminates_witness :
  supervised.1 = Done (Ok tt) /\ forall cancelled, supervised.1 <> Dropped cancelled.
Proof.
  split; [by vm_compute|]. intros cancelled. apply (supervise_terminates sim_now sim_poll sim_pacing).
Defined.

Lemma supervise_verdict_witness :
  entry_state "id-1" supervised.2 = Some Running /\ verdict "id-1" supervised.2 (Ok tt).
Proof.
  split; [by vm_compute|]. apply (supervise_verdict sim_poll waiting_allocation example_profile
    (sim_started + from_secs 600) supervised_manager). by vm_compute.
Defined.
