(* ===== verification/HotPool.v ===== *)
(** * The hot pool ([crates/flanforge-manager/src/hot/])

    Draining, evicting, recycling, retaining, yielding and bounding pool
    machines ([bounds.rs], [evict.rs], [recycle.rs], [yield.rs], [ready.rs],
    [reload.rs], [model.rs]) and their reconciliation after a restart
    ([recovery/hot.rs]), over the manager's state. *)

From S2P Require Import Prelude Rust Text Identifiers Images Guest Hot Allocation Config ConfigValidate ConfigReload Claims Sizing Admission HotSelect Reaper Convert Manager.

Open Scope Z_scope.
Open Scope stdpp_scope.

Section pool.
Context {W : Type} {BK : Backend W} {HO : HashOrder}.

(** [ensure_state] and friends read the clock. *)
Definition clocked {A} (f : Z -> A) : IO W A := now ← unix_time; mret (f now).

(** ** Eviction ([evict.rs]) *)

Definition hot_eviction_seconds (config : Config) : Z :=
  widest_cleanup_seconds config.

Definition ensure_hot_eviction_pending (guest : HotGuest) (reason : HotDrainReason) : IO W unit :=
  if bool_decide (hg_drain_reason guest = Some reason) then mret tt
  else _ ← hot_save (guest <| hg_drain_reason := Some reason |>); mret tt.

Definition ensure_hot_evicted (guest : HotGuest) (reason : HotDrainReason) : IO W unit :=
  config ← gets m_config;
  budget ← budget_for (from_secs (hot_eviction_seconds config));
  evicted ← call (bk_hot_evicted guest budget);
  match evicted with
  | Err _ => ensure_hot_eviction_pending guest reason
  | Ok _ =>
      _ ← hot_remove (hg_vm_name guest);
      emit HotEvicted None (Some (hg_vm_name guest)) (Some (hg_profile guest))
  end.

Definition hot_drain_pending (name : VmName) : IO W (option HotDrainReason) :=
  row ← hot_load name;
  mret (match row with Ok (Some guest) => hg_drain_reason guest | _ => None end).

Definition ensure_hot_forgotten (guest : HotGuest) : IO W unit :=
  _ ← hot_remove (hg_vm_name guest);
  emit HotEvicted None (Some (hg_vm_name guest)) (Some (hg_profile guest)).

(** ** Bounds ([bounds.rs]) *)

Definition ensure_hot_drained (guest : HotGuest) (reason : HotDrainReason) : IO W unit :=
  if bool_decide (hg_state guest = Draining) then mret tt
  else
    moved ← clocked (fun now => ensure_state now Draining guest);
    match moved with
    | Err _ => ensure_hot_eviction_pending guest reason
    | Ok draining =>
        let draining := draining <| hg_drain_reason := Some reason |> in
        saved ← hot_save draining;
        match saved with
        | Err _ => mret tt
        | Ok _ => if is_none (hg_claimed_by draining)
                  then ensure_hot_evicted draining reason else mret tt
        end
    end.

Definition hot_claimed_names : IO W (gset string) := gets (fun m => live_hot_names (m_entries m)).

Definition or_operator (reason : option HotDrainReason) : HotDrainReason :=
  default OperatorRequest reason.

Definition ensure_hot_drains_finished (guests : list HotGuest) : IO W unit :=
  claimed ← hot_claimed_names;
  for_each (fun guest => ensure_hot_evicted guest (or_operator (hg_drain_reason guest)))
    (List.filter (fun guest => bool_decide (hg_state guest = Draining)
                               && negb (bool_decide (hg_vm_name guest ∈ claimed))) guests).

Definition is_eviction_retried (claimed : gset string) (guest : HotGuest) : bool :=
  negb (bool_decide (hg_state guest = Draining)) && is_none (hg_claimed_by guest)
  && negb (bool_decide (hg_vm_name guest ∈ claimed)) && negb (is_none (hg_drain_reason guest)).

Definition ensure_hot_evictions_retried (guests : list HotGuest) : IO W unit :=
  claimed ← hot_claimed_names;
  for_each (fun guest => ensure_hot_evicted guest (or_operator (hg_drain_reason guest)))
    (List.filter (is_eviction_retried claimed) guests).

Definition ensure_hot_pool_drained (guests : list HotGuest) : IO W unit :=
  _ ← for_each (fun guest => ensure_hot_drained guest ConfigReloaded)
        (List.filter (fun guest => negb (hot_is_terminal (hg_state guest))) guests);
  _ ← ensure_hot_drains_finished guests;
  ensure_hot_evictions_retried guests.

(** The lanes that hold an idle machine, in [BTreeSet] order: by profile, then
    protected before unprotected. *)
Definition idle_lanes (guests : list HotGuest) : list (ProfileName * HotLane) :=
  let idle := List.filter (fun guest => bool_decide (hg_state guest = Idle)) guests in
  profile ← btree_elements (list_to_set (map hg_profile idle));
  List.filter (fun pl => existsb (fun guest =>
      bool_decide (hg_profile guest = pl.1) && bool_decide (hg_lane guest = pl.2)) idle)
    [(profile, Protected); (profile, Unprotected)].

Definition lookup_hot (config : Config) (profile : ProfileName) : option HotConfig :=
  c_profiles config !! profile ≫= enabled_hot.

Definition ensure_hot_surplus_retired (guests : list HotGuest) (config : Config) : IO W unit :=
  for_each (fun '(name, lane) =>
    match lookup_hot config name with
    | None => mret tt
    | Some hot => for_each (fun guest => ensure_hot_drained guest MaxIdle)
                    (surplus_idle guests name lane hot)
    end) (idle_lanes guests).

Definition promoted_generation (name : ProfileName) : IO W (option Z) :=
  row ← images_load name;
  mret (match row with
        | Ok (Some record) =>
            if bool_decide (wi_state record = Promoted) then Some (wi_generation record) else None
        | _ => None
        end).

(** One iteration of [ensure_hot_bounded]. *)
Definition ensure_hot_bound (config : Config) (now : Z) (guest : HotGuest) : IO W unit :=
  if hot_is_terminal (hg_state guest) then mret tt
  else match c_profiles config !! hg_profile guest with
       | None => ensure_hot_drained guest ConfigReloaded
       | Some profile =>
           match enabled_hot profile with
           | None => ensure_hot_drained guest ConfigReloaded
           | Some hot =>
               fingerprint ← call (bk_base_fingerprint (p_template profile));
               generation ← promoted_generation (hg_profile guest);
               match drain_reason guest
                       {| hp_hot := hot; hp_fingerprint := fingerprint;
                          hp_warm_generation := generation; hp_now := now |} with
               | Some reason => ensure_hot_drained guest reason
               | None => mret tt
               end
           end
       end.

Definition ensure_hot_bounded : IO W unit :=
  config ← gets m_config;
  loaded ← hot_load_all;
  match loaded with
  | Err _ => mret tt
  | Ok guests =>
      now ← unix_time;
      if rt_max_hot_vms (c_runtime config) =? 0 then ensure_hot_pool_drained guests
      else
        _ ← for_each (ensure_hot_bound config now) guests;
        _ ← ensure_hot_surplus_retired guests config;
        _ ← ensure_hot_drains_finished guests;
        ensure_hot_evictions_retried guests
  end.

(** ** Release ([recycle.rs]) *)

Definition hot_reset_of (hot : HotConfig) : IO W HotReset :=
  budget ← budget_for (from_secs (hc_reset_timeout_seconds hot));
  mret {| hr_simulator_reset := hc_simulator_reset hot; hr_budget := budget |}.

(** The end of [ensure_hot_gated]: the machine joins the pool unless a drain
    was stamped meanwhile. *)
Definition ensure_hot_joined (guest : HotGuest) : IO W unit :=
  pending ← hot_drain_pending (hg_vm_name guest);
  match pending with
  | Some reason => ensure_hot_evicted guest reason
  | None =>
      moved ← clocked (fun now => ensure_state now Idle guest);
      match moved with
      | Err _ => ensure_hot_evicted guest ResetFailed
      | Ok idle =>
          saved ← hot_save idle;
          match saved with
          | Err _ => ensure_hot_evicted idle ResetFailed
          | Ok _ =>
              _ ← emit HotRecycled None (Some (hg_vm_name idle)) (Some (hg_profile idle));
              ensure_hot_bounded
          end
      end
  end.

Definition ensure_hot_gated (guest : HotGuest) (profile : Profile)
    (already_reset : option HotReset) : IO W unit :=
  match enabled_hot profile with
  | None => ensure_hot_evicted guest ConfigReloaded
  | Some hot =>
      passed ← match already_reset with
               | Some _ => mret (Ok tt)
               | None => reset ← hot_reset_of hot; call (bk_hot_reset guest reset)
               end;
      match passed with
      | Err _ => ensure_hot_evicted guest ResetFailed
      | Ok _ => ensure_hot_joined guest
      end
  end.

Definition ensure_hot_recycled (a : Allocation) (vm_name : VmName) (profile : Profile) : IO W unit :=
  row ← hot_load vm_name;
  match row with
  | Ok (Some guest) =>
      if negb (bool_decide (hg_claimed_by guest = Some (a_id a))) then mret tt
      else
        moved ← clocked (fun now => ensure_released now guest);
        match moved with
        | Err _ => ensure_hot_evicted guest ResetFailed
        | Ok released =>
            saved ← hot_save released;
            match saved with
            | Err _ => ensure_hot_evicted released ResetFailed
            | Ok _ => ensure_hot_gated released profile None
            end
        end
  | Ok None | Err _ => mret tt
  end.

(** The end of [ensure_hot_retained], once the record is written: the backend
    keeps the machine and it runs the gate, or the record is withdrawn. *)
Definition hand_over (guest : HotGuest) (a : Allocation) (profile : Profile) (hot : HotConfig) :
    IO W unit :=
  reset ← hot_reset_of hot;
  kept ← call (bk_hot_retained
    {| hrr_guest := guest; hrr_allocation := a; hrr_profile := profile; hrr_reset := reset |});
  match kept with
  | Err _ =>
      removed ← hot_remove (hg_vm_name guest);
      match removed with
      | Err _ => ensure_hot_eviction_pending guest ResetFailed
      | Ok _ => mret tt
      end
  | Ok _ => ensure_hot_gated guest profile (Some reset)
  end.

Definition ensure_hot_retained (a : Allocation) (profile : Profile) (lane : HotLane) : IO W unit :=
  if negb (a_vm_created a) then mret tt
  else match enabled_hot profile with
  | None => mret tt
  | Some hot =>
      row ← hot_load (a_vm_name a);
      match row with
      | Ok (Some _) => mret tt
      | _ =>
          recorded ← clocked (fun now => retained_record now a lane);
          match recorded with
          | None => mret tt
          | Some guest =>
              saved ← hot_save guest;
              match saved with
              | Err _ => mret tt
              | Ok _ => hand_over guest a profile hot
              end
          end
      end
  end.

Definition ensure_hot_released (a : Allocation) (profile : Profile) : IO W unit :=
  match hot_vm_name (a_origin a) with
  | Some vm_name => ensure_hot_recycled a vm_name profile
  | None => match a_hot_lane a with
            | Some lane => ensure_hot_retained a profile lane
            | None => mret tt
            end
  end.

(** ** Yielding ([yield.rs]) *)

(** [min_by_key]: the first of the least by (last move, name). *)
Definition stale_compare (left right : HotGuest) : comparison :=
  match Z.compare (hg_updated_at_unix left) (hg_updated_at_unix right) with
  | Eq => String.compare (hg_vm_name left) (hg_vm_name right)
  | c => c
  end.

Definition min_by {A} (cmp : A -> A -> comparison) (l : list A) : option A :=
  match l with
  | [] => None
  | x :: l => Some (fold_left (fun m y => match cmp m y with Gt => y | _ => m end) l x)
  end.

Definition is_yieldable (names claimed busy : gset string) (guest : HotGuest) : bool :=
  bool_decide (hg_state guest = Idle) && bool_decide (hg_vm_name guest ∈ names)
  && negb (bool_decide (hg_vm_name guest ∈ claimed))
  && negb (bool_decide (hg_vm_name guest ∈ busy)).

Definition yieldable_hot (config : Config) (requested : GuestSize) : IO W (option HotGuest) :=
  listed ← host_machines;
  match listed with
  | Err _ => mret None
  | Ok machines =>
      loaded ← hot_load_all;
      match loaded with
      | Err _ => mret None
      | Ok hot =>
          entries ← gets m_entries;
          if is_ok (ensure_capacity entries config requested machines hot) then mret None
          else
            let busy : gset string := active_names (active_allocations entries) in
            mret (min_by stale_compare
              (List.filter (is_yieldable (hot_names hot machines) (live_hot_names entries) busy)
                 hot))
      end
  end.

Fixpoint yield_loop (held : nat) (config : Config) (requested : GuestSize) : IO W unit :=
  match held with
  | O => mret tt
  | S held =>
      found ← yieldable_hot config requested;
      match found with
      | None => mret tt
      | Some guest =>
          _ ← ensure_hot_evicted guest CapacityPressure;
          yield_loop held config requested
      end
  end.

Definition ensure_hot_yielded (config : Config) (requested : GuestSize) : IO W unit :=
  loaded ← hot_load_all;
  let held := match loaded with Ok hot => length hot | Err _ => 0%nat end in
  yield_loop held config requested.

(** ** Readiness ([ready.rs]) *)

Definition ensure_hot_ready {ET : ErrorText} (a : Allocation) : IO W (result WorkerError unit) :=
  match hot_vm_name (a_origin a) with
  | None => mret (Ok tt)
  | Some vm_name =>
      row ← hot_load vm_name;
      match row with
      | Ok None => mret (Err (worker_error_new "the hot guest record this allocation claimed is gone"))
      | Err e => mret (Err (worker_error_new (store_text e)))
      | Ok (Some guest) =>
          moved ← transition_to (a_id a) Preparing;
          match moved with
          | Err e => mret (Err (worker_error_new (manager_text e)))
          | Ok _ =>
              live ← call (bk_hot_live guest);
              if (live : bool) then mret (Ok tt)
              else
                _ ← ensure_hot_evicted guest MachineGone;
                mret (Err (worker_error_new "the claimed hot guest is no longer live"))
          end
      end
  end.

(** ** Reload and operator requests ([reload.rs]) *)

Definition drained_profiles (previous next : Config) : gset string :=
  list_to_set (map fst (List.filter (fun '(name, profile) =>
    match c_profiles next !! name with
    | None => true
    | Some replacement => is_hot_draining_change profile replacement
    end) (btree_list (c_profiles previous)))).

Definition drain_matching (keep : HotGuest -> bool) (reason : HotDrainReason) : IO W unit :=
  loaded ← hot_load_all;
  match loaded with
  | Err _ => mret tt
  | Ok guests =>
      for_each (fun guest => ensure_hot_drained guest reason)
        (List.filter (fun guest => is_holding_machine (hg_state guest) && keep guest) guests)
  end.

Definition ensure_hot_reloaded (changed : gset string) : IO W unit :=
  if bool_decide (changed = ∅) then mret tt
  else drain_matching (fun guest => bool_decide (hg_profile guest ∈ changed)) ConfigReloaded.

(** One turn of the reload watch. *)
Definition hot_reload_turn (previous : Config) : IO W unit :=
  next ← gets m_config;
  _ ← ensure_hot_reloaded (drained_profiles previous next);
  ensure_hot_bounded.

Definition ensure_hot_evicted_for (profile : ProfileName) (reason : HotDrainReason) : IO W unit :=
  drain_matching (fun guest => bool_decide (hg_profile guest = profile)) reason.

Definition load_named (name : VmName) : IO W (result ManagerError HotGuest) :=
  row ←? io_map_err StoreE (hot_load name);
  mret (ok_or row (UnknownHotGuest name)).

Definition hot_drain (name : VmName) : IO W (result ManagerError unit) :=
  guest ←? load_named name;
  _ ← ensure_hot_drained guest OperatorRequest;
  mret (Ok tt).

Definition hot_evict (name : VmName) : IO W (result ManagerError unit) :=
  guest ←? load_named name;
  _ ← ensure_hot_evicted guest OperatorRequest;
  mret (Ok tt).

(** ** Context ([model.rs]) *)

Definition hot_context (config : Config) (name : ProfileName) (profile : Profile) (lane : HotLane)
    (age_seconds : option Z) : IO W (option HotContext) :=
  match enabled_hot profile with
  | None => mret None
  | Some hot =>
      if (rt_max_hot_vms (c_runtime config) =? 0) || negb (is_lane_admitted (hc_lanes hot) lane)
      then mret None
      else if negb bk_hot_guests then mret None
      else
        fingerprint ← call (bk_base_fingerprint (p_template profile));
        generation ← promoted_generation name;
        mret (Some {| hx_hot := hot; hx_name := name; hx_lane := lane;
                      hx_fingerprint := fingerprint; hx_warm_generation := generation;
                      hx_max_hot_vms := rt_max_hot_vms (c_runtime config);
                      hx_age_seconds := age_seconds |})
  end.

(** ** Reconciliation after a restart ([recovery/hot.rs]) *)

(** [adopted]: the record given back to the pool, or why it cannot be. *)
Definition adopt (now : Z) (guest : HotGuest) : result HotTransitionError HotGuest :=
  let adopted :=
    if bool_decide (hg_state guest = Claimed)
    then match ensure_released now guest with Ok released => released | Err _ => guest end
    else guest in
  ensure_state now Idle adopted.

Definition is_hot_adoptable (guest : HotGuest) (is_present : bool) (profile : option Profile) :
    IO W bool :=
  if negb is_present then _ ← ensure_hot_forgotten guest; mret false
  else match hg_drain_reason guest with
  | Some reason => _ ← ensure_hot_evicted guest reason; mret false
  | None =>
      match profile ≫= enabled_hot with
      | None => _ ← ensure_hot_evicted guest ConfigReloaded; mret false
      | Some hot =>
          reset ← hot_reset_of hot;
          passed ← call (bk_hot_reset guest reset);
          match passed with
          | Err _ => _ ← ensure_hot_evicted guest Unverifiable; mret false
          | Ok _ =>
              adopted ← clocked (fun now => adopt now guest);
              match adopted with
              | Err _ => _ ← ensure_hot_evicted guest Unverifiable; mret false
              | Ok adopted =>
                  saved ← hot_save adopted;
                  match saved with
                  | Err _ => _ ← ensure_hot_evicted guest Unverifiable; mret false
                  | Ok _ => mret true
                  end
              end
          end
      end
  end.

(** One iteration of [ensure_hot_consistent]. *)
Definition reconcile_hot (config : Config) (machines : list HostMachine) (guest : HotGuest) :
    IO W unit :=
  if hot_is_terminal (hg_state guest) then _ ← hot_remove (hg_vm_name guest); mret tt
  else
    let is_present := existsb (fun m => bool_decide (hm_name m = hg_vm_name guest)) machines in
    _ ← is_hot_adoptable guest is_present (c_profiles config !! hg_profile guest);
    mret tt.

Definition ensure_hot_consistent : IO W (result ManagerError unit) :=
  guests ←? io_map_err StoreE hot_load_all;
  match guests with
  | [] => mret (Ok tt)
  | _ =>
      config ← gets m_config;
      machines ←? io_map_err WorkerE (call bk_machines);
      _ ← for_each (reconcile_hot config machines) guests;
      mret (Ok tt)
  end.
End pool.

(** ** What the pool relies on

    The contract of [worker/contract.rs] for pool machines, in terms of the
    names the backend holds in its pool: only a successful retention adds one,
    a successful eviction or a failed retention leaves the named one out, a
    successful listing reports every one held, and no other call adds any. *)

Class PoolBackend (W : Type) {BK : Backend W} := {
  held : W -> gset string;
  held_evicted : forall g b w,
    held (bk_hot_evicted g b w).2 ⊆
      match (bk_hot_evicted g b w).1 with
      | Ok _ => held w ∖ {[ hg_vm_name g ]}
      | Err _ => held w
      end;
  held_retained : forall r w,
    held (bk_hot_retained r w).2 ⊆
      match (bk_hot_retained r w).1 with
      | Ok _ => {[ hg_vm_name (hrr_guest r) ]} ∪ held w
      | Err _ => held w ∖ {[ hg_vm_name (hrr_guest r) ]}
      end;
  held_machines : forall w machines,
    (bk_machines w).1 = Ok machines ->
    forall n, n ∈ held (bk_machines w).2 -> n ∈ map hm_name machines;
  held_listing : forall w, held (bk_machines w).2 ⊆ held w;
  held_unix_time : forall w, held (bk_unix_time w).2 ⊆ held w;
  held_instant : forall w, held (bk_instant w).2 ⊆ held w;
  held_uuid : forall w, held (bk_uuid w).2 ⊆ held w;
  held_fault : forall w, held (bk_store_fault w).2 ⊆ held w;
  held_cleanup : forall a b w, held (bk_cleanup a b w).2 ⊆ held w;
  held_fingerprint : forall n w, held (bk_base_fingerprint n w).2 ⊆ held w;
  held_storage : forall p s w, held (bk_base_storage_mb p s w).2 ⊆ held w;
  held_availability : forall p r l w, held (bk_warm_availability p r l w).2 ⊆ held w;
  held_unclaimed : forall n l w, held (bk_is_unclaimed_image n l w).2 ⊆ held w;
  held_reset : forall g r w, held (bk_hot_reset g r w).2 ⊆ held w;
  held_live : forall g w, held (bk_hot_live g w).2 ⊆ held w;
  held_restored : forall p r w, held (bk_warm_restored p r w).2 ⊆ held w;
  held_deleted : forall r w, held (bk_delete_vm r w).2 ⊆ held w;
  held_recovered : forall w, held (bk_recovered w).2 ⊆ held w;
  held_sweep : forall r w, held (bk_sweep_images r w).2 ⊆ held w;
}.

Create HintDb pool.
#[export] Hint Resolve held_listing held_unix_time held_instant held_uuid held_fault held_cleanup
  held_fingerprint held_storage held_availability held_unclaimed held_reset held_live
  held_restored held_deleted held_recovered held_sweep : pool.

Section accounting.
Context {W : Type} {BK : Backend W} {PB : PoolBackend W} {HO : HashOrder}.
Implicit Types m : Manager W.

(** Every machine the pool holds has a row, and lies in [L]; no row says
    [Evicted]. *)
Definition accounted (L : string -> Prop) m : Prop :=
  (forall n, n ∈ held (m_world m) -> n ∈ dom (m_hot m) /\ L n) /\
  map_Forall (fun _ g => hg_state g <> Evicted) (m_hot m).

(** [c] keeps the pool accounted and answers something that satisfies [φ]. *)
Definition yields {A} (L : string -> Prop) (c : IO W A) (φ : A -> Prop) : Prop :=
  triple (accounted L) c φ.

Definition keeps {A} (L : string -> Prop) (c : IO W A) : Prop := yields L c (fun _ => True).

Context (L : string -> Prop).

Lemma yields_ret {A} (a : A) (φ : A -> Prop) : φ a -> yields L (mret a) φ.
Proof. apply triple_ret. Qed.

Lemma yields_bind {A B} (c : IO W A) (k : A -> IO W B) φ ψ :
  yields L c φ -> (forall a, φ a -> yields L (k a) ψ) -> yields L (c ≫= k) ψ.
Proof. apply triple_bind. Qed.

Lemma keeps_bind {A B} (c : IO W A) (k : A -> IO W B) ψ :
  keeps L c -> (forall a, yields L (k a) ψ) -> yields L (c ≫= k) ψ.
Proof. apply preserves_bind. Qed.

Lemma yields_weaken {A} (c : IO W A) (φ ψ : A -> Prop) :
  yields L c φ -> (forall a, φ a -> ψ a) -> yields L c ψ.
Proof. apply triple_weaken. Qed.

Lemma keeps_gets {A} (f : Manager W -> A) : keeps L (gets f).
Proof. apply preserves_gets. Qed.

Lemma keeps_modify (f : Manager W -> Manager W) :
  (forall m, m_world (f m) = m_world m) -> (forall m, m_hot (f m) = m_hot m) ->
  keeps L (modify f).
Proof. intros H1 H2 m [Ha Hb]. split; [|done]. unfold accounted. simpl. by rewrite H1, H2. Qed.

Lemma keeps_call {A} (f : W -> A * W) : (forall w, held (f w).2 ⊆ held w) -> keeps L (call f).
Proof.
  intros Hf m [Ha Hb]. unfold call. specialize (Hf (m_world m)).
  destruct (f (m_world m)) as [a w]. simpl in *. split; [|done]. split; [|done]. simpl. auto.
Qed.

Lemma keeps_try {E A B} (c : IO W (result E A)) (k : A -> IO W (result E B)) φ ψ :
  yields L c (fun r => forall a, r = Ok a -> φ a) -> (forall a, φ a -> yields L (k a) ψ) ->
  (forall e, ψ (Err e)) -> yields L (try_ c k) ψ.
Proof. apply triple_try. Qed.

Lemma keeps_for_each {A} (f : A -> IO W unit) l :
  (forall x, x ∈ l -> keeps L (f x)) -> keeps L (for_each f l).
Proof. apply preserves_for_each. Qed.

Lemma keeps_emit kind a n p : keeps L (emit kind a n p).
Proof. by apply keeps_modify. Qed.

Lemma keeps_unix_time : keeps L unix_time.
Proof. apply keeps_call. eauto with pool. Qed.

Lemma keeps_clocked {A} (f : Z -> A) (φ : A -> Prop) :
  (forall now, φ (f now)) -> yields L (clocked f) φ.
Proof.
  intros H. apply keeps_bind; [apply keeps_unix_time|]. intros now. by apply yields_ret.
Qed.

Lemma keeps_budget_for allowance : keeps L (budget_for allowance).
Proof. apply keeps_bind; [apply keeps_gets|]. intros d. by apply yields_ret. Qed.

Lemma yields_stored {A} (c : IO W A) (φ : A -> Prop) :
  yields L c φ -> yields L (stored c) (fun r => forall a, r = Ok a -> φ a).
Proof.
  intros Hc. apply keeps_bind; [apply keeps_call; eauto with pool|]. intros [].
  - by apply yields_ret.
  - eapply yields_bind; [done|]. intros a Ha. apply yields_ret. by intros ? [= <-].
Qed.

Lemma yields_gets {A} (f : Manager W -> A) (φ : A -> Prop) :
  (forall m, accounted L m -> φ (f m)) -> yields L (gets f) φ.
Proof. apply triple_gets. Qed.

Definition in_service (g : HotGuest) : Prop := hg_state g <> Evicted.

Lemma keeps_hot_save g : in_service g -> keeps L (hot_save g).
Proof.
  intros Hg. unfold hot_save. destruct (negb _); [by apply yields_ret|].
  eapply yields_weaken; [apply (yields_stored _ (fun _ => True))|done].
  intros m [Ha Hb]. split; [|done]. split.
  - intros n Hn. destruct (Ha n Hn). split; [|done]. simpl. rewrite dom_insert. set_solver.
  - simpl. by apply map_Forall_insert_2.
Qed.

Lemma yields_hot_load n :
  yields L (hot_load n) (fun r => forall g, r = Ok (Some g) -> in_service g).
Proof.
  unfold hot_load. eapply keeps_try.
  - apply (yields_stored _ (fun row => forall g, row = Some g -> in_service g)).
    apply yields_gets. intros m [_ Hb] g Hg. by apply (Hb n).
  - intros row Hrow. apply yields_ret. destruct row as [g|]; [|done].
    destruct (validate_hot_guest g); [|done]. intros g' [= <-]. auto.
  - done.
Qed.

Lemma yields_hot_load_all :
  yields L hot_load_all (fun r => forall l, r = Ok l -> forall g, g ∈ l -> in_service g).
Proof.
  apply (yields_stored _ (fun l => forall g, g ∈ l -> in_service g)).
  apply yields_gets. intros m [_ Hb] g Hg.
  apply list_elem_of_In, List.filter_In in Hg as [Hg%list_elem_of_In _].
  apply elem_of_hash_values in Hg as [n Hn]. by apply (Hb n).
Qed.

Lemma keeps_images_load n : keeps L (images_load n).
Proof.
  unfold images_load. eapply (keeps_try _ _ (fun _ => True)); [|intros; by apply yields_ret|done].
  eapply yields_weaken; [apply (yields_stored _ (fun _ => True)), keeps_gets|done].
Qed.
End accounting.

Lemma accounted_weaken {W} {BK : Backend W} {PB : PoolBackend W} (L L' : string -> Prop) m :
  (forall n, L n -> L' n) -> accounted L m -> accounted L' m.
Proof. intros H [Ha Hb]. split; [|done]. intros n Hn. destruct (Ha n Hn). auto. Qed.

Section accounting_ops.
Context {W : Type} {BK : Backend W} {PB : PoolBackend W} {HO : HashOrder}.
Implicit Types m : Manager W.
Implicit Types L : string -> Prop.

(** A name outside [L] is held by nothing, so its row may go. *)
Lemma keeps_hot_remove L n : ~ L n -> keeps L (hot_remove n).
Proof.
  intros Hn. eapply yields_weaken; [apply (yields_stored _ _ (fun _ => True))|done].
  intros m [Ha Hb]. split; [|done]. split.
  - intros k Hk. destruct (Ha k Hk) as [Hd Hl]. split; [|done]. simpl. rewrite dom_delete.
    apply elem_of_difference. split; [done|]. rewrite elem_of_singleton. intros ->. done.
  - simpl. intros k g Hg. apply lookup_delete_Some in Hg as [_ Hg]. by apply (Hb k).
Qed.

Lemma keeps_eviction_pending L g reason : in_service g -> keeps L (ensure_hot_eviction_pending g reason).
Proof.
  intros Hg. unfold ensure_hot_eviction_pending. case_bool_decide; [by apply yields_ret|].
  apply keeps_bind; [by apply keeps_hot_save|]. intros _. by apply yields_ret.
Qed.

Lemma keeps_hot_forgotten L g : ~ L (hg_vm_name g) -> keeps L (ensure_hot_forgotten g).
Proof. intros Hg. apply keeps_bind; [by apply keeps_hot_remove|]. intros _. apply keeps_emit. Qed.

(** The world's answer decides what the names held become. *)
Lemma call_accounted {A} (f : W -> A * W) L L' m :
  accounted L m ->
  (forall n, n ∈ held (f (m_world m)).2 -> n ∈ held (m_world m) /\ L' n) ->
  accounted L' (call f m).2 /\ (call f m).1 = (f (m_world m)).1.
Proof.
  intros [Ha Hb] Hf. unfold call. destruct (f (m_world m)) as [a w]. simpl in *.
  split; [|done]. split; [|done]. simpl. intros n Hn. destruct (Hf n Hn) as [Hh Hl].
  by destruct (Ha n Hh).
Qed.

Lemma keeps_hot_evicted L g reason : in_service g -> keeps L (ensure_hot_evicted g reason).
Proof.
  intros Hg. unfold ensure_hot_evicted. apply keeps_bind; [apply keeps_gets|]. intros config.
  apply keeps_bind; [apply keeps_budget_for|]. intros budget m Hm.
  pose proof (held_evicted g budget (m_world m)) as Hev.
  pose (L' n := L n /\ ((bk_hot_evicted g budget (m_world m)).1 = Ok tt -> n <> hg_vm_name g)).
  destruct (call_accounted (bk_hot_evicted g budget) L L' m Hm) as [Hc Hr].
  { intros n Hn. apply Hev in Hn. unfold L'. destruct Hm as [Ha _].
    destruct ((bk_hot_evicted g budget (m_world m)).1) as [[]|] eqn:Hres.
    - apply elem_of_difference in Hn as [Hn Hne]. destruct (Ha n Hn). set_solver.
    - destruct (Ha n Hn). done. }
  unfold mbind, IO_bind. destruct (call _ m) as [r m'] eqn:Hcall. simpl in Hc, Hr. subst r.
  destruct ((bk_hot_evicted g budget (m_world m)).1) as [[]|] eqn:Hres.
  - split; [|done]. eapply (accounted_weaken L'); [by intros n []|].
    refine (proj1 (keeps_bind L' (hot_remove (hg_vm_name g)) _ (fun _ => True) _ _ m' Hc)).
    + apply keeps_hot_remove. intros [_ Hne]. by apply Hne.
    + intros _. apply keeps_emit.
  - split; [|done]. eapply (accounted_weaken L'); [by intros n []|].
    by apply (keeps_eviction_pending L' g reason Hg m').
Qed.

Lemma ensure_state_in_service now next g g' :
  ensure_state now next g = Ok g' -> next <> Evicted -> in_service g'.
Proof. intros (_ & ->)%ensure_state_ok Hn. done. Qed.

Lemma keeps_hot_drained L g reason : in_service g -> keeps L (ensure_hot_drained g reason).
Proof.
  intros Hg. unfold ensure_hot_drained. case_bool_decide; [by apply yields_ret|].
  eapply yields_bind; [apply keeps_clocked with
    (φ := fun r => forall g', r = Ok g' -> in_service g')|].
  { intros now g' Hg'. by eapply ensure_state_in_service. }
  intros [d|e] Hd; [|by apply keeps_eviction_pending].
  specialize (Hd d eq_refl). apply keeps_bind; [by apply keeps_hot_save|].
  intros [|]; [|by apply yields_ret]. destruct (is_none _); [|by apply yields_ret].
  by apply keeps_hot_evicted.
Qed.

Lemma filter_in_service (p : HotGuest -> bool) l g :
  (forall g, g ∈ l -> in_service g) -> g ∈ List.filter p l -> in_service g.
Proof. intros Hl Hg%list_elem_of_In. apply List.filter_In in Hg as [Hg%list_elem_of_In _]. auto. Qed.

Lemma keeps_hot_drains_finished L l :
  (forall g, g ∈ l -> in_service g) -> keeps L (ensure_hot_drains_finished l).
Proof.
  intros Hl. apply keeps_bind; [apply keeps_gets|]. intros claimed. apply keeps_for_each.
  intros g Hg. apply keeps_hot_evicted. by eapply filter_in_service.
Qed.

Lemma keeps_hot_evictions_retried L l :
  (forall g, g ∈ l -> in_service g) -> keeps L (ensure_hot_evictions_retried l).
Proof.
  intros Hl. apply keeps_bind; [apply keeps_gets|]. intros claimed. apply keeps_for_each.
  intros g Hg. apply keeps_hot_evicted. by eapply filter_in_service.
Qed.

Lemma surplus_idle_subset hot profile lane hc g : g ∈ surplus_idle hot profile lane hc -> g ∈ hot.
Proof.
  unfold surplus_idle. intros (i & Hg%list_elem_of_lookup_2 & _)%elem_of_take.
  rewrite merge_sort_Permutation in Hg. apply list_elem_of_In, List.filter_In in Hg as [Hg _].
  by apply list_elem_of_In.
Qed.

Lemma keeps_hot_surplus_retired L l config :
  (forall g, g ∈ l -> in_service g) -> keeps L (ensure_hot_surplus_retired l config).
Proof.
  intros Hl. apply keeps_for_each. intros [name lane] _.
  destruct (lookup_hot config name); [|by apply yields_ret]. apply keeps_for_each.
  intros g Hg%surplus_idle_subset. apply keeps_hot_drained. auto.
Qed.

Lemma keeps_hot_bound L config now g : in_service g -> keeps L (ensure_hot_bound config now g).
Proof.
  intros Hg. unfold ensure_hot_bound. destruct (hot_is_terminal _); [by apply yields_ret|].
  destruct (c_profiles config !! _) as [p|]; [|by apply keeps_hot_drained].
  destruct (enabled_hot p); [|by apply keeps_hot_drained].
  apply keeps_bind; [apply keeps_call; eauto with pool|]. intros fingerprint.
  apply keeps_bind.
  - apply keeps_bind; [apply keeps_images_load|]. intros r. by apply yields_ret.
  - intros generation. destruct (drain_reason _ _); [by apply keeps_hot_drained|by apply yields_ret].
Qed.

Lemma keeps_hot_bounded L : keeps L ensure_hot_bounded.
Proof.
  apply keeps_bind; [apply keeps_gets|]. intros config.
  eapply yields_bind; [apply yields_hot_load_all|]. intros [l|]; [|by intros; apply yields_ret].
  intros Hl. specialize (Hl l eq_refl). apply keeps_bind; [apply keeps_unix_time|]. intros now.
  destruct (_ =? 0).
  - apply keeps_bind; [apply keeps_for_each; intros g Hg;
      apply keeps_hot_drained; by eapply filter_in_service|]. intros _.
    apply keeps_bind; [by apply keeps_hot_drains_finished|]. intros _.
    by apply keeps_hot_evictions_retried.
  - apply keeps_bind; [apply keeps_for_each; intros g Hg; apply keeps_hot_bound; auto|]. intros _.
    apply keeps_bind; [by apply keeps_hot_surplus_retired|]. intros _.
    apply keeps_bind; [by apply keeps_hot_drains_finished|]. intros _.
    by apply keeps_hot_evictions_retried.
Qed.

Lemma keeps_hot_joined L g : in_service g -> keeps L (ensure_hot_joined g).
Proof.
  intros Hg. unfold ensure_hot_joined.
  apply keeps_bind.
  { eapply yields_bind; [apply yields_hot_load|]. intros r _. by apply yields_ret. }
  intros [reason|]; [by apply keeps_hot_evicted|].
  eapply yields_bind; [apply keeps_clocked with
    (φ := fun r => forall g', r = Ok g' -> in_service g')|].
  { intros now g' Hg'. by eapply ensure_state_in_service. }
  intros [idle|] Hi; [|by apply keeps_hot_evicted]. specialize (Hi idle eq_refl).
  apply keeps_bind; [by apply keeps_hot_save|]. intros [|]; [|by apply keeps_hot_evicted].
  apply keeps_bind; [apply keeps_emit|]. intros _. apply keeps_hot_bounded.
Qed.

Lemma keeps_hot_reset_of L hot : keeps L (hot_reset_of hot).
Proof. apply keeps_bind; [apply keeps_budget_for|]. intros b. by apply yields_ret. Qed.

Lemma keeps_hot_gated L g profile already :
  in_service g -> keeps L (ensure_hot_gated g profile already).
Proof.
  intros Hg. unfold ensure_hot_gated. destruct (enabled_hot profile) as [hot|];
    [|by apply keeps_hot_evicted].
  apply keeps_bind.
  - destruct already; [by apply yields_ret|]. apply keeps_bind; [apply keeps_hot_reset_of|].
    intros reset. apply keeps_call. eauto with pool.
  - intros [|]; [by apply keeps_hot_joined|by apply keeps_hot_evicted].
Qed.

Lemma keeps_hot_recycled L a n profile : keeps L (ensure_hot_recycled a n profile).
Proof.
  eapply yields_bind; [apply yields_hot_load|]. intros [[g|]|] Hg; [|by apply yields_ret..].
  specialize (Hg g eq_refl). destruct (negb _); [by apply yields_ret|].
  eapply yields_bind; [apply keeps_clocked with
    (φ := fun r => forall g', r = Ok g' -> in_service g')|].
  { intros now g' H. apply ensure_released_ok in H as (_ & ->). done. }
  intros [r|] Hr; [|by apply keeps_hot_evicted]. specialize (Hr r eq_refl).
  apply keeps_bind; [by apply keeps_hot_save|].
  intros [|]; [by apply keeps_hot_gated|by apply keeps_hot_evicted].
Qed.

Lemma stored_ok {A} (c : IO W A) m a m' :
  stored c m = (Ok a, m') ->
  exists w, bk_store_fault (m_world m) = (false, w) /\ c (m <| m_world := w |>) = (a, m').
Proof.
  unfold stored, mbind, IO_bind, call. destruct (bk_store_fault (m_world m)) as [[] w]; simpl.
  - intros [=].
  - destruct (c _) as [a' m''] eqn:H. intros [= <- <-]. eauto.
Qed.

Lemma hot_save_present g m u m' :
  hot_save g m = (Ok u, m') -> m_hot m' = <[hg_vm_name g := g]> (m_hot m).
Proof.
  unfold hot_save. destruct (negb _); [intros [=]|].
  intros (w & _ & Hc)%stored_ok. unfold modify in Hc. by simplify_eq.
Qed.

Lemma retained_record_in_service now a lane g :
  retained_record now a lane = Some g ->
  in_service g /\ hg_vm_name g = a_vm_name a.
Proof.
  unfold retained_record. destruct (a_size a), (a_source a); simpl; intros; simplify_eq. done.
Qed.

(** Handing a machine over: its row is written first, so a machine the backend
    keeps is never without one. *)
Lemma hand_over_accounted L g a profile hot m :
  in_service g -> L (hg_vm_name g) -> accounted L m -> hg_vm_name g ∈ dom (m_hot m) ->
  accounted L (hand_over g a profile hot m).2.
Proof.
  intros Hg HL Hm Hd. unfold hand_over, hot_reset_of, budget_for, gets, mbind, IO_bind, mret, IO_ret.
  match goal with |- context [bk_hot_retained ?r] => set (req := r) end.
  pose proof (held_retained req (m_world m)) as Hh. unfold call at 1.
  destruct (bk_hot_retained req (m_world m)) as [kept w]. simpl in Hh.
  destruct Hm as [Ha Hb]. destruct kept as [[]|e].
  - apply keeps_hot_gated; [done|]. split; [|done]. simpl. intros n Hn. apply Hh in Hn.
    apply elem_of_union in Hn as [->%elem_of_singleton|Hn]; auto.
  - pose (L' n := L n /\ n <> hg_vm_name g). apply (accounted_weaken L'); [by intros n []|].
    assert (accounted L' (m <| m_world := w |>)) as Hm'.
    { split; [|done]. simpl. intros n Hn. apply Hh in Hn.
      apply elem_of_difference in Hn as [Hn Hne]. destruct (Ha n Hn). unfold L'. set_solver. }
    refine (proj1 (keeps_bind L' (hot_remove (hg_vm_name g)) _ (fun _ => True) _ _ _ Hm')).
    + apply keeps_hot_remove. by intros [_ ?].
    + intros [|]; [by apply yields_ret|by apply keeps_eviction_pending].
Qed.

Lemma keeps_hot_retained L a profile lane :
  L (a_vm_name a) -> keeps L (ensure_hot_retained a profile lane).
Proof.
  intros HL. unfold ensure_hot_retained. destruct (negb _); [by apply yields_ret|].
  destruct (enabled_hot profile) as [hot|]; [|by apply yields_ret].
  eapply yields_bind; [apply yields_hot_load|].
  assert (keeps L (recorded ← clocked (fun now => retained_record now a lane);
    match recorded with
    | None => mret tt
    | Some guest => saved ← hot_save guest;
        match saved with Err _ => mret tt | Ok _ => hand_over guest a profile hot end
    end)) as Hrec.
  { eapply yields_bind; [apply keeps_clocked with
      (φ := fun r => forall g, r = Some g -> in_service g /\ hg_vm_name g = a_vm_name a)|].
    { intros now g. apply retained_record_in_service. }
    intros [g|] Hg; [|by apply yields_ret]. destruct (Hg g eq_refl) as [Hs Hn].
    intros m Hm. split; [|done]. unfold mbind, IO_bind.
    pose proof (keeps_hot_save L g Hs m Hm) as [Hm' _].
    destruct (hot_save g m) as [[u|e] m'] eqn:Hsave; [|done].
    apply hand_over_accounted; [done|congruence|done|].
    rewrite (hot_save_present _ _ _ _ Hsave), dom_insert. set_solver. }
  intros [[g|]|] _; [by apply yields_ret|exact Hrec..].
Qed.

Lemma keeps_hot_released L a profile :
  L (a_vm_name a) -> keeps L (ensure_hot_released a profile).
Proof.
  intros HL. unfold ensure_hot_released. destruct (hot_vm_name _); [apply keeps_hot_recycled|].
  destruct (a_hot_lane a); [by apply keeps_hot_retained|by apply yields_ret].
Qed.

Lemma keeps_host_machines L : keeps L host_machines.
Proof.
  apply keeps_bind; [apply keeps_gets|]. intros config.
  apply keeps_bind; [apply keeps_gets|]. intros cached.
  assert (keeps L probe_machines) as Hp.
  { apply keeps_bind; [apply keeps_call; eauto with pool|]. intros [l|]; [|by apply yields_ret].
    apply keeps_bind; [apply keeps_call; eauto with pool|]. intros taken.
    apply keeps_bind; [by apply keeps_modify|]. intros _. by apply yields_ret. }
  destruct cached as [[t l]|]; [|done].
  apply keeps_bind; [apply keeps_call; eauto with pool|]. intros now.
  destruct (_ <? _); [by apply yields_ret|done].
Qed.

Lemma min_by_elem {A} (cmp : A -> A -> comparison) l x : min_by cmp l = Some x -> x ∈ l.
Proof.
  destruct l as [|y l]; simpl; [done|]. intros [= <-].
  assert (forall acc : A, fold_left (fun x y => match cmp x y with Gt => y | _ => x end) l acc ∈ acc :: l)
    as H; [|apply H].
  induction l as [|z l IH]; intros acc; simpl; [left|].
  destruct (cmp acc z); specialize (IH acc) as H1; specialize (IH z) as H2; set_solver.
Qed.

Lemma yields_yieldable L config requested :
  yields L (yieldable_hot config requested) (fun r => forall g, r = Some g -> in_service g).
Proof.
  apply keeps_bind; [apply keeps_host_machines|]. intros [machines|]; [|by apply yields_ret].
  eapply yields_bind; [apply yields_hot_load_all|]. intros [hot|] Hl; [|by apply yields_ret].
  apply keeps_bind; [apply keeps_gets|]. intros entries.
  destruct (is_ok _); [by apply yields_ret|]. apply yields_ret.
  intros g Hg%min_by_elem. eapply filter_in_service; [|done]. by apply Hl.
Qed.

Lemma keeps_hot_yielded L config requested : keeps L (ensure_hot_yielded config requested).
Proof.
  eapply yields_bind; [apply yields_hot_load_all|]. intros loaded _.
  induction (match loaded with Ok hot => length hot | Err _ => 0%nat end) as [|held IH];
    simpl; [by apply yields_ret|].
  eapply yields_bind; [apply yields_yieldable|]. intros [g|] Hg; [|by apply yields_ret].
  apply keeps_bind; [apply keeps_hot_evicted; auto|]. intros _. exact IH.
Qed.

Lemma keeps_get L id : keeps L (get id).
Proof. apply keeps_bind; [apply keeps_gets|]. intros e. by apply yields_ret. Qed.

Lemma keeps_io_map_err L {E F A} (f : E -> F) (c : IO W (result E A)) :
  keeps L c -> keeps L (io_map_err f c).
Proof. intros Hc. apply keeps_bind; [done|]. intros r. by apply yields_ret. Qed.

Lemma keeps_try_any L {E A B} (c : IO W (result E A)) (k : A -> IO W (result E B)) :
  keeps L c -> (forall a, keeps L (k a)) -> keeps L (try_ c k).
Proof.
  intros Hc Hk. apply keeps_bind; [done|]. intros [a|e]; [apply Hk|by apply yields_ret].
Qed.

Lemma keeps_allocation_save L a : keeps L (allocation_save a).
Proof.
  unfold allocation_save. destruct (negb _); [by apply yields_ret|].
  destruct (negb _); [by apply yields_ret|].
  eapply yields_weaken; [apply (yields_stored _ _ (fun _ => True)), keeps_modify|done]; done.
Qed.

Lemma keeps_update L id f : keeps L (update id f).
Proof.
  apply keeps_try_any; [apply keeps_get|]. intros a.
  apply keeps_bind; [apply keeps_unix_time|]. intros now.
  apply keeps_try_any; [by apply yields_ret|]. intros a'.
  apply keeps_try_any; [apply keeps_io_map_err, keeps_allocation_save|]. intros _.
  apply keeps_bind; [apply keeps_gets|]. intros entries.
  destruct (entries !! id); [|by apply yields_ret].
  apply keeps_bind; [by apply keeps_modify|]. intros _. by apply yields_ret.
Qed.

Lemma keeps_transition_to L id state : keeps L (transition_to id state).
Proof.
  apply keeps_try_any; [apply keeps_get|]. intros before.
  apply keeps_try_any; [apply keeps_update|]. intros _.
  apply keeps_bind; [apply keeps_emit|]. intros _. by apply yields_ret.
Qed.

Lemma keeps_hot_ready L {ET : ErrorText} a : keeps L (ensure_hot_ready a).
Proof.
  unfold ensure_hot_ready. destruct (hot_vm_name _) as [n|]; [|by apply yields_ret].
  eapply yields_bind; [apply yields_hot_load|]. intros [[g|]|] Hg; [|by apply yields_ret..].
  apply keeps_bind; [apply keeps_transition_to|]. intros [|]; [|by apply yields_ret].
  apply keeps_bind; [apply keeps_call; eauto with pool|]. intros []; [by apply yields_ret|].
  apply keeps_bind; [apply keeps_hot_evicted; auto|]. intros _. by apply yields_ret.
Qed.

Lemma keeps_drain_matching L keep reason : keeps L (drain_matching keep reason).
Proof.
  eapply yields_bind; [apply yields_hot_load_all|]. intros [l|] Hl; [|by apply yields_ret].
  apply keeps_for_each. intros g Hg. apply keeps_hot_drained.
  eapply filter_in_service; [|done]. by apply Hl.
Qed.

Lemma keeps_hot_reload_turn L previous : keeps L (hot_reload_turn previous).
Proof.
  apply keeps_bind; [apply keeps_gets|]. intros next. apply keeps_bind; [|intros; apply keeps_hot_bounded].
  unfold ensure_hot_reloaded. case_bool_decide; [by apply yields_ret|apply keeps_drain_matching].
Qed.

Lemma yields_load_named L n :
  yields L (load_named n) (fun r => forall g, r = Ok g -> in_service g).
Proof.
  eapply (keeps_try _ _ _ (fun row => forall g, row = Some g -> in_service g)).
  - eapply yields_bind; [apply yields_hot_load|]. intros r Hr. apply yields_ret.
    intros row Hrow g ->. apply Hr. destruct r as [row'|]; simpl in Hrow; congruence.
  - intros row Hrow. apply yields_ret. intros g Hg. apply Hrow. destruct row; simpl in Hg; congruence.
  - done.
Qed.

Lemma keeps_hot_drain L n : keeps L (hot_drain n).
Proof.
  eapply (keeps_try _ _ _ in_service); [apply yields_load_named| |done].
  intros g Hg. apply keeps_bind; [by apply keeps_hot_drained|]. intros _. by apply yields_ret.
Qed.

Lemma keeps_hot_evict L n : keeps L (hot_evict n).
Proof.
  eapply (keeps_try _ _ _ in_service); [apply yields_load_named| |done].
  intros g Hg. apply keeps_bind; [by apply keeps_hot_evicted|]. intros _. by apply yields_ret.
Qed.

Lemma adopt_in_service now g g' : adopt now g = Ok g' -> in_service g'.
Proof. unfold adopt. intros H. by eapply ensure_state_in_service. Qed.

Lemma keeps_hot_adoptable L g present profile :
  in_service g -> (present = false -> ~ L (hg_vm_name g)) ->
  keeps L (is_hot_adoptable g present profile).
Proof.
  intros Hg Hp. unfold is_hot_adoptable.
  assert (forall reason, keeps L (_ ← ensure_hot_evicted g reason; mret false)) as Hev.
  { intros reason. apply keeps_bind; [by apply keeps_hot_evicted|]. intros _. by apply yields_ret. }
  destruct present; simpl.
  - destruct (hg_drain_reason g); [apply Hev|].
    destruct (profile ≫= enabled_hot) as [hot|]; [|apply Hev].
    apply keeps_bind; [apply keeps_hot_reset_of|]. intros reset.
    apply keeps_bind; [apply keeps_call; eauto with pool|]. intros [|]; [|apply Hev].
    eapply yields_bind; [apply keeps_clocked with
      (φ := fun r => forall g', r = Ok g' -> in_service g')|].
    { intros now g'. apply adopt_in_service. }
    intros [g'|] Hg'; [|apply Hev].
    apply keeps_bind; [apply keeps_hot_save; auto|]. intros [|]; [by apply yields_ret|apply Hev].
  - apply keeps_bind; [apply keeps_hot_forgotten; auto|]. intros _. by apply yields_ret.
Qed.

Lemma hot_terminal_evicted s : hot_is_terminal s = true <-> s = Evicted.
Proof. by destruct s. Qed.

Lemma keeps_reconcile_hot L config machines g :
  in_service g -> (forall n, L n -> n ∈ map hm_name machines) ->
  keeps L (reconcile_hot config machines g).
Proof.
  intros Hg HL. unfold reconcile_hot. destruct (hot_is_terminal _) eqn:Ht.
  { by apply hot_terminal_evicted in Ht. }
  apply keeps_bind; [|intros _; by apply yields_ret]. apply keeps_hot_adoptable; [done|].
  intros Hex Hn. apply HL, list_elem_of_fmap in Hn as (m & Hm & Hin).
  apply not_true_iff_false in Hex. apply Hex, existsb_exists. exists m.
  rewrite <- list_elem_of_In, bool_decide_eq_true. done.
Qed.

Lemma keeps_hot_consistent L : keeps L ensure_hot_consistent.
Proof.
  eapply (keeps_try _ _ _ (fun l => forall g, g ∈ l -> in_service g)).
  - eapply yields_bind; [apply yields_hot_load_all|]. intros r Hr. apply yields_ret.
    intros l Hl. apply Hr. destruct r; simpl in Hl; congruence.
  - intros l Hl. destruct l as [|g0 l]; [by apply yields_ret|].
    apply keeps_bind; [apply keeps_gets|]. intros config m Hm. split; [|done].
    unfold try_, io_map_err, mbind, IO_bind, call.
    pose proof (held_machines (m_world m)) as Hlist. pose proof (held_listing (m_world m)) as Hsub.
    destruct (bk_machines (m_world m)) as [[machines|e] w]; simpl in *.
    + destruct Hm as [Ha Hb].
      set (L' n := L n /\ n ∈ map hm_name machines).
      assert (accounted L' (m <| m_world := w |>)) as Hm'.
      { split; [|done]. simpl. intros n Hn. destruct (Ha n (Hsub n Hn)). unfold L'. eauto. }
      apply (accounted_weaken L'); [by intros n []|].
      refine (proj1 (keeps_bind L' (for_each (reconcile_hot config machines) (g0 :: l)) _
        (fun _ => True) _ _ _ Hm')); [|intros _; by apply yields_ret].
      apply keeps_for_each. intros g Hg. apply keeps_reconcile_hot; [auto|]. by intros n [].
    + destruct Hm as [Ha Hb]. split; [|done]. simpl. auto.
  - done.
Qed.
End accounting_ops.

#[export] Instance sim_pool_backend : PoolBackend Sim.
Proof.
  refine {| held := sim_pool |}; try (intros; simpl; repeat case_match; simpl; set_solver).
  intros w machines [= <-] n Hn. change (map ?f ?l) with (f <$> l).
  rewrite fmap_app. apply elem_of_app. right. apply list_elem_of_fmap.
  exists (pool_machine n). split; [done|]. apply list_elem_of_fmap. exists n.
  split; [done|]. by apply elem_of_elements.
Defined.

(** ** Draining a claimed machine *)

Section claimed_drain.
Context {W : Type} {BK : Backend W} {HO : HashOrder}.

(** A row the store keeps but will not read. *)
Definition unreadable (name : VmName) (m : Manager W) : Prop :=
  exists g, m_hot m !! name = Some g /\ hg_vm_name g = name /\ validate_hot_guest g = false.

(** The hot table keyed as [hot_save] keys it. *)
Definition hot_keyed (m : Manager W) : Prop :=
  map_Forall (fun n g => hg_vm_name g = n) (m_hot m).

#[global] Instance hot_keyed_dec m : Decision (hot_keyed m).
Proof. unfold hot_keyed. apply _. Defined.

Lemma unreadable_load name m :
  unreadable name m ->
  (exists e, (hot_load name m).1 = Err e) /\ m_hot (hot_load name m).2 = m_hot m.
Proof.
  intros (g & Hg & _ & Hv). unfold hot_load, try_, stored, mbind, IO_bind, call, gets.
  destruct (bk_store_fault (m_world m)) as [[] w]; simpl; [eauto|].
  rewrite Hg, Hv. simpl. eauto.
Qed.

Lemma unreadable_load_all name m guests :
  hot_keyed m -> unreadable name m -> (hot_load_all m).1 = Ok guests ->
  forall g, g ∈ guests -> hg_vm_name g <> name.
Proof.
  intros Hk (g & Hg & _ & Hv). unfold hot_load_all, stored, mbind, IO_bind, call, gets.
  destruct (bk_store_fault (m_world m)) as [[] w]; simpl; [done|]. intros [= <-] g' Hg' Hn.
  apply list_elem_of_In, List.filter_In in Hg' as [Hin%list_elem_of_In Hv'].
  apply elem_of_hash_values in Hin as [k Hk']. simpl in Hk'.
  pose proof (Hk _ _ Hk') as Hkn. simpl in Hkn. congruence.
Qed.

Lemma draining_claim_invalid g :
  hg_state g = Draining -> is_Some (hg_claimed_by g) -> validate_hot_guest g = false.
Proof.
  intros Hs Hc. apply not_true_iff_false. unfold validate_hot_guest. intros H.
  apply andb_true_iff in H as [_ H]. unfold validate_claim in H.
  rewrite Hs, bool_decide_eq_true, bool_decide_true in H by done. done.
Qed.

Lemma hot_save_effect g m :
  (hot_save g m).1 = Ok tt /\ m_hot (hot_save g m).2 = <[hg_vm_name g := g]> (m_hot m) \/
  (exists e, (hot_save g m).1 = Err e) /\ m_hot (hot_save g m).2 = m_hot m.
Proof.
  unfold hot_save. destruct (negb _); [eauto|].
  unfold stored, mbind, IO_bind, call, modify.
  destruct (bk_store_fault (m_world m)) as [[] w]; simpl; eauto.
Qed.

(** A drain of a claimed record writes one row or nothing, and never evicts. *)
Lemma drained_claim g reason m :
  hg_state g = Claimed -> is_Some (hg_claimed_by g) ->
  m_hot (ensure_hot_drained g reason m).2 = m_hot m \/
  exists g', m_hot (ensure_hot_drained g reason m).2 = <[hg_vm_name g := g']> (m_hot m) /\
    hg_state g' = Draining /\ hg_claimed_by g' = hg_claimed_by g /\ hg_vm_name g' = hg_vm_name g.
Proof.
  intros Hs [id Hc]. unfold ensure_hot_drained. rewrite bool_decide_false by congruence.
  unfold clocked, unix_time, call, mbind, IO_bind.
  destruct (bk_unix_time (m_world m)) as [now w]. simpl.
  unfold ensure_state. rewrite Hs. simpl.
  match goal with |- context [hot_save ?d ?s] =>
    pose proof (hot_save_effect d s) as He; destruct (hot_save d s) as [r m'] end.
  simpl in He. rewrite Hc. simpl. destruct He as [[-> He]|[[e ->] He]]; simpl; [right|by left].
  eexists. split; [exact He|]. simpl. auto.
Qed.

(** C31: draining a machine whose job still runs records [Draining] beside the
    claim, a row no later read accepts: the record disappears from every
    listing, the allocation that ends cannot release or evict the machine, and
    the machine is not destroyed by the drain either.  The drain therefore
    never ends in the eviction its caller promises. *)
Theorem claimed_drain_unreadable g reason (m : Manager W) :
  hot_keyed m -> hg_state g = Claimed -> is_Some (hg_claimed_by g) ->
  let m' := (ensure_hot_drained g reason m).2 in
  m_hot m' = m_hot m \/
  (unreadable (hg_vm_name g) m' /\
   forall m2, hot_keyed m2 -> unreadable (hg_vm_name g) m2 ->
     (exists e, (hot_load (hg_vm_name g) m2).1 = Err e) /\
     (forall guests, (hot_load_all m2).1 = Ok guests ->
        forall g2, g2 ∈ guests -> hg_vm_name g2 <> hg_vm_name g) /\
     (forall a profile, hot_vm_name (a_origin a) = Some (hg_vm_name g) ->
        m_hot (ensure_hot_released a profile m2).2 = m_hot m2)).
Proof.
  intros Hk Hs Hc m'. destruct (drained_claim g reason m Hs Hc) as [|(g' & Hm & Hd & Hcl & Hn)];
    [by left|]. right. split.
  - exists g'. unfold m'. rewrite Hm, lookup_insert_eq. split_and!; [done..|].
    apply draining_claim_invalid; [done|]. by rewrite Hcl.
  - intros m2 Hk2 Hu. destruct (unreadable_load _ _ Hu) as [[e He] Hsame].
    split; [eauto|]. split; [intros guests Hg; by eapply unreadable_load_all|].
    intros a profile Ho. unfold ensure_hot_released. rewrite Ho.
    unfold ensure_hot_recycled, mbind, IO_bind.
    destruct (hot_load (hg_vm_name g) m2) as [r m3]. simpl in *. by subst r.
Qed.
End claimed_drain.

Definition claimed_guest : HotGuest :=
  idle_guest <| hg_state := Claimed |> <| hg_claimed_by := Some "id-1" |>.

Definition claimed_pool : Manager Sim :=
  sim_manager example_config [claimed_guest]
    (sim_world <| sim_pool := {[ hg_vm_name claimed_guest ]} |>).

Lemma claimed_pool_keyed : hot_keyed claimed_pool.
Proof. apply map_Forall_singleton. reflexivity. Qed.

Lemma claimed_drain_unreadable_witness :
  let m' := (ensure_hot_drained claimed_guest OperatorRequest claimed_pool).2 in
  (exists e, (hot_load (hg_vm_name claimed_guest) m').1 = Err e) /\
  hg_vm_name claimed_guest ∈ sim_pool (m_world m').
Proof.
  intros m'. split; [|vm_compute; reflexivity].
  destruct (claimed_drain_unreadable claimed_guest OperatorRequest claimed_pool
    claimed_pool_keyed eq_refl (ex_intro _ _ eq_refl)) as [H|[Hu H]].
  - exfalso. apply (f_equal (fun rows => option_map hg_state (rows !! "ff-linux-7-1"))) in H.
    vm_compute in H. discriminate H.
  - refine (proj1 (H _ (proj1 (bool_decide_eq_true _) _) Hu)). vm_compute. reflexivity.
Defined.

(** The sweep then plans the machine under its job. *)
Example claimed_drain_swept :
  let m' := (ensure_hot_drained claimed_guest OperatorRequest claimed_pool).2 in
  match hot_load_all m' with
  | (Ok hot, _) =>
      map rc_name (plan_sweep {| ri_config := m_config m';
        ri_machines := [pool_machine (hg_vm_name claimed_guest)];
        ri_allocations := []; ri_images := []; ri_hot := hot |}) = [hg_vm_name claimed_guest]
  | _ => False
  end.
Proof. vm_compute. reflexivity. Qed.

(** ** Bounds read one snapshot

    A machine that served its last job is drained; its idle neighbour, the only
    one left and within every bound, is then retired as surplus, because the
    idle ceiling is applied to the listing taken before the drain. *)

Definition worn_guest : HotGuest :=
  idle_guest <| hg_vm_name := "ff-linux-8-1" |> <| hg_jobs_served := 99 |>
    <| hg_updated_at_unix := 2100 |>.

Definition idle_pool (guests : list HotGuest) : Manager Sim :=
  sim_manager example_config guests
    (sim_world <| sim_now := 2200 |> <| sim_pool := list_to_set (map hg_vm_name guests) |>).

Example bounds_over_retire :
  map fst (map_to_list (m_hot (ensure_hot_bounded (idle_pool [idle_guest])).2))
    = [hg_vm_name idle_guest] /\
  map fst (map_to_list (m_hot (ensure_hot_bounded (idle_pool [idle_guest; worn_guest])).2)) = [].
Proof. vm_compute. split; reflexivity. Qed.

(** ** What the pool leaves alone *)

Section frame.
Context {W : Type} {BK : Backend W} {HO : HashOrder}.

(** [c] moves neither the entries nor their rows. *)
Definition frames {A} (c : IO W A) : Prop :=
  forall m, m_entries (c m).2 = m_entries m /\ m_rows (c m).2 = m_rows m.

Lemma frames_ret {A} (a : A) : frames (mret a).
Proof. done. Qed.

Lemma frames_bind {A B} (c : IO W A) (k : A -> IO W B) :
  frames c -> (forall a, frames (k a)) -> frames (c ≫= k).
Proof.
  intros Hc Hk m. unfold mbind, IO_bind. specialize (Hc m). destruct (c m) as [a m'].
  destruct (Hk a m') as [H1 H2]. simpl in *. rewrite H1, H2. tauto.
Qed.

Lemma frames_gets {A} (f : Manager W -> A) : frames (gets f).
Proof. done. Qed.

Lemma frames_call {A} (f : W -> A * W) : frames (call f).
Proof. intros m. unfold call. by destruct (f (m_world m)). Qed.

Lemma frames_modify (f : Manager W -> Manager W) :
  (forall m, m_entries (f m) = m_entries m) -> (forall m, m_rows (f m) = m_rows m) ->
  frames (modify f).
Proof. intros H1 H2 m. simpl. auto. Qed.

Lemma frames_for_each {A} (f : A -> IO W unit) l :
  (forall x, frames (f x)) -> frames (for_each f l).
Proof. intros Hf. induction l; simpl; [done|]. by apply frames_bind. Qed.
End frame.

(** Walks an operation down to the primitives. *)
Ltac solve_frames :=
  repeat first
    [ assumption | solve [eauto 1 with frames] | apply frames_ret | apply frames_gets
    | apply frames_call | apply frames_modify; reflexivity | apply frames_for_each; intros
    | apply frames_bind; [|intros] | case_match ].

Create HintDb frames.

Section pool_frame.
Context {W : Type} {BK : Backend W} {HO : HashOrder}.

Lemma frames_hot_load (n : VmName) : frames (W := W) (hot_load n).
Proof. unfold hot_load, try_, stored. solve_frames. Qed.
Lemma frames_hot_load_all : frames (W := W) hot_load_all.
Proof. unfold hot_load_all, stored. solve_frames. Qed.
Lemma frames_hot_save g : frames (W := W) (hot_save g).
Proof. unfold hot_save, stored. solve_frames. Qed.
Lemma frames_hot_remove n : frames (W := W) (hot_remove n).
Proof. unfold hot_remove, stored. solve_frames. Qed.
Lemma frames_images_load n : frames (W := W) (images_load n).
Proof. unfold images_load, try_, stored. solve_frames. Qed.
Lemma frames_unix_time : frames (W := W) unix_time.
Proof. apply frames_call. Qed.
Lemma frames_emit k a n p : frames (W := W) (emit k a n p).
Proof. by apply frames_modify. Qed.
Lemma frames_budget_for n : frames (W := W) (budget_for n).
Proof. unfold budget_for. solve_frames. Qed.
#[local] Hint Resolve frames_hot_load frames_hot_load_all frames_hot_save frames_hot_remove
  frames_images_load frames_unix_time frames_emit frames_budget_for : frames.

Lemma frames_pending g reason : frames (W := W) (ensure_hot_eviction_pending g reason).
Proof. unfold ensure_hot_eviction_pending. solve_frames. Qed.
#[local] Hint Resolve frames_pending : frames.
Lemma frames_evicted g reason : frames (W := W) (ensure_hot_evicted g reason).
Proof. unfold ensure_hot_evicted. solve_frames. Qed.
#[local] Hint Resolve frames_evicted : frames.
Lemma frames_drained g reason : frames (W := W) (ensure_hot_drained g reason).
Proof. unfold ensure_hot_drained, clocked. solve_frames. Qed.
#[local] Hint Resolve frames_drained : frames.
Lemma frames_bounded : frames (W := W) ensure_hot_bounded.
Proof.
  unfold ensure_hot_bounded, ensure_hot_pool_drained, ensure_hot_surplus_retired,
    ensure_hot_drains_finished, ensure_hot_evictions_retried, hot_claimed_names, ensure_hot_bound,
    promoted_generation.
  solve_frames.
Qed.
#[local] Hint Resolve frames_bounded : frames.
Lemma frames_released a profile : frames (W := W) (ensure_hot_released a profile).
Proof.
  unfold ensure_hot_released, ensure_hot_recycled, ensure_hot_retained, hand_over,
    ensure_hot_gated, ensure_hot_joined, hot_drain_pending, hot_reset_of,
    clocked.
  solve_frames.
Qed.
End pool_frame.
