(* ===== verification/Lifecycle.v ===== *)
(** * Ending allocations ([crates/flanforge-manager/src/{lifecycle,teardown,shutdown}.rs,
    operator/control.rs, recovery/allocations.rs])

    Cleanup with its retries, the one path to a terminal state, the teardown a
    worker's exit runs, cancellation, the leaks a shutdown reports and the
    recovery of interrupted allocations. *)

From S2P Require Import Prelude Rust Text Identifiers Images Guest Hot Allocation Config ConfigValidate Claims Admission HotSelect Reaper Convert Manager HotPool.

Open Scope Z_scope.
Open Scope stdpp_scope.

(** ** The profile of a request ([resolve.rs]) *)

Definition profile_of (config : Config) (request : AllocationRequest) :
    result ManagerError Profile :=
  ok_or (c_profiles config !! rq_profile request) (UnknownProfile (rq_profile request)).

Definition FALLBACK_CLEANUP_TIMEOUT_SECONDS : Z := 300.

Definition cleanup_only_profile (a : Allocation) : Profile :=
  {| p_repository := rq_repository (a_request a); p_template := a_vm_name a;
     p_runner_label := a_runner_label a; p_job_name := ""; p_allowed_workflows := ∅;
     p_allowed_events := ∅; p_allowed_refs := ∅; p_require_protected_ref := true;
     p_network := NetworkDefault; p_cpu_count := 1; p_memory_mb := 2048; p_storage_mb := 40960;
     p_boot_timeout_seconds := FALLBACK_CLEANUP_TIMEOUT_SECONDS;
     p_idle_timeout_seconds := FALLBACK_CLEANUP_TIMEOUT_SECONDS;
     p_job_timeout_seconds := FALLBACK_CLEANUP_TIMEOUT_SECONDS;
     p_cleanup_timeout_seconds := FALLBACK_CLEANUP_TIMEOUT_SECONDS;
     p_warm_template := None; p_regeneration_workflow := None; p_hot := None; p_reap := false |}.

Section lifecycle.
Context {W : Type} {BK : Backend W} {HO : HashOrder}.

(** ** Cleanup *)

Definition is_bounded (b : CleanupBudget) : bool := negb (is_none (cb_deadline b)).

Definition abandoned : WorkerError :=
  worker_error_new "cleanup was abandoned when the shutdown grace expired".

Definition cleanup_once (a : Allocation) (budget : CleanupBudget) : IO W (result WorkerError unit) :=
  match cb_deadline budget with
  | None => answer ← call (bk_cleanup a budget); mret answer.1
  | Some _ =>
      now ← instant;
      answer ← call (bk_cleanup a budget);
      match remaining now budget with
      | Some allowed => mret (if allowed <? answer.2 then Err abandoned else answer.1)
      | None => mret answer.1
      end
  end.

(** The attempts left, and the error to answer when there are none. *)
Fixpoint cleanup_attempts (attempts : nat) (a : Allocation) (budget : CleanupBudget)
    (last_error : WorkerError) : IO W (result WorkerError unit) :=
  match attempts with
  | O => mret (Err last_error)
  | S attempts =>
      done ← cleanup_once a budget;
      match done with
      | Ok _ => mret (Ok tt)
      | Err error => cleanup_attempts attempts a budget error
      end
  end.

Definition cleanup_with_retries (a : Allocation) (profile : Profile) :
    IO W (result WorkerError unit) :=
  budget ← budget_for (from_secs (p_cleanup_timeout_seconds profile));
  done ← cleanup_attempts (if is_bounded budget then 1 else 3) a budget
           (worker_error_new "cleanup failed");
  match done with
  | Ok _ => mret (Ok tt)
  | Err error =>
      _ ← (if is_bounded budget then record_leak a CleanupFailed else mret tt);
      mret (Err error)
  end.

(** ** Reaching a terminal state *)

(** The end of [ensure_terminal], once teardown has run. *)
Definition finish_terminal (id : AllocationId) (terminal : AllocationState) :
    IO W (result ManagerError AllocationState) :=
  _ ←? ensure_cleaning id;
  latest ←? get id;
  if is_terminal (a_state latest) then mret (Ok (a_state latest))
  else _ ←? transition_to id terminal; mret (Ok terminal).

Definition ensure_terminal (fallback : Allocation) (profile : Profile)
    (requested : AllocationState) : IO W (result ManagerError AllocationState) :=
  let id := a_id fallback in
  _ ← ensure_cleaning id;
  refreshed ← get id;
  let current := match refreshed with Ok a => a | Err _ => fallback end in
  if is_terminal (a_state current) then mret (Ok (a_state current))
  else
    _ ← (if is_hot current then ensure_hot_released current profile else mret tt);
    done ← cleanup_with_retries current profile;
    match done with
    | Ok _ => finish_terminal id requested
    | Err error =>
        latest ← get id;
        match latest with
        | Ok latest =>
            if is_terminal (a_state latest) then mret (Ok (a_state latest))
            else _ ← record_error id ("cleanup failed: " +:+ worker_message error);
                 finish_terminal id Failed
        | Err _ =>
            _ ← record_error id ("cleanup failed: " +:+ worker_message error);
            finish_terminal id Failed
        end
    end.

(** ** Teardown ([teardown.rs]) *)

Definition release_supervision (id : AllocationId) : IO W unit :=
  set_entry id (fun e => e <| e_is_supervised := false |>).

Definition quarantine_warm (profile : ProfileName) : IO W unit :=
  modify (fun m => m <| m_quarantined := {[ profile ]} ∪ m_quarantined m |>).

(** A warm guest that failed before it was reachable. *)
Definition is_warm_suspect (a : Allocation) : bool :=
  match a_source a with Some source => bool_decide (cs_kind source = KWarm) | None => false end
  && match a_state a with Preparing | Booting => true | _ => false end.

Definition ensure_warm_quarantined (id : AllocationId) : IO W unit :=
  current ← get id;
  match current with
  | Ok a => if is_warm_suspect a then quarantine_warm (rq_profile (a_request a)) else mret tt
  | Err _ => mret tt
  end.

(** The state a finished worker asks for; [cancelled] is its token. *)
Definition requested_state (cancelled : bool) (run_result : result WorkerError unit) :
    AllocationState :=
  if cancelled then Cancelled else if is_ok run_result then Completed else Failed.

Definition is_cancelled (id : AllocationId) : IO W bool :=
  entries ← gets m_entries;
  mret (match entries !! id with Some e => e_cancelled e | None => false end).

(** [Teardown::run].  The token is read where [finish_worker] reads it. *)
Definition teardown (a : Allocation) (profile : Profile) (run_result : result WorkerError unit) :
    IO W unit :=
  let id := a_id a in
  _ ← match run_result with
      | Err error =>
          _ ← (if is_capacity error then mret tt else ensure_warm_quarantined id);
          _ ← set_worker_error id error; mret tt
      | Ok _ => mret tt
      end;
  cancelled ← is_cancelled id;
  _ ← ensure_terminal a profile (requested_state cancelled run_result);
  release_supervision id.

(** ** Cancellation ([operator/control.rs]) *)

(** What [cancel_by_id] answers at once; [None] is a caller that waits for the
    entry another cancel is already ending. *)
Definition cancel_by_id (id : AllocationId) : IO W (option (result ManagerError Allocation)) :=
  entries ← gets m_entries;
  match entries !! id with
  | None => mret (Some (Err (NotFound id)))
  | Some entry =>
      if is_terminal (a_state (e_allocation entry)) then mret (Some (Ok (e_allocation entry)))
      else
        _ ← set_entry id (fun e => e <| e_cancelled := true |>);
        if e_is_supervised entry then mret (Some (Ok (e_allocation entry)))
        else if e_is_terminalizing entry then mret None
        else
          _ ← set_entry id (fun e => e <| e_is_terminalizing := true |>);
          config ← gets m_config;
          let profile := match profile_of config (a_request (e_allocation entry)) with
                         | Ok p => p
                         | Err _ => cleanup_only_profile (e_allocation entry)
                         end in
          terminalized ← ensure_terminal (e_allocation entry) profile Cancelled;
          _ ← set_entry id (fun e => e <| e_is_terminalizing := false |>);
          match terminalized with
          | Err e => mret (Some (Err e))
          | Ok _ => answer ← get id; mret (Some answer)
          end
  end.

(** ** Shutdown ([shutdown.rs]) *)

Definition BOOKKEEPING_RESERVE : Z := 8.

(** The entries a shutdown waits for. *)
Definition is_awaited (e : Entry) : bool :=
  negb (is_terminal (a_state (e_allocation e))) && (e_is_supervised e || e_is_terminalizing e).

(** The locked section of [shutdown]: close, set the deadline (once), cancel. *)
Definition begin_shutdown (grace : Z) : IO W (list AllocationId) :=
  started ← instant;
  _ ← modify (fun m => m
        <| m_is_closing := true |>
        <| m_teardown_deadline :=
             match m_teardown_deadline m with
             | Some d => Some d
             | None => Some (started + grace - grace / BOOKKEEPING_RESERVE)
             end |>);
  entries ← gets m_entries;
  let awaited := map (fun e => a_id (e_allocation e)) (List.filter is_awaited (hash_values entries)) in
  _ ← modify (fun m => m <| m_entries :=
        (fun e => if is_awaited e then e <| e_cancelled := true |> else e) <$> m_entries m |>);
  mret awaited.

Definition collect_leak (entries : gmap string Entry) (leaked : list AllocationLeak)
    (id : AllocationId) : list AllocationLeak :=
  if existsb (fun leak => bool_decide (al_id leak = id)) leaked then leaked
  else match entries !! id with
       | None => leaked
       | Some e => if is_terminal (a_state (e_allocation e)) then leaked
                   else leaked ++ [allocation_leak_new (e_allocation e) NotTerminal]
       end.

Definition collect_leaks (awaited : list AllocationId) : IO W (list AllocationLeak) :=
  leaked ← gets m_leaked;
  _ ← modify (fun m => m <| m_leaked := [] |>);
  entries ← gets m_entries;
  mret (foldl (collect_leak entries) leaked awaited).

(** ** Recovery ([recovery/allocations.rs]) *)

Definition recovered_entry (a : Allocation) : Entry := mkEntry a a false false false.

Fixpoint ensure_entries_loaded (allocations : list Allocation) : IO W (result ManagerError unit) :=
  match allocations with
  | [] => mret (Ok tt)
  | a :: allocations =>
      entries ← gets m_entries;
      if bool_decide (is_Some (entries !! a_id a)) then mret (Err (DuplicateAllocation (a_id a)))
      else
        _ ← modify (fun m => m <| m_entries := <[a_id a := recovered_entry a]> (m_entries m) |>);
        ensure_entries_loaded allocations
  end.

Definition recover_allocation (config : Config) (a : Allocation) : IO W (result ManagerError unit) :=
  let profile := match profile_of config (a_request a) with
                 | Ok p => p | Err _ => cleanup_only_profile a end in
  _ ← record_error (a_id a) "daemon restarted during allocation";
  _ ←? ensure_terminal a profile Failed;
  mret (Ok tt).
End lifecycle.

(** ** Lemmas *)

Section effects.
Context {W : Type} {BK : Backend W} {HO : HashOrder}.
Implicit Types m : Manager W.

Lemma get_eq id m :
  get id m = (ok_or (option_map e_allocation (m_entries m !! id)) (NotFound id), m).
Proof. done. Qed.

Lemma bind_eq {A B} (c : IO W A) (k : A -> IO W B) m a m' :
  c m = (a, m') -> (c ≫= k) m = k a m'.
Proof. intros H. unfold mbind, IO_bind. by rewrite H. Qed.

(** What a store call that wrote nothing leaves in place. *)
Definition same_tables m m' : Prop := m_entries m' = m_entries m /\ m_rows m' = m_rows m.

Lemma frames_eq {A} (c : IO W A) m a m' : frames c -> c m = (a, m') -> same_tables m m'.
Proof. intros Hc H. specialize (Hc m). rewrite H in Hc. exact Hc. Qed.

(** What [allocation_save] accepts. *)
Definition storable (a : Allocation) : Prop :=
  validate_allocation a = true /\ allocation_columns a = Ok tt.

Lemma allocation_save_cases a m r m' :
  allocation_save a m = (r, m') ->
  (exists e, r = Err e) /\ same_tables m m' \/
  r = Ok tt /\ storable a /\ m_entries m' = m_entries m /\
  m_rows m' = <[a_id a := a]> (m_rows m).
Proof.
  unfold allocation_save, stored, modify, mbind, IO_bind, call, same_tables.
  unfold storable. destruct (validate_allocation a) eqn:Hv; simpl; [|intros [= <- <-]; eauto].
  destruct (allocation_columns a) as [[]|]; simpl; [|intros [= <- <-]; eauto].
  destruct (bk_store_fault (m_world m)) as [[] w]; intros [= <- <-]; eauto 7.
Qed.

(** [update]: nothing happened, or the entry and its row took the new value. *)
Lemma update_cases id f m r m' :
  update id f m = (r, m') ->
  (exists e, r = Err e) /\ same_tables m m' \/
  r = Ok tt /\ exists e now a, m_entries m !! id = Some e /\ f now (e_allocation e) = Ok a /\
    storable a /\
    m_entries m' = <[id := e <| e_allocation := a |> <| e_sent := a |>]> (m_entries m) /\
    m_rows m' = <[a_id a := a]> (m_rows m).
Proof.
  unfold update, try_. unfold mbind at 1, IO_bind at 1. rewrite get_eq.
  destruct (m_entries m !! id) as [e|] eqn:He; simpl; [|intros [= <- <-]; left; split; eauto; done].
  unfold unix_time, call, mbind, IO_bind. destruct (bk_unix_time (m_world m)) as [now w]. simpl.
  destruct (f now (e_allocation e)) as [a|err] eqn:Hf; simpl;
    [|intros [= <- <-]; left; split; eauto; done].
  unfold io_map_err, mbind, IO_bind.
  destruct (allocation_save a _) as [r1 m1] eqn:Hs. apply allocation_save_cases in Hs.
  destruct Hs as [[[e1 ->] [H1 H2]]|(-> & Hv & H1 & H2)]; simpl.
  - intros [= <- <-]. left. split; [eauto|]. split; [by rewrite H1|by rewrite H2].
  - unfold gets. rewrite H1. simpl. rewrite He. simpl. intros [= <- <-]. right. split; [done|].
    exists e, now, a. split_and!; try done. simpl. rewrite H1. simpl.
    by rewrite (alter_alt_Some _ _ _ e).
Qed.

Lemma transition_to_cases id s m r m' :
  transition_to id s m = (r, m') ->
  (exists e, r = Err e) /\ same_tables m m' \/
  r = Ok tt /\ exists e now a, m_entries m !! id = Some e /\
    transition now s (e_allocation e) = Ok a /\ storable a /\
    m_entries m' = <[id := e <| e_allocation := a |> <| e_sent := a |>]> (m_entries m) /\
    m_rows m' = <[a_id a := a]> (m_rows m).
Proof.
  unfold transition_to, try_. unfold mbind at 1, IO_bind at 1. rewrite get_eq.
  destruct (m_entries m !! id) as [e|] eqn:He; simpl; [|intros [= <- <-]; left; split; eauto; done].
  unfold mbind, IO_bind. destruct (update id _ m) as [r1 m1] eqn:Hu.
  apply update_cases in Hu as [[[e1 ->] Hsame]|(-> & e1 & now & a & He1 & Hf & Hv & H1 & H2)].
  - intros [= <- <-]. eauto.
  - intros [= <- <-]. right. split; [done|]. apply map_err_ok in Hf.
    exists e1, now, a. split_and!; try done. congruence.
Qed.

Lemma record_error_cases id text m r m' :
  record_error id text m = (r, m') ->
  same_tables m m' \/
  exists e now, m_entries m !! id = Some e /\
    let a := set_error now text (e_allocation e) in
    storable a /\
    m_entries m' = <[id := e <| e_allocation := a |> <| e_sent := a |>]> (m_entries m) /\
    m_rows m' = <[a_id a := a]> (m_rows m).
Proof.
  unfold record_error, try_. unfold mbind, IO_bind.
  destruct (update id _ m) as [r1 m1] eqn:Hu.
  apply update_cases in Hu as [[[e1 ->] Hsame]|(-> & e1 & now & a & He1 & Hf & Hv & H1 & H2)].
  - intros [= <- <-]. by left.
  - intros [= <- <-]. right. exists e1, now. injection Hf as <-. done.
Qed.

Lemma ensure_cleaning_cases id m r m' :
  ensure_cleaning id m = (r, m') ->
  same_tables m m' /\
    (r = Ok tt -> exists e, m_entries m !! id = Some e /\
       (a_state (e_allocation e) = Cleaning \/ is_terminal (a_state (e_allocation e)) = true)) \/
  r = Ok tt /\ exists e now, m_entries m !! id = Some e /\
    is_terminal (a_state (e_allocation e)) = false /\
    let a := e_allocation e <| a_state := Cleaning |> <| a_updated_at_unix := now |> in
    storable a /\
    m_entries m' = <[id := e <| e_allocation := a |> <| e_sent := a |>]> (m_entries m) /\
    m_rows m' = <[a_id a := a]> (m_rows m).
Proof.
  unfold ensure_cleaning, try_. unfold mbind, IO_bind. rewrite get_eq.
  destruct (m_entries m !! id) as [e|] eqn:He; simpl; [|intros [= <- <-]; left; done].
  destruct (bool_decide (a_state (e_allocation e) = Cleaning) || _) eqn:Hb.
  - intros [= <- <-]. left. split; [done|]. intros _. exists e. split; [done|].
    apply orb_true_iff in Hb as [Hb%bool_decide_eq_true|Hb]; auto.
  - apply orb_false_iff in Hb as [_ Hb]. intros Ht.
    apply transition_to_cases in Ht as [[[e1 ->] Hs]|(-> & e1 & now & a & He1 & Ht & Hv & H1 & H2)].
    + left. done.
    + right. split; [done|]. rewrite He in He1. injection He1 as <-.
      apply transition_ok in Ht as [_ ->]. exists e, now. auto.
Qed.

(** ** A store that answers *)

(** No store call fails and the clock stays within a column. *)
Definition reliable : Prop :=
  forall w : W, (bk_store_fault w).1 = false /\ 0 <= (bk_unix_time w).1 <= i64_max.

Lemma storable_moved now s a :
  now <= i64_max -> storable a -> storable (a <| a_state := s |> <| a_updated_at_unix := now |>).
Proof.
  intros Hn [Hv Hc]. split; [exact Hv|]. revert Hc. unfold allocation_columns. simpl.
  intros Hc. simplify_result. read_columns.
  repeat (apply result_bind_ok; eexists; split;
    [first [apply to_i64_ok | apply optional_to_i64_ok]; split; [reflexivity|done]|]).
  reflexivity.
Qed.

Lemma allocation_save_reliable a m :
  reliable -> storable a -> (allocation_save a m).1 = Ok tt.
Proof.
  intros Hr [Hv Hc]. unfold allocation_save, stored, mbind, IO_bind, call.
  rewrite Hv, Hc. simpl. destruct (Hr (m_world m)) as [Hf _].
  destruct (bk_store_fault (m_world m)) as [b w]. simpl in Hf. by subst b.
Qed.

Lemma update_reliable id f m e :
  reliable -> m_entries m !! id = Some e ->
  (forall now, 0 <= now <= i64_max -> exists a, f now (e_allocation e) = Ok a /\ storable a) ->
  (update id f m).1 = Ok tt.
Proof.
  intros Hr He Hf. unfold update, try_, mbind, IO_bind. rewrite get_eq, He. simpl.
  unfold unix_time, call. destruct (Hr (m_world m)) as [_ Hn].
  destruct (bk_unix_time (m_world m)) as [now w]. simpl in *.
  destruct (Hf now Hn) as (a & -> & Hs). simpl. unfold io_map_err, mbind, IO_bind.
  match goal with |- context [allocation_save a ?s] =>
    pose proof (allocation_save_reliable a s Hr Hs) as Hok;
    destruct (allocation_save a s) as [r m1] eqn:Hsave end.
  simpl in Hok. subst r. apply allocation_save_cases in Hsave as [[[? [=]] _]|(_ & _ & H1 & _)].
  simpl. rewrite H1. simpl. by rewrite He.
Qed.

Lemma transition_to_reliable id s m e :
  reliable -> m_entries m !! id = Some e -> storable (e_allocation e) ->
  can_transition_to (a_state (e_allocation e)) s = true -> (transition_to id s m).1 = Ok tt.
Proof.
  intros Hr He Hs Hc. unfold transition_to, try_, mbind, IO_bind. rewrite get_eq, He. simpl.
  match goal with |- context [update id ?f m] =>
    pose proof (update_reliable id f m e Hr He) as Hu; destruct (update id f m) as [r m1] end.
  simpl in Hu. rewrite Hu; [done|]. intros now Hn. eexists. split.
  - apply map_err_ok, transition_ok. split; [done|reflexivity].
  - apply storable_moved; [lia|done].
Qed.

Lemma ensure_cleaning_reliable id m e :
  reliable -> m_entries m !! id = Some e -> storable (e_allocation e) ->
  (ensure_cleaning id m).1 = Ok tt.
Proof.
  intros Hr He Hs. unfold ensure_cleaning, try_, mbind, IO_bind. rewrite get_eq, He. simpl.
  destruct (_ || _) eqn:Hb; [done|]. apply orb_false_iff in Hb as [_ Hb].
  eapply transition_to_reliable; [done..|]. by apply cleaning_reachable.
Qed.

(** ** Cleanup *)

Lemma frames_cleanup_attempts n a b last : frames (W := W) (cleanup_attempts n a b last).
Proof.
  revert last. induction n as [|n IH]; intros last; simpl; [apply frames_ret|].
  unfold cleanup_once, instant. solve_frames.
Qed.

Lemma frames_cleanup_with_retries a profile : frames (W := W) (cleanup_with_retries a profile).
Proof.
  unfold cleanup_with_retries, budget_for, record_leak.
  apply frames_bind; [solve_frames|]. intros budget.
  apply frames_bind; [apply frames_cleanup_attempts|]. intros []; solve_frames.
Qed.

Lemma frames_release a profile :
  frames (W := W) (if is_hot a then ensure_hot_released a profile else mret tt).
Proof. destruct (is_hot a); [apply frames_released|apply frames_ret]. Qed.

(** ** Driving one entry *)

(** The entry is resident, in step with its row and storable. *)
Definition entry_at (id : AllocationId) (e : Entry) m : Prop :=
  m_entries m !! id = Some e /\ m_rows m !! id = Some (e_allocation e) /\
  storable (e_allocation e) /\ a_id (e_allocation e) = id.

(** Only the entry [id] moved. *)
Definition others_same (id : AllocationId) m m' : Prop :=
  delete id (m_entries m') = delete id (m_entries m) /\ delete id (m_rows m') = delete id (m_rows m).

Lemma same_tables_at id e m m' :
  same_tables m m' -> entry_at id e m -> entry_at id e m' /\ others_same id m m'.
Proof. intros [H1 H2]. unfold entry_at, others_same. by rewrite H1, H2. Qed.

Lemma entry_written id e m m' a :
  storable a ->
  m_entries m' = <[id := e <| e_allocation := a |> <| e_sent := a |>]> (m_entries m) ->
  m_rows m' = <[a_id a := a]> (m_rows m) -> a_id a = id ->
  entry_at id (e <| e_allocation := a |> <| e_sent := a |>) m' /\ others_same id m m'.
Proof.
  intros Hs H1 H2 <-. unfold entry_at, others_same. rewrite H1, H2, !lookup_insert_eq.
  rewrite !delete_insert_eq. done.
Qed.

Lemma others_same_trans id m1 m2 m3 :
  others_same id m1 m2 -> others_same id m2 m3 -> others_same id m1 m3.
Proof. unfold others_same. intros [H1 H2] [H3 H4]. by rewrite H3, H4. Qed.

Lemma cleaning_step id e m :
  reliable -> entry_at id e m ->
  exists m' e', ensure_cleaning id m = (Ok tt, m') /\ entry_at id e' m' /\ others_same id m m' /\
    (is_terminal (a_state (e_allocation e)) = true /\ e' = e \/
     is_terminal (a_state (e_allocation e)) = false /\ a_state (e_allocation e') = Cleaning).
Proof.
  intros Hr Hat. pose proof Hat as (He & _ & Hs & Hid).
  pose proof (ensure_cleaning_reliable id m e Hr He Hs) as Hok.
  destruct (ensure_cleaning id m) as [r m'] eqn:Hc. simpl in Hok. subst r. exists m'.
  apply ensure_cleaning_cases in Hc as [[Hsame Hst]|(_ & e1 & now & He1 & Ht & Hs1 & H1 & H2)].
  - exists e. destruct (same_tables_at id e m m' Hsame Hat) as [Hat' Ho]. split_and!; try done.
    destruct (Hst eq_refl) as (e1 & He1 & Hcase). rewrite He in He1. injection He1 as <-.
    destruct Hcase as [Hcl|]; [right|by left]. rewrite Hcl. done.
  - rewrite He in He1. injection He1 as <-.
    destruct (entry_written id e m m' _ Hs1 H1 H2 Hid) as [Hat' Ho]. eauto 10.
Qed.

Lemma error_step id text e m :
  entry_at id e m ->
  exists e', entry_at id e' (record_error id text m).2 /\ others_same id m (record_error id text m).2 /\
    a_state (e_allocation e') = a_state (e_allocation e).
Proof.
  intros Hat. pose proof Hat as (He & _ & Hs & Hid).
  destruct (record_error id text m) as [r m'] eqn:Hc. simpl.
  apply record_error_cases in Hc as [Hsame|(e1 & now & He1 & Hs1 & H1 & H2)].
  - exists e. destruct (same_tables_at id e m m' Hsame Hat). done.
  - rewrite He in He1. injection He1 as <-.
    destruct (entry_written id e m m' _ Hs1 H1 H2 Hid) as [Hat' Ho]. eauto 6.
Qed.

Lemma finish_step id e m t :
  reliable -> entry_at id e m -> a_state (e_allocation e) = Cleaning -> is_terminal t = true ->
  exists m' e', finish_terminal id t m = (Ok t, m') /\ entry_at id e' m' /\ others_same id m m' /\
    a_state (e_allocation e') = t.
Proof.
  intros Hr Hat Hst Ht. unfold finish_terminal, try_.
  destruct (cleaning_step id e m Hr Hat) as (m1 & e1 & Hc & Hat1 & Ho1 & [[Hx _]|[_ Hs1]]);
    [by rewrite Hst in Hx|].
  rewrite (bind_eq _ _ _ _ _ Hc). pose proof Hat1 as (He1 & _ & Hst1 & Hid1).
  rewrite (bind_eq _ _ _ _ _ (get_eq id m1)), He1. simpl. rewrite Hs1. simpl.
  pose proof (transition_to_reliable id t m1 e1 Hr He1 Hst1) as Hok.
  rewrite Hs1 in Hok. specialize (Hok (terminal_from_cleaning t Ht)).
  destruct (transition_to id t m1) as [r m2] eqn:Htr. simpl in Hok. subst r.
  unfold mbind, IO_bind. rewrite Htr.
  apply transition_to_cases in Htr as [[[? [=]] _]|(_ & e2 & now & a & He2 & Hta & Hs2 & H1 & H2)].
  rewrite He1 in He2. injection He2 as <-. apply transition_ok in Hta as [_ ->].
  destruct (entry_written id e1 m1 m2 _ Hs2 H1 H2 Hid1) as [Hat2 Ho2].
  eexists _, _. split; [reflexivity|]. split; [exact Hat2|]. split; [|done].
  by eapply others_same_trans.
Qed.

(** A backend whose cleanup never succeeds. *)
Definition cleanup_broken : Prop :=
  forall a b (w : W), is_ok (bk_cleanup a b w).1.1 = false.

Lemma cleanup_once_broken a b m : cleanup_broken -> is_ok (cleanup_once a b m).1 = false.
Proof.
  intros Hb. unfold cleanup_once, instant, call, mbind, IO_bind.
  destruct (cb_deadline b) as [d|].
  - destruct (bk_instant (m_world m)) as [now w]. simpl. specialize (Hb a b w).
    destruct (bk_cleanup a b w) as [[r t] w']. simpl in *. unfold mret, IO_ret.
    destruct (remaining now b) as [k|]; simpl; [destruct (k <? t)|]; done.
  - specialize (Hb a b (m_world m)). by destruct (bk_cleanup a b (m_world m)) as [[r t] w'].
Qed.

Lemma cleanup_attempts_broken n a b last m :
  cleanup_broken -> is_ok (cleanup_attempts n a b last m).1 = false.
Proof.
  intros Hb. revert last m. induction n as [|n IH]; intros last m; simpl; [done|].
  unfold mbind, IO_bind. pose proof (cleanup_once_broken a b m Hb) as Ho.
  destruct (cleanup_once a b m) as [[]  m']; [done|]. apply IH.
Qed.

Lemma cleanup_with_retries_broken a profile m :
  cleanup_broken -> is_ok (cleanup_with_retries a profile m).1 = false.
Proof.
  intros Hb. unfold cleanup_with_retries, budget_for, gets, mbind, IO_bind. simpl.
  match goal with |- context [cleanup_attempts ?n a ?b ?l m] =>
    pose proof (cleanup_attempts_broken n a b l m Hb) as Ho;
    destruct (cleanup_attempts n a b l m) as [[] m'] end; [done|].
  destruct (is_bounded _); [|done]. by destruct (record_leak a CleanupFailed m').
Qed.

(** The part of [ensure_terminal] that runs once the entry is [Cleaning]. *)
Lemma terminal_after_cleanup fallback profile requested e m :
  reliable -> entry_at (a_id fallback) e m -> a_state (e_allocation e) = Cleaning ->
  is_terminal requested = true ->
  let id := a_id fallback in
  let current := e_allocation e in
  exists s m' e',
    (_ ← (if is_hot current then ensure_hot_released current profile else mret tt);
     done ← cleanup_with_retries current profile;
     match done with
     | Ok _ => finish_terminal id requested
     | Err error =>
         latest ← get id;
         match latest with
         | Ok latest =>
             if is_terminal (a_state latest) then mret (Ok (a_state latest))
             else _ ← record_error id ("cleanup failed: " +:+ worker_message error);
                  finish_terminal id Failed
         | Err _ =>
             _ ← record_error id ("cleanup failed: " +:+ worker_message error);
             finish_terminal id Failed
         end
     end) m = (Ok s, m') /\
    entry_at id e' m' /\ others_same id m m' /\ a_state (e_allocation e') = s /\
    (s = requested \/ s = Failed) /\ (cleanup_broken -> s = Failed).
Proof.
  intros Hr Hat Hst Ht id current.
  destruct ((if is_hot current then ensure_hot_released current profile else mret tt) m)
    as [u m1] eqn:Hrel.
  rewrite (bind_eq _ _ _ _ _ Hrel). apply (frames_eq _ _ _ _ (frames_release _ _)) in Hrel.
  destruct (same_tables_at id e m m1 Hrel Hat) as [Hat1 Ho1].
  destruct (cleanup_with_retries current profile m1) as [done m2] eqn:Hcl.
  rewrite (bind_eq _ _ _ _ _ Hcl).
  pose proof (frames_eq _ _ _ _ (frames_cleanup_with_retries _ _) Hcl) as Hsame.
  destruct (same_tables_at id e m1 m2 Hsame Hat1) as [Hat2 Ho2].
  destruct done as [[]|error].
  - destruct (finish_step id e m2 requested Hr Hat2 Hst Ht) as (m3 & e3 & Hf & Hat3 & Ho3 & Hs3).
    exists requested, m3, e3. split_and!; try done; [|by left|].
    + eauto using others_same_trans.
    + intros Hb. pose proof (cleanup_with_retries_broken current profile m1 Hb) as Hx.
      by rewrite Hcl in Hx.
  - pose proof Hat2 as (He2 & _). rewrite (bind_eq _ _ _ _ _ (get_eq id m2)), He2. simpl.
    rewrite Hst. simpl.
    destruct (error_step id ("cleanup failed: " +:+ worker_message error) e m2 Hat2)
      as (e3 & Hat3 & Ho3 & Hs3).
    destruct (record_error id _ m2) as [r m3] eqn:Herr. simpl in Hat3, Ho3.
    unfold mbind, IO_bind. rewrite Herr. rewrite Hst in Hs3.
    destruct (finish_step id e3 m3 Failed Hr Hat3 Hs3 eq_refl) as (m4 & e4 & Hf & Hat4 & Ho4 & Hs4).
    exists Failed, m4, e4. split_and!; try done; [|by right].
    eauto using others_same_trans.
Qed.
End effects.

(** ** Properties *)

(** C27: driving an allocation to its end always ends it.  While the store
    answers, [ensure_terminal] returns a terminal state and the entry and its
    row both hold it; nothing else resident moves.  A state already terminal
    is left as it is; otherwise the result is the one asked for or [Failed],
    and when no cleanup attempt succeeds it is [Failed]: success is never
    recorded over a guest that was not torn down. *)
Theorem ensure_terminal_ends {W} {BK : Backend W} {HO : HashOrder} fallback profile requested e
    (m : Manager W) :
  reliable -> entry_at (a_id fallback) e m -> is_terminal requested = true ->
  exists s m' e', ensure_terminal fallback profile requested m = (Ok s, m') /\
    is_terminal s = true /\ entry_at (a_id fallback) e' m' /\ a_state (e_allocation e') = s /\
    others_same (a_id fallback) m m' /\
    (is_terminal (a_state (e_allocation e)) = true -> s = a_state (e_allocation e)) /\
    (is_terminal (a_state (e_allocation e)) = false -> s = requested \/ s = Failed) /\
    (is_terminal (a_state (e_allocation e)) = false -> cleanup_broken -> s = Failed).
Proof.
  intros Hr Hat Ht. unfold ensure_terminal.
  destruct (cleaning_step _ e m Hr Hat) as (m1 & e1 & Hc & Hat1 & Ho1 & Hcase).
  rewrite (bind_eq _ _ _ _ _ Hc). pose proof Hat1 as (He1 & _).
  rewrite (bind_eq _ _ _ _ _ (get_eq (a_id fallback) m1)), He1. simpl.
  destruct Hcase as [[Hterm ->]|[Hlive Hs1]].
  - rewrite Hterm. exists (a_state (e_allocation e)), m1, e. rewrite Hterm. split_and!; done.
  - rewrite Hs1. simpl.
    destruct (terminal_after_cleanup fallback profile requested e1 m1 Hr Hat1 Hs1 Ht)
      as (s & m' & e' & Hrun & Hat' & Ho' & Hst' & Hor & Hbr).
    exists s, m', e'. rewrite Hlive. split_and!; try done.
    + destruct Hor as [->| ->]; done.
    + by eapply others_same_trans.
Qed.

(** A running allocation whose every cleanup attempt is refused. *)
Definition stuck_allocation : Allocation :=
  example_row_allocation <| a_state := Running |> <| a_origin := Cloned |> <| a_hot_lane := None |>.

Definition stuck_manager : Manager Sim :=
  sim_manager example_config []
    (sim_world <| sim_cleanups := repeat (Err (WorkerFailed "stuck")) 3 |>)
    <| m_entries := {[ "id-1" := recovered_entry stuck_allocation ]} |>
    <| m_rows := {[ "id-1" := stuck_allocation ]} |>.

Lemma calm_reliable : @reliable Sim calm_backend.
Proof. intros w. split; [reflexivity|]. simpl. unfold i64_max. lia. Qed.

Lemma ensure_terminal_ends_witness :
  exists s m' e',
    @ensure_terminal Sim calm_backend sorted_hash_order stuck_allocation example_profile Completed
      stuck_manager = (Ok s, m') /\ is_terminal s = true /\
    entry_at "id-1" e' m' /\ a_state (e_allocation e') = s.
Proof.
  destruct (@ensure_terminal_ends Sim calm_backend sorted_hash_order stuck_allocation
    example_profile Completed (recovered_entry stuck_allocation) stuck_manager)
    as (s & m' & e' & Hrun & Ht & Hat & Hst & _).
  - exact calm_reliable.
  - split_and!; [vm_compute; reflexivity..|split; vm_compute; reflexivity|reflexivity].
  - reflexivity.
  - exact (ex_intro _ s (ex_intro _ m' (ex_intro _ e' (conj Hrun (conj Ht (conj Hat Hst)))))).
Defined.

(** Three attempts, then [Failed]. *)
Example stuck_allocation_fails :
  (@ensure_terminal Sim calm_backend sorted_hash_order stuck_allocation example_profile Completed
     stuck_manager).1 = Ok Failed.
Proof. vm_compute. reflexivity. Qed.

(** ** Retries *)

Section retries.
Context {W : Type} {BK : Backend W} {HO : HashOrder}.

(** The [i]-th attempt in a row, from world [w]. *)
Fixpoint nth_cleanup (a : Allocation) (b : CleanupBudget) (i : nat) (w : W) :
    (result WorkerError unit * Z) * W :=
  match i with
  | O => bk_cleanup a b w
  | S i => nth_cleanup a b i (bk_cleanup a b w).2
  end.

Lemma cleanup_attempts_unbounded n a b last (m : Manager W) :
  cb_deadline b = None ->
  let '(r, m') := cleanup_attempts (S n) a b last m in
  exists k, (k <= n)%nat /\
    m' = m <| m_world := (nth_cleanup a b k (m_world m)).2 |> /\
    (forall i, (i < k)%nat -> is_ok (nth_cleanup a b i (m_world m)).1.1 = false) /\
    is_ok r = is_ok (nth_cleanup a b k (m_world m)).1.1 /\ (is_ok r = false -> k = n).
Proof.
  intros Hd. revert last m. induction n as [|n IH]; intros last m.
  - cbn -[mbind]. unfold cleanup_once. rewrite Hd. unfold call, mbind, IO_bind.
    destruct (bk_cleanup a b (m_world m)) as [[r t] w] eqn:Hc. simpl.
    destruct r as [[]|e]; simpl; exists 0%nat; simpl; rewrite Hc; simpl;
      split_and!; try done; intros i Hi; lia.
  - remember (S n) as n'. cbn -[mbind]. unfold cleanup_once at 1. rewrite Hd.
    unfold call at 1, mbind, IO_bind.
    destruct (bk_cleanup a b (m_world m)) as [[r t] w] eqn:Hc. simpl.
    destruct r as [[]|e]; simpl.
    + exists 0%nat. simpl. rewrite Hc. simpl. split_and!; try done; [lia|intros i Hi; lia].
    + subst n'. specialize (IH e (m <| m_world := w |>)).
      destruct (cleanup_attempts (S n) a b e _) as [r' m'].
      destruct IH as (k & Hk & -> & Hbefore & Hr & Hlast). exists (S k). simpl. rewrite Hc.
      split_and!; try done; [lia| |intros H; by rewrite Hlast].
      intros [|i] Hi; simpl; rewrite Hc; [done|]. apply Hbefore. lia.
Qed.

Lemma record_leak_effect a reason (m : Manager W) :
  a_id a ∈ map al_id (m_leaked (record_leak a reason m).2) /\
  (NoDup (map al_id (m_leaked m)) -> NoDup (map al_id (m_leaked (record_leak a reason m).2))) /\
  (forall leak, leak ∈ m_leaked m -> leak ∈ m_leaked (record_leak a reason m).2).
Proof.
  unfold record_leak, gets, mbind, IO_bind. destruct (existsb _ _) eqn:Hex; simpl.
  - split_and!; [|done..]. apply existsb_exists in Hex as (l & Hl%list_elem_of_In & Heq).
    apply bool_decide_eq_true in Heq. apply list_elem_of_fmap. eauto.
  - rewrite map_app. simpl. split_and!.
    + apply elem_of_app. right. left.
    + intros Hnd. apply NoDup_app. split_and!; [done| |apply NoDup_singleton].
      intros id Hid ->%list_elem_of_singleton. apply list_elem_of_fmap in Hid as (l & Hl & Hin).
      apply not_true_iff_false in Hex. apply Hex, existsb_exists. exists l.
      rewrite <- list_elem_of_In, bool_decide_eq_true. auto.
    + intros leak Hl. apply elem_of_app. by left.
Qed.

(** Teardown is retried, and only as long as there is time.  Without a
    shutdown the cleanup is attempted until the first success and at most
    three times, and nothing is reported as leaked.  Under a shutdown deadline
    there is a single attempt, it counts only when it finishes inside what the
    deadline leaves, and a failure is added to the leaks, at most once per
    allocation and losing none already there. *)
Theorem cleanup_with_retries_spec a profile (m : Manager W) :
  let b := teardown_budget (m_teardown_deadline m)
             (from_secs (p_cleanup_timeout_seconds profile)) in
  let '(r, m') := cleanup_with_retries a profile m in
  match m_teardown_deadline m with
  | None =>
      m_leaked m' = m_leaked m /\ exists k, (k < 3)%nat /\
        m_world m' = (nth_cleanup a b k (m_world m)).2 /\
        (forall i, (i < k)%nat -> is_ok (nth_cleanup a b i (m_world m)).1.1 = false) /\
        is_ok r = is_ok (nth_cleanup a b k (m_world m)).1.1 /\ (is_ok r = false -> k = 2%nat)
  | Some deadline =>
      let '(now, w) := bk_instant (m_world m) in
      let '((answer, took), w') := bk_cleanup a b w in
      m_world m' = w' /\
      is_ok r = is_ok answer && (took <=? Z.max 0 (deadline - now)) /\
      (is_ok r = true -> m_leaked m' = m_leaked m) /\
      (is_ok r = false -> a_id a ∈ map al_id (m_leaked m') /\
         (NoDup (map al_id (m_leaked m)) -> NoDup (map al_id (m_leaked m'))) /\
         forall leak, leak ∈ m_leaked m -> leak ∈ m_leaked m')
  end.
Proof.
  intros b. unfold cleanup_with_retries. rewrite (bind_eq (budget_for _) _ m b m eq_refl). destruct (m_teardown_deadline m) as [deadline|] eqn:Hd.
  - assert (cb_deadline b = Some deadline) as Hb by done. clearbody b.
    assert (is_bounded b = true) as -> by (unfold is_bounded; by rewrite Hb).
    unfold cleanup_attempts, cleanup_once. rewrite Hb.
    unfold instant, call, mbind, IO_bind, mret, IO_ret. destruct (bk_instant (m_world m)) as [now w].
    cbn -[record_leak remaining]. change (m_world (m <| m_world := w |>)) with w.
    destruct (bk_cleanup a b w) as [[answer took] w'].
    assert (remaining now b = Some (Z.max 0 (deadline - now))) as ->.
    { unfold remaining. rewrite Hb. simpl. unfold sat_sub. f_equal; lia. }
    cbn -[record_leak]. rewrite (Z.leb_antisym _ took).
    destruct (Z.max 0 (deadline - now) <? took); cbn -[record_leak]; [|destruct answer as [[]|e]];
      cbn -[record_leak].
    2: split_and!; done.
    all: match goal with |- context [record_leak ?x ?y ?s] =>
      pose proof (record_leak_effect x y s) as Hl;
      assert (m_world (record_leak x y s).2 = m_world s) as Hw
        by (unfold record_leak, gets, mbind, IO_bind; by destruct (existsb _ _));
      destruct (record_leak x y s) as [u m'] end; simpl in *;
      rewrite ?andb_false_r; split_and!; done.
  - assert (is_bounded b = false) as -> by done.
    pose proof (cleanup_attempts_unbounded 2 a b (worker_error_new "cleanup failed") m eq_refl) as H.
    change (if false then 1 else 3)%nat with 3%nat.
    destruct (cleanup_attempts 3 a b _ m) as [r m'] eqn:Hrun. rewrite (bind_eq _ _ _ _ _ Hrun).
    destruct H as (k & Hk & -> & Hb & Hr & Hl).
    destruct r as [[]|e]; simpl in *; (split; [done|]); exists k; split_and!; try done; lia.
Qed.
End retries.
