(* ===== verification/WarmImages.v ===== *)
(** * Warm images ([crates/flanforge-manager/src/warm/, recovery/warm.rs, admission/storage.rs])

    What an allocation boots from, what a regeneration may write, how an
    abandoned promotion is rolled back and how a restart reconciles one. *)

From S2P Require Import Prelude Rust Text Identifiers Images Guest Hot Allocation Config ConfigValidate Claims Sizing Admission HotSelect Reaper Convert Manager HotPool Lifecycle.

Open Scope Z_scope.
Open Scope stdpp_scope.

Record SourceSelection := {
  ss_source : CloneSource;
  ss_warm_generation : option Z;
}.

Definition template_source (profile : Profile) (fingerprint : option BaseFingerprint)
    (reason : option FallbackReason) : CloneSource :=
  {| cs_name := p_template profile; cs_kind := KTemplate;
     cs_base_fingerprint := fingerprint; cs_fallback_reason := reason |}.

Record RetentionPlan := {
  rp_warm_template : VmName;
  rp_generation : Z;
  rp_previous : option WarmGeneration;
}.

Section warm.
Context {W : Type} {BK : Backend W} {HO : HashOrder}.

(** ** Selection ([source.rs]) *)

Definition missing_record (warm : VmName) (listing : list HostMachine) : IO W FallbackReason :=
  answer ← call (bk_is_unclaimed_image warm listing);
  mret (match answer with Ok true => Unclaimed | Ok false => NoRecord | Err _ => Absent end).

(** The end of [warm_source], once the record is read. *)
Definition warm_candidate (profile : Profile) (warm : VmName) (record : WarmImageRecord)
    (listing : list HostMachine) (fingerprint : option BaseFingerprint) :
    IO W (result FallbackReason SourceSelection) :=
  if negb (bool_decide (wi_warm_template record = warm)) then mret (Err Repointed)
  else if negb (bool_decide (wi_state record = Promoted)) then mret (Err NotPromoted)
  else
    availability ← call (bk_warm_availability profile record listing);
    mret (match availability with
          | Ok WReady =>
              match fingerprint with
              | None => Err FingerprintUnavailable
              | Some fingerprint =>
                  if negb (is_fingerprint_match (Some (wi_base_fingerprint record))
                             (Some fingerprint))
                  then Err StaleBaseFallback
                  else Ok {| ss_source := {| cs_name := warm; cs_kind := KWarm;
                               cs_base_fingerprint := Some (wi_base_fingerprint record);
                               cs_fallback_reason := None |};
                             ss_warm_generation := Some (wi_generation record) |}
              end
          | Ok WBusy => Err NotStopped
          | Ok WAbsent | Err _ => Err Absent
          end).

Definition warm_source (name : ProfileName) (profile : Profile)
    (fingerprint : option BaseFingerprint) : IO W (result FallbackReason SourceSelection) :=
  match p_warm_template profile with
  | None => mret (Err NotDeclared)
  | Some warm =>
      if negb bk_warm_images then mret (Err UnsupportedFallback)
      else
        quarantined ← gets m_quarantined;
        if bool_decide (name ∈ quarantined) then mret (Err Quarantined)
        else
          listed ← host_machines;
          match listed with
          | Err _ => mret (Err Absent)
          | Ok listing =>
              row ← images_load name;
              match row with
              | Ok (Some record) => warm_candidate profile warm record listing fingerprint
              | Ok None | Err _ => reason ← missing_record warm listing; mret (Err reason)
              end
          end
  end.

Definition resolve_source (name : ProfileName) (profile : Profile) (mode : AllocationMode) :
    IO W SourceSelection :=
  fingerprint ← call (bk_base_fingerprint (p_template profile));
  if negb (bool_decide (mode = Warm))
  then mret {| ss_source := template_source profile fingerprint None; ss_warm_generation := None |}
  else
    selected ← warm_source name profile fingerprint;
    mret (match selected with
          | Ok source => source
          | Err reason => {| ss_source := template_source profile fingerprint (Some reason);
                             ss_warm_generation := None |}
          end).

Definition effective_size (size : GuestSize) (profile : ProfileName) (source : CloneSource) :
    IO W GuestSize :=
  base ← call (bk_base_storage_mb profile source);
  mret (match base with Some base_mb => floored size base_mb | None => size end).

(** ** Retention ([retention.rs]) *)

Definition record_warm_image (record : WarmImageRecord) : IO W (result ManagerError unit) :=
  _ ← (if bool_decide (wi_state record = Promoted)
       then modify (fun m => m <| m_quarantined := m_quarantined m ∖ {[ wi_profile record ]} |>)
       else mret tt);
  io_map_err StoreE (images_save record).

Definition surviving_record (profile : ProfileName) (warm_template : VmName) (g : WarmGeneration) :
    WarmImageRecord :=
  {| wi_profile := profile; wi_warm_template := warm_template; wi_generation := wg_generation g;
     wi_base_fingerprint := wg_base_fingerprint g; wi_produced_by := wg_produced_by g;
     wi_produced_at_unix := wg_produced_at_unix g; wi_state := Promoted; wi_previous := None |}.

Definition ensure_warm_reverted (profile : ProfileName) (warm_template : VmName)
    (previous : option WarmGeneration) : IO W (result ManagerError unit) :=
  match previous with
  | Some previous => io_map_err StoreE (images_save (surviving_record profile warm_template previous))
  | None => io_map_err StoreE (images_remove profile)
  end.

Definition generation_of (r : WarmImageRecord) : WarmGeneration :=
  {| wg_generation := wi_generation r; wg_base_fingerprint := wi_base_fingerprint r;
     wg_produced_by := wi_produced_by r; wg_produced_at_unix := wi_produced_at_unix r |}.

(** Whether the guest was cloned from the profile's template. *)
Definition is_base_clone (a : Allocation) (profile : Profile) : bool :=
  match a_source a with
  | Some source => bool_decide (cs_name source = p_template profile)
  | None => false
  end.

Definition retention_plan (a : Allocation) : IO W (result ManagerError (option RetentionPlan)) :=
  if negb (is_retention_eligible a) then mret (Ok None)
  else
    config ← gets m_config;
    let name := rq_profile (a_request a) in
    match c_profiles config !! name with
    | None => mret (Ok None)
    | Some profile =>
        match p_warm_template profile with
        | None => mret (Ok None)
        | Some warm =>
            if is_none (p_regeneration_workflow profile) then mret (Ok None)
            else if negb (is_base_clone a profile) then mret (Ok None)
            else
              record ←? io_map_err StoreE (images_load name);
              listing ←? io_map_err WorkerE host_machines;
              match record with
              | Some r =>
                  mret (Ok (Some {| rp_warm_template := warm; rp_generation := wi_generation r + 1;
                                    rp_previous := Some (generation_of r) |}))
              | None =>
                  unclaimed ←? io_map_err WorkerE (call (bk_is_unclaimed_image warm listing));
                  mret (Ok (if (unclaimed : bool) then None
                            else Some {| rp_warm_template := warm; rp_generation := 1;
                                         rp_previous := None |}))
              end
        end
    end.

(** ** Reconciliation ([recovery/warm.rs]) *)

Definition finalize_record (record : WarmImageRecord) : IO W (result ManagerError unit) :=
  io_map_err StoreE (images_save (record <| wi_state := Promoted |>)).

Definition revert_record (record : WarmImageRecord) : IO W (result ManagerError unit) :=
  ensure_warm_reverted (wi_profile record) (wi_warm_template record) (wi_previous record).

Definition mark_retention_interrupted (record : WarmImageRecord) : IO W unit :=
  _ ← record_retention (wi_produced_by record)
        (retention_outcome_new RFailed Promote "the daemon restarted during promotion"
           (Some (wi_generation record)));
  mret tt.

Definition restore_warm (profile : Profile) (record : WarmImageRecord) : IO W unit :=
  _ ← call (bk_warm_restored profile record);
  _ ← revert_record record;
  mret tt.

Definition delete_staged (name : ProfileName) (profile : Profile) (record : WarmImageRecord)
    (staging : VmName) : IO W unit :=
  config ← gets m_config;
  budget ← budget_for (from_secs (p_cleanup_timeout_seconds profile));
  _ ← call (bk_delete_vm
        {| rr_name := staging; rr_authorization := ByStaging name; rr_profile := Some profile;
           rr_record := Some record; rr_allocation := None;
           rr_reserved := reserved_image_names config; rr_budget := budget |});
  mret tt.

Definition is_listed (machines : list HostMachine) (name : VmName) : bool :=
  existsb (fun machine => bool_decide (hm_name machine = name)) machines.

(** The record moves of one iteration of [ensure_warm_consistent]. *)
Definition settle_warm (profile : Profile) (record : WarmImageRecord)
    (warm_present staging_present : bool) : IO W (result ManagerError unit) :=
  if warm_present && staging_present && bool_decide (wi_state record = Promoted)
  then mret (Ok tt)
  else if warm_present && bool_decide (wi_state record = Staging) && negb staging_present
  then finalize_record record
  else if warm_present && bool_decide (wi_state record = Staging)
  then _ ← revert_record record; mret (Ok tt)
  else if negb warm_present then _ ← restore_warm profile record; mret (Ok tt)
  else mret (Ok tt).

(** One iteration of [ensure_warm_consistent], for a profile with a record. *)
Definition reconcile_warm (machines : list HostMachine) (name : ProfileName) (profile : Profile)
    (record : WarmImageRecord) : IO W (result ManagerError unit) :=
  match staging_name record, previous_name record with
  | Ok staging, Ok _ =>
      availability ← call (bk_warm_availability profile record machines);
      match availability with
      | Err _ => mret (Ok tt)
      | Ok availability =>
          let warm_present := match availability with WReady | WBusy => true | WAbsent => false end in
          let staging_present := is_listed machines staging in
          _ ←? settle_warm profile record warm_present staging_present;
          _ ← (if staging_present then delete_staged name profile record staging else mret tt);
          _ ← (if bool_decide (wi_state record = Staging)
               then mark_retention_interrupted record else mret tt);
          mret (Ok tt)
      end
  | _, _ => mret (Ok tt)
  end.

Fixpoint reconcile_warm_all (machines : list HostMachine) (profiles : list (string * Profile)) :
    IO W (result ManagerError unit) :=
  match profiles with
  | [] => mret (Ok tt)
  | (name, profile) :: profiles =>
      if is_none (p_warm_template profile) then reconcile_warm_all machines profiles
      else
        row ←? io_map_err StoreE (images_load name);
        match row with
        | None => reconcile_warm_all machines profiles
        | Some record =>
            _ ←? reconcile_warm machines name profile record;
            reconcile_warm_all machines profiles
        end
  end.

Definition ensure_warm_consistent (config : Config) : IO W (result ManagerError unit) :=
  machines ←? io_map_err WorkerE (call bk_machines);
  reconcile_warm_all machines (btree_list (c_profiles config)).
End warm.

(** ** Lemmas *)

Section warm_lemmas.
Context {W : Type} {BK : Backend W} {HO : HashOrder}.
Implicit Types m : Manager W.

Lemma host_machines_images m : m_images (host_machines m).2 = m_images m.
Proof.
  assert (forall m : Manager W, m_images (probe_machines m).2 = m_images m) as Hp.
  { intros s. unfold probe_machines, instant, call, modify, mbind, IO_bind, mret, IO_ret.
    destruct (bk_machines (m_world s)) as [[l|e] w]; simpl; [|done].
    by destruct (bk_instant w). }
  unfold host_machines, gets, mbind, IO_bind, mret, IO_ret. simpl.
  destruct (m_probe m) as [[t l]|]; [|apply Hp]. unfold instant, call.
  destruct (bk_instant (m_world m)) as [now w]. simpl. destruct (_ <? _); [done|]. by rewrite Hp.
Qed.

Lemma images_load_cases name m r m' :
  images_load name m = (r, m') ->
  m_images m' = m_images m /\
  (forall record, r = Ok (Some record) ->
     m_images m !! name = Some record /\ validate_warm_image record = true) /\
  (r = Ok None -> m_images m !! name = None).
Proof.
  unfold images_load, try_, stored, call, gets, mbind, IO_bind, mret, IO_ret.
  destruct (bk_store_fault (m_world m)) as [[] w]; simpl; [by intros [= <- <-]|].
  destruct (m_images m !! name) as [record|] eqn:Hrow; simpl.
  - destruct (validate_warm_image record) eqn:Hv; intros [= <- <-]; split; try done;
      (split; [|done]); intros ? [= <-]; done.
  - by intros [= <- <-].
Qed.

(** What a warm boot rests on. *)
Definition warm_boot_facts (name : ProfileName) (profile : Profile)
    (fingerprint : option BaseFingerprint) (selected : SourceSelection) m : Prop :=
  exists warm record, p_warm_template profile = Some warm /\
    m_images m !! name = Some record /\ validate_warm_image record = true /\
    wi_warm_template record = warm /\ wi_state record = Promoted /\
    fingerprint = Some (wi_base_fingerprint record) /\
    (exists listing w, (bk_warm_availability profile record listing w).1 = Ok WReady) /\
    ss_source selected = {| cs_name := warm; cs_kind := KWarm;
      cs_base_fingerprint := Some (wi_base_fingerprint record); cs_fallback_reason := None |} /\
    ss_warm_generation selected = Some (wi_generation record).

Lemma warm_candidate_ok profile warm record listing fingerprint m selected m' :
  warm_candidate profile warm record listing fingerprint m = (Ok selected, m') ->
  wi_warm_template record = warm /\ wi_state record = Promoted /\
  fingerprint = Some (wi_base_fingerprint record) /\
  (exists w, (bk_warm_availability profile record listing w).1 = Ok WReady) /\
  ss_source selected = {| cs_name := warm; cs_kind := KWarm;
    cs_base_fingerprint := Some (wi_base_fingerprint record); cs_fallback_reason := None |} /\
  ss_warm_generation selected = Some (wi_generation record).
Proof.
  unfold warm_candidate. destruct (bool_decide (wi_warm_template record = warm)) eqn:H1;
    simpl; [|by intros [=]].
  destruct (bool_decide (wi_state record = Promoted)) eqn:H2; simpl; [|by intros [=]].
  unfold call, mbind, IO_bind, mret, IO_ret.
  destruct (bk_warm_availability profile record listing (m_world m)) as [[[]|e] w] eqn:Ha;
    try by intros [=].
  destruct fingerprint as [f|]; [|by intros [=]]. simpl.
  destruct (bool_decide (wi_base_fingerprint record = f)) eqn:H3; simpl; [|by intros [=]].
  intros [= <- _]. simplify_bool. split_and!; try done; [congruence|].
  exists (m_world m). by rewrite Ha.
Qed.

Lemma warm_source_ok name profile fingerprint m selected m' :
  warm_source name profile fingerprint m = (Ok selected, m') ->
  bk_warm_images = true /\ (name ∉ m_quarantined m) /\
  warm_boot_facts name profile fingerprint selected m.
Proof.
  unfold warm_source. destruct (p_warm_template profile) as [warm|] eqn:Hw; [|by intros [=]].
  destruct bk_warm_images eqn:Hbk; simpl; [|by intros [=]].
  unfold gets, mbind, IO_bind. simpl.
  destruct (bool_decide (name ∈ m_quarantined m)) eqn:Hq; [by intros [=]|].
  pose proof (host_machines_images m) as Hi.
  destruct (host_machines m) as [[listing|e] m1]; simpl in Hi; [|by intros [=]].
  destruct (images_load name m1) as [row m2] eqn:Hload.
  apply images_load_cases in Hload as (_ & Hrow & _). rewrite Hi in Hrow.
  destruct row as [[record|]|]; [|by unfold missing_record, call, mbind, IO_bind;
    destruct (bk_is_unclaimed_image _ _ _); intros [=]..].
  destruct (Hrow record eq_refl) as [Hr Hv]. intros Hc.
  apply warm_candidate_ok in Hc as (H1 & H2 & H3 & [w H4] & H5 & H6). simplify_bool.
  split_and!; try done. exists warm, record. split_and!; eauto.
Qed.
End warm_lemmas.

Section warm_writes.
Context {W : Type} {BK : Backend W} {HO : HashOrder}.
Implicit Types m : Manager W.

(** A write of the image table: it happened, or nothing did. *)
Lemma images_save_cases r m x m' :
  images_save r m = (x, m') ->
  (x = Ok tt /\ m_images m' = <[wi_profile r := r]> (m_images m)) \/
  ((exists e, x = Err e) /\ m_images m' = m_images m).
Proof.
  unfold images_save. destruct (negb _); [intros [= <- <-]; eauto|].
  unfold stored, modify, call, mbind, IO_bind, mret, IO_ret.
  destruct (bk_store_fault (m_world m)) as [[] w]; intros [= <- <-]; eauto.
Qed.

Lemma images_remove_cases profile m x m' :
  images_remove profile m = (x, m') ->
  (x = Ok tt /\ m_images m' = delete profile (m_images m)) \/
  ((exists e, x = Err e) /\ m_images m' = m_images m).
Proof.
  unfold images_remove, stored, modify, call, mbind, IO_bind, mret, IO_ret.
  destruct (bk_store_fault (m_world m)) as [[] w]; intros [= <- <-]; eauto.
Qed.

(** The columns of an image row. *)
Definition image_fits (r : WarmImageRecord) : Prop :=
  wi_generation r <= i64_max /\ wi_produced_at_unix r <= i64_max.

(** The store takes every statement. *)
Definition store_answers : Prop := forall w : W, (bk_store_fault w).1 = false.

Lemma images_save_reliable r m :
  store_answers -> image_fits r -> (images_save r m).1 = Ok tt.
Proof.
  intros Hr [H1 H2]. unfold images_save.
  rewrite (proj2 (Z.leb_le _ _) H1), (proj2 (Z.leb_le _ _) H2). simpl.
  unfold stored, call, mbind, IO_bind. pose proof (Hr (m_world m)) as Hf.
  destruct (bk_store_fault (m_world m)) as [b w]. simpl in Hf. by subst b.
Qed.

Lemma images_remove_reliable profile m :
  store_answers -> (images_remove profile m).1 = Ok tt.
Proof.
  intros Hr. unfold images_remove, stored, call, mbind, IO_bind. pose proof (Hr (m_world m)) as Hf.
  destruct (bk_store_fault (m_world m)) as [b w]. simpl in Hf. by subst b.
Qed.

Definition survivor (profile : ProfileName) (warm : VmName) (previous : option WarmGeneration) :
    option WarmImageRecord := option_map (surviving_record profile warm) previous.

Lemma ensure_warm_reverted_cases profile warm previous m r m' :
  ensure_warm_reverted profile warm previous m = (r, m') ->
  (r = Ok tt /\ m_images m' = partial_alter (fun _ => survivor profile warm previous) profile
                                (m_images m)) \/
  ((exists e, r = Err e) /\ m_images m' = m_images m).
Proof.
  unfold ensure_warm_reverted, io_map_err, mbind, IO_bind, mret, IO_ret.
  destruct previous as [g|].
  - destruct (images_save _ m) as [x m1] eqn:Hs. intros [= <- <-].
    apply images_save_cases in Hs as [[-> H]|[[e ->] H]]; simpl; eauto.
  - destruct (images_remove profile m) as [x m1] eqn:Hs. intros [= <- <-].
    apply images_remove_cases in Hs as [[-> H]|[[e ->] H]]; simpl; eauto.
Qed.

Lemma ensure_warm_reverted_reliable profile warm previous m :
  store_answers ->
  (forall g, previous = Some g -> image_fits (surviving_record profile warm g)) ->
  (ensure_warm_reverted profile warm previous m).1 = Ok tt.
Proof.
  intros Hr Hf. unfold ensure_warm_reverted, io_map_err, mbind, IO_bind, mret, IO_ret.
  destruct previous as [g|].
  - pose proof (images_save_reliable (surviving_record profile warm g) m Hr (Hf g eq_refl)) as H.
    destruct (images_save _ m). simpl in *. by subst.
  - pose proof (images_remove_reliable profile m Hr) as H.
    destruct (images_remove profile m). simpl in *. by subst.
Qed.
End warm_writes.

(** ** Properties *)

Section warm_properties.
Context {W : Type} {BK : Backend W} {HO : HashOrder}.

(** C29: an allocation boots a warm image only when everything vouches for it:
    the request asked for one, the profile declares that very name, the
    backend supports it, it is not quarantined, its valid record says it was
    promoted under that name from the base the template is now, and the
    backend answered it ready; the recorded generation is then the one booted.
    In every other case the guest boots the profile's own template, with a
    reason exactly when a warm boot was asked for. *)
Theorem resolve_source_spec name profile mode (m : Manager W) :
  let fingerprint := (bk_base_fingerprint (p_template profile) (m_world m)).1 in
  let selected := (resolve_source name profile mode m).1 in
  (cs_kind (ss_source selected) = KWarm ->
     mode = Warm /\ bk_warm_images = true /\ (name ∉ m_quarantined m) /\
     warm_boot_facts name profile fingerprint selected m) /\
  (cs_kind (ss_source selected) = KTemplate ->
     cs_name (ss_source selected) = p_template profile /\
     cs_base_fingerprint (ss_source selected) = fingerprint /\
     ss_warm_generation selected = None /\
     (is_Some (cs_fallback_reason (ss_source selected)) <-> mode = Warm)).
Proof.
  intros fingerprint selected. unfold fingerprint, selected, resolve_source, call, mbind, IO_bind.
  destruct (bk_base_fingerprint (p_template profile) (m_world m)) as [f w]. simpl.
  destruct (bool_decide (mode = Warm)) eqn:Hm; simpl; simplify_bool.
  - destruct (warm_source name profile f (m <| m_world := w |>)) as [[s|reason] m'] eqn:Hs; simpl.
    + apply warm_source_ok in Hs as (Hb & Hq & Hf). simpl in Hq. split; [done|].
      destruct Hf as (? & ? & _ & _ & _ & _ & _ & _ & _ & -> & _). done.
    + split; [done|]. intros _. split_and!; try done.
  - split; [done|]. intros _. split_and!; try done.
Qed.

(** A regeneration writes the next generation of the image the profile
    still declares, and can always step back.  A plan is made only for a
    created guest in regeneration mode, cloned from the profile's template,
    while the profile declares both the warm name and the producer; its
    generation is one past the recorded one, or the first when none is
    recorded; and reverting with what it kept restores the recorded generation
    under that name, promoted and with no further step back. *)
Theorem retention_plan_spec a (m m' : Manager W) plan :
  retention_plan a m = (Ok (Some plan), m') ->
  let name := rq_profile (a_request a) in
  a_mode a = Regenerate /\ a_vm_created a = true /\
  (exists profile source, c_profiles (m_config m) !! name = Some profile /\
     p_warm_template profile = Some (rp_warm_template plan) /\
     is_Some (p_regeneration_workflow profile) /\
     a_source a = Some source /\ cs_name source = p_template profile) /\
  match m_images m !! name with
  | Some r => validate_warm_image r = true /\ rp_generation plan = wi_generation r + 1 /\
              rp_previous plan = Some (generation_of r)
  | None => rp_generation plan = 1 /\ rp_previous plan = None
  end /\
  (forall m2 m3 : Manager W,
     ensure_warm_reverted name (rp_warm_template plan) (rp_previous plan) m2 = (Ok tt, m3) ->
     option_map (fun r => (wi_generation r, wi_base_fingerprint r, wi_warm_template r,
                           wi_state r, wi_previous r)) (m_images m3 !! name) =
     option_map (fun r => (wi_generation r, wi_base_fingerprint r, rp_warm_template plan,
                           Promoted, None)) (m_images m !! name)).
Proof.
  intros H name. unfold retention_plan in H.
  destruct (is_retention_eligible a) eqn:Hel; simpl in H; [|done].
  unfold is_retention_eligible in Hel. simplify_bool.
  unfold gets at 1, mbind at 1, IO_bind at 1 in H. fold name in H.
  destruct (c_profiles (m_config m) !! name) as [profile|] eqn:Hp; [|done].
  destruct (p_warm_template profile) as [warm|] eqn:Hw; [|done].
  destruct (p_regeneration_workflow profile) as [wf|] eqn:Hwf; simpl in H; [|done].
  unfold is_base_clone in H. destruct (a_source a) as [source|] eqn:Hs; simpl in H; [|done].
  destruct (bool_decide (cs_name source = p_template profile)) eqn:Hb; simpl in H; [|done].
  unfold try_, io_map_err, mbind, IO_bind, mret, IO_ret in H.
  destruct (images_load name m) as [row m1] eqn:Hl.
  apply images_load_cases in Hl as (Hi & Hrow & Hnone). simplify_bool.
  assert (forall warm' previous, (forall (m2 m3 : Manager W),
    ensure_warm_reverted name warm' previous m2 = (Ok tt, m3) ->
    m_images m3 !! name = survivor name warm' previous)) as Hrev.
  { intros warm' previous m2 m3 [[_ ->]|[[e [=]] _]]%ensure_warm_reverted_cases.
    by rewrite lookup_partial_alter_eq. }
  destruct row as [[r|]|e]; simpl in H; [| |done];
    destruct (host_machines m1) as [[listing|e] m2]; simpl in H; try done.
  - simplify_eq. simpl. destruct (Hrow r eq_refl) as [Hr Hv]. rewrite Hr.
    split_and!; try done; [eauto 8|].
    intros m3 m4 Hx. apply (Hrev warm (Some (generation_of r))) in Hx. by rewrite Hx.
  - unfold call in H. destruct (bk_is_unclaimed_image warm listing (m_world m2)) as [[[]|e] w];
      simpl in H; try done.
    injection H as <- <-. simpl. rewrite (Hnone eq_refl). split_and!; try done; [eauto 8|].
    intros m3 m4 Hx. apply (Hrev warm None) in Hx. by rewrite Hx.
Qed.

(** What a restart makes of a record, by what it finds on the host. *)
Definition settled_record (record : WarmImageRecord) (warm_present staging_present : bool) :
    option WarmImageRecord :=
  match warm_present, wi_state record, staging_present with
  | true, Promoted, _ => Some record
  | true, Staging, false => Some (record <| wi_state := Promoted |>)
  | true, Staging, true | false, _, _ =>
      survivor (wi_profile record) (wi_warm_template record) (wi_previous record)
  end.

(** A restart never promotes an unfinished candidate.  While the store
    answers, an interrupted promotion is finalized exactly when its image is
    live and its candidate gone; while the candidate is still there, or the
    image is not, the record falls back to the generation before it or is
    dropped; a finished promotion keeps its record.  No other profile's record
    moves. *)
Theorem settle_warm_spec profile record warm_present staging_present (m : Manager W) :
  store_answers -> image_fits record ->
  (forall g, wi_previous record = Some g ->
     image_fits (surviving_record (wi_profile record) (wi_warm_template record) g)) ->
  m_images m !! wi_profile record = Some record ->
  let '(r, m') := settle_warm profile record warm_present staging_present m in
  r = Ok tt /\
  m_images m' = partial_alter (fun _ => settled_record record warm_present staging_present)
                  (wi_profile record) (m_images m).
Proof.
  intros Hr Hf Hprev Hrow.
  assert (m_images m = partial_alter (fun _ => Some record) (wi_profile record) (m_images m)) as Hid.
  { symmetry. exact (insert_id (m_images m) (wi_profile record) record Hrow). }
  assert (forall s : Manager W, m_images s = m_images m ->
    let '(r, s') := revert_record record s in
    m_images s' = partial_alter (fun _ => survivor (wi_profile record) (wi_warm_template record)
                    (wi_previous record)) (wi_profile record) (m_images m)) as Hrevert.
  { intros s Hs. unfold revert_record.
    pose proof (ensure_warm_reverted_reliable (wi_profile record) (wi_warm_template record)
      (wi_previous record) s Hr Hprev) as Hok.
    destruct (ensure_warm_reverted _ _ _ s) as [r s'] eqn:Hx. simpl in Hok. subst r.
    apply ensure_warm_reverted_cases in Hx as [[_ ->]|[[e [=]] _]]. by rewrite Hs. }
  unfold settle_warm, settled_record, finalize_record, io_map_err, mbind, IO_bind, mret, IO_ret.
  destruct warm_present; cycle 1.
  { simpl. replace (match wi_state record with _ => _ end) with
      (survivor (wi_profile record) (wi_warm_template record) (wi_previous record))
      by (by destruct (wi_state record)).
    unfold restore_warm, call, mbind, IO_bind.
    destruct (bk_warm_restored profile record (m_world m)) as [x w].
    match goal with |- context [revert_record record ?s] =>
      specialize (Hrevert s eq_refl); destruct (revert_record record s) as [y s1] end.
    unfold mret, IO_ret. by split. }
  destruct (wi_state record) eqn:Hst, staging_present; simpl; try (split; done).
  - specialize (Hrevert m eq_refl). by destruct (revert_record record m).
  - match goal with |- context [images_save ?r m] =>
      pose proof (images_save_reliable r m Hr Hf) as Hok;
      destruct (images_save r m) as [x m1] eqn:Hs end. simpl in Hok. subst x.
    apply images_save_cases in Hs as [[_ Hm1]|[[e [=]] _]]. split; [done|]. exact Hm1.
Qed.
End warm_properties.

(** ** Witnesses *)

Definition example_fingerprint : BaseFingerprint := "0a1b2c".

(** The second generation, its promotion unfinished, over the first. *)
Definition example_image : WarmImageRecord :=
  {| wi_profile := "linux"; wi_warm_template := "linux-warm"; wi_generation := 2;
     wi_base_fingerprint := example_fingerprint; wi_produced_by := "id-2";
     wi_produced_at_unix := 900; wi_state := Staging;
     wi_previous := Some {| wg_generation := 1; wg_base_fingerprint := example_fingerprint;
                            wg_produced_by := "id-1"; wg_produced_at_unix := 500 |} |}.

Definition example_regeneration : Allocation :=
  example_row_allocation <| a_mode := Regenerate |> <| a_vm_created := true |>
    <| a_source := Some (template_source example_profile None None) |>.

Definition image_manager : Manager Sim :=
  sim_manager example_config [] sim_world <| m_images := {[ "linux" := example_image ]} |>.

Definition example_plan : RetentionPlan :=
  {| rp_warm_template := "linux-warm"; rp_generation := 3;
     rp_previous := Some (generation_of example_image) |}.

Lemma retention_plan_spec_witness :
  (@retention_plan Sim sim_backend example_regeneration image_manager).1 = Ok (Some example_plan) /\
  match m_images image_manager !! "linux" with
  | Some r => validate_warm_image r = true /\ rp_generation example_plan = wi_generation r + 1 /\
              rp_previous example_plan = Some (generation_of r)
  | None => rp_generation example_plan = 1 /\ rp_previous example_plan = None
  end.
Proof.
  assert (@retention_plan Sim sim_backend example_regeneration image_manager =
    (Ok (Some example_plan), (@retention_plan Sim sim_backend example_regeneration image_manager).2))
    as H by (vm_compute; reflexivity).
  split; [exact (f_equal fst H)|].
  exact (proj1 (proj2 (proj2 (proj2 (@retention_plan_spec Sim sim_backend example_regeneration
    image_manager _ example_plan H))))).
Defined.

Lemma settle_warm_spec_witness :
  let '(r, m') := @settle_warm Sim calm_backend example_profile example_image true true
    image_manager in
  r = Ok tt /\ option_map wi_generation (m_images m' !! "linux") = Some 1.
Proof.
  pose proof (@settle_warm_spec Sim calm_backend example_profile example_image true true
    image_manager (fun w => proj1 (calm_reliable w))) as H.
  destruct (@settle_warm Sim calm_backend _ _ _ _ _) as [r m'].
  destruct H as [Hr Hm]; [split; vm_compute; discriminate| |vm_compute; reflexivity|].
  - intros g Hg. injection Hg as <-. split; vm_compute; discriminate.
  - split; [exact Hr|]. rewrite Hm. vm_compute. reflexivity.
Defined.
