(* ===== verification/Sweep.v ===== *)
(** * Running a sweep ([crates/flanforge-manager/src/reaper/{sweep,images}.rs])

    The pass that applies the pool's bounds, plans against one snapshot,
    deletes each candidate after a re-plan against a fresh one, prunes image
    records and retires generations.  [Reaper] has the decisions; this file has
    the effects. *)

From S2P Require Import Prelude Rust Text Identifiers Images Guest Hot Allocation Config ConfigValidate Claims Sizing Admission HotSelect Reaper Convert Manager HotPool.

Open Scope Z_scope.
Open Scope stdpp_scope.

Section sweep.
Context {W : Type} {BK : Backend W} {HO : HashOrder}.

Definition allocation_snapshot : IO W (list Allocation) := gets (fun m => allocations (m_entries m)).

Definition reap (c : ReapCandidate) : IO W (result ManagerError bool) :=
  if negb (is_vm_name (rc_name c)) then mret (Ok false)
  else
    config ← gets m_config;
    images ←? io_map_err StoreE images_load_all;
    hot ←? io_map_err StoreE hot_load_all;
    allocations ← allocation_snapshot;
    machines ←? io_map_err WorkerE (call bk_machines);
    deadline ← gets m_teardown_deadline;
    match reap_request deadline c
            {| ri_config := config; ri_machines := machines; ri_allocations := allocations;
               ri_images := images; ri_hot := hot |} with
    | None => mret (Ok false)
    | Some request =>
        _ ←? io_map_err WorkerE (call (bk_delete_vm request));
        mret (Ok true)
    end.

(** The deletion loop of [sweep]: names deleted and names skipped. *)
Fixpoint reap_all (planned : list ReapCandidate) : IO W (list string * list string) :=
  match planned with
  | [] => mret ([], [])
  | c :: planned =>
      reaped ← reap c;
      rest ← reap_all planned;
      mret (match reaped with
            | Ok true => (rc_name c :: rest.1, rest.2)
            | Ok false | Err _ => (rest.1, rc_name c :: rest.2)
            end)
  end.

Fixpoint apply_pruned_records (prunable : list ProfileName) : IO W (list ProfileName) :=
  match prunable with
  | [] => mret []
  | profile :: prunable =>
      removed ← images_remove profile;
      pruned ← apply_pruned_records prunable;
      mret (match removed with Ok _ => profile :: pruned | Err _ => pruned end)
  end.

Definition sweep_warm_images (is_dry_run : bool) (claimed : gset string) :
    IO W (list RetiredImage) :=
  config ← gets m_config;
  retired ← call (bk_sweep_images
    {| sw_is_dry_run := is_dry_run; sw_declared := omap p_warm_template (c_profiles config);
       sw_claimed := claimed |});
  mret (match retired with Ok retired => retired | Err _ => [] end).

Definition publish_sweep (report : SweepReport) : IO W unit :=
  _ ← modify (fun m => m <| m_last_sweep := Some report |>);
  _ ← for_each (fun _ => emit ReaperDeleted None None None) (sr_deleted report);
  emit ReaperSweep None None None.

Definition sweep (is_dry_run : bool) : IO W (result ManagerError SweepReport) :=
  _ ← (if is_dry_run then mret tt else ensure_hot_bounded);
  config ← gets m_config;
  images ←? io_map_err StoreE images_load_all;
  hot ←? io_map_err StoreE hot_load_all;
  machines ←? io_map_err WorkerE (call bk_machines);
  allocations ← allocation_snapshot;
  let inputs := {| ri_config := config; ri_machines := machines; ri_allocations := allocations;
                   ri_images := images; ri_hot := hot |} in
  reaped ← (if is_dry_run then mret ([], []) else reap_all (plan_sweep inputs));
  config ← gets m_config;
  current ← allocation_snapshot;
  let plan := plan_pruned_records config current images machines in
  pruned ← (if is_dry_run then mret [] else apply_pruned_records (pp_prunable plan));
  retired ← sweep_warm_images is_dry_run (pp_claimed plan);
  now ← unix_time;
  let report := {| sr_planned := plan_sweep inputs; sr_deleted := reaped.1; sr_skipped := reaped.2;
                   sr_unaged := unaged_candidates inputs; sr_pruned_records := pruned;
                   sr_retired_images := retired; sr_inert_reason := inert_reason machines;
                   sr_finished_at_unix := now |} in
  _ ← (if is_dry_run then mret tt else publish_sweep report);
  mret (Ok report).
End sweep.

(** ** What a sweep relies on

    The contract of [worker/contract.rs] for the machines of the host: a
    deletion destroys only the machine it names, an eviction only its own
    guest's, and no other call a sweep makes destroys any. *)

Class HostBackend (W : Type) {BK : Backend W} := {
  alive : string -> W -> Prop;
  alive_deleted : forall n r w, rr_name r <> n -> alive n w -> alive n (bk_delete_vm r w).2;
  alive_evicted : forall n g b w, hg_vm_name g <> n -> alive n w -> alive n (bk_hot_evicted g b w).2;
  alive_listing : forall n w, alive n w -> alive n (bk_machines w).2;
  alive_unix_time : forall n w, alive n w -> alive n (bk_unix_time w).2;
  alive_fault : forall n w, alive n w -> alive n (bk_store_fault w).2;
  alive_fingerprint : forall n t w, alive n w -> alive n (bk_base_fingerprint t w).2;
  alive_sweep : forall n r w, alive n w -> alive n (bk_sweep_images r w).2;
}.

Create HintDb alive.
#[export] Hint Resolve alive_listing alive_unix_time alive_fault alive_fingerprint alive_sweep : alive.

(** Names no sweep may take: a live allocation's machine and the templates and
    images live configuration names. *)
Definition is_spared (n : string) (entries : gmap string Entry) (config : Config) : Prop :=
  (exists id e, entries !! id = Some e /\ is_terminal (a_state (e_allocation e)) = false /\
     a_vm_name (e_allocation e) = n) \/
  n ∈ reserved_image_names config.

Section spared.
Context {W : Type} {BK : Backend W} {HB : HostBackend W} {HO : HashOrder}.
Context (n : string) (entries : gmap string Entry) (config : Config).
Context (spared : is_spared n entries config).

(** A pool record of the machine is a live allocation's claim. *)
Definition claimed_only (g : HotGuest) : Prop :=
  is_Some (hg_claimed_by g) /\ n ∈ live_hot_names entries.

(** A guest the pool's bounds may treat as theirs. *)
Definition boundable (g : HotGuest) : Prop := hg_vm_name g = n -> claimed_only g.

(** The machine is up, the pool holds it only as claimed, and nothing that
    spares it moved. *)
Definition safe (m : Manager W) : Prop :=
  alive n (m_world m) /\ (forall g, m_hot m !! n = Some g -> claimed_only g) /\ hot_keyed m /\
  m_entries m = entries /\ m_config m = config.

Lemma safe_call {A} (f : W -> A * W) :
  (forall w, alive n w -> alive n (f w).2) -> preserves safe (call f).
Proof. intros Hf. apply preserves_call. intros m (Ha & Hs). split; [apply Hf, Ha|done]. Qed.

Lemma safe_modify (f : Manager W -> Manager W) :
  (forall m, m_world (f m) = m_world m) -> (forall m, m_hot (f m) = m_hot m) ->
  (forall m, m_entries (f m) = m_entries m) -> (forall m, m_config (f m) = m_config m) ->
  preserves safe (modify f).
Proof.
  intros H1 H2 H3 H4. apply preserves_modify. intros m.
  unfold safe, hot_keyed. by rewrite H1, H2, H3, H4.
Qed.

Lemma safe_stored {A} (c : IO W A) (φ : A -> Prop) :
  triple safe c φ -> triple safe (stored c) (fun r => forall a, r = Ok a -> φ a).
Proof.
  intros Hc. apply preserves_bind; [apply safe_call; eauto with alive|]. intros [].
  - by apply triple_ret.
  - eapply triple_bind; [done|]. intros a Ha. apply triple_ret. by intros ? [= <-].
Qed.

Lemma safe_stored_any {A} (c : IO W A) : preserves safe c -> preserves safe (stored c).
Proof. intros Hc. eapply triple_weaken; [by apply safe_stored|done]. Qed.

Lemma safe_hot_load_all :
  triple safe hot_load_all (fun r => forall l, r = Ok l -> forall g, g ∈ l -> boundable g).
Proof.
  apply (safe_stored _ (fun l => forall g, g ∈ l -> boundable g)).
  apply triple_gets. intros m (_ & Hn & Hk & _) g Hg <-.
  apply list_elem_of_In, List.filter_In in Hg as [Hg%list_elem_of_In _].
  apply elem_of_hash_values in Hg as [k Hg]. specialize (Hk k g Hg). simpl in Hk.
  apply Hn. congruence.
Qed.

Lemma safe_hot_save g : boundable g -> preserves safe (hot_save g).
Proof.
  intros Hg. unfold hot_save. destruct (negb _); [by apply triple_ret|].
  apply safe_stored_any, preserves_modify. intros m (Ha & Hn & Hk & He & Hc).
  split_and!; try done; simpl; [|by apply map_Forall_insert_2].
  intros g' [[Hname <-]|[_ Hg']]%lookup_insert_Some; [by apply Hg|by apply Hn].
Qed.

Lemma safe_hot_remove k : preserves safe (hot_remove k).
Proof.
  apply safe_stored_any, preserves_modify. intros m (Ha & Hn & Hk & He & Hc).
  split_and!; try done; simpl; [|by apply map_Forall_delete].
  intros g [_ Hg]%lookup_delete_Some. by apply Hn.
Qed.

Lemma safe_pending g reason : boundable g -> preserves safe (ensure_hot_eviction_pending g reason).
Proof.
  intros Hg. unfold ensure_hot_eviction_pending. case_bool_decide; [by apply triple_ret|].
  apply preserves_bind; [by apply safe_hot_save|]. intros _. by apply triple_ret.
Qed.

Lemma boundable_other g : hg_vm_name g <> n -> boundable g.
Proof. by intros Hg Heq. Qed.

Lemma safe_evicted g reason : hg_vm_name g <> n -> preserves safe (ensure_hot_evicted g reason).
Proof.
  intros Hg. pose proof (boundable_other _ Hg). unfold ensure_hot_evicted, budget_for, emit.
  walk ltac:(first
    [ apply safe_call; intros; by apply alive_evicted
    | apply safe_hot_remove | by apply safe_pending | by apply safe_modify ]).
Qed.

Lemma safe_drained g reason : boundable g -> preserves safe (ensure_hot_drained g reason).
Proof.
  intros Hg. unfold ensure_hot_drained. case_bool_decide; [by apply triple_ret|].
  eapply (triple_bind _ _ _ (fun r => forall g', r = Ok g' -> boundable g')).
  { apply preserves_bind; [apply safe_call; eauto with alive|]. intros now. apply triple_ret.
    by intros g' (_ & ->)%ensure_state_ok. }
  intros [d|e] Hd; [|by apply safe_pending]. specialize (Hd d eq_refl).
  apply preserves_bind; [by apply safe_hot_save|]. intros [|]; [|by apply triple_ret].
  destruct (is_none _) eqn:Hfree; [|by apply triple_ret]. apply safe_evicted. intros Heq.
  destruct (Hd Heq) as [[id Hid] _]. simpl in Hfree. by rewrite Hid in Hfree.
Qed.

Lemma safe_filtered (p : HotGuest -> bool) (f : HotGuest -> IO W unit) l :
  (forall g, g ∈ l -> p g = true -> preserves safe (f g)) -> preserves safe (for_each f (List.filter p l)).
Proof.
  intros Hf. apply preserves_for_each. intros g Hg%list_elem_of_In.
  apply List.filter_In in Hg as [Hg%list_elem_of_In Hp]. auto.
Qed.

Lemma safe_claimed_names :
  triple safe (hot_claimed_names (W := W)) (fun claimed => claimed = live_hot_names entries).
Proof. apply triple_gets. by intros m (_ & _ & _ & -> & _). Qed.

(** A guest no live allocation holds is not the spared one. *)
Lemma unclaimed_other g :
  boundable g -> hg_vm_name g ∉ live_hot_names entries -> hg_vm_name g <> n.
Proof. intros Hg Hn Heq. destruct (Hg Heq) as [_ Hin]. by rewrite Heq in Hn. Qed.

Lemma safe_drains_finished l :
  (forall g, g ∈ l -> boundable g) -> preserves safe (ensure_hot_drains_finished l).
Proof.
  intros Hl. eapply triple_bind; [apply safe_claimed_names|]. intros claimed ->.
  apply safe_filtered. intros g Hg [_ Hn%negb_true_iff%bool_decide_eq_false]%andb_true_iff.
  by apply safe_evicted, unclaimed_other; [apply Hl|].
Qed.

Lemma safe_evictions_retried l :
  (forall g, g ∈ l -> boundable g) -> preserves safe (ensure_hot_evictions_retried l).
Proof.
  intros Hl. eapply triple_bind; [apply safe_claimed_names|]. intros claimed ->.
  apply safe_filtered. unfold is_eviction_retried. intros g Hg.
  rewrite !andb_true_iff, !negb_true_iff, !bool_decide_eq_false. intros [[_ Hn] _].
  by apply safe_evicted, unclaimed_other; [apply Hl|].
Qed.

Lemma safe_images_load k : preserves safe (images_load k).
Proof.
  apply preserves_try; [apply safe_stored_any, preserves_gets|]. intros row. by apply triple_ret.
Qed.

Lemma safe_bound c now g : boundable g -> preserves safe (ensure_hot_bound c now g).
Proof.
  intros Hg. unfold ensure_hot_bound, promoted_generation.
  walk ltac:(first
    [ by apply safe_drained | apply safe_images_load | apply safe_call; eauto with alive ]).
Qed.

Lemma safe_bounded : preserves safe ensure_hot_bounded.
Proof.
  apply preserves_bind; [apply preserves_gets|]. intros c.
  eapply triple_bind; [apply safe_hot_load_all|]. intros [l|]; [|by intros; apply triple_ret].
  intros Hl. specialize (Hl l eq_refl).
  apply preserves_bind; [apply safe_call; eauto with alive|]. intros now.
  unfold ensure_hot_pool_drained, ensure_hot_surplus_retired.
  walk ltac:(first
    [ apply safe_bound; by auto
    | apply safe_drains_finished; done
    | apply safe_evictions_retried; done
    | apply safe_drained; eauto using surplus_idle_subset
    | apply safe_filtered; intros; apply safe_drained; by auto ]).
Qed.

(** A spared name is claimed in every snapshot of the state. *)
Lemma spared_claimed machines images hot :
  claimed_name {| ri_config := config; ri_machines := machines;
                  ri_allocations := allocations entries; ri_images := images; ri_hot := hot |} n.
Proof.
  destruct spared as [(id & e & He & Ht & <-)|Hn].
  - apply claimed_allocation; [|done]. apply list_elem_of_fmap. exists e.
    split; [done|]. apply elem_of_hash_values. eauto.
  - apply elem_of_protected_names. unfold protected_names. set_solver.
Qed.

Lemma safe_load_all {A} (f : Manager W -> A) :
  preserves safe (io_map_err StoreE (stored (gets f))).
Proof. apply preserves_map_err, safe_stored_any, preserves_gets. Qed.

Lemma safe_machines : preserves safe (io_map_err WorkerE (call bk_machines)).
Proof. apply preserves_map_err, safe_call. eauto with alive. Qed.

(** The deletion itself: the re-plan reads what it spares. *)
Lemma safe_reap c : preserves safe (reap c).
Proof.
  unfold reap. destruct (negb _); [by apply triple_ret|].
  apply (triple_bind _ _ _ (fun c => c = config)); [apply triple_gets; by intros m (_ & _ & _ & _ & ?)|].
  intros ? ->. apply preserves_try; [apply safe_load_all|]. intros images.
  apply preserves_try; [apply safe_load_all|]. intros hot.
  apply (triple_bind _ _ _ (fun l => l = allocations entries)).
  { apply triple_gets. by intros m (_ & _ & _ & -> & _). }
  intros ? ->. apply preserves_try; [apply safe_machines|]. intros machines.
  apply preserves_bind; [apply preserves_gets|]. intros deadline.
  destruct (reap_request _ _ _) as [req|] eqn:Hreq; [|by apply triple_ret].
  apply reap_request_replanned in Hreq as (Hn & _ & _ & Hu & _).
  apply preserves_try; [|intros; by apply triple_ret].
  apply preserves_map_err, safe_call. intros w. apply alive_deleted. rewrite Hn. intros Heq.
  apply Hu. rewrite Heq. apply spared_claimed.
Qed.

Lemma safe_reap_all planned : preserves safe (reap_all planned).
Proof. induction planned; simpl; walk ltac:(apply safe_reap). Qed.

Lemma safe_pruned prunable : preserves safe (apply_pruned_records prunable).
Proof.
  induction prunable; simpl; walk ltac:(apply safe_stored_any; by apply safe_modify).
Qed.

Lemma safe_sweep is_dry_run : preserves safe (sweep is_dry_run).
Proof.
  unfold sweep, sweep_warm_images, publish_sweep, allocation_snapshot, emit.
  walk ltac:(first
    [ apply safe_bounded | apply safe_load_all | apply safe_machines | apply safe_reap_all
    | apply safe_pruned | apply safe_call; eauto with alive | by apply safe_modify ]).
Qed.
End spared.

(** ** Dry runs and reports *)

Section dry.
Context {W : Type} {BK : Backend W} {HB : HostBackend W} {HO : HashOrder}.

(** Everything a sweep could write. *)
Definition records (m : Manager W) :=
  (m_rows m, m_images m, m_hot m, m_events m, m_entries m, m_last_sweep m).

Context (n : string) (m0 : Manager W).

Definition unmoved (m : Manager W) : Prop :=
  records m = records m0 /\ (alive n (m_world m0) -> alive n (m_world m)).

Lemma unmoved_call {A} (f : W -> A * W) :
  (forall w, alive n w -> alive n (f w).2) -> preserves unmoved (call f).
Proof. intros Hf. apply preserves_call. intros m (Hr & Ha). split; [exact Hr|]. intros H0. simpl. auto. Qed.

Lemma unmoved_load {A} (f : Manager W -> A) : preserves unmoved (io_map_err StoreE (stored (gets f))).
Proof.
  unfold stored. walk ltac:(apply unmoved_call; eauto with alive).
Qed.

Lemma unmoved_dry_run : preserves unmoved (sweep true).
Proof.
  unfold sweep, sweep_warm_images, allocation_snapshot, images_load_all, hot_load_all.
  walk ltac:(first [ apply unmoved_load | apply unmoved_call; eauto with alive ]).
Qed.
End dry.

Section report.
Context {W : Type} {BK : Backend W} {HO : HashOrder}.

Lemma reap_all_names planned (m : Manager W) :
  let r := (reap_all planned m).1 in r.1 ++ r.2 ≡ₚ map rc_name planned.
Proof.
  revert m. induction planned as [|c planned IH]; intros m; simpl; [done|].
  unfold mbind, IO_bind. destruct (reap c m) as [reaped m1]. specialize (IH m1).
  destruct (reap_all planned m1) as [[d s] m2]. simpl in *.
  destruct reaped as [[]|]; simpl; rewrite <- IH; [done|by rewrite <- Permutation_middle..].
Qed.

Lemma sweep_report is_dry_run :
  triple (fun _ : Manager W => True) (sweep is_dry_run) (fun answer => forall report,
    answer = Ok report ->
    if is_dry_run then sr_deleted report = [] /\ sr_skipped report = []
    else sr_deleted report ++ sr_skipped report ≡ₚ map rc_name (sr_planned report)).
Proof.
  pose (fine := fun _ : Manager W => True).
  assert (forall A (c : IO W A), preserves fine c) as any by done.
  unfold sweep. apply preserves_bind; [apply any|]. intros _.
  apply preserves_bind; [apply any|]. intros config.
  do 3 (eapply (triple_try _ _ _ (fun _ => True)); [done| |done]; intros ? _).
  apply preserves_bind; [apply any|]. intros current.
  set (planned := plan_sweep _).
  apply (triple_bind _ _ _ (fun reaped : list string * list string =>
    if is_dry_run then reaped.1 = [] /\ reaped.2 = []
    else reaped.1 ++ reaped.2 ≡ₚ map rc_name planned)).
  { destruct is_dry_run; [by apply triple_ret|]. intros m _. split; [done|apply reap_all_names]. }
  intros reaped Hr. do 6 (apply preserves_bind; [apply any|]; intros ?).
  apply triple_ret. by intros report [= <-].
Qed.
End report.

(** ** Properties *)


(** The pool machines and the other machines of the executable host. *)
#[export] Instance sim_host_backend : HostBackend Sim.
Proof.
  refine {| alive n w := n ∈ map hm_name (sim_machines w) |}; try done.
  - intros n r w Hne Hin. simpl. apply list_elem_of_fmap in Hin as (h & -> & Hin).
    apply list_elem_of_fmap. exists h. split; [done|]. apply list_elem_of_In, List.filter_In.
    split; [by apply list_elem_of_In|]. by rewrite bool_decide_false by congruence.
  - intros n g b w _ Hin. simpl. by destruct (sim_refuses w).
  - intros n w Hin. simpl. by destruct (sim_faults w).
Defined.

(** A host with a template, a live allocation's machine and a prefixed orphan:
    the orphan alone goes. *)
Definition swept_manager : Manager Sim :=
  sim_manager example_config []
    (sim_world <| sim_machines := map pool_machine ["linux-base"; "ff-linux-9-1"; "ff-stray"] |>)
    <| m_entries := {[ "id-1" := mkEntry example_row_allocation example_row_allocation
                                   false true false ]} |>.

Example sweep_takes_the_stray :
  let '(answer, m') := sweep false swept_manager in
  option_map sr_deleted (ok answer) = Some ["ff-stray"] /\
  map hm_name (sim_machines (m_world m')) = ["linux-base"; "ff-linux-9-1"].
Proof. vm_compute. auto. Qed.

