(* ===== verification/Tart.v ===== *)
(** * The Tart backend ([crates/flanforge-runtime-tart])

    [tart/{client,images,machines,sources,storage}.rs]: the client over the
    [tart] command, its ownership checks and what it reads of the library on
    disk.  [worker/hot.rs]: the children the daemon holds for the pool.
    [worker/run.rs]: the calls of [AllocationWorker], put together as an
    instance of the manager's [Backend].

    The command, the file system, the guest and the clocks are an interface
    ([TartHost]); what [tart] documents of its commands is a second one
    ([LawfulTart]), stated over the machines the host has.  The backend then
    keeps the contracts the manager's theorems rely on: [HostBackend] and
    [PoolBackend]. *)

From S2P Require Import Prelude Rust Text Identifiers Images Guest Hot Allocation Config ConfigValidate Admission Reaper Convert Futures Manager HotPool Lifecycle WarmImages Sweep.

Open Scope Z_scope.
Open Scope stdpp_scope.

(** ** What the backend calls *)

(** How one [tart] command ended: its exit code (none after a signal), not
    started, no answer before the wait around it ended, or the daemon died. *)
Inductive Invocation :=
| Exited (code : option Z)
| NotInvoked
| Unanswered (cancelled : bool)
| Died.

Record Machine := {
  mc_name : string;
  mc_state : string;
}.

(** One [tart list --format json], under its own timeout: the exit status,
    the size of the output and what it decodes to. *)
Inductive Listing :=
| Listed (is_success : bool) (bytes : Z) (decoded : option (list Machine))
| ListNotInvoked
| ListTimedOut
| ListDied.

(** What [fs::metadata] reports; no modification time where the platform has
    none or it is before the epoch. *)
Record Metadata := {
  md_len : Z;
  md_modified : option (Z * Z);
}.

Class TartHost (H : Type) := {
  th_run : list string -> H -> Invocation * H;
  th_list : H -> Listing * H;
  (** [tart ip name]: its trimmed output when it exits with success. *)
  th_ip : VmName -> Fut H (option string);
  (** The [tart run] child of a machine: still there, and dropped. *)
  th_child_alive : VmName -> H -> bool * H;
  th_child_drop : VmName -> H -> H;
  th_metadata : PathBuf -> H -> option Metadata * H;
  (** [SystemTime::now()] since the epoch, and [Instant::now()]. *)
  th_system_time : H -> option Z * H;
  th_now : H -> Z * H;
  th_sleep : Z -> H -> H;
  (** [str::parse::<IpAddr>]. *)
  th_is_ip : string -> bool;
  (** [GuestChannel::run] of the recycle gate with its reset argument. *)
  th_gate : string -> string -> Fut H (result string GuestOutput);
  (** [GuestJob::run_daemon_script] of the retention marker. *)
  th_marker : string -> Fut H (result WorkerError unit);
  (** The wait for a profile's image lock. *)
  th_image_lock : ProfileName -> Fut H unit;
  (** [GuestJob::delete_runner]. *)
  th_delete_runner : Allocation -> Fut H (result WorkerError unit);
  th_uuid : H -> string * H;
  th_store_fault : H -> bool * H;
}.

(** The [serde] decoding of a recycle report. *)
Inductive RecycleGate := GAccount | GSelfTest | GProcesses | GClock | GDisk | GRunner | GClean.

#[export] Instance RecycleGate_eq_dec : EqDecision RecycleGate.
Proof. solve_decision. Defined.

Record Report := {
  rpt_schema : Z;
  rpt_contract : Z;
  rpt_clean : bool;
  rpt_gate : RecycleGate;
  rpt_state : string;
  rpt_detail : string;
  rpt_free_mb : Z;
  rpt_skew_seconds : Z;
  rpt_account_name : string;
  rpt_account_uid : Z;
}.

Class ReportCodec := { report_decode : string -> option Report }.

(** ** The recycle verdict ([flanforge-runtime/src/recycle/verdict.rs]) *)

Definition RECYCLE_CONTRACT_VERSION : Z := 1.
Definition RECYCLE_MAX_REPORT_BYTES : Z := 4096.
Definition RECYCLE_SCHEMA : Z := 1.
Definition MAX_STATE_BYTES : Z := 64.
Definition MAX_DETAIL_BYTES : Z := 256.

Record RecycleVerdict := {
  rv_is_clean : bool;
  rv_gate : RecycleGate;
  rv_state : string;
  rv_detail : string;
  rv_free_mb : Z;
  rv_skew_seconds : Z;
  rv_account_name : string;
  rv_account_uid : Z;
}.

Definition is_bounded_text (value : string) (limit : Z) : bool :=
  (len value <=? limit) && all_bytes (fun c => is_ascii_graphic c || Ascii.eqb c " "%char) value.

Definition is_ascii_whitespace (c : ascii) : bool :=
  (byte_val c =? 32) || (byte_val c =? 9) || (byte_val c =? 10) || (byte_val c =? 12)
  || (byte_val c =? 13).

Definition report_line (bytes : string) : string :=
  default "" (List.find (fun line => negb (all_bytes is_ascii_whitespace line))
    (rev (split (ascii_of_nat 10) bytes))).

Definition recycle_parse {RC : ReportCodec} (bytes : string) (contract_version : Z) :
    result WorkerError RecycleVerdict :=
  if is_empty bytes || (RECYCLE_MAX_REPORT_BYTES <? len bytes)
  then Err (worker_error_new "recycle verdict size is invalid")
  else match report_decode (report_line bytes) with
  | None => Err (worker_error_new "recycle verdict is malformed")
  | Some r =>
      if negb (rpt_schema r =? RECYCLE_SCHEMA) || negb (rpt_contract r =? contract_version)
      then Err (worker_error_new "recycle verdict does not match the image contract")
      else if negb (is_bounded_text (rpt_state r) MAX_STATE_BYTES)
              || negb (is_bounded_text (rpt_detail r) MAX_DETAIL_BYTES)
              || negb (is_bounded_text (rpt_account_name r) MAX_STATE_BYTES)
      then Err (worker_error_new "recycle verdict is not within its own bounds")
      else if rpt_clean r && negb (bool_decide (rpt_gate r = GClean))
      then Err (worker_error_new
             "recycle verdict claims a clean machine at a gate it did not reach")
      else Ok {| rv_is_clean := rpt_clean r; rv_gate := rpt_gate r; rv_state := rpt_state r;
                 rv_detail := rpt_detail r; rv_free_mb := rpt_free_mb r;
                 rv_skew_seconds := rpt_skew_seconds r;
                 rv_account_name := rpt_account_name r; rv_account_uid := rpt_account_uid r |}
  end.

(** The [Debug] name of a gate, in lower case. *)
Definition gate_text (gate : RecycleGate) : string :=
  match gate with
  | GAccount => "account" | GSelfTest => "selftest" | GProcesses => "processes"
  | GClock => "clock" | GDisk => "disk" | GRunner => "runner" | GClean => "clean"
  end.

Definition cause (v : RecycleVerdict) : string :=
  if is_empty (rv_detail v)
  then "the recycle gate failed at " +:+ gate_text (rv_gate v) +:+ " (" +:+ rv_state v +:+ ")"
  else "the recycle gate failed at " +:+ gate_text (rv_gate v) +:+ " (" +:+ rv_state v +:+ "): "
       +:+ rv_detail v.

(** ** State

    The host, and the children [worker/hot.rs] holds: one per machine name,
    claimed by the pool or only parked. *)

Record TartWorld (H : Type) := mkTartWorld {
  tw_host : H;
  tw_pool : gmap string bool;
}.

Arguments mkTartWorld {H}.
Arguments tw_host {H}.
Arguments tw_pool {H}.

#[export] Instance TartWorld_eta H : Eta (TartWorld H) := fun w =>
  mkTartWorld (tw_host w) (tw_pool w).

Record TartClient := {
  tc_config : RuntimeConfig;
  tc_home : option PathBuf;
  tc_library : option PathBuf;
}.

(** ** The client ([tart/client.rs]) *)

Definition is_stopped (m : Machine) : bool := bool_decide (mc_state m = "stopped").

Definition eq_ignore_ascii_case (a b : string) : bool :=
  bool_decide (to_ascii_lowercase a = to_ascii_lowercase b).

Definition machine_state (m : Machine) : MachineState :=
  if eq_ignore_ascii_case (mc_state m) "running" then MRunning
  else if is_stopped m then MStopped else MOther.

Definition DEFAULT_LIBRARY_DIRECTORY : string := ".tart".
Definition VM_DIRECTORY : string := "vms".
Definition DISK_IMAGE : string := "disk.img".

Definition library_home (configured tart_home service_home : option PathBuf) : option PathBuf :=
  match configured with
  | Some configured => Some configured
  | None =>
      match tart_home with
      | Some tart_home => if is_absolute tart_home then Some tart_home else None
      | None => option_map (fun home => join home DEFAULT_LIBRARY_DIRECTORY) service_home
      end
  end.

(** [TartClient::new], given what the process environment holds. *)
Definition client_new (config : RuntimeConfig) (tart : TartConfig)
    (tart_home_variable service_home : option PathBuf) : TartClient :=
  {| tc_config := config; tc_home := tart_home tart;
     tc_library := library_home (tart_home tart) tart_home_variable service_home |}.

Section client.
Context {H : Type} {TH : TartHost H} (c : TartClient).
Local Abbreviation T := (TartWorld H).

(** A step of the host alone. *)
Definition host {A} (step : Fut H A) : Fut T A :=
  on tw_host (fun h w => w <| tw_host := h |>) step.

Definition run_checked (arguments : list string) : Fut T (result WorkerError unit) :=
  host (fun h =>
    match th_run arguments h with
    | (Exited (Some 0), h) => (Done (Ok tt), h)
    | (Exited _, h) => (Done (Err (worker_error_new "Tart operation failed")), h)
    | (NotInvoked, h) => (Done (Err (worker_error_new "cannot invoke Tart")), h)
    | (Unanswered cancelled, h) => (Dropped cancelled, h)
    | (Died, h) => (Crashed, h)
    end).

(** The attempts left after this one. *)
Fixpoint list_attempts (retries : nat) : Fut T (result WorkerError (list Machine)) :=
  listing ← host (answer th_list);
  match listing with
  | ListDied => fun w => (Crashed, w)
  | ListTimedOut => mret (Err (worker_error_new "Tart machine inspection timed out"))
  | ListNotInvoked =>
      match retries with
      | O => mret (Err (worker_error_new "cannot inspect Tart VMs"))
      | Datatypes.S retries =>
          _ ← host (answer (fun h => (tt, th_sleep 10000000 h))); list_attempts retries
      end
  | Listed is_success bytes decoded =>
      if negb is_success || (1048576 <? bytes)
      then mret (Err (worker_error_new "cannot inspect Tart VMs"))
      else mret (ok_or decoded (worker_error_new "Tart returned invalid VM state"))
  end.

Definition list : Fut T (result WorkerError (list Machine)) := list_attempts 1.

Definition is_named (name : string) (m : Machine) : bool := bool_decide (mc_name m = name).

Definition is_absent (name : string) : Fut T bool :=
  machines ← list;
  mret (match machines with
        | Ok machines => negb (existsb (is_named name) machines)
        | Err _ => false
        end).

Definition is_owned (name : string) : bool := starts_with name (rt_vm_prefix (tc_config c)).

Definition ensure_owned (a : Allocation) : result WorkerError unit :=
  _ ← ensure (validate_allocation a) (worker_error_new "allocation is structurally invalid");
  ensure (is_owned (a_vm_name a)) (worker_error_new "refusing to modify an unowned Tart VM").

Definition ensure_owned_name (name : VmName) : result WorkerError unit :=
  ensure (is_owned name) (worker_error_new "refusing to modify an unowned Tart VM").

Definition remove_named (name : VmName) (state : string) : Fut T (result WorkerError unit) :=
  _ ← (if eq_ignore_ascii_case state "running"
       then _ ← run_checked ["stop"; name]; mret tt else mret tt);
  deleted ← run_checked ["delete"; name];
  match deleted with
  | Ok _ => mret (Ok tt)
  | Err error =>
      absent ← is_absent name;
      mret (if absent : bool then Ok tt else Err error)
  end.

Definition remove_machine (a : Allocation) (state : string) : Fut T (result WorkerError unit) :=
  _ ←! mret (ensure_owned a);
  remove_named (a_vm_name a) state.

(** [TartClient::library_vm_directory] and [TartClient::vm_directory]. *)
Definition library_vm_directory (name : string) : option PathBuf :=
  option_map (fun home => join (join home VM_DIRECTORY) name) (tc_library c).

Definition vm_directory (name : string) : option PathBuf :=
  option_map (fun home => join (join home VM_DIRECTORY) name) (tc_home c).

Definition metadata (path : PathBuf) : Fut T (option Metadata) := host (answer (th_metadata path)).

(** ** Images ([tart/images.rs]) *)

Definition file_stat (path : PathBuf) : Fut T (option FileStat) :=
  m ← metadata path;
  mret (m ← m; modified ← md_modified m;
        Some {| fs_len := md_len m; fs_mtime_secs := modified.1; fs_mtime_nanos := modified.2 |}).

Definition fingerprint (template : VmName) : Fut T (option BaseFingerprint) :=
  match vm_directory template with
  | None => mret None
  | Some directory =>
      disk ← file_stat (join directory DISK_IMAGE);
      match disk with
      | None => mret None
      | Some disk =>
          config ← file_stat (join directory "config.json");
          mret (option_map (from_stats disk) config)
      end
  end.

Definition machine_age_seconds (name : string) : Fut T (option Z) :=
  match library_vm_directory name with
  | None => mret None
  | Some directory =>
      m ← metadata directory;
      match m with
      | None => mret None
      | Some m =>
          now ← host (answer th_system_time);
          mret (now ← now; modified ← md_modified m; Some (sat_sub now modified.1))
      end
  end.

Fixpoint host_machines_of (machines : Datatypes.list Machine) : Fut T (Datatypes.list HostMachine) :=
  match machines with
  | [] => mret []
  | m :: machines =>
      age ← machine_age_seconds (mc_name m);
      rest ← host_machines_of machines;
      mret ({| hm_name := mc_name m; hm_state := machine_state m; hm_age_seconds := age;
               hm_size := None;
               hm_ownership := if is_owned (mc_name m) then Owned else Foreign |} :: rest)
  end.

Definition tart_machines : Fut T (result WorkerError (Datatypes.list HostMachine)) :=
  machines ←! list;
  described ← host_machines_of machines;
  mret (Ok described).

Definition ensure_image_writable (name : VmName) (profile : option Profile)
    (record : option WarmImageRecord) : result WorkerError unit :=
  if is_owned name
  then Err (worker_error_new "refusing to write an image inside the service VM prefix")
  else if match profile with Some p => bool_decide (name = p_template p) | None => false end
  then Err (worker_error_new "refusing to overwrite a configured template")
  else
    let declared :=
      match profile ≫= p_warm_template with Some warm => derived_names warm | None => ∅ end
      ∪ match record with Some r => derived_names (wi_warm_template r) | None => ∅ end in
    if bool_decide (name ∈ declared) then Ok tt
    else Err (worker_error_new "refusing to write an undeclared image name").

Definition clone_image (source destination : VmName) (profile : Profile)
    (record : option WarmImageRecord) : Fut T (result WorkerError unit) :=
  _ ←! mret (ensure_image_writable destination (Some profile) record);
  _ ←! (if is_owned source then mret (Ok tt)
        else mret (ensure_image_writable source (Some profile) record));
  run_checked ["clone"; source; destination].

(** What [delete_image] and [delete_owned] do once authorized. *)
Definition delete_listed (name : VmName) : Fut T (result WorkerError unit) :=
  machines ←! list;
  match List.find (is_named name) machines with
  | None => mret (Ok tt)
  | Some m => remove_named name (mc_state m)
  end.

Definition delete_image (name : VmName) (profile : option Profile)
    (record : option WarmImageRecord) : Fut T (result WorkerError unit) :=
  _ ←! mret (ensure_image_writable name profile record);
  delete_listed name.

Definition delete_owned (name : VmName) : Fut T (result WorkerError unit) :=
  _ ←! mret (ensure (is_owned name) (worker_error_new "refusing to delete an unowned Tart VM"));
  delete_listed name.

Definition is_stopped_image (name : VmName) : Fut T bool :=
  machines ← list;
  mret (match machines with
        | Ok machines => existsb (fun m => is_named name m && is_stopped m) machines
        | Err _ => false
        end).

(** ** Storage ([tart/storage.rs]) *)

Definition MIB : Z := 1048576.
Definition DISK_SIZE_BYTES : Z := 1000000000.

Definition disk_bytes (name : string) : Fut T (option Z) :=
  match library_vm_directory name with
  | None => mret None
  | Some directory => m ← metadata (join directory DISK_IMAGE); mret (option_map md_len m)
  end.

Definition base_storage_mb (name : string) : Fut T (option Z) :=
  bytes ← disk_bytes name; mret (option_map (fun bytes => bytes / MIB) bytes).

Definition div_ceil (a b : Z) : Z := if a mod b =? 0 then a / b else a / b + 1.

Definition disk_size_argument (requested_bytes base_bytes : Z) : option Z :=
  if requested_bytes <=? base_bytes then None
  else let gigabytes := div_ceil requested_bytes DISK_SIZE_BYTES in
       if gigabytes <=? u16_max then Some gigabytes else None.

Definition disk_size_gb (a : Allocation) (storage_mb : Z) : Fut T (option Z) :=
  bytes ← disk_bytes (a_vm_name a);
  mret (base_bytes ← bytes; disk_size_argument (sat_mul u64_max storage_mb MIB) base_bytes).

(** ** Machines ([tart/machines.rs]) *)

Definition clone (a : Allocation) (source : VmName) : Fut T (result WorkerError unit) :=
  _ ←! mret (ensure_owned a);
  run_checked ["clone"; source; a_vm_name a].

Definition configure (a : Allocation) (profile : Profile) : Fut T (result WorkerError unit) :=
  _ ←! mret (ensure_owned a);
  let sized f g := match a_size a with Some size => f size | None => g profile end in
  disk ← disk_size_gb a (sized storage_mb p_storage_mb);
  run_checked
    (["set"; a_vm_name a; "--cpu"; decimal (sized cpu_count p_cpu_count);
      "--memory"; decimal (sized memory_mb p_memory_mb)]
     ++ match disk with Some disk => ["--disk-size"; decimal disk] | None => [] end).

Definition poll_pause : Z := from_secs (rt_poll_seconds (tc_config c)).

(** The loops over [tart ip] and over the listing, from the instant the wait
    starts. *)
Definition polled {A} (attempt : Fut T (result WorkerError (option A))) (expired : WorkerError)
    (timeout : Z) : Fut T (result WorkerError A) :=
  started ← host (answer th_now);
  poll_until (fun w => let '(t, h) := th_now (tw_host w) in (t, w <| tw_host := h |>))
    (fun d w => w <| tw_host := th_sleep d (tw_host w) |>) attempt expired poll_pause
    (poll_fuel poll_pause timeout) (started + timeout).

Definition read_address (name : VmName) : Fut T (result WorkerError (option string)) :=
  output ← host (th_ip name);
  mret (Ok (value ← output; if th_is_ip value then Some value else None)).

Definition wait_for_ip (a : Allocation) (timeout : Z) : Fut T (result WorkerError string) :=
  _ ←! mret (ensure_owned a);
  polled (read_address (a_vm_name a)) (worker_error_new "Tart VM did not obtain an IP address")
    timeout.

Definition address_of (name : VmName) (timeout : Z) : Fut T (result WorkerError string) :=
  _ ←! mret (ensure_owned_name name);
  polled (read_address name) (worker_error_new "the hot guest did not report an address") timeout.

Definition ensure_stopped (a : Allocation) (timeout : Z) : Fut T (result WorkerError unit) :=
  _ ←! mret (ensure_owned a);
  _ ← run_checked ["stop"; a_vm_name a];
  polled
    (machines ←! list;
     mret (Ok (if existsb (fun m => is_named (a_vm_name a) m && is_stopped m) machines
               then Some tt else None)))
    (worker_error_new "Tart VM did not stop in time") timeout.

Definition remove_owned (a : Allocation) : Fut T (result WorkerError unit) :=
  _ ←! mret (ensure_owned a);
  machines ←! list;
  match List.find (is_named (a_vm_name a)) machines with
  | Some m => remove_machine a (mc_state m)
  | None => mret (Ok tt)
  end.

Definition is_running_vm (name : VmName) : Fut T bool :=
  machines ← list;
  mret (match machines with
        | Ok machines => existsb (fun m => is_named name m && negb (is_stopped m)) machines
        | Err _ => false
        end).

(** ** Clone sources ([tart/sources.rs]) *)

Definition is_slot_free (a : Allocation) (machines : Datatypes.list Machine) : bool :=
  let running := List.filter (fun m => eq_ignore_ascii_case (mc_state m) "running")
                   (List.filter (fun m => negb (is_named (a_vm_name a) m)) machines) in
  Z.of_nat (length running) <? rt_max_running_vms (tc_config c).

Definition ensure_name_free (a : Allocation) (machines : Datatypes.list Machine) :
    Fut T (result WorkerError unit) :=
  match List.find (is_named (a_vm_name a)) machines with
  | Some m => remove_machine a (mc_state m)
  | None => mret (Ok tt)
  end.

Definition resolve_clone (a : Allocation) (profile : Profile)
    (machines : Datatypes.list Machine) : CloneSource :=
  let template reason :=
    {| cs_name := p_template profile; cs_kind := KTemplate;
       cs_base_fingerprint := a_source a ≫= cs_base_fingerprint;
       cs_fallback_reason := reason |} in
  match a_source a with
  | None => template None
  | Some source =>
      if bool_decide (cs_kind source = KTemplate) then source
      else if is_owned (cs_name source) then template (Some Absent)
      else match List.find (is_named (cs_name source)) machines with
           | Some m => if is_stopped m then source else template (Some NotStopped)
           | None => template (Some Absent)
           end
  end.

Definition ensure_can_clone_now (a : Allocation) (profile : Profile) :
    Fut T (result WorkerError CloneSource) :=
  _ ←! mret (ensure_owned a);
  machines ←! list;
  let source := resolve_clone a profile machines in
  match List.find (is_named (cs_name source)) machines with
  | None => mret (Err (worker_error_new "configured Tart template is missing"))
  | Some listed =>
      if negb (is_stopped listed)
      then mret (Err (worker_error_new "configured Tart template is not stopped"))
      else if negb (is_slot_free a machines)
      then mret (Err (worker_error_capacity "Tart VM capacity is unavailable"))
      else _ ←! ensure_name_free a machines; mret (Ok source)
  end.

(** The wait for a slot: a full host is tried again until the next pause would
    reach the deadline. *)
Definition ensure_can_clone (a : Allocation) (profile : Profile) (deadline : Z) :
    Fut T (result WorkerError CloneSource) :=
  _ ←! mret (ensure_owned a);
  let pause := from_secs (Z.max (rt_poll_seconds (tc_config c)) 1) in
  started ← host (answer th_now);
  poll_until (fun w => let '(t, h) := th_now (tw_host w) in (t, w <| tw_host := h |>))
    (fun d w => w <| tw_host := th_sleep d (tw_host w) |>)
    (now ← ensure_can_clone_now a profile;
     mret (match now with
           | Ok source => Ok (Some source)
           | Err error => if is_capacity error then Ok None else Err error
           end))
    (worker_error_capacity "Tart VM capacity is unavailable") pause
    (poll_fuel pause (deadline - started)) (deadline - pause).

(** ** The children of the pool ([worker/hot.rs]) *)

Definition pool_step {A} (f : gmap string bool -> A * gmap string bool) : Fut T A :=
  answer (fun w => let '(a, pool) := f (tw_pool w) in (a, w <| tw_pool := pool |>)).

(** Dropping a child kills its machine. *)
Definition drop_child (name : VmName) : Fut T unit :=
  host (answer (fun h => (tt, th_child_drop name h))).

(** The child a name already had is dropped when the new one replaces it. *)
Definition park (name : VmName) : Fut T unit :=
  replaced ← pool_step (fun pool => (bool_decide (is_Some (pool !! name)), <[name := false]> pool));
  if replaced : bool then drop_child name else mret tt.

Definition claim (name : VmName) : Fut T bool :=
  pool_step (fun pool =>
    match pool !! name with
    | Some _ => (true, <[name := true]> pool)
    | None => (false, pool)
    end).

Definition is_claimed (name : VmName) : Fut T bool :=
  pool_step (fun pool => (match pool !! name with Some claimed => claimed | None => false end, pool)).

Definition is_holding (name : VmName) : Fut T bool :=
  claimed ← is_claimed name;
  if claimed : bool then host (answer (th_child_alive name)) else mret false.

Definition release (name : VmName) : Fut T bool :=
  held ← pool_step (fun pool => (bool_decide (is_Some (pool !! name)), delete name pool));
  _ ← (if held : bool then drop_child name else mret tt);
  mret held.

Definition release_unclaimed (name : VmName) : Fut T bool :=
  dropped ← pool_step (fun pool =>
    match pool !! name with
    | Some false => (true, delete name pool)
    | _ => (false, pool)
    end);
  _ ← (if dropped : bool then drop_child name else mret tt);
  mret dropped.

Definition simulator_reset (reset : HotReset) : string :=
  match hr_simulator_reset reset with
  | ResetNone => "none" | ResetApps => "apps" | ResetErase => "erase"
  end.

Definition reset_hot {RC : ReportCodec} (guest : HotGuest) (reset : HotReset) :
    Fut T (result WorkerError unit) :=
  let budget := hr_budget reset in
  now ← host (answer th_now);
  address ←! address_of (hg_vm_name guest) (limit now budget (from_secs 30));
  _ ←! mret (ensure (th_is_ip address) (worker_error_new "guest IP address is structurally invalid"));
  output ←! timed (worker_error_new "the recycle gate exceeded its timeout")
    (fut_map_err (fun error => worker_error_new ("the recycle gate could not run: " +:+ error))
       (host (th_gate address (simulator_reset reset))));
  match go_exit output with
  | ECode code =>
      if go_is_truncated output
      then mret (Err (worker_error_new "the recycle verdict is oversized"))
      else match recycle_parse (go_stdout output) RECYCLE_CONTRACT_VERSION with
           | Err error =>
               mret (Err (worker_error_new (worker_message error +:+ " (gate exit " +:+ pretty code +:+ ")")))
           | Ok verdict =>
               if (code =? 0) && rv_is_clean verdict then mret (Ok tt)
               else mret (Err (worker_error_new (cause verdict)))
           end
  | _ => mret (Err (worker_error_new "the recycle gate was terminated by a signal"))
  end.

Definition retain_hot {RC : ReportCodec} (request : HotRetainRequest) :
    Fut T (result WorkerError unit) :=
  let name := hg_vm_name (hrr_guest request) in
  claimed ← claim name;
  if negb claimed
  then mret (Err (worker_error_new
         "this daemon does not hold the guest's process, so it cannot keep it"))
  else
    reset ← reset_hot (hrr_guest request) (hrr_reset request);
    match reset with
    | Err error => _ ← release name; mret (Err error)
    | Ok _ => mret (Ok tt)
    end.

Definition is_hot_alive (guest : HotGuest) : Fut T bool :=
  holding ← is_holding (hg_vm_name guest);
  if holding : bool then is_running_vm (hg_vm_name guest) else mret false.

Definition evict_hot (guest : HotGuest) (budget : CleanupBudget) : Fut T (result WorkerError unit) :=
  _ ←! mret (ensure_owned_name (hg_vm_name guest));
  _ ← release (hg_vm_name guest);
  timed (worker_error_new "hot guest eviction exceeded its timeout")
    (remove_named (hg_vm_name guest) "running").

(** ** The worker's calls ([worker/run.rs]) *)

Definition delete_vm (request : ReapRequest) : Fut T (result WorkerError unit) :=
  if bool_decide (rr_name request ∈ rr_reserved request)
  then mret (Err (worker_error_new "refusing to delete a name live configuration claims"))
  else match rr_authorization request with
  | ByRecord _ | ByPrefix =>
      _ ←! timed (worker_error_new "Tart reap deletion exceeded its budget")
             (delete_owned (rr_name request));
      match rr_allocation request with
      | Some a => _ ← host (th_delete_runner a); mret (Ok tt)
      | None => mret (Ok tt)
      end
  | ByStaging _ | ByImage _ =>
      if is_none (rr_profile request) && is_none (rr_record request)
      then mret (Err (worker_error_new
             "image deletion needs a profile or a record that claims the name"))
      else timed (worker_error_new "Tart image deletion exceeded its budget")
             (delete_image (rr_name request) (rr_profile request) (rr_record request))
  end.

Definition ensure_warm_restored (profile : Profile) (record : WarmImageRecord) :
    Fut T (result WorkerError unit) :=
  match previous_name record with
  | Err error => mret (Err (worker_error_new (identifier_text error)))
  | Ok previous =>
      absent ← is_absent previous;
      if absent : bool
      then mret (Err (worker_error_new
             "no warm image survives this profile; allocations boot cold"))
      else timed (worker_error_new "warm image restore exceeded its timeout")
             (clone_image previous (wi_warm_template record) profile None)
  end.

Definition cleanup (a : Allocation) (budget : CleanupBudget) : Fut T (result WorkerError unit) :=
  is_pooled ← (if is_hot_reuse (a_origin a) then mret true
               else _ ← release_unclaimed (a_vm_name a); is_claimed (a_vm_name a));
  vm_result ← (if is_pooled : bool then mret (Ok (Ok tt))
               else timed (worker_error_new "Tart cleanup exceeded its timeout")
                      (r ← remove_owned a; mret (Ok r)));
  match vm_result with
  | Err elapsed => mret (Err elapsed)
  | Ok vm_result =>
      runner_result ←! timed (worker_error_new "Forgejo cleanup exceeded its timeout")
        (r ← host (th_delete_runner a); mret (Ok r));
      mret (match vm_result, runner_result with
            | Ok _, Ok _ => Ok tt
            | Err vm, _ => Err vm
            | Ok _, Err runner => Err runner
            end)
  end.

(** [AllocationWorker::warm_availability] and [is_unclaimed_image], as the
    trait defaults them for a backend that addresses images by name. *)
Definition warm_availability (record : WarmImageRecord) (listing : Datatypes.list HostMachine) :
    WarmAvailability :=
  match List.find (fun m => bool_decide (hm_name m = wi_warm_template record)) listing with
  | None => WAbsent
  | Some m => if bool_decide (hm_state m = MStopped) then WReady else WBusy
  end.

Definition is_unclaimed_image (name : VmName) (listing : Datatypes.list HostMachine) : bool :=
  existsb (fun m => bool_decide (hm_name m = name)) listing.

(** A call as the manager sees it.  One that never answers, or during which
    the daemon dies, is over only with the daemon's process, and the children
    it held go with it. *)
Definition answered {A} (unanswered : A) (step : Fut T A) (w : T) : A * T :=
  match step w with
  | (Done a, w) => (a, w)
  | (_, w) => (unanswered, w <| tw_pool := ∅ |>)
  end.

Definition gone : WorkerError := WorkerFailed "the daemon is gone".

Definition of_host {A} (f : H -> A * H) (w : T) : A * T :=
  let '(a, h) := f (tw_host w) in (a, w <| tw_host := h |>).

Definition tart_backend {RC : ReportCodec} : Backend T := {|
  bk_unix_time := of_host (fun h => let '(t, h) := th_system_time h in (default 0 t, h));
  bk_instant := of_host th_now;
  bk_uuid := of_host th_uuid;
  bk_store_fault := of_host th_store_fault;
  bk_machines := answered (Err gone) tart_machines;
  bk_cleanup a budget := answered (Err gone, 0)
    (started ← host (answer th_now); r ← cleanup a budget; ended ← host (answer th_now);
     mret (r, sat_sub ended started));
  bk_base_fingerprint template := answered None (fingerprint template);
  bk_base_storage_mb _ source := answered None (base_storage_mb (cs_name source));
  bk_warm_availability _ record listing w := (Ok (warm_availability record listing), w);
  bk_is_unclaimed_image name listing w := (Ok (is_unclaimed_image name listing), w);
  bk_hot_retained request := answered (Err gone) (retain_hot request);
  bk_hot_reset guest reset := answered (Err gone) (reset_hot guest reset);
  bk_hot_live guest := answered false (is_hot_alive guest);
  bk_hot_evicted guest budget := answered (Err gone) (evict_hot guest budget);
  bk_warm_restored profile record := answered (Err gone) (ensure_warm_restored profile record);
  bk_delete_vm request := answered (Err gone) (delete_vm request);
  bk_recovered w := (Ok tt, w);
  bk_sweep_images _ w := (Ok [], w);
  bk_warm_images := true;
  bk_hot_guests := true;
  bk_clone_source_deferred := true;
|}.
End client.

(** ** What [tart] documents

    In terms of the machines of the host and the disk each has: a clone that
    succeeds gives its destination the source's disk; one that does not may
    have done so or not.  A delete that succeeds removes exactly the named
    machine.  A listing names exactly the machines there are.  Nothing else
    moves a disk or makes a machine come or go. *)

Class LawfulTart (H : Type) {TH : TartHost H} := {
  th_disks : H -> gmap string string;
  disks_clone : forall source destination h,
    let '(i, h') := th_run ["clone"; source; destination] h in
    (i <> Exited (Some 0) /\ th_disks h' = th_disks h) \/
    (exists disk, th_disks h !! source = Some disk /\
       th_disks h' = <[destination := disk]> (th_disks h));
  disks_delete : forall name h,
    let '(i, h') := th_run ["delete"; name] h in
    (i <> Exited (Some 0) /\ th_disks h' = th_disks h) \/
    th_disks h' = delete name (th_disks h);
  disks_stop : forall name h, th_disks (th_run ["stop"; name] h).2 = th_disks h;
  disks_set : forall arguments h, th_disks (th_run ("set" :: arguments) h).2 = th_disks h;
  disks_list : forall h,
    let '(listing, h') := th_list h in
    th_disks h' = th_disks h /\
    forall bytes machines, listing = Listed true bytes (Some machines) ->
      forall name, is_Some (th_disks h !! name) <-> name ∈ map mc_name machines;
  disks_child_drop : forall name h, th_disks (th_child_drop name h) = th_disks h;
  disks_ip : forall name h, th_disks (th_ip name h).2 = th_disks h;
  disks_child_alive : forall name h, th_disks (th_child_alive name h).2 = th_disks h;
  disks_metadata : forall path h, th_disks (th_metadata path h).2 = th_disks h;
  disks_system_time : forall h, th_disks (th_system_time h).2 = th_disks h;
  disks_now : forall h, th_disks (th_now h).2 = th_disks h;
  disks_sleep : forall d h, th_disks (th_sleep d h) = th_disks h;
  disks_gate : forall address reset h, th_disks (th_gate address reset h).2 = th_disks h;
  disks_marker : forall address h, th_disks (th_marker address h).2 = th_disks h;
  disks_delete_runner : forall a h, th_disks (th_delete_runner a h).2 = th_disks h;
  disks_image_lock : forall profile h, th_disks (th_image_lock profile h).2 = th_disks h;
  disks_uuid : forall h, th_disks (th_uuid h).2 = th_disks h;
  disks_store_fault : forall h, th_disks (th_store_fault h).2 = th_disks h;
}.

Definition disks {H} {TH : TartHost H} {LT : LawfulTart H} (w : TartWorld H) : gmap string string :=
  th_disks (tw_host w).

(** ** What each call may change *)

Section laws.
Context {H : Type} {TH : TartHost H} {LT : LawfulTart H} {RC : ReportCodec} (c : TartClient).
Local Abbreviation T := (TartWorld H).
Implicit Types (w : T) (I : T -> Prop).

(** What may happen to the host while [I] holds: nothing of its disks, the
    removal of one machine, or a new disk under one name. *)
Definition stable I : Prop :=
  forall w h, th_disks h = disks w -> I w -> I (w <| tw_host := h |>).
Definition removable (name : string) I : Prop :=
  forall w h, th_disks h = delete name (disks w) -> I w -> I (w <| tw_host := h |>).
Definition writable (name : string) I : Prop :=
  forall w h disk, th_disks h = <[name := disk]> (disks w) -> I w -> I (w <| tw_host := h |>).

Section step.
Context (I : T -> Prop) (st : stable I).

Lemma maintains_host {A} (step : Fut H A) :
  (forall h, th_disks (step h).2 = th_disks h) -> maintains I (host step).
Proof using st.
  intros Hd w Hw. apply wp_on. unfold wp. specialize (Hd (tw_host w)).
  destruct (step (tw_host w)) as [[] h]; simpl in *; by apply st.
Qed.

Lemma maintains_host_answer {A} (f : H -> A * H) :
  (forall h, th_disks (f h).2 = th_disks h) -> maintains I (host (answer f)).
Proof using st.
  intros Hd. apply maintains_host. intros h. unfold answer. specialize (Hd h). by destruct (f h).
Qed.

Lemma run_checked_host arguments w :
  exists o, run_checked arguments w =
    (o, w <| tw_host := (th_run arguments (tw_host w)).2 |>).
Proof.
  unfold run_checked, host, on.
  destruct (th_run arguments (tw_host w)) as [[[[| |]|]| | |] h]; simpl; eauto.
Qed.

Lemma maintains_run arguments :
  (forall w, I w -> I (w <| tw_host := (th_run arguments (tw_host w)).2 |>)) ->
  maintains I (run_checked arguments).
Proof.
  intros Hr w Hw. destruct (run_checked_host arguments w) as [o Ho]. unfold wp. rewrite Ho.
  destruct o; by apply Hr.
Qed.

Lemma maintains_stop name : maintains I (run_checked ["stop"; name]).
Proof using st. apply maintains_run. intros w Hw. apply st; [apply disks_stop|done]. Qed.

Lemma maintains_set arguments : maintains I (run_checked ("set" :: arguments)).
Proof using st. apply maintains_run. intros w Hw. apply st; [apply disks_set|done]. Qed.

Lemma maintains_delete name : removable name I -> maintains I (run_checked ["delete"; name]).
Proof using st.
  intros Hrm. apply maintains_run. intros w Hw. pose proof (disks_delete name (tw_host w)) as Hd.
  destruct (th_run _ _) as [i h]. simpl. destruct Hd as [[_ Hd]|Hd]; [by apply st | by apply Hrm].
Qed.

Lemma maintains_clone source name : writable name I -> maintains I (run_checked ["clone"; source; name]).
Proof using st.
  intros Hwr. apply maintains_run. intros w Hw. pose proof (disks_clone source name (tw_host w)) as Hd.
  destruct (th_run _ _) as [i h]. simpl.
  destruct Hd as [[_ Hd]|(disk & _ & Hd)]; [by apply st | by eapply Hwr].
Qed.

Lemma maintains_list_attempts retries : maintains I (list_attempts retries).
Proof using st.
  assert (forall h, th_disks (th_list h).2 = th_disks h) as Hl.
  { intros h. pose proof (disks_list h) as Hd. destruct (th_list h). by destruct Hd. }
  induction retries as [|retries IH]; simpl; (apply maintains_bind; [by apply maintains_host_answer|]);
    intros [? ? ?| | |]; try apply maintains_ret; try (by intros w Hw); try (case_match; apply maintains_ret).
  apply maintains_bind; [|done]. apply maintains_host_answer. intros h. apply disks_sleep.
Qed.

Lemma maintains_list : maintains I list.
Proof using st. apply maintains_list_attempts. Qed.

Lemma maintains_metadata path : maintains I (metadata path).
Proof using st. apply maintains_host_answer, disks_metadata. Qed.

Lemma maintains_now : maintains I (host (answer th_now)).
Proof using st. apply maintains_host_answer, disks_now. Qed.

Lemma maintains_drop_child name : maintains I (drop_child name).
Proof using st. apply maintains_host_answer, disks_child_drop. Qed.

Lemma maintains_delete_runner a : maintains I (host (th_delete_runner a)).
Proof using st. apply maintains_host, disks_delete_runner. Qed.

Lemma maintains_poll {A} (attempt : Fut T (result WorkerError (option A))) expired pause fuel deadline :
  maintains I attempt ->
  maintains I (poll_until (fun w => let '(t, h) := th_now (tw_host w) in (t, w <| tw_host := h |>))
    (fun d w => w <| tw_host := th_sleep d (tw_host w) |>) attempt expired pause fuel deadline).
Proof using st.
  intros Ha. induction fuel as [|fuel IH]; [by intros w Hw|]. simpl.
  apply maintains_try; [done|]. intros [a|]; [apply maintains_ret|].
  apply maintains_bind.
  { apply maintains_answer. intros w Hw. pose proof (disks_now (tw_host w)).
    destruct (th_now (tw_host w)). by apply st. }
  intros t. apply maintains_if; [apply maintains_ret|]. apply maintains_bind; [|done].
  apply maintains_answer. intros w Hw. apply st; [apply disks_sleep|done].
Qed.

Lemma maintains_is_absent name : maintains I (is_absent name).
Proof using st. apply maintains_bind; [apply maintains_list|]. intros. apply maintains_ret. Qed.

Lemma maintains_remove_named name state : removable name I -> maintains I (remove_named name state).
Proof using st.
  intros Hrm. apply maintains_bind.
  { apply maintains_if; [|apply maintains_ret].
    apply maintains_bind; [apply maintains_stop|]. intros. apply maintains_ret. }
  intros _. apply maintains_bind; [by apply maintains_delete|]. intros [[]|e]; [apply maintains_ret|].
  apply maintains_bind; [apply maintains_is_absent|]. intros. apply maintains_ret.
Qed.

Lemma maintains_delete_listed name : removable name I -> maintains I (delete_listed name).
Proof using st.
  intros Hrm. apply maintains_try; [apply maintains_list|]. intros machines.
  destruct (List.find _ _); [by apply maintains_remove_named | apply maintains_ret].
Qed.

(** A guard in front of a step: the step counts only where it passes. *)
Lemma maintains_guard {A E} (guard : result E unit) (k : unit -> Fut T (result E A)) :
  (guard = Ok tt -> maintains I (k tt)) -> maintains I (x ←! mret guard; k x).
Proof.
  intros Hk. destruct guard as [[]|e]; [|by intros w Hw].
  apply maintains_try; [apply maintains_ret|]. intros []. by apply Hk.
Qed.

Lemma maintains_delete_image name profile record :
  removable name I -> maintains I (delete_image c name profile record).
Proof using st. intros Hrm. apply maintains_guard. intros _. by apply maintains_delete_listed. Qed.

Lemma maintains_delete_owned name : removable name I -> maintains I (delete_owned c name).
Proof using st. intros Hrm. apply maintains_guard. intros _. by apply maintains_delete_listed. Qed.

Lemma maintains_remove_machine a state :
  removable (a_vm_name a) I -> maintains I (remove_machine c a state).
Proof using st. intros Hrm. apply maintains_guard. intros _. by apply maintains_remove_named. Qed.

Lemma maintains_remove_owned a : removable (a_vm_name a) I -> maintains I (remove_owned c a).
Proof using st.
  intros Hrm. apply maintains_guard. intros _. apply maintains_try; [apply maintains_list|].
  intros machines. destruct (List.find _ _); [by apply maintains_remove_machine | apply maintains_ret].
Qed.

Lemma ensure_image_writable_ok name profile record :
  ensure_image_writable c name profile record = Ok tt ->
  is_owned c name = false /\
  (forall p, profile = Some p -> name <> p_template p) /\
  ((exists p warm, profile = Some p /\ p_warm_template p = Some warm /\ name ∈ derived_names warm) \/
   (exists r, record = Some r /\ name ∈ derived_names (wi_warm_template r))).
Proof.
  unfold ensure_image_writable. destruct (is_owned c name); [done|].
  destruct (match profile with Some p => _ | None => false end) eqn:Ht; [done|].
  case_bool_decide as Hin; [|done]. intros _. split_and!; [done| |].
  - intros p ->. by simplify_bool.
  - apply elem_of_union in Hin as [Hin|Hin]; [left|right].
    + destruct profile as [p|]; simpl in Hin; [|done].
      destruct (p_warm_template p) as [warm|] eqn:Hw; simpl in Hin; [|done]. eauto 6.
    + destruct record as [r|]; [|done]. eauto.
Qed.

Lemma maintains_clone_image source name profile record :
  (is_owned c name = false -> writable name I) ->
  maintains I (clone_image c source name profile record).
Proof using st.
  intros Hwr. apply maintains_guard. intros [Ho _]%ensure_image_writable_ok.
  apply maintains_try; [apply maintains_if; apply maintains_ret|]. intros [].
  by apply maintains_clone, Hwr.
Qed.

Lemma maintains_polled {A} (attempt : Fut T (result WorkerError (option A))) expired timeout :
  maintains I attempt -> maintains I (polled c attempt expired timeout).
Proof using st.
  intros Ha. apply maintains_bind; [apply maintains_now|]. intros. by apply maintains_poll.
Qed.

Lemma maintains_address_of name timeout : maintains I (address_of c name timeout).
Proof using st.
  apply maintains_guard. intros _. apply maintains_polled.
  apply maintains_bind; [apply maintains_host, disks_ip|]. intros. apply maintains_ret.
Qed.

Lemma maintains_reset_hot guest reset : maintains I (reset_hot c guest reset).
Proof using st.
  apply maintains_bind; [apply maintains_now|]. intros now.
  apply maintains_try; [apply maintains_address_of|]. intros address.
  apply maintains_guard. intros _. apply maintains_try.
  { apply maintains_timed, maintains_map_err, maintains_host, disks_gate. }
  intros output. destruct (go_exit output); try apply maintains_ret.
  apply maintains_if; [apply maintains_ret|].
  destruct (recycle_parse _ _) as [v|[]]; try apply maintains_ret. apply maintains_if; apply maintains_ret.
Qed.

Lemma maintains_is_running_vm name : maintains I (is_running_vm name).
Proof using st. apply maintains_bind; [apply maintains_list|]. intros. apply maintains_ret. Qed.

Lemma maintains_age name : maintains I (machine_age_seconds c name).
Proof using st.
  unfold machine_age_seconds. destruct (library_vm_directory c name); [|apply maintains_ret].
  apply maintains_bind; [apply maintains_metadata|]. intros [m|]; [|apply maintains_ret].
  apply maintains_bind; [apply maintains_host_answer, disks_system_time|]. intros. apply maintains_ret.
Qed.

Lemma maintains_machines : maintains I (tart_machines c).
Proof using st.
  apply maintains_try; [apply maintains_list|]. intros machines.
  apply maintains_bind; [|intros; apply maintains_ret].
  induction machines as [|m machines IH]; [apply maintains_ret|]. simpl.
  apply maintains_bind; [apply maintains_age|]. intros age.
  apply maintains_bind; [done|]. intros. apply maintains_ret.
Qed.

Lemma maintains_fingerprint template : maintains I (fingerprint c template).
Proof using st.
  assert (forall path, maintains I (file_stat path)) as Hf.
  { intros. apply maintains_bind; [apply maintains_metadata|]. intros. apply maintains_ret. }
  unfold fingerprint. destruct (vm_directory c template); [|apply maintains_ret].
  apply maintains_bind; [apply Hf|]. intros [disk|]; [|apply maintains_ret].
  apply maintains_bind; [apply Hf|]. intros. apply maintains_ret.
Qed.

Lemma maintains_storage name : maintains I (base_storage_mb c name).
Proof using st.
  apply maintains_bind; [|intros; apply maintains_ret].
  unfold disk_bytes. destruct (library_vm_directory c name); [|apply maintains_ret].
  apply maintains_bind; [apply maintains_metadata|]. intros. apply maintains_ret.
Qed.

Lemma maintains_delete_vm request :
  removable (rr_name request) I -> maintains I (delete_vm c request).
Proof using st.
  intros Hrm. unfold delete_vm. case_bool_decide; [apply maintains_ret|].
  destruct (rr_authorization request);
    try (apply maintains_if; [apply maintains_ret | by apply maintains_timed, maintains_delete_image]);
    (apply maintains_try; [by apply maintains_timed, maintains_delete_owned|]; intros _;
     destruct (rr_allocation request); [|apply maintains_ret];
     apply maintains_bind; [apply maintains_delete_runner | intros; apply maintains_ret]).
Qed.

Lemma maintains_warm_restored profile record :
  (is_owned c (wi_warm_template record) = false -> writable (wi_warm_template record) I) ->
  maintains I (ensure_warm_restored c profile record).
Proof using st.
  intros Hwr. unfold ensure_warm_restored. destruct (previous_name record); [|apply maintains_ret].
  apply maintains_bind; [apply maintains_is_absent|]. intros absent.
  apply maintains_if; [apply maintains_ret|]. by apply maintains_timed, maintains_clone_image.
Qed.
End step.

(** *** What the daemon holds *)

Definition shrinks I : Prop :=
  forall w pool, pool ⊆ tw_pool w -> I w -> I (w <| tw_pool := pool |>).

Section shrink.
Context (I : T -> Prop) (st : stable I) (sh : shrinks I).

Lemma maintains_pool_step {A} (f : gmap string bool -> A * gmap string bool) :
  (forall pool, (f pool).2 ⊆ pool) -> maintains I (pool_step f).
Proof using sh.
  intros Hf. apply maintains_answer. intros w Hw. specialize (Hf (tw_pool w)).
  destruct (f (tw_pool w)). by apply sh.
Qed.

Lemma maintains_is_claimed name : maintains I (is_claimed name).
Proof using sh. by apply maintains_pool_step. Qed.

Lemma maintains_release name : maintains I (release name).
Proof using st sh.
  apply maintains_bind; [apply maintains_pool_step; intros; apply delete_subseteq|].
  intros held. apply maintains_bind; [|intros; apply maintains_ret].
  apply maintains_if; [by apply maintains_drop_child | apply maintains_ret].
Qed.

Lemma maintains_release_unclaimed name : maintains I (release_unclaimed name).
Proof using st sh.
  apply maintains_bind.
  { apply maintains_pool_step. intros pool. destruct (pool !! name) as [[]|]; try done.
    apply delete_subseteq. }
  intros dropped. apply maintains_bind; [|intros; apply maintains_ret].
  apply maintains_if; [by apply maintains_drop_child | apply maintains_ret].
Qed.

Lemma maintains_is_hot_alive guest : maintains I (is_hot_alive guest).
Proof using st sh.
  apply maintains_bind.
  - apply maintains_bind; [apply maintains_is_claimed|]. intros claimed.
    apply maintains_if; [|apply maintains_ret]. apply maintains_host_answer; [done|].
    apply disks_child_alive.
  - intros holding. apply maintains_if; [by apply maintains_is_running_vm | apply maintains_ret].
Qed.

Lemma maintains_evict_hot guest budget :
  removable (hg_vm_name guest) I -> maintains I (evict_hot c guest budget).
Proof using st sh.
  intros Hrm. apply maintains_guard. intros _. apply maintains_bind; [apply maintains_release|].
  intros _. by apply maintains_timed, maintains_remove_named.
Qed.

Lemma maintains_cleanup a budget : removable (a_vm_name a) I -> maintains I (cleanup c a budget).
Proof using st sh.
  intros Hrm. apply maintains_bind.
  { apply maintains_if; [apply maintains_ret|].
    apply maintains_bind; [apply maintains_release_unclaimed|]. intros _. apply maintains_is_claimed. }
  intros is_pooled. apply maintains_bind.
  { apply maintains_if; [apply maintains_ret|]. apply maintains_timed, maintains_bind;
      [by apply maintains_remove_owned | intros; apply maintains_ret]. }
  intros [vm_result|e]; [|apply maintains_ret]. apply maintains_try; [|intros; apply maintains_ret].
  apply maintains_timed, maintains_bind; [by apply maintains_delete_runner | intros; apply maintains_ret].
Qed.

(** A call as the manager sees it keeps what the step keeps. *)
Lemma answered_maintains {A} (u : A) (step : Fut T A) w :
  maintains I step -> I w -> I (answered u step w).2.
Proof using sh.
  intros Hm Hw. specialize (Hm w Hw). unfold wp in Hm. unfold answered.
  destruct (step w) as [[] w']; simpl; try done; (apply sh; [apply map_empty_subseteq | done]).
Qed.
End shrink.

(** ** The listing *)

(** Neither a disk nor a child moved. *)
Definition same w0 w : Prop := disks w = disks w0 /\ tw_pool w = tw_pool w0.

Lemma same_stable w0 : stable (same w0).
Proof. intros w h Hh [Hd Hp]. split; [|done]. transitivity (disks w); [exact Hh | exact Hd]. Qed.

(** What a listing answers is what the host has. *)
Lemma wp_list w :
  wp list (fun r w' => same w w' /\
      forall machines, r = Ok machines ->
        forall name, is_Some (disks w' !! name) <-> name ∈ map mc_name machines)
    (fun _ => False) (same w) w.
Proof.
  assert (forall retries w0, same w w0 -> wp (list_attempts retries) (fun r w' => same w w' /\
      forall machines, r = Ok machines ->
        forall name, is_Some (disks w' !! name) <-> name ∈ map mc_name machines)
    (fun _ => False) (same w) w0) as Hl; [|by apply Hl].
  intros retries. induction retries as [|retries IH]; intros w0 H0; simpl;
    apply wp_bind, wp_on, wp_answer; pose proof (disks_list (tw_host w0)) as Hd;
    destruct (th_list (tw_host w0)) as [listing h]; simpl; destruct Hd as [Hh Hn];
    pose proof (same_stable w w0 h Hh H0) as H1;
    destruct listing as [is_success bytes decoded| | |]; try exact H1; try (by split).
  1, 2: destruct (negb is_success || _) eqn:Hb; [by split|]; apply wp_ret; split; [done|];
    intros machines Hok name; apply ok_or_ok in Hok as ->; destruct is_success; [|done];
    unfold disks; simpl; rewrite Hh; by eapply Hn.
  apply wp_bind, wp_on, wp_answer. apply IH. apply same_stable; [apply disks_sleep|done].
Qed.

Lemma wp_is_absent name w :
  wp (is_absent name) (fun absent w' => same w w' /\ (absent = true -> disks w !! name = None))
    (fun _ => False) (same w) w.
Proof.
  apply wp_bind. eapply wp_mono; [apply wp_list| |done|done]. intros r w' [Hs Hn]. apply wp_ret.
  split; [done|]. destruct r as [machines|]; [|done]. intros Hneg. simplify_bool.
  destruct Hs as [Hd _]. rewrite <- Hd. apply eq_None_not_Some. rewrite (Hn _ eq_refl).
  intros (m & -> & Hm)%list_elem_of_fmap. rewrite <- not_true_iff_false in Hneg. apply Hneg.
  apply existsb_exists. exists m. split; [by apply list_elem_of_In|]. by apply bool_decide_eq_true.
Qed.

(** ** Images: what a deletion and a clone leave *)

(** One [tart] command, by how it ends. *)
Lemma wp_run arguments Q D C w :
  (let '(i, h) := th_run arguments (tw_host w) in
   let w' := w <| tw_host := h |> in
   match i with
   | Exited code => if bool_decide (code = Some 0) then Q (Ok tt) w' else forall e, Q (Err e) w'
   | NotInvoked => forall e, Q (Err e) w'
   | Unanswered _ => D w'
   | Died => C w'
   end) ->
  wp (run_checked arguments) Q D C w.
Proof.
  unfold run_checked, wp, host, on.
  by destruct (th_run arguments (tw_host w)) as [[[[| |]|]| | |] h]; simpl.
Qed.

(** At most the named machine is gone; for a success it is. *)
Definition cleared (name : string) w w' : Prop :=
  disks w' = disks w \/ disks w' = delete name (disks w).

Lemma wp_remove_named name state w :
  wp (remove_named name state)
    (fun r w' => match r with Ok _ => disks w' = delete name (disks w) | Err _ => cleared name w w' end)
    (cleared name w) (cleared name w) w.
Proof.
  assert (maintains (fun w' => disks w' = disks w)
    (if eq_ignore_ascii_case state "running"
     then _ ← run_checked ["stop"; name]; mret tt else mret tt)) as Hstop.
  { apply maintains_if; [|apply maintains_ret]. apply maintains_bind; [|intros; apply maintains_ret].
    apply maintains_stop. intros w' h Hh Hw'. by transitivity (disks w'). }
  apply wp_bind. eapply wp_mono; [by apply Hstop| |by left|by left]. intros ? w2 H2.
  apply wp_bind, wp_run. pose proof (disks_delete name (tw_host w2)) as Hdel.
  destruct (th_run _ _) as [i h]. fold (disks w2) in Hdel. rewrite H2 in Hdel.
  assert (cleared name w (w2 <| tw_host := h |>)) as Hc.
  { destruct Hdel as [[_ Hh]|Hh]; [left|right]; exact Hh. }
  assert (forall e : WorkerError, wp
    (absent ← is_absent name; mret (if absent : bool then Ok tt else Err e))
    (fun r w' => match r with Ok _ => disks w' = delete name (disks w) | Err _ => cleared name w w' end)
    (cleared name w) (cleared name w) (w2 <| tw_host := h |>)) as Herr.
  { intros e. apply wp_bind. eapply wp_mono; [apply wp_is_absent| |done|].
    - intros absent w3 [[Hd3 _] Habs]. apply wp_ret. unfold cleared in *. rewrite Hd3.
      destruct absent; [|done]. destruct Hc as [Hc|Hc]; [|done].
      rewrite Hc. symmetry. apply delete_id. rewrite <- Hc. by apply Habs.
    - intros w3 [Hd3 _]. unfold cleared in *. by rewrite Hd3. }
  destruct i as [code| | |]; try done. case_bool_decide as Hcode; [|done].
  apply wp_ret. destruct Hdel as [[Hne _]|Hh]; [by subst|exact Hh].
Qed.

Lemma wp_delete_listed name w :
  wp (delete_listed name)
    (fun r w' => match r with Ok _ => disks w' = delete name (disks w) | Err _ => cleared name w w' end)
    (cleared name w) (cleared name w) w.
Proof.
  assert (forall w1, same w w1 -> cleared name w w1) as Hsame by (intros w1 [? _]; by left).
  apply wp_try. eapply wp_mono; [apply wp_list| |done|done]. intros [machines|e] w1 [Hs Hn]; [|auto].
  destruct Hs as [Hd _]. destruct (List.find (is_named name) machines) as [m|] eqn:Hf; cycle 1.
  { apply wp_ret. rewrite Hd, delete_id; [done|]. rewrite <- Hd. apply eq_None_not_Some.
    rewrite (Hn _ eq_refl). intros (m & -> & Hm)%list_elem_of_fmap.
    apply list_elem_of_In in Hm. pose proof (List.find_none _ _ Hf _ Hm) as Hnone.
    unfold is_named in Hnone. by simplify_bool. }
  unfold cleared. rewrite <- Hd. apply wp_remove_named.
Qed.

Lemma wp_delete_image name profile record w :
  wp (delete_image c name profile record)
    (fun r w' => match r with Ok _ => disks w' = delete name (disks w) | Err _ => cleared name w w' end)
    (cleared name w) (cleared name w) w.
Proof.
  apply wp_try, wp_ret. destruct (ensure_image_writable _ _ _ _) as [[]|e]; [|by left].
  apply wp_delete_listed.
Qed.

(** At most the destination took the source's disk; for a success it did. *)
Definition copied (source destination : string) w w' : Prop :=
  is_owned c destination = false /\
  exists disk, disks w !! source = Some disk /\ disks w' = <[destination := disk]> (disks w).

Lemma wp_clone_image source destination profile record w :
  wp (clone_image c source destination profile record)
    (fun r w' => match r with
                 | Ok _ => copied source destination w w'
                 | Err _ => disks w' = disks w \/ copied source destination w w'
                 end)
    (fun w' => disks w' = disks w \/ copied source destination w w')
    (fun w' => disks w' = disks w \/ copied source destination w w') w.
Proof.
  apply wp_try, wp_ret.
  destruct (ensure_image_writable c destination _ _) as [[]|e] eqn:Hdst; [|by left].
  apply ensure_image_writable_ok in Hdst as [Ho _]. apply wp_try.
  assert (forall r : result WorkerError unit, wp (mret r) (fun r' w' =>
    match r' with
    | Ok _ => wp (run_checked ["clone"; source; destination])
       (fun r w' => match r with
                 | Ok _ => copied source destination w w'
                 | Err _ => disks w' = disks w \/ copied source destination w w'
                 end)
       (fun w' => disks w' = disks w \/ copied source destination w w')
       (fun w' => disks w' = disks w \/ copied source destination w w') w'
    | Err e => disks w' = disks w \/ copied source destination w w'
    end) (fun w' => disks w' = disks w \/ copied source destination w w')
    (fun w' => disks w' = disks w \/ copied source destination w w') w) as Hgo;
    [|destruct (is_owned c source); apply Hgo].
  intros [[]|e]; apply wp_ret; [|by left].
  apply wp_run. pose proof (disks_clone source destination (tw_host w)) as Hcl.
  destruct (th_run _ _) as [i h].
  assert (i <> Exited (Some 0) /\ disks (w <| tw_host := h |>) = disks w \/
    copied source destination w (w <| tw_host := h |>)) as Hall.
  { destruct Hcl as [Hcl|(disk & Hsrc & Hh)]; [by left|right]. split; [done|]. by exists disk. }
  destruct i as [code| | |]; [|naive_solver..].
  case_bool_decide as Hcode; [subst code; naive_solver | naive_solver].
Qed.

(** ** The contract of a host ([HostBackend]) *)

Definition alive_on (name : string) (w : T) : Prop := is_Some (disks w !! name).

Lemma alive_stable name : stable (alive_on name).
Proof. intros w h Hh Hw. unfold alive_on, disks in *. simpl. by rewrite Hh. Qed.

Lemma alive_shrinks name : shrinks (alive_on name).
Proof. by intros w pool _ Hw. Qed.

Lemma alive_removable name other : other <> name -> removable other (alive_on name).
Proof.
  intros Hne w h Hh Hw. unfold alive_on, disks in *. simpl. by rewrite Hh, lookup_delete_ne.
Qed.

Lemma alive_writable name other : writable other (alive_on name).
Proof.
  intros w h disk Hh Hw. unfold alive_on, disks in *. simpl. rewrite Hh.
  destruct (decide (other = name)) as [->|Hne].
  - rewrite lookup_insert_eq. eauto.
  - by rewrite lookup_insert_ne.
Qed.

Lemma of_host_stable {A} I (f : H -> A * H) w :
  stable I -> (forall h, th_disks (f h).2 = th_disks h) -> I w -> I (of_host f w).2.
Proof.
  intros st Hf Hw. unfold of_host. specialize (Hf (tw_host w)). destruct (f (tw_host w)). by apply st.
Qed.

Definition tart_host_backend : @HostBackend T (tart_backend c).
Proof using LT.
  refine {| alive := alive_on |}.
  - intros n r w Hne. apply answered_maintains; [apply alive_shrinks|].
    apply maintains_delete_vm; [apply alive_stable | by apply alive_removable].
  - intros n g b w Hne. apply answered_maintains; [apply alive_shrinks|].
    apply maintains_evict_hot; [apply alive_stable | apply alive_shrinks | by apply alive_removable].
  - intros n w. apply answered_maintains; [apply alive_shrinks | apply maintains_machines, alive_stable].
  - intros n w. apply of_host_stable; [apply alive_stable|]. intros h.
    pose proof (disks_system_time h). by destruct (th_system_time h).
  - intros n w. apply of_host_stable; [apply alive_stable | apply disks_store_fault].
  - intros n t w. apply answered_maintains; [apply alive_shrinks|].
    apply maintains_fingerprint, alive_stable.
  - done.
Defined.

(** ** The contract of the pool ([PoolBackend]) *)

(** The machines of the service's prefix that are on the host and whose child
    the pool claimed. *)
Definition held_by (w : T) : gset string :=
  filter (fun name => tw_pool w !! name = Some true /\ is_owned c name = true) (dom (disks w)).

Definition held_within (names : gset string) (w : T) : Prop := held_by w ⊆ names.

Lemma elem_of_held name w :
  name ∈ held_by w <->
  tw_pool w !! name = Some true /\ is_owned c name = true /\ is_Some (disks w !! name).
Proof. unfold held_by. rewrite elem_of_filter, elem_of_dom. naive_solver. Qed.

Lemma held_stable names : stable (held_within names).
Proof.
  intros w h Hh Hw name Hin. apply Hw. rewrite elem_of_held in *. unfold disks in *. simpl in *.
  by rewrite Hh in Hin.
Qed.

Lemma held_shrinks names : shrinks (held_within names).
Proof.
  intros w pool Hp Hw name Hin. apply Hw. rewrite elem_of_held in *. simpl in Hin.
  destruct Hin as (Hn & Ho & Hd). split_and!; [|done|done]. by eapply lookup_weaken.
Qed.

Lemma held_removable names other : removable other (held_within names).
Proof.
  intros w h Hh Hw name Hin. apply Hw. rewrite elem_of_held in *. unfold disks in *. simpl in *.
  rewrite Hh in Hin. destruct Hin as (Hn & Ho & Hd). split_and!; [done|done|].
  destruct Hd as [d Hd]. exists d. by apply lookup_delete_Some in Hd as [_ ?].
Qed.

Lemma held_writable names other : is_owned c other = false -> writable other (held_within names).
Proof.
  intros Hno w h disk Hh Hw name Hin. apply Hw. rewrite elem_of_held in *. unfold disks in *.
  simpl in *. rewrite Hh in Hin. destruct Hin as (Hn & Ho & Hd). split_and!; [done|done|].
  rewrite lookup_insert_ne in Hd; [done|]. intros ->. congruence.
Qed.

Lemma held_empty names w : held_within names (w <| tw_pool := ∅ |>).
Proof. intros name Hin. apply elem_of_held in Hin as [Hin _]. simpl in Hin. by rewrite lookup_empty in Hin. Qed.

(** A call as the manager sees it, by what the step's answer promises. *)
Lemma answered_post {A} (u : A) (step : Fut T A) (Q : A -> T -> Prop) w :
  wp step Q (fun _ => True) (fun _ => True) w -> (forall w, Q u (w <| tw_pool := ∅ |>)) ->
  Q (answered u step w).1 (answered u step w).2.
Proof.
  unfold wp, answered. destruct (step w) as [[] w']; simpl; [done|intros _ Hu; apply Hu..].
Qed.

(** Releasing a machine takes it out. *)
Lemma wp_release name names w :
  held_within names w ->
  wp (release name) (fun _ => held_within (names ∖ {[ name ]})) (fun _ => True) (fun _ => True) w.
Proof.
  intros Hw. apply wp_bind, wp_answer, wp_bind. simpl.
  assert (held_within (names ∖ {[ name ]}) (w <| tw_pool := delete name (tw_pool w) |>)) as Hd.
  { intros n Hn. apply elem_of_difference. split.
    - eapply held_shrinks; [|exact Hw|exact Hn]. apply delete_subseteq.
    - apply elem_of_held in Hn as [Hn _]. simpl in Hn. rewrite elem_of_singleton. intros ->.
      by rewrite lookup_delete_eq in Hn. }
  case_bool_decide; [|done].
  eapply wp_mono; [apply (maintains_drop_child _ (held_stable (names ∖ {[ name ]}))), Hd|done..].
Qed.

Lemma wp_evict_hot guest budget w :
  wp (evict_hot c guest budget) (fun r => held_within
      match r with Ok _ => held_by w ∖ {[ hg_vm_name guest ]} | Err _ => held_by w end)
    (fun _ => True) (fun _ => True) w.
Proof.
  unfold evict_hot. destruct (ensure_owned_name c (hg_vm_name guest)) as [[]|e];
    [|by apply wp_try, wp_ret; unfold held_within].
  apply wp_try, wp_ret, wp_bind.
  eapply wp_mono; [by apply (wp_release _ (held_by w)); unfold held_within| |done|done]. intros ? w1 H1.
  assert (forall w', held_within (held_by w ∖ {[ hg_vm_name guest ]}) w' -> held_within (held_by w) w')
    as Hweak by (intros w' Hw'; unfold held_within in *; set_solver).
  apply wp_timed.
  eapply wp_mono; [apply (maintains_remove_named _ (held_stable (held_by w ∖ {[ hg_vm_name guest ]}))), H1; apply held_removable| | |done].
  - intros [] w' Hw'; eauto.
  - eauto.
Qed.

Lemma wp_retain_hot request w :
  let name := hg_vm_name (hrr_guest request) in
  wp (retain_hot c request) (fun r => held_within
      match r with Ok _ => {[ name ]} ∪ held_by w | Err _ => held_by w ∖ {[ name ]} end)
    (fun _ => True) (fun _ => True) w.
Proof.
  intros name. apply wp_bind, wp_answer. fold name. destruct w as [h pool]. simpl.
  destruct (pool !! name) as [b|] eqn:Hn; simpl.
  - assert (held_within ({[ name ]} ∪ held_by (mkTartWorld h pool))
      (mkTartWorld h pool <| tw_pool := <[name := true]> pool |>)) as H1.
    { intros n Hin. apply elem_of_held in Hin as (Hp & Ho & Hd). simpl in Hp.
      destruct (decide (n = name)) as [->|Hne]; [set_solver|].
      apply elem_of_union_r, elem_of_held. by rewrite lookup_insert_ne in Hp. }
    apply wp_bind. eapply wp_mono; [eapply (maintains_reset_hot _ (held_stable _)), H1| |done|done].
    intros [[]|e] w2 H2; [done|]. apply wp_bind.
    eapply wp_mono; [apply (wp_release name _ _ H2)| |done|done].
    intros ? w3 H3. apply wp_ret. unfold held_within in *. set_solver.
  - intros n Hin. apply elem_of_difference. split; [done|]. rewrite elem_of_singleton. intros ->.
    apply elem_of_held in Hin as [Hp _]. simpl in Hp. congruence.
Qed.

Lemma wp_host_machines_of machines w0 w :
  same w0 w ->
  wp (host_machines_of c machines)
    (fun described w' => same w0 w' /\ map hm_name described = map mc_name machines)
    (fun _ => True) (fun _ => True) w.
Proof.
  revert w. induction machines as [|m machines IH]; intros w Hw; [by split|]. apply wp_bind.
  eapply wp_mono; [apply (maintains_age _ (same_stable w0)), Hw| |done|done]. intros age w1 H1.
  apply wp_bind. eapply wp_mono; [apply (IH w1 H1)| |done|done]. intros described w2 [H2 Hd].
  apply wp_ret. split; [done|]. simpl. by rewrite Hd.
Qed.

Lemma wp_machines w :
  wp (tart_machines c) (fun r w' => forall machines, r = Ok machines ->
      forall name, is_Some (disks w' !! name) -> name ∈ map hm_name machines)
    (fun _ => True) (fun _ => True) w.
Proof.
  apply wp_try. eapply wp_mono; [apply wp_list| |done|done]. intros [machines|e] w1 [Hs Hn]; [|done].
  apply wp_bind. eapply wp_mono; [apply (wp_host_machines_of machines w), Hs| |done|done].
  intros described w2 [[Hd2 _] Hmap]. apply wp_ret. intros ? [= <-] name Hin. rewrite Hmap.
  apply (Hn _ eq_refl). destruct Hs as [Hd1 _]. by rewrite Hd1, <- Hd2.
Qed.

Lemma held_call {A} (u : A) (step : Fut T A) w :
  maintains (held_within (held_by w)) step -> held_by (answered u step w).2 ⊆ held_by w.
Proof.
  intros Hm. apply (answered_maintains (held_within (held_by w))); [apply held_shrinks|done|].
  by unfold held_within.
Qed.

Lemma held_host_call {A} (f : H -> A * H) w :
  (forall h, th_disks (f h).2 = th_disks h) -> held_by (of_host f w).2 ⊆ held_by w.
Proof.
  intros Hf. apply (of_host_stable (held_within (held_by w))); [apply held_stable|done|].
  by unfold held_within.
Qed.

(** A deletion or an eviction that answers success has removed the disk. *)
Lemma wp_delete_vm_gone request w :
  wp (delete_vm c request) (fun r w' => r = Ok tt -> disks w' !! rr_name request = None)
    (fun _ => True) (fun _ => True) w.
Proof.
  unfold delete_vm. case_bool_decide; [by apply wp_ret|].
  assert (forall e (step : Fut T (result WorkerError unit)),
    wp step (fun r w' => match r with Ok _ => disks w' = delete (rr_name request) (disks w)
                         | Err _ => cleared (rr_name request) w w' end)
      (cleared (rr_name request) w) (cleared (rr_name request) w) w ->
    wp (timed e step) (fun r w' => r = Ok tt -> disks w' !! rr_name request = None)
      (fun _ => True) (fun _ => True) w) as Htimed.
  { intros e step Hstep. apply wp_timed. eapply wp_mono; [exact Hstep| |done|done].
    intros r w' Hr ->. rewrite Hr. apply lookup_delete_eq. }
  assert (forall e, wp (timed e (delete_owned c (rr_name request)))
    (fun r w' => r = Ok tt -> disks w' !! rr_name request = None) (fun _ => True) (fun _ => True) w) as Howned.
  { intros e. apply Htimed, wp_try, wp_ret. destruct (ensure _ _) as [[]|]; [apply wp_delete_listed|by left]. }
  destruct (rr_authorization request).
  1, 4: apply wp_try; eapply wp_mono; [apply Howned| |done|done]; intros [[]|e] w1 H1; [|done];
    specialize (H1 eq_refl); destruct (rr_allocation request); [|by apply wp_ret]; apply wp_bind;
    eapply wp_mono; [apply (maintains_delete_runner (fun w => disks w !! rr_name request = None)); [|exact H1]| |done|done];
    [by intros w2 h Hh Hw2; unfold disks in *; simpl; rewrite Hh|]; intros ? w2 H2; by apply wp_ret.
  all: destruct (_ && _); [by apply wp_ret|]; apply Htimed, wp_delete_image.
Qed.

Lemma wp_evict_hot_gone guest budget w :
  wp (evict_hot c guest budget) (fun r w' => r = Ok tt -> disks w' !! hg_vm_name guest = None)
    (fun _ => True) (fun _ => True) w.
Proof.
  unfold evict_hot. destruct (ensure_owned_name c (hg_vm_name guest)) as [[]|e]; [|by apply wp_try, wp_ret].
  apply wp_try, wp_ret, wp_bind.
  eapply wp_mono; [by apply (wp_release _ (held_by w)); unfold held_within| |done|done]. intros ? w1 _.
  apply wp_timed. eapply wp_mono; [apply wp_remove_named| |done|done].
  intros r w' Hr ->. rewrite Hr. apply lookup_delete_eq.
Qed.

Definition tart_pool_backend : @PoolBackend T (tart_backend c).
Proof using LT.
  refine {| held := held_by |}; [.. | | ]; intros; try done.
  - apply (answered_post _ _ (fun r => held_within
      match r with Ok _ => held_by w ∖ {[ hg_vm_name g ]} | Err _ => held_by w end));
      [apply wp_evict_hot | intros; apply held_empty].
  - apply (answered_post _ _ (fun x => held_within
      match x with Ok _ => {[ hg_vm_name (hrr_guest r) ]} ∪ held_by w
      | Err _ => held_by w ∖ {[ hg_vm_name (hrr_guest r) ]} end));
      [apply wp_retain_hot | intros; apply held_empty].
  - revert n H1. revert H0.
    apply (answered_post (Err gone) (tart_machines c) (fun r w' => r = Ok machines ->
      forall n, n ∈ held_by w' -> n ∈ map hm_name machines)); [|by intros].
    eapply wp_mono; [apply wp_machines| |done|done]. intros r w' Hr Hok n Hn.
    apply (Hr _ Hok). by apply elem_of_held in Hn as (_ & _ & ?).
  - apply held_call, maintains_machines, held_stable.
  - apply held_host_call. intros h. pose proof (disks_system_time h). by destruct (th_system_time h).
  - apply held_host_call, disks_now.
  - apply held_host_call, disks_uuid.
  - apply held_host_call, disks_store_fault.
  - apply held_call. apply maintains_bind; [apply maintains_now, held_stable|]. intros started.
    apply maintains_bind.
    { apply maintains_cleanup; [apply held_stable | apply held_shrinks | apply held_removable]. }
    intros result. apply maintains_bind; [apply maintains_now, held_stable|].
    intros. apply maintains_ret.
  - apply held_call, maintains_fingerprint, held_stable.
  - apply held_call, maintains_storage, held_stable.
  - apply held_call, maintains_reset_hot, held_stable.
  - apply held_call, maintains_is_hot_alive; [apply held_stable | apply held_shrinks].
  - apply held_call, maintains_warm_restored; [apply held_stable | apply held_writable].
  - apply held_call, maintains_delete_vm; [apply held_stable | apply held_removable].
Defined.
End laws.

(** ** Properties *)

Section contracts.
Context {H : Type} {TH : TartHost H} {LT : LawfulTart H} {RC : ReportCodec} (c : TartClient).
Local Abbreviation T := (TartWorld H).
Implicit Types w : T.

(** C32: on a host where [tart] does what it documents, the Tart backend keeps
    what the manager relies on.  It implements the pool's contract, where the
    machines held are those of the service's prefix that are on the host with
    a claimed child: only keeping a machine adds to them, and an eviction that
    succeeds takes its own away.  It implements the host's contract, where a
    machine is alive while the host has its disk: a deletion or an eviction
    destroys no other machine than the one it names, and the clocks, listings
    and image calls of a sweep none.  And a deletion or an eviction that
    answers success has destroyed its machine. *)
Theorem tart_keeps_contracts :
  (exists PB : @PoolBackend T (tart_backend c), forall w name,
     name ∈ @held T (tart_backend c) PB w <->
     tw_pool w !! name = Some true /\ is_owned c name = true /\ is_Some (disks w !! name)) /\
  (exists HB : @HostBackend T (tart_backend c), forall name w,
     @alive T (tart_backend c) HB name w <-> is_Some (disks w !! name)) /\
  (forall request w, (@bk_delete_vm T (tart_backend c) request w).1 = Ok tt ->
     disks (@bk_delete_vm T (tart_backend c) request w).2 !! rr_name request = None) /\
  (forall guest budget w, (@bk_hot_evicted T (tart_backend c) guest budget w).1 = Ok tt ->
     disks (@bk_hot_evicted T (tart_backend c) guest budget w).2 !! hg_vm_name guest = None).
Proof.
  split_and!.
  - exists (tart_pool_backend c). intros w name. apply elem_of_held.
  - by exists (tart_host_backend c).
  - intros request w. simpl. apply (answered_post _ _ (fun r w' => r = Ok tt -> disks w' !! rr_name request = None));
      [apply wp_delete_vm_gone|done].
  - intros guest budget w. simpl.
    apply (answered_post _ _ (fun r w' => r = Ok tt -> disks w' !! hg_vm_name guest = None));
      [apply wp_evict_hot_gone|done].
Qed.

(** Only the named disk may have moved, and only where [P] allows it. *)
Definition only (name : string) (P : Prop) w w' : Prop :=
  forall other, disks w' !! other <> disks w !! other -> other = name /\ P.

Lemma only_same name P w w' : disks w' = disks w -> only name P w w'.
Proof. intros Hd other Ho. by rewrite Hd in Ho. Qed.

Lemma only_cleared name (P : Prop) w w' : P -> cleared name w w' -> only name P w w'.
Proof.
  intros HP [Hd|Hd]; [by apply only_same|]. intros other Ho. rewrite Hd in Ho.
  destruct (decide (name = other)) as [->|Hne]; [done|]. by rewrite lookup_delete_ne in Ho.
Qed.

(** However a step ends, it leaves [J]. *)
Definition leaves {A} (J : T -> Prop) (step : Fut T A) w : Prop := wp step (fun _ => J) J J w.

Lemma leaves_deleted name (P : Prop) w w1 :
  disks w1 = disks w -> P -> leaves (only name P w) (delete_listed name) w1.
Proof.
  intros Hd HP.
  assert (forall w', cleared name w1 w' -> only name P w w') as Hc.
  { intros w' Hw'. apply only_cleared; [done|]. unfold cleared in *. by rewrite <- Hd. }
  eapply wp_mono; [apply wp_delete_listed|..]; [|by intros; apply Hc..].
  intros [u|e] w' Hw'; apply Hc; try done. by right.
Qed.

Lemma only_stable name P w : stable (only name P w).
Proof. intros w1 h Hh Hw other. unfold disks in *. simpl. rewrite Hh. apply Hw. Qed.

Lemma leaves_image name profile record (P : Prop) w :
  (ensure_image_writable c name profile record = Ok tt -> P) ->
  leaves (only name P w) (delete_image c name profile record) w.
Proof.
  intros HP. apply wp_try, wp_ret.
  destruct (ensure_image_writable c name _ _) as [[]|e]; [|by apply only_same].
  apply leaves_deleted; auto.
Qed.

Lemma leaves_owned name (P : Prop) w :
  (is_owned c name = true -> P) -> leaves (only name P w) (delete_owned c name) w.
Proof.
  intros HP. apply wp_try, wp_ret. destruct (is_owned c name); simpl; [|by apply only_same].
  apply leaves_deleted; auto.
Qed.

(** What the name of a deletion must be for its authorization. *)
Definition may_delete (request : ReapRequest) : Prop :=
  (rr_name request ∉ rr_reserved request) /\
  match rr_authorization request with
  | ByRecord _ | ByPrefix => is_owned c (rr_name request) = true
  | ByStaging _ | ByImage _ =>
      is_owned c (rr_name request) = false /\
      (forall p, rr_profile request = Some p -> rr_name request <> p_template p) /\
      ((exists p warm, rr_profile request = Some p /\ p_warm_template p = Some warm /\
          rr_name request ∈ derived_names warm) \/
       (exists r, rr_record request = Some r /\
          rr_name request ∈ derived_names (wi_warm_template r)))
  end.

Lemma leaves_delete_vm request w :
  leaves (only (rr_name request) (may_delete request) w) (delete_vm c request) w.
Proof.
  unfold delete_vm. case_bool_decide as Hres; [by apply wp_ret, only_same|].
  destruct (rr_authorization request) eqn:Ha.
  2, 3: destruct (is_none _ && _); [by apply wp_ret, only_same|]; apply wp_timed, leaves_image;
    intros Hw; apply ensure_image_writable_ok in Hw; unfold may_delete; by rewrite Ha.
  all: apply wp_try, wp_timed; (eapply wp_mono;
    [apply leaves_owned with (P := may_delete request); unfold may_delete; rewrite Ha; done| |done|done]);
    intros [u|e] w1 H1; [|done]; destruct (rr_allocation request) as [a|]; [|done]; apply wp_bind;
    (eapply wp_mono; [eapply maintains_delete_runner; [apply only_stable|exact H1]|done..]).
Qed.

Lemma leaves_removed a (P : Prop) w w1 :
  disks w1 = disks w -> (ensure_owned c a = Ok tt -> P) ->
  leaves (only (a_vm_name a) P w) (remove_owned c a) w1.
Proof.
  intros Hd HP. unfold remove_owned, remove_machine.
  destruct (ensure_owned c a) as [[]|e]; [|by apply wp_try, wp_ret, only_same].
  exact (leaves_deleted (a_vm_name a) P w w1 Hd (HP eq_refl)).
Qed.

(** Releasing an unclaimed child changes no claim. *)
Lemma wp_release_unclaimed name w :
  wp (release_unclaimed name) (fun _ w' => disks w' = disks w /\
      (tw_pool w' !! name = Some true <-> tw_pool w !! name = Some true))
    (fun _ => False) (fun _ => False) w.
Proof.
  apply wp_bind, wp_answer, wp_bind. simpl. destruct (tw_pool w !! name) as [[]|] eqn:Hn; simpl.
  2: apply wp_on, wp_answer; simpl; apply wp_ret; unfold disks; simpl; rewrite disks_child_drop;
     split; [done|]; by rewrite lookup_delete_eq.
  all: apply wp_ret, wp_ret; simpl; by rewrite Hn.
Qed.

(** When a teardown may remove a machine: it is the allocation's own, inside
    the prefix, no reused pool machine and none the pool claimed. *)
Definition may_remove (a : Allocation) w : Prop :=
  is_owned c (a_vm_name a) = true /\ is_hot_reuse (a_origin a) = false /\
  tw_pool w !! a_vm_name a <> Some true.

Lemma leaves_cleanup a budget w :
  leaves (only (a_vm_name a) (may_remove a w) w) (cleanup c a budget) w.
Proof.
  set (J := only (a_vm_name a) (may_remove a w) w).
  assert (forall w1 (vm_result : result WorkerError unit), J w1 -> leaves J
    (runner_result ←! timed (worker_error_new "Forgejo cleanup exceeded its timeout")
        (r ← host (th_delete_runner a); mret (Ok r));
      mret (match vm_result, runner_result with
            | Ok _, Ok _ => Ok tt
            | Err vm, _ => Err vm
            | Ok _, Err runner => Err runner
            end)) w1) as Hrunner.
  { intros w1 vm_result H1. apply (maintains_try J); [|intros; apply maintains_ret|done].
    apply maintains_timed, maintains_bind; [|intros; apply maintains_ret].
    apply maintains_delete_runner, only_stable. }
  assert (forall w1, disks w1 = disks w -> (is_hot_reuse (a_origin a) = false /\
    tw_pool w !! a_vm_name a <> Some true) -> leaves J
    (timed (worker_error_new "Tart cleanup exceeded its timeout")
       (r ← remove_owned c a; mret (Ok r))) w1) as Hremove.
  { intros w1 Hd [Hr Hp]. apply wp_timed, wp_bind.
    eapply wp_mono; [apply (leaves_removed a (may_remove a w) w w1 Hd)|by intros|done|done].
    unfold ensure_owned. intros Ho. simplify_result. by split. }
  unfold cleanup. apply wp_bind. destruct (is_hot_reuse (a_origin a)) eqn:Hreuse.
  { apply wp_ret, wp_bind, wp_ret. by apply (Hrunner w (Ok tt)), only_same. }
  apply wp_bind. eapply wp_mono; [apply wp_release_unclaimed| |done|done]. intros ? w1 [Hd Hp].
  apply wp_answer. simpl. destruct w1 as [h pool]. simpl in *.
  destruct (pool !! a_vm_name a) as [[]|] eqn:Hpool; apply wp_bind.
  { apply wp_ret. by apply (Hrunner (mkTartWorld h pool) (Ok tt)), only_same. }
  all: (eapply wp_mono; [apply Hremove; [done|split; [done|]; by intros ?%Hp]| |done|done]);
    intros [r|e] w2 H2; [by apply (Hrunner w2 r)|done].
Qed.

(** C35: the backend re-checks what it destroys.  Whatever a deletion is asked
    for and however it ends, the only disk it may remove is the one named, a
    name live configuration does not reserve; by a record or the prefix only a
    name inside the service's prefix, as an image only a name outside it that
    the profile or the record declares and that is no template.  A teardown
    removes at most the allocation's own machine, inside the prefix, and never
    one the pool holds. *)
Theorem tart_destroys_authorized request a budget w :
  only (rr_name request) (may_delete request) w (delete_vm c request w).2 /\
  only (a_vm_name a) (may_remove a w) w (cleanup c a budget w).2.
Proof.
  split; [pose proof (leaves_delete_vm request w) as Hl | pose proof (leaves_cleanup a budget w) as Hl];
    unfold leaves, wp in Hl; [destruct (delete_vm c request w) as [[] ?] |
    destruct (cleanup c a budget w) as [[] ?]]; exact Hl.
Qed.
End contracts.

(** ** Calls that answer *)

Section answering.
Context {H : Type} {TH : TartHost H} {RC : ReportCodec} (c : TartClient).
Local Abbreviation T := (TartWorld H).

(** What the polling loops need: pauses, a clock that they move, and a [tart
    ip] that answers. *)
Record ticking (clock : H -> Z) : Prop := {
  tick_pause : 0 < rt_poll_seconds (tc_config c);
  tick_now : forall h, clock h <= (th_now h).1 /\ (th_now h).1 <= clock (th_now h).2;
  tick_sleep : forall d h, clock h + d <= clock (th_sleep d h);
  tick_ip : forall name h, clock h <= clock (th_ip name h).2;
  tick_ip_ends : forall name, ends (th_ip name);
}.

Lemma ends_list_attempts retries : ends (list_attempts (H := H) retries).
Proof.
  induction retries as [|retries IH]; simpl; (apply ends_bind; [apply ends_on, ends_answer|]);
    intros [? ? ?| | |]; try apply ends_ret; try (case_match; apply ends_ret); try done.
  apply ends_bind; [apply ends_on, ends_answer|done].
Qed.

Lemma ends_is_absent name : ends (is_absent (H := H) name).
Proof. apply ends_bind; [apply ends_list_attempts|]. intros. apply ends_ret. Qed.

Lemma ends_guard {A} (guard : result WorkerError unit) (k : unit -> Fut T (result WorkerError A)) :
  ends (k tt) -> ends (x ←! mret guard; k x).
Proof. intros Hk. apply ends_try; [apply ends_ret|]. by intros []. Qed.

Lemma ends_machines : ends (tart_machines c).
Proof.
  apply ends_try; [apply ends_list_attempts|]. intros machines.
  apply ends_bind; [|intros; apply ends_ret].
  induction machines as [|m machines IH]; [apply ends_ret|]. simpl. apply ends_bind.
  - unfold machine_age_seconds. destruct (library_vm_directory c _); [|apply ends_ret].
    apply ends_bind; [apply ends_on, ends_answer|]. intros [?|]; [|apply ends_ret].
    apply ends_bind; [apply ends_on, ends_answer|]. intros. apply ends_ret.
  - intros age. apply ends_bind; [done|]. intros. apply ends_ret.
Qed.

Lemma ends_release name : ends (release (H := H) name).
Proof.
  apply ends_bind; [apply ends_answer|]. intros held. apply ends_bind; [|intros; apply ends_ret].
  destruct held; [apply ends_on, ends_answer | apply ends_ret].
Qed.

Lemma ends_cleanup a budget : ends (cleanup c a budget).
Proof.
  apply ends_bind.
  { destruct (is_hot_reuse _); [apply ends_ret|]. apply ends_bind; [|intros; apply ends_answer].
    apply ends_bind; [apply ends_answer|]. intros dropped. apply ends_bind; [|intros; apply ends_ret].
    destruct dropped; [apply ends_on, ends_answer | apply ends_ret]. }
  intros is_pooled. apply ends_bind; [destruct is_pooled; [apply ends_ret | apply ends_timed]|].
  intros [vm_result|e]; [|apply ends_ret]. apply ends_try; [apply ends_timed|]. intros. apply ends_ret.
Qed.

Lemma ends_evict_hot guest budget : ends (evict_hot c guest budget).
Proof.
  apply ends_guard, ends_bind; [apply ends_release|]. intros. apply ends_timed.
Qed.

Lemma ends_is_hot_alive guest : ends (is_hot_alive (H := H) guest).
Proof.
  apply ends_bind.
  - apply ends_bind; [apply ends_answer|]. intros []; [apply ends_on, ends_answer | apply ends_ret].
  - intros []; [|apply ends_ret]. apply ends_bind; [apply ends_list_attempts|]. intros. apply ends_ret.
Qed.

Lemma ends_warm_restored profile record : ends (ensure_warm_restored c profile record).
Proof.
  unfold ensure_warm_restored. destruct (previous_name record); [|apply ends_ret].
  apply ends_bind; [apply ends_is_absent|]. intros []; [apply ends_ret | apply ends_timed].
Qed.

Section ticking.
Context (clock : H -> Z) (Htick : ticking clock).

Lemma ends_address_of name timeout : ends (address_of c name timeout).
Proof using Htick.
  apply ends_guard. intros w cancelled. unfold polled, mbind, Fut_bind, host, on, answer.
  pose proof (tick_now _ Htick (tw_host w)) as Hn. destruct (th_now (tw_host w)) as [started h].
  simpl in *.
  assert (0 < poll_pause c) as Hpause.
  { unfold poll_pause, from_secs. pose proof (tick_pause _ Htick). lia. }
  apply (poll_until_ends _ _ _ _ _ (fun w => clock (tw_host w))); [done| | |].
  - split_and!.
    + intros s. pose proof (tick_now _ Htick (tw_host s)). by destruct (th_now (tw_host s)).
    + intros s. apply (tick_sleep _ Htick).
    + intros s. unfold read_address, mbind, Fut_bind, host, on.
      pose proof (tick_ip _ Htick name (tw_host s)). by destruct (th_ip name (tw_host s)) as [[] ?].
  - apply ends_bind; [|intros; apply ends_ret]. apply ends_on, (tick_ip_ends _ Htick).
  - simpl. unfold poll_fuel. pose proof (Z.mul_succ_div_gt timeout (poll_pause c) Hpause).
    assert (0 <= timeout -> 0 <= timeout / poll_pause c) by (intros; apply Z.div_pos; lia). nia.
Qed.

Lemma ends_reset_hot guest reset : ends (reset_hot c guest reset).
Proof using Htick.
  apply ends_bind; [apply ends_on, ends_answer|]. intros t.
  apply ends_try; [apply ends_address_of|]. intros address. apply ends_guard.
  apply ends_try; [apply ends_timed|]. intros output. by repeat case_match; apply ends_ret.
Qed.

Lemma ends_retain_hot request : ends (retain_hot c request).
Proof using Htick.
  apply ends_bind; [apply ends_answer|]. intros [] ; [|apply ends_ret].
  apply ends_bind; [apply ends_reset_hot|]. intros [[]|e]; [apply ends_ret|].
  apply ends_bind; [apply ends_release|]. intros. apply ends_ret.
Qed.
End ticking.

(** A wedged [tart] never hangs the daemon.  Whatever its commands and
    its listing do, a listing of the host, a teardown, an eviction, a
    liveness probe and the restore of an image always answer; and so do the
    recycle gate and the retention of a machine as long as [tart ip] answers
    and sleeping moves the clock. *)
Theorem tart_calls_answer clock a budget guest profile record request reset :
  ticking clock ->
  ends (tart_machines c) /\ ends (cleanup c a budget) /\ ends (evict_hot c guest budget) /\
  ends (is_hot_alive (H := H) guest) /\ ends (ensure_warm_restored c profile record) /\
  ends (reset_hot c guest reset) /\ ends (retain_hot c request).
Proof.
  intros Ht. split_and!; [apply ends_machines|apply ends_cleanup|apply ends_evict_hot|
    apply ends_is_hot_alive|apply ends_warm_restored|by eapply ends_reset_hot|by eapply ends_retain_hot].
Qed.
End answering.

(** ** An executable host

    The disks, and a script of how the next commands and listings go (well,
    once it runs out). *)

Inductive Turn := Fine | Fails | FailsAfter | Hangs | DiesBefore | DiesAfter.

Record SimTart := mkSimTart {
  stt_disks : gmap string string;
  stt_script : Datatypes.list Turn;
  stt_now : Z;
}.

#[export] Instance SimTart_eta : Eta SimTart := fun h =>
  mkSimTart (stt_disks h) (stt_script h) (stt_now h).

Definition turn (h : SimTart) : Turn * SimTart :=
  match stt_script h with
  | [] => (Fine, h)
  | t :: script => (t, h <| stt_script := script |>)
  end.

(** The disks a command leaves, if it can be carried out. *)
Definition sim_effect (arguments : Datatypes.list string) (disks : gmap string string) :
    option (gmap string string) :=
  match arguments with
  | ["clone"; source; destination] =>
      option_map (fun disk => <[destination := disk]> disks) (disks !! source)
  | ["delete"; name] => option_map (fun _ => delete name disks) (disks !! name)
  | _ => Some disks
  end.

Definition sim_run (arguments : Datatypes.list string) (h : SimTart) : Invocation * SimTart :=
  let '(t, h) := turn h in
  match sim_effect arguments (stt_disks h) with
  | None => (match t with Hangs => Unanswered false | DiesBefore | DiesAfter => Died
             | _ => Exited (Some 1) end, h)
  | Some disks =>
      match t with
      | Fine => (Exited (Some 0), h <| stt_disks := disks |>)
      | Fails => (Exited (Some 1), h)
      | FailsAfter => (Exited (Some 1), h <| stt_disks := disks |>)
      | Hangs => (Unanswered false, h)
      | DiesBefore => (Died, h)
      | DiesAfter => (Died, h <| stt_disks := disks |>)
      end
  end.

Definition sim_list (h : SimTart) : Listing * SimTart :=
  let '(t, h) := turn h in
  (match t with
   | Fine => Listed true 100 (Some (map (fun name => {| mc_name := name; mc_state := "stopped" |})
       (elements (dom (stt_disks h)))))
   | Fails | FailsAfter => ListNotInvoked
   | Hangs => ListTimedOut
   | DiesBefore | DiesAfter => ListDied
   end, h).

#[export] Instance sim_tart : TartHost SimTart := {|
  th_run := sim_run;
  th_list := sim_list;
  th_ip _ h := (Done (Some "10.0.0.7"), h);
  th_child_alive _ h := (true, h);
  th_child_drop _ h := h;
  th_metadata _ h := (None, h);
  th_system_time h := (Some (stt_now h), h);
  th_now h := (stt_now h, h);
  th_sleep d h := h <| stt_now := stt_now h + d |>;
  th_is_ip _ := true;
  th_gate _ _ h := (Done (Err "no gate"), h);
  th_marker _ h := (Done (Ok tt), h);
  th_image_lock _ h := (Done tt, h);
  th_delete_runner _ h := (Done (Ok tt), h);
  th_uuid h := ("id", h);
  th_store_fault h := (false, h);
|}.

Lemma turn_disks h : stt_disks (turn h).2 = stt_disks h.
Proof. unfold turn. by destruct (stt_script h). Qed.

#[export] Instance sim_lawful : LawfulTart SimTart.
Proof.
  refine {| th_disks := stt_disks |}; try done.
  - intros source destination h. simpl. unfold sim_run. pose proof (turn_disks h) as Hd.
    destruct (turn h) as [t h1]. simpl in Hd. unfold sim_effect.
    destruct (stt_disks h1 !! source) as [disk|] eqn:Hs; simpl.
    + destruct t; simpl; rewrite Hd in Hs |- *; try (left; by split); right; eauto.
    + left. by destruct t.
  - intros name h. simpl. unfold sim_run. pose proof (turn_disks h) as Hd.
    destruct (turn h) as [t h1]. simpl in Hd. unfold sim_effect.
    destruct (stt_disks h1 !! name) as [disk|] eqn:Hs; simpl.
    + destruct t; simpl; rewrite Hd; try (left; by split); by right.
    + left. by destruct t.
  - intros name h. simpl. unfold sim_run. pose proof (turn_disks h) as Hd.
    destruct (turn h) as [t h1]. simpl in *. by destruct t.
  - intros arguments h. simpl. unfold sim_run. pose proof (turn_disks h) as Hd.
    destruct (turn h) as [t h1]. simpl in *. by destruct t.
  - intros h. simpl. unfold sim_list. pose proof (turn_disks h) as Hd.
    destruct (turn h) as [t h1]. simpl in *. split; [done|].
    destruct t; intros bytes machines [= <- <-] name.
    rewrite <- elem_of_dom, <- Hd. rewrite list_elem_of_fmap. setoid_rewrite list_elem_of_fmap.
    split.
    + intros Hn. eexists. split; [|exists name; split; [done|by apply elem_of_elements]]. done.
    + intros (m & -> & x & -> & Hx). by apply elem_of_elements in Hx.
Defined.

(** ** Witnesses *)

Definition example_client : TartClient :=
  {| tc_config := c_runtime example_config; tc_home := None; tc_library := None |}.

Definition example_report : ReportCodec := {| report_decode _ := None |}.

Definition example_world : TartWorld SimTart :=
  mkTartWorld (mkSimTart {[ "ff-a" := "1"; "ff-b" := "2"; "linux-base" := "3" ]} [] 1000)
    {[ "ff-a" := true ]}.

Lemma tart_keeps_contracts_witness :
  exists PB : @PoolBackend (TartWorld SimTart) (@tart_backend _ _ example_client example_report),
    "ff-a" ∈ @held _ _ PB example_world.
Proof.
  destruct (@tart_keeps_contracts SimTart sim_tart sim_lawful example_report example_client)
    as [[PB HPB] _].
  exists PB. apply HPB. vm_compute. split; [reflexivity|]. split; [reflexivity|]. eexists. reflexivity.
Defined.

(** A deletion by prefix moves nothing but its own name. *)
Definition example_reap (name : VmName) : ReapRequest :=
  {| rr_name := name; rr_authorization := ByPrefix; rr_profile := None; rr_record := None;
     rr_allocation := None; rr_reserved := ∅; rr_budget := allow (from_secs 60) |}.

Lemma tart_destroys_authorized_witness :
  disks (@delete_vm SimTart sim_tart example_client (example_reap "ff-b") example_world).2 !! "ff-b"
    = None /\
  may_delete example_client (example_reap "ff-b") /\
  ~ may_delete example_client (example_reap "linux-base").
Proof.
  pose proof (@tart_destroys_authorized SimTart sim_tart sim_lawful example_client
    (example_reap "ff-b") example_row_allocation (allow 0) example_world) as [Hd _].
  split; [vm_compute; reflexivity|]. split.
  - apply (Hd "ff-b"). vm_compute. discriminate.
  - intros [_ Ho]. vm_compute in Ho. discriminate Ho.
Defined.

Definition example_retain : HotRetainRequest :=
  {| hrr_guest := example_row_guest; hrr_allocation := example_row_allocation;
     hrr_profile := example_profile;
     hrr_reset := {| hr_simulator_reset := ResetNone; hr_budget := allow (from_secs 60) |} |}.

Lemma tart_calls_answer_witness :
  ends (@tart_machines SimTart sim_tart example_client) /\
  ends (@retain_hot SimTart sim_tart example_client example_report example_retain).
Proof.
  assert (@ticking SimTart sim_tart example_client stt_now) as Ht.
  { split; try done; simpl; intros; lia. }
  pose proof (@tart_calls_answer SimTart sim_tart example_report example_client stt_now
    example_row_allocation (allow 0) example_row_guest example_profile example_image example_retain
    (hrr_reset example_retain) Ht) as Ha.
  split; apply Ha.
Defined.
