(* ===== verification/Promotion.v ===== *)
(** * Warm image promotion on Tart ([crates/flanforge-runtime-tart/src/retention])

    [promote.rs] and [steps.rs]: a regeneration's guest is staged beside the
    live image, recorded, and published over it in steps that may each fail,
    be cancelled or be cut short by the death of the daemon; what is left is
    then compensated ([rollback]).  [worker/retain.rs]: the gates in front.

    The theorems follow the disks: whatever happened, a record that says
    [Promoted] names the generation whose disk is live; and after any end of
    the forward path, what a restart settles on is right too.  The last section
    shows that the second does not extend to the rollback. *)

From S2P Require Import Prelude Rust Text Identifiers Images Guest Hot Allocation Config ConfigValidate Admission Reaper Futures Manager HotPool Lifecycle WarmImages Sweep Tart.

Open Scope Z_scope.
Open Scope stdpp_scope.

(** ** Requests ([retention/request.rs]) *)

Record RetentionRequest := {
  rtq_allocation : Allocation;
  rtq_profile : Profile;
  rtq_warm_template : VmName;
  rtq_base_fingerprint : BaseFingerprint;
  rtq_generation : Z;
  rtq_previous : option WarmGeneration;
}.

(** The three names one profile's promotion touches. *)
Record Names := {
  nm_warm : VmName;
  nm_staging : VmName;
  nm_previous : VmName;
}.

Definition derive (warm : VmName) : result IdentifierError Names :=
  staging ← with_suffix warm STAGING_SUFFIX;
  previous ← with_suffix warm PREVIOUS_SUFFIX;
  Ok {| nm_warm := warm; nm_staging := staging; nm_previous := previous |}.

Definition retention_outcome (result : RetentionResult) (phase : RetentionPhase)
    (reason : string) (generation : Z) : RetentionOutcome :=
  retention_outcome_new result phase reason (Some generation).

Inductive FailedAuthority := Unchanged | PreviousLive | CandidateLive | LiveAbsent.

Definition failed_authority (phase : RetentionPhase) (is_live : bool) : FailedAuthority :=
  match phase, is_live with
  | Promote, true => CandidateLive
  | Retire, true => PreviousLive
  | Retire, false | Promote, false => LiveAbsent
  | _, _ => Unchanged
  end.

Section retention.
Context {H : Type} {TH : TartHost H} {RC : ReportCodec} {ET : ErrorText} (c : TartClient).
Local Abbreviation T := (TartWorld H).
Local Abbreviation M := (Manager (TartWorld H)).
#[local] Instance backend : Backend T := tart_backend c.

(** A step of the backend, and one of the manager. *)
Definition tart {A} (step : Fut T A) : Fut M A := on m_world (fun w m => m <| m_world := w |>) step.
Definition io {A} (step : IO T A) : Fut M A := answer step.

Definition now : Fut M Z := tart (host (answer th_now)).

(** ** Steps ([retention/steps.rs], [retention/marker.rs]) *)

Definition ensure_retention_marker (address : string) : Fut M (result WorkerError unit) :=
  fut_map_err (fun error => worker_error_new
      ("workflow completion marker did not verify: " +:+ worker_message error))
    (tart (host (th_marker address))).

Definition stop_guest (a : Allocation) (deadline : Z) : Fut M (result WorkerError unit) :=
  t ← now;
  tart (ensure_stopped c a (sat_sub deadline t)).

Definition ensure_staged (staging : VmName) : Fut M (result WorkerError unit) :=
  stopped ← tart (is_stopped_image staging);
  mret (ensure stopped (worker_error_new "staged warm image is missing or not stopped")).

Definition retire (q : RetentionRequest) (names : Names) : Fut M (result WorkerError unit) :=
  _ ←! tart (delete_image c (nm_previous names) (Some (rtq_profile q)) None);
  absent ← tart (is_absent (nm_warm names));
  if negb absent
  then
    _ ←! tart (clone_image c (nm_warm names) (nm_previous names) (rtq_profile q) None);
    _ ←! tart (delete_image c (nm_warm names) (Some (rtq_profile q)) None);
    mret (Ok tt)
  else mret (Ok tt).

Definition publish (q : RetentionRequest) (names : Names) : Fut M (result WorkerError unit) :=
  _ ←! tart (clone_image c (nm_staging names) (nm_warm names) (rtq_profile q) None);
  tart (delete_image c (nm_staging names) (Some (rtq_profile q)) None).

Definition profile_of_request (q : RetentionRequest) : ProfileName :=
  rq_profile (a_request (rtq_allocation q)).

Definition candidate_record (q : RetentionRequest) (names : Names) (produced_at : Z)
    (state : WarmImageState) : WarmImageRecord :=
  {| wi_profile := profile_of_request q; wi_warm_template := nm_warm names;
     wi_generation := rtq_generation q; wi_base_fingerprint := rtq_base_fingerprint q;
     wi_produced_by := a_id (rtq_allocation q); wi_produced_at_unix := produced_at;
     wi_state := state; wi_previous := rtq_previous q |}.

Definition record (q : RetentionRequest) (names : Names) (state : WarmImageState) :
    Fut M (result WorkerError unit) :=
  produced_at ← io unix_time;
  fut_map_err (fun error => worker_error_new (manager_text error))
    (io (record_warm_image (candidate_record q names produced_at state))).

Definition drop_candidate (q : RetentionRequest) (names : Names) : Fut M unit :=
  attempted (tart (delete_image c (nm_staging names) (Some (rtq_profile q)) None)).

Definition ensure_previous_restored (q : RetentionRequest) (names : Names) :
    Fut M (result WorkerError unit) :=
  absent ← tart (is_absent (nm_warm names));
  if negb absent then mret (Ok tt)
  else timed (worker_error_new "retention rollback exceeded its budget")
         (tart (clone_image c (nm_previous names) (nm_warm names) (rtq_profile q) None)).

Definition finalize_live_candidate (q : RetentionRequest) (names : Names)
    (phase : RetentionPhase) (error : WorkerError) : Fut M RetentionOutcome :=
  recorded ← record q names Promoted;
  mret (match recorded with
        | Ok _ => retention_outcome RPromoted phase
            ("warm image promoted; cleanup recovered after: " +:+ worker_message error)
            (rtq_generation q)
        | Err record_error => retention_outcome RFailed phase
            (worker_message error +:+ "; candidate record failed: "
             +:+ worker_message record_error) (rtq_generation q)
        end).

Definition persist_previous (q : RetentionRequest) (names : Names)
    (phase : RetentionPhase) (error : WorkerError) : Fut M RetentionOutcome :=
  match rtq_previous q with
  | None =>
      reverted ← io (ensure_warm_reverted (profile_of_request q) (nm_warm names) None);
      mret (match reverted with
            | Err record_error => retention_outcome RFailed phase
                (worker_message error +:+ "; authority cleanup failed: "
                 +:+ manager_text record_error) (rtq_generation q)
            | Ok _ => retention_outcome_new RFailed phase (worker_message error) None
            end)
  | Some previous =>
      reverted ← io (ensure_warm_reverted (profile_of_request q) (nm_warm names) (Some previous));
      mret (match reverted with
            | Err record_error => retention_outcome RFailed phase
                (worker_message error +:+ "; rollback record failed: "
                 +:+ manager_text record_error) (rtq_generation q)
            | Ok _ => retention_outcome_new RolledBack phase (worker_message error)
                        (Some (wg_generation previous))
            end)
  end.

Definition rollback (q : RetentionRequest) (names : Names)
    (phase : RetentionPhase) (error : WorkerError) : Fut M RetentionOutcome :=
  _ ← drop_candidate q names;
  absent ← tart (is_absent (nm_warm names));
  let restoring (restored : Fut M (result WorkerError unit)) :=
    restored ← restored;
    match restored with
    | Ok _ => persist_previous q names phase error
    | Err restore_error =>
        mret (retention_outcome RFailed phase
          (worker_message error +:+ "; restore failed: " +:+ worker_message restore_error)
          (rtq_generation q))
    end in
  match failed_authority phase (negb absent) with
  | Unchanged =>
      mret (retention_outcome RFailed phase (worker_message error) (rtq_generation q))
  | CandidateLive => finalize_live_candidate q names phase error
  | PreviousLive => restoring (mret (Ok tt))
  | LiveAbsent => restoring (ensure_previous_restored q names)
  end.

(** ** The sequence ([retention/promote.rs]) *)

Definition at_phase {A} (p : RetentionPhase) (step : Fut M (result WorkerError A)) :
    Fut M (result (RetentionPhase * WorkerError) A) :=
  fut_map_err (fun error => (p, error)) step.

Definition promote (q : RetentionRequest) (names : Names) (address : string) (deadline : Z) :
    Fut M (result (RetentionPhase * WorkerError) unit) :=
  _ ←! at_phase Verify (phase "retention marker verification exceeded its budget"
         (ensure_retention_marker address));
  _ ←! at_phase Stop (phase "retention stop exceeded its budget"
         (stop_guest (rtq_allocation q) deadline));
  _ ←! at_phase Stage (phase "retention staging exceeded its budget"
         (tart (clone_image c (a_vm_name (rtq_allocation q)) (nm_staging names)
                  (rtq_profile q) None)));
  _ ←! at_phase Verify (phase "retention verification exceeded its budget"
         (ensure_staged (nm_staging names)));
  _ ←! at_phase Verify (record q names Staging);
  _ ←! at_phase Retire (phase "retention retirement exceeded its budget" (retire q names));
  _ ←! at_phase Promote (phase "retention promotion exceeded its budget" (publish q names));
  at_phase Promote (record q names Promoted).

Definition retain_warm (q : RetentionRequest) (address : string) : Fut M RetentionOutcome :=
  match derive (rtq_warm_template q) with
  | Err _ => mret (retention_outcome RFailed Stage "warm image names are underivable"
                     (rtq_generation q))
  | Ok names =>
      t ← now;
      let deadline := t + from_secs (p_cleanup_timeout_seconds (rtq_profile q)) in
      locked ← phase "retention image lock exceeded its budget"
                 (_ ← tart (host (th_image_lock (profile_of_request q))); mret (Ok tt));
      match locked with
      | Err error => mret (retention_outcome RFailed Stage (worker_message error)
                             (rtq_generation q))
      | Ok _ =>
          promoted ← promote q names address deadline;
          match promoted with
          | Ok _ => mret (retention_outcome RPromoted Promote "warm image promoted"
                            (rtq_generation q))
          | Err (p, error) => rollback q names p error
          end
      end
  end.

(** ** The gates ([worker/retain.rs]) *)

Inductive RetentionRequestError := RSkipped (reason : string) | RAuthority (e : ManagerError).

Definition retention_request (a : Allocation) (profile : Profile) :
    IO T (result RetentionRequestError RetentionRequest) :=
  current ←? io_map_err RAuthority (get (a_id a));
  plan ←? io_map_err RAuthority (retention_plan current);
  match plan with
  | None => mret (Err (RSkipped "the profile no longer authorizes production"))
  | Some plan =>
      if negb (bool_decide (p_warm_template profile = Some (rp_warm_template plan)))
      then mret (Err (RSkipped "the warm image name changed while the job ran"))
      else match a_source a ≫= cs_base_fingerprint with
           | None => mret (Err (RSkipped "the base fingerprint is unknown"))
           | Some fingerprint =>
               mret (Ok {| rtq_allocation := a; rtq_profile := profile;
                           rtq_warm_template := rp_warm_template plan;
                           rtq_base_fingerprint := fingerprint;
                           rtq_generation := rp_generation plan;
                           rtq_previous := rp_previous plan |})
           end
  end.

Definition ensure_retained (a : Allocation) (profile : Profile) (address : string) : Fut M unit :=
  if negb (is_retention_eligible a) then mret tt
  else
    started ← now;
    request ← io (retention_request a profile);
    outcome ←
      match request with
      | Ok q => retain_warm q address
      | Err (RSkipped reason) => mret (retention_outcome_new Skipped Verify reason None)
      | Err (RAuthority _) =>
          mret (retention_outcome_new RFailed Verify "retention authority is unavailable" None)
      end;
    ended ← now;
    _ ← io (record_retention (a_id a) (with_duration outcome (sat_sub ended started / 1000000)));
    mret tt.
End retention.

(** ** The logic of the sequence

    A stage is a predicate of the profile's record and of the host's disks. *)

Definition Stage_ : Type := option WarmImageRecord -> gmap string string -> Prop.

Section stages.
Context {H : Type} {TH : TartHost H} {LT : LawfulTart H} {RC : ReportCodec} {ET : ErrorText}.
Context (c : TartClient) (q : RetentionRequest) (names : Names).
Local Abbreviation M := (Manager (TartWorld H)).
#[local] Hint Extern 0 (Backend _) => exact (backend c) : typeclass_instances.
Implicit Types (P Q E : Stage_) (m : M).

Definition at_stage P m : Prop := P (m_images m !! profile_of_request q) (disks (m_world m)).

(** A step that moves no disk. *)
Lemma at_stage_quiet {A} P (step : Fut (TartWorld H) A) :
  (forall I, stable I -> maintains I step) -> maintains (at_stage P) (tart step).
Proof.
  intros Hs m Hm. apply wp_on.
  apply (Hs (fun w => P (m_images m !! profile_of_request q) (disks w))); [|exact Hm].
  intros w h Hh Hw. unfold disks in *. simpl. by rewrite Hh.
Qed.

Lemma wp_stage_delete name profile record P Q E m :
  at_stage P m ->
  (forall r d, P r d -> Q r (delete name d)) ->
  (forall r d, P r d -> E r d) -> (forall r d, P r d -> E r (delete name d)) ->
  wp (tart (delete_image c name profile record))
    (fun r => match r with Ok _ => at_stage Q | Err _ => at_stage E end)
    (at_stage E) (at_stage E) m.
Proof.
  intros Hm HQ HE HE'. apply wp_on.
  assert (forall w, cleared name (m_world m) w -> at_stage E (m <| m_world := w |>)) as Hc.
  { intros w [Hw|Hw]; unfold at_stage; simpl; rewrite Hw; eauto. }
  eapply wp_mono; [apply wp_delete_image| |done|done].
  intros [u|e] w Hw; [|by apply Hc]. unfold at_stage. simpl. rewrite Hw. by apply HQ.
Qed.

Lemma wp_stage_clone source destination profile record P Q E m :
  at_stage P m ->
  (forall r d disk, P r d -> is_owned c destination = false -> d !! source = Some disk ->
     Q r (<[destination := disk]> d)) ->
  (forall r d, P r d -> E r d) -> (forall r d, Q r d -> E r d) ->
  wp (tart (clone_image c source destination profile record))
    (fun r => match r with Ok _ => at_stage Q | Err _ => at_stage E end)
    (at_stage E) (at_stage E) m.
Proof.
  intros Hm HQ HE HQE. apply wp_on.
  assert (forall w, copied c source destination (m_world m) w -> at_stage Q (m <| m_world := w |>))
    as Hc.
  { intros w (Ho & disk & Hsrc & Hw). unfold at_stage. simpl. rewrite Hw. by apply HQ. }
  assert (forall w, disks w = disks (m_world m) \/ copied c source destination (m_world m) w ->
    at_stage E (m <| m_world := w |>)) as Hd.
  { intros w [Hw|Hw]; [unfold at_stage; simpl; rewrite Hw; by apply HE|]. by apply HQE, Hc. }
  eapply wp_mono; [apply wp_clone_image| |done|done].
  intros [u|e] w Hw; [by apply Hc | by apply Hd].
Qed.

Lemma wp_stage_absent name P m :
  at_stage P m ->
  wp (tart (is_absent name))
    (fun absent => at_stage (fun r d => P r d /\ (absent = true -> d !! name = None)))
    (fun _ => False) (at_stage P) m.
Proof.
  intros Hm. apply wp_on. eapply wp_mono; [apply wp_is_absent| |done|].
  - intros absent w [[Hd _] Habs]. unfold at_stage. simpl. rewrite Hd. by split.
  - intros w [Hd _]. unfold at_stage. simpl. by rewrite Hd.
Qed.

(** *** Writing the record *)

Lemma unix_time_tart m :
  m_images (unix_time m).2 = m_images m /\ disks (m_world (unix_time m).2) = disks (m_world m).
Proof.
  unfold unix_time, call. simpl. unfold of_host. pose proof (disks_system_time (tw_host (m_world m))).
  by destruct (th_system_time (tw_host (m_world m))).
Qed.

Lemma stored_disks {A} (step : IO (TartWorld H) A) m :
  (forall m, m_world (step m).2 = m_world m) -> disks (m_world (stored step m).2) = disks (m_world m).
Proof.
  intros Hs. unfold stored, call, mbind, IO_bind. simpl. unfold of_host.
  pose proof (disks_store_fault (tw_host (m_world m))) as Hf.
  destruct (th_store_fault (tw_host (m_world m))) as [[] h]; simpl in *; [done|].
  match goal with |- context [step ?s] => specialize (Hs s); destruct (step s) as [a m1] end.
  simpl in *. by rewrite Hs.
Qed.

Lemma record_disks r m : disks (m_world (record_warm_image r m).2) = disks (m_world m).
Proof.
  unfold record_warm_image, io_map_err, images_save, mbind, IO_bind. simpl.
  destruct (bool_decide _), (negb _); simpl; try done;
    match goal with |- context [stored ?s ?m] =>
      pose proof (stored_disks s m) as Hs; destruct (stored s m) as [x m1] end;
    simpl in *; by rewrite Hs.
Qed.

Lemma reverted_disks profile warm previous m :
  disks (m_world (ensure_warm_reverted profile warm previous m).2) = disks (m_world m).
Proof.
  unfold ensure_warm_reverted, io_map_err, images_save, images_remove, mbind, IO_bind.
  destruct previous as [g|]; [destruct (negb _); [done|]|];
    match goal with |- context [stored ?s ?m] =>
      pose proof (stored_disks s m) as Hs; destruct (stored s m) as [x m1] end;
    simpl in *; by rewrite Hs.
Qed.

Lemma record_warm_image_cases r m x m' :
  record_warm_image r m = (x, m') ->
  (x = Ok tt /\ m_images m' = <[wi_profile r := r]> (m_images m)) \/
  ((exists e, x = Err e) /\ m_images m' = m_images m).
Proof.
  unfold record_warm_image, io_map_err, mbind, IO_bind, mret, IO_ret.
  destruct (bool_decide _); simpl;
    (match goal with |- context [images_save r ?s] =>
       destruct (images_save r s) as [y m1] eqn:Hs end);
    intros [= <- <-]; apply images_save_cases in Hs as [[-> H1]|[[e ->] H1]]; simpl; eauto.
Qed.

Lemma wp_stage_record state P Q E m :
  at_stage P m ->
  (forall r d t, P r d -> Q (Some (candidate_record q names t state)) d) ->
  (forall r d, P r d -> E r d) ->
  wp (record c q names state)
    (fun r => match r with Ok _ => at_stage Q | Err _ => at_stage E end)
    (fun _ => False) (fun _ => False) m.
Proof.
  intros Hm HQ HE. apply wp_bind, wp_answer, wp_map_err, wp_answer.
  destruct (unix_time_tart m) as [Hi Hd]. destruct (unix_time m) as [t m1]. simpl in *.
  pose proof (record_disks (candidate_record q names t state) m1) as Hd2.
  destruct (record_warm_image _ m1) as [x m2] eqn:Hx.
  simpl in *. unfold at_stage in *.
  apply record_warm_image_cases in Hx as [[-> Himg]|[[e ->] Himg]]; simpl; rewrite Himg, Hd2, Hd, Hi.
  - simpl. rewrite lookup_insert_eq. by eapply HQ.
  - by apply HE.
Qed.

Lemma wp_stage_revert previous P Q E m :
  at_stage P m ->
  (forall r d, P r d -> Q (survivor (profile_of_request q) (nm_warm names) previous) d) ->
  (forall r d, P r d -> E r d) ->
  wp (io (ensure_warm_reverted (profile_of_request q) (nm_warm names) previous))
    (fun r => match r with Ok _ => at_stage Q | Err _ => at_stage E end)
    (fun _ => False) (fun _ => False) m.
Proof.
  intros Hm HQ HE. apply wp_answer.
  pose proof (reverted_disks (profile_of_request q) (nm_warm names) previous m) as Hd.
  destruct (ensure_warm_reverted _ _ _ m) as [x m1] eqn:Hx. simpl in *. unfold at_stage in *.
  apply ensure_warm_reverted_cases in Hx as [[-> Himg]|[[e ->] Himg]]; rewrite Himg, Hd.
  - rewrite lookup_partial_alter_eq. by eapply HQ.
  - by apply HE.
Qed.
End stages.

(** ** The stages of one promotion *)

Lemma derive_distinct warm names :
  derive warm = Ok names ->
  nm_warm names = warm /\ nm_warm names <> nm_staging names /\ nm_warm names <> nm_previous names /\
  nm_staging names <> nm_previous names.
Proof.
  unfold derive. intros Hd. simplify_result. simpl.
  assert (forall suffix name, with_suffix warm suffix = Ok name -> name = warm +:+ suffix) as Hs.
  { intros suffix name Hx. unfold with_suffix, vm_name_new, identifier_new in Hx.
    by repeat case_match; simplify_eq. }
  match goal with H1 : with_suffix _ STAGING_SUFFIX = Ok _, H2 : with_suffix _ PREVIOUS_SUFFIX = Ok _ |- _ =>
    apply Hs in H1 as ->; apply Hs in H2 as -> end.
  assert (forall suffix, suffix <> "" -> warm <> warm +:+ suffix) as Hne.
  { intros suffix Hne Heq. apply Hne. apply (string_app_inj_l _ _ warm).
    by rewrite string_app_nil_r. }
  split_and!; [done|by apply Hne|by apply Hne|]. intros Heq%string_app_inj_l. done.
Qed.

Section promotion.
Context {H : Type} {TH : TartHost H} {LT : LawfulTart H} {RC : ReportCodec} {ET : ErrorText}.
Context (c : TartClient) (q : RetentionRequest) (names : Names).
Context (derived : derive (rtq_warm_template q) = Ok names).
Local Abbreviation M := (Manager (TartWorld H)).
Local Abbreviation guest := (a_vm_name (rtq_allocation q)).
#[local] Hint Extern 0 (Backend _) => exact (backend c) : typeclass_instances.
Implicit Types (P Q E : Stage_) (m : M) (d : gmap string string) (r : option WarmImageRecord).

(** What the promotion starts from: the record, the live disk and the guest's. *)
Context (before : option WarmImageRecord) (old cand : option string).

Definition untouched : Stage_ := fun r d => r = before /\ d !! nm_warm names = old.

Definition running : Stage_ := fun r d => untouched r d /\ d !! guest = cand.

Definition is_candidate (state : WarmImageState) r : Prop :=
  exists t, r = Some (candidate_record q names t state).

Lemma is_candidate_record t state : is_candidate state (Some (candidate_record q names t state)).
Proof. by exists t. Qed.
#[local] Hint Resolve is_candidate_record : core.

Definition staged : Stage_ := fun r d =>
  is_candidate Staging r /\ is_Some cand /\ d !! nm_staging names = cand.

(** Retirement: the live disk is there, or gone with its copy made. *)
Definition retiring : Stage_ := fun r d =>
  staged r d /\
  (d !! nm_warm names = old \/ (d !! nm_warm names = None /\ d !! nm_previous names = old)).

Definition retired : Stage_ := fun r d =>
  staged r d /\ d !! nm_warm names = None /\ d !! nm_previous names = old.

(** Publication: the candidate is staged, or live, or for a moment both. *)
Definition publishing : Stage_ := fun r d =>
  is_candidate Staging r /\ is_Some cand /\ d !! nm_previous names = old /\
  ((d !! nm_warm names = None /\ d !! nm_staging names = cand) \/ d !! nm_warm names = cand).

Definition published : Stage_ := fun r d =>
  is_candidate Staging r /\ is_Some cand /\ d !! nm_previous names = old /\
  d !! nm_warm names = cand.

Definition promoted : Stage_ := fun r d =>
  is_candidate Promoted r /\ is_Some cand /\ d !! nm_warm names = cand.

Definition interrupted : Stage_ := fun r d =>
  untouched r d \/ retiring r d \/ publishing r d \/ promoted r d.

Definition failed_at (p : RetentionPhase) : Stage_ :=
  match p with Retire => retiring | Promote => publishing | _ => untouched end.

Lemma failed_interrupted p r d : failed_at p r d -> interrupted r d.
Proof. unfold interrupted, failed_at. destruct p; auto. Qed.

(** Reads the disks a step left and closes the stage's conditions. *)
Ltac solve_stage :=
  unfold retiring, retired, publishing, published, promoted, staged, running, untouched in *;
  intros; destruct_and?;
  repeat first [ rewrite lookup_insert_eq | rewrite lookup_delete_eq
               | rewrite lookup_insert_ne by congruence | rewrite lookup_delete_ne by congruence ];
  intuition (solve [ eauto | congruence
    | match goal with H : _ = Some ?x |- is_Some _ => exists x; congruence end ]).

Ltac names_apart :=
  destruct (derive_distinct _ _ derived) as (Hwarm & Hws & Hwp & Hsp).

Lemma wp_retire m :
  at_stage q (fun r d => staged r d /\ d !! nm_warm names = old) m ->
  wp (retire c q names)
    (fun x => match x with Ok _ => at_stage q retired | Err _ => at_stage q retiring end)
    (at_stage q retiring) (at_stage q retiring) m.
Proof using derived.
  names_apart. intros Hm. apply wp_try.
  eapply wp_mono; [eapply (wp_stage_delete c q _ _ _ _ (fun r d => staged r d /\
    d !! nm_warm names = old /\ d !! nm_previous names = None) retiring); [exact Hm|solve_stage..]
    | |done|done].
  intros [[]|e] m1 H1; [|done]. apply wp_bind.
  eapply wp_mono; [apply wp_stage_absent, H1| |done|intros m2; unfold at_stage; solve_stage].
  intros absent m2 H2. destruct absent; simpl.
  { apply wp_ret. unfold at_stage in *. solve_stage. }
  apply wp_try. eapply wp_mono; [eapply (wp_stage_clone c q _ _ _ _ _ (fun r d => staged r d /\
    d !! nm_warm names = old /\ d !! nm_previous names = old) retiring); [exact H2|solve_stage..]
    | |done|done].
  intros [[]|e] m3 H3; [|done]. apply wp_try.
  eapply wp_mono; [eapply (wp_stage_delete c q _ _ _ _ retired retiring); [exact H3|solve_stage..]
    | |done|done].
  by intros [[]|e] m4 H4.
Qed.

Lemma wp_publish m :
  at_stage q retired m ->
  wp (publish c q names)
    (fun x => match x with Ok _ => at_stage q published | Err _ => at_stage q publishing end)
    (at_stage q publishing) (at_stage q publishing) m.
Proof using derived.
  names_apart. intros Hm. apply wp_try.
  eapply wp_mono; [eapply (wp_stage_clone c q _ _ _ _ _ published publishing);
    [exact Hm|solve_stage..]| |done|done].
  intros [[]|e] m1 H1; [|done].
  eapply wp_mono; [eapply (wp_stage_delete c q _ _ _ _ published publishing);
    [exact H1|solve_stage..]|done|done|done].
Qed.

Definition ended {A} (X : A -> M -> Prop) (x : result (RetentionPhase * WorkerError) A) : M -> Prop :=
  match x with Ok a => X a | Err (p, _) => at_stage q (failed_at p) end.

(** A step of the sequence under its phase: its errors carry the phase. *)
Lemma wp_at_phase {A} p message (step : Fut M (result WorkerError A)) (X : A -> M -> Prop) D C m :
  wp step (fun x => match x with Ok a => X a | Err _ => at_stage q (failed_at p) end)
    (at_stage q (failed_at p)) C m ->
  wp (at_phase p (phase message step)) (ended X) D C m.
Proof.
  intros Hs. apply wp_map_err, wp_phase.
  eapply wp_mono; [exact Hs| | |done]; [by intros [] ?|by intros ? ? ?].
Qed.

(** One that moves no disk and fails where nothing was touched yet. *)
Lemma wp_quiet_phase {A} p message (step : Fut M (result WorkerError A)) P m :
  maintains (at_stage q P) step -> (forall r d, P r d -> failed_at p r d) ->
  (forall r d, P r d -> interrupted r d) -> at_stage q P m ->
  wp (at_phase p (phase message step)) (ended (fun _ => at_stage q P)) (fun _ => False)
    (at_stage q interrupted) m.
Proof.
  intros Hs Hf Hi Hm. apply wp_at_phase.
  eapply wp_mono; [by apply Hs| | |intros m'; apply Hi].
  - intros [] m'; [done|apply Hf].
  - intros m'. apply Hf.
Qed.

(** The next step of a sequence that has not failed. *)
Lemma wp_then {A B} (step : Fut M (result (RetentionPhase * WorkerError) A))
    (k : A -> Fut M (result (RetentionPhase * WorkerError) B)) X Y D C m :
  wp step (ended X) D C m -> (forall a m, X a m -> wp (k a) (ended Y) D C m) ->
  wp (fut_try step k) (ended Y) D C m.
Proof.
  intros Hs Hk. apply wp_try. eapply wp_mono; [exact Hs| |done|done].
  intros [a|[p e]] m'; [apply Hk|done].
Qed.

Lemma marker_quiet P address : maintains (at_stage q P) (ensure_retention_marker address).
Proof.
  apply maintains_map_err, at_stage_quiet. intros I st. by apply maintains_host, disks_marker.
Qed.

Lemma stop_quiet P a deadline : maintains (at_stage q P) (stop_guest c a deadline).
Proof.
  apply maintains_bind; [apply at_stage_quiet; intros I st; by apply maintains_now|]. intros t.
  apply at_stage_quiet. intros I st. apply maintains_guard. intros _.
  apply maintains_bind; [by apply maintains_stop|]. intros _. apply maintains_polled; [done|].
  apply maintains_try; [by apply maintains_list|]. intros. apply maintains_ret.
Qed.

Lemma staged_quiet P name : maintains (at_stage q P) (ensure_staged name).
Proof.
  apply maintains_bind; [|intros; apply maintains_ret]. apply at_stage_quiet. intros I st.
  apply maintains_bind; [by apply maintains_list|]. intros. apply maintains_ret.
Qed.

Lemma wp_promote address deadline m :
  at_stage q running m ->
  wp (promote c q names address deadline) (ended (fun _ => at_stage q promoted))
    (fun _ => False) (at_stage q interrupted) m.
Proof using derived.
  names_apart. intros Hm.
  assert (forall r d, untouched r d -> interrupted r d) as Hui by (by left).
  eapply wp_then; [apply wp_quiet_phase with (P := running); [apply marker_quiet|..|exact Hm]|];
    [by intros r d [? _]|by intros r d [? _]; left|].
  intros ? m1 H1.
  eapply wp_then; [apply wp_quiet_phase with (P := running); [apply stop_quiet|..|exact H1]|];
    [by intros r d [? _]|by intros r d [? _]; left|].
  intros ? m2 H2.
  set (copied_ := (fun r d => untouched r d /\ is_Some cand /\ d !! nm_staging names = cand) : Stage_).
  eapply (wp_then _ _ (fun _ => at_stage q copied_)).
  { apply wp_at_phase. eapply wp_mono;
      [eapply (wp_stage_clone c q _ _ _ _ _ copied_ untouched); [exact H2|..]
      |by intros [] ?|done|intros m'; apply Hui]; unfold copied_; solve_stage. }
  intros ? m3 H3.
  eapply wp_then; [apply wp_quiet_phase with (P := copied_); [apply staged_quiet|..|exact H3]|];
    [by intros r d [? _]|by intros r d [? _]; left|].
  intros ? m4 H4.
  eapply (wp_then _ _ (fun _ => at_stage q (fun r d => staged r d /\ d !! nm_warm names = old))).
  { apply wp_map_err. eapply wp_mono; [eapply (wp_stage_record c q names Staging _
      (fun r d => staged r d /\ d !! nm_warm names = old) untouched);
      [exact H4|..]|by intros [] ?|done|done]; unfold copied_; solve_stage. }
  intros ? m5 H5. eapply (wp_then _ _ (fun _ => at_stage q retired)).
  { apply wp_at_phase. eapply wp_mono; [by apply wp_retire|done|done|].
    intros m'. unfold at_stage, interrupted. auto. }
  intros ? m6 H6. eapply (wp_then _ _ (fun _ => at_stage q published)).
  { apply wp_at_phase. eapply wp_mono; [by apply wp_publish|done|done|].
    intros m'. unfold at_stage, interrupted. auto. }
  intros ? m7 H7. apply wp_map_err.
  eapply wp_mono; [eapply (wp_stage_record c q names Promoted _ promoted publishing); [exact H7|..]
    |by intros [] ?|done|done]; solve_stage.
Qed.

(** ** Compensation

    A generation to step back to is one whose image was live. *)
Context (present : rtq_previous q <> None -> is_Some old).

Definition unresolved : Stage_ := fun r d => is_candidate Staging r.

Definition surviving r : Prop := r = survivor (profile_of_request q) (nm_warm names) (rtq_previous q).

(** The live disk is the one before, or there is none. *)
Definition stepped_back d : Prop :=
  rtq_previous q = None \/ d !! nm_warm names = old \/ d !! nm_warm names = None.

(** What the answer of a retention says of the record and the live disk. *)
Definition concluded (o : RetentionOutcome) : Stage_ := fun r d =>
  match ro_outcome o with
  | RPromoted => is_candidate Promoted r /\ ro_generation o = Some (rtq_generation q) /\
                 (d !! nm_warm names = cand \/ d !! nm_warm names = None)
  | RolledBack => surviving r /\ stepped_back d /\
                  exists g, rtq_previous q = Some g /\ ro_generation o = Some (wg_generation g)
  | _ => untouched r d \/ unresolved r d \/ (surviving r /\ rtq_previous q = None)
  end.

Lemma wp_drop_candidate P Q m :
  at_stage q P m -> (forall r d, P r d -> Q r d) ->
  (forall r d, P r d -> Q r (delete (nm_staging names) d)) ->
  wp (drop_candidate c q names) (fun _ => at_stage q Q) (fun _ => False) (at_stage q Q) m.
Proof.
  intros Hm HQ HQ'. apply wp_attempted.
  eapply wp_mono; [eapply (wp_stage_delete c q _ _ _ P Q Q); eauto|by intros [] ?|done|done].
Qed.

Lemma wp_persist_previous p error m :
  at_stage q (fun r d => is_candidate Staging r /\ stepped_back d) m ->
  wp (persist_previous c q names p error) (fun o => at_stage q (concluded o))
    (fun _ => False) (at_stage q unresolved) m.
Proof.
  intros Hm. unfold persist_previous. destruct (rtq_previous q) as [g|] eqn:Hprev; apply wp_bind.
  - eapply wp_mono; [eapply (wp_stage_revert c q names (Some g) _
      (fun r d => surviving r /\ stepped_back d) unresolved); [exact Hm|..]| |done|done].
    + intros r d [_ Hb]. split; [|done]. unfold surviving. by rewrite Hprev.
    + by intros r d [? _].
    + intros [u|e] m' Hm'; apply wp_ret; unfold at_stage, concluded in *; simpl; [naive_solver|auto].
  - eapply wp_mono; [eapply (wp_stage_revert c q names None _
      (fun r d => surviving r) unresolved); [exact Hm|..]| |done|done].
    + intros r d _. unfold surviving. by rewrite Hprev.
    + by intros r d [? _].
    + intros [u|e] m' Hm'; apply wp_ret; unfold at_stage, concluded in *; simpl; auto.
Qed.

Lemma wp_finalize p error m :
  at_stage q (fun r d => is_candidate Staging r /\
    (d !! nm_warm names = cand \/ d !! nm_warm names = None)) m ->
  wp (finalize_live_candidate c q names p error) (fun o => at_stage q (concluded o))
    (fun _ => False) (at_stage q unresolved) m.
Proof.
  intros Hm. apply wp_bind.
  eapply wp_mono; [eapply (wp_stage_record c q names Promoted _ (fun r d => is_candidate Promoted r /\
    (d !! nm_warm names = cand \/ d !! nm_warm names = None)) unresolved); [exact Hm|..]| |done|done].
  - by intros r d t [_ Hl].
  - by intros r d [? _].
  - intros [u|e] m' Hm'; apply wp_ret; unfold at_stage, concluded in *; simpl; naive_solver.
Qed.

(** Before the restore, with the live image gone: its copy is the old disk. *)
Definition bereft : Stage_ := fun r d =>
  is_candidate Staging r /\ d !! nm_warm names = None /\
  (d !! nm_previous names = old \/ old = None).

Lemma wp_restore m :
  at_stage q bereft m ->
  wp (ensure_previous_restored c q names)
    (fun x => at_stage q (fun r d => is_candidate Staging r /\ (x = Ok tt -> stepped_back d)))
    (fun _ => False) (at_stage q unresolved) m.
Proof using derived present.
  intros Hm. apply wp_bind.
  eapply wp_mono; [apply wp_stage_absent, Hm| |done|by intros m' [? _]].
  intros absent m1 [H1 _]. destruct absent; simpl; cycle 1.
  { apply wp_ret. destruct H1 as (? & ? & _). split; [done|]. intros _. right. by right. }
  apply wp_timed. eapply wp_mono; [eapply (wp_stage_clone c q _ _ _ _ bereft
    (fun r d => is_candidate Staging r /\ stepped_back d) unresolved); [exact H1|..]| | |done].
  - intros r d disk (Hc & _ & Hp) _ Hsrc. split; [done|]. unfold stepped_back.
    rewrite lookup_insert_eq. destruct Hp as [Hp|Hp].
    + right. left. congruence.
    + left. destruct (rtq_previous q) eqn:Hq; [|done]. destruct present as [x Hx]; congruence.
  - by intros r d [? _].
  - by intros r d [? _].
  - intros [[]|e] m2 H2; [destruct H2; by split | by split].
  - by intros m2 H2.
Qed.

(** The failure with its candidate dropped. *)
Definition dropped_at (p : RetentionPhase) : Stage_ := fun r d =>
  match p with
  | Retire => is_candidate Staging r /\ (d !! nm_warm names = old \/
      (d !! nm_warm names = None /\ d !! nm_previous names = old))
  | Promote => is_candidate Staging r /\ d !! nm_previous names = old /\
      (d !! nm_warm names = None \/ d !! nm_warm names = cand)
  | _ => untouched r d
  end.

Lemma failed_dropped p r d :
  failed_at p r d -> dropped_at p r d /\ dropped_at p r (delete (nm_staging names) d).
Proof using derived. names_apart. unfold failed_at, dropped_at. destruct p; split; solve_stage. Qed.

Lemma dropped_open p r d : dropped_at p r d -> untouched r d \/ unresolved r d.
Proof. unfold dropped_at, unresolved. destruct p; naive_solver. Qed.

(** The reconciliation after an answer about the live name. *)
Lemma wp_restoring p error (restored : Fut M (result WorkerError unit)) m :
  wp restored (fun x => at_stage q (fun r d => is_candidate Staging r /\ (x = Ok tt -> stepped_back d)))
    (fun _ => False) (at_stage q unresolved) m ->
  wp (restored ← restored;
      match restored with
      | Ok _ => persist_previous c q names p error
      | Err restore_error =>
          mret (retention_outcome RFailed p
            (worker_message error +:+ "; restore failed: " +:+ worker_message restore_error)
            (rtq_generation q))
      end) (fun o => at_stage q (concluded o)) (fun _ => False) (at_stage q unresolved) m.
Proof.
  intros Hr. apply wp_bind. eapply wp_mono; [exact Hr| |done|done]. intros [[]|e] m' [Hc Hb].
  - apply wp_persist_previous. split; [done|]. by apply Hb.
  - apply wp_ret. right. by left.
Qed.

Lemma wp_rollback p error m :
  at_stage q (failed_at p) m ->
  wp (rollback c q names p error) (fun o => at_stage q (concluded o)) (fun _ => False)
    (at_stage q (fun r d => untouched r d \/ unresolved r d)) m.
Proof using derived present.
  intros Hm. apply wp_bind.
  eapply wp_mono; [apply (wp_drop_candidate (failed_at p) (dropped_at p)); [done|..]; intros r d;
    apply failed_dropped| |done|intros m'; apply dropped_open].
  intros ? m1 H1. apply wp_bind.
  eapply wp_mono; [apply wp_stage_absent, H1| |done|intros m'; apply dropped_open].
  intros absent m2 [H2 Habs].
  assert (forall (step : Fut M RetentionOutcome),
    wp step (fun o => at_stage q (concluded o)) (fun _ => False) (at_stage q unresolved) m2 ->
    wp step (fun o => at_stage q (concluded o)) (fun _ => False)
      (at_stage q (fun r d => untouched r d \/ unresolved r d)) m2) as Hgo.
  { intros step Hs. eapply wp_mono; [exact Hs|done|done|]. intros m'. unfold at_stage. auto. }
  destruct p; simpl in H2; try (apply wp_ret; by left); destruct absent; simpl; apply Hgo.
  - apply wp_restoring, wp_restore. specialize (Habs eq_refl). unfold at_stage, bereft. intuition congruence.
  - apply wp_restoring, wp_ret. unfold at_stage, stepped_back. tauto.
  - apply wp_restoring, wp_restore. specialize (Habs eq_refl). unfold at_stage, bereft. intuition congruence.
  - apply wp_finalize. unfold at_stage. tauto.
Qed.
End promotion.

(** ** Properties *)

Section properties.
Context {H : Type} {TH : TartHost H} {LT : LawfulTart H} {RC : ReportCodec} {ET : ErrorText}.
Context (c : TartClient).
Local Abbreviation M := (Manager (TartWorld H)).
#[local] Hint Extern 0 (Backend _) => exact (backend c) : typeclass_instances.
Implicit Types (m : M).

Definition live_record (q : RetentionRequest) m : option WarmImageRecord :=
  m_images m !! profile_of_request q.
Definition disk_at (name : string) m : option string := disks (m_world m) !! name.

(** A promotion's start, for what each generation's disk is: the request steps
    back to the promoted record, whose image is live, or there is none yet; and
    the guest holds the disk of the generation to be. *)
Record ready (disk_of : Z -> option string) (q : RetentionRequest) (names : Names) m : Prop := {
  ready_names : derive (rtq_warm_template q) = Ok names;
  ready_record :
    match rtq_previous q with
    | None => live_record q m = None
    | Some g => exists r, live_record q m = Some r /\ wi_state r = Promoted /\ generation_of r = g
    end;
  ready_live : forall g, rtq_previous q = Some g -> is_Some (disk_at (nm_warm names) m) /\
    disk_at (nm_warm names) m = disk_of (wg_generation g);
  ready_guest : forall disk, disk_at (a_vm_name (rtq_allocation q)) m = Some disk ->
    disk_of (rtq_generation q) = Some disk;
}.

(** A record the manager boots from names the generation whose disk is live. *)
Definition truthful (disk_of : Z -> option string) (q : RetentionRequest) (names : Names) m : Prop :=
  forall r disk, live_record q m = Some r -> wi_state r = Promoted ->
    disk_at (nm_warm names) m = Some disk -> disk_of (wi_generation r) = Some disk.

(** What a restart settles on is true of the disk that is live then: the one
    there, or without one the retained copy it restores. *)
Definition settles (disk_of : Z -> option string) (q : RetentionRequest) (names : Names) m : Prop :=
  forall r s, live_record q m = Some r ->
    settled_record r (bool_decide (is_Some (disk_at (nm_warm names) m)))
      (bool_decide (is_Some (disk_at (nm_staging names) m))) = Some s ->
    forall disk,
      match disk_at (nm_warm names) m with
      | Some live => Some live
      | None => disk_at (nm_previous names) m
      end = Some disk -> disk_of (wi_generation s) = Some disk.

Section ready.
Context (disk_of : Z -> option string) (q : RetentionRequest) (names : Names) (m : M).
Context (Hready : ready disk_of q names m).
Local Abbreviation before := (live_record q m).
Local Abbreviation old := (disk_at (nm_warm names) m).
Local Abbreviation cand := (disk_at (a_vm_name (rtq_allocation q)) m).

Lemma ready_present : rtq_previous q <> None -> is_Some old.
Proof using Hready.
  intros Hne. destruct (rtq_previous q) as [g|] eqn:Hq; [|done].
  by destruct (ready_live _ _ _ _ Hready g Hq).
Qed.

Lemma before_previous r :
  before = Some r ->
  exists g, rtq_previous q = Some g /\ wi_state r = Promoted /\ wi_generation r = wg_generation g.
Proof using Hready.
  intros Hb. pose proof (ready_record _ _ _ _ Hready) as Hr.
  destruct (rtq_previous q) as [g|]; [|congruence]. destruct Hr as (r' & Hr' & Hs & Hg).
  simplify_eq. eexists. split_and!; done.
Qed.

(** The live disk the profile had is the one of the generation before. *)
Lemma old_disk g disk : rtq_previous q = Some g -> old = Some disk ->
  disk_of (wg_generation g) = Some disk.
Proof using Hready. intros Hq Ho. destruct (ready_live _ _ _ _ Hready g Hq). congruence. Qed.

(** The two claims, of a record and the disks. *)
Definition true_of : Stage_ := fun r d =>
  forall rec disk, r = Some rec -> wi_state rec = Promoted -> d !! nm_warm names = Some disk ->
    disk_of (wi_generation rec) = Some disk.

Definition settles_as : Stage_ := fun r d =>
  forall rec s, r = Some rec ->
    settled_record rec (bool_decide (is_Some (d !! nm_warm names)))
      (bool_decide (is_Some (d !! nm_staging names))) = Some s ->
    forall disk, match d !! nm_warm names with Some live => Some live | None => d !! nm_previous names end
      = Some disk -> disk_of (wi_generation s) = Some disk.

(** For a moment of the publication the candidate is staged and live. *)
Definition doubled : Stage_ := fun r d =>
  is_candidate q names Staging r /\ is_Some (d !! nm_staging names) /\
  d !! nm_warm names = cand /\ d !! nm_previous names = old.

Lemma untouched_true r d : untouched names before old r d -> true_of r d.
Proof using Hready.
  intros [-> Ho] rec disk Hb _ Hd. destruct (before_previous rec Hb) as (g & Hq & _ & ->).
  apply (old_disk g); congruence.
Qed.

Lemma staging_true r d : is_candidate q names Staging r -> true_of r d.
Proof. by intros (t & ->) rec disk [= <-]. Qed.

Lemma promoted_true r d :
  is_candidate q names Promoted r -> d !! nm_warm names = cand \/ d !! nm_warm names = None ->
  true_of r d.
Proof using Hready.
  intros (t & ->) Hl rec disk [= <-] _ Hd. simpl. apply (ready_guest _ _ _ _ Hready).
  destruct Hl; congruence.
Qed.

Lemma surviving_true r d : surviving q names r -> stepped_back q names old d -> true_of r d.
Proof using Hready.
  unfold surviving, survivor, stepped_back. intros -> Hb rec disk Hr _ Hd.
  destruct (rtq_previous q) as [g|] eqn:Hq; [|done]. injection Hr as <-. simpl.
  apply (old_disk g disk Hq). destruct Hb as [|[|]]; congruence.
Qed.

Lemma concluded_true o r d : concluded q names before old cand o r d -> true_of r d.
Proof using Hready.
  unfold concluded. destruct (ro_outcome o).
  1: intros (Hc & _ & Hl); by apply promoted_true.
  1: intros (Hs & Hb & _); by apply surviving_true.
  all: intros [Hu|[Hu|[Hs Hq]]];
    [by apply untouched_true|by apply staging_true|apply surviving_true; [done|by left]].
Qed.

Lemma untouched_settles r d : untouched names before old r d -> settles_as r d.
Proof using Hready.
  intros [-> Ho] rec s Hb Hs disk Hd. destruct (before_previous rec Hb) as (g & Hq & Hst & Hg).
  destruct ready_present as [x Hx]; [congruence|].
  rewrite Ho, Hx in Hs, Hd. unfold settled_record in Hs. rewrite Hst in Hs. simpl in Hs.
  simplify_eq. rewrite Hg. by apply (old_disk g).
Qed.

Lemma survivor_disk r rec s disk :
  is_candidate q names Staging r -> r = Some rec ->
  survivor (wi_profile rec) (wi_warm_template rec) (wi_previous rec) = Some s ->
  (is_Some old -> old = Some disk) -> disk_of (wi_generation s) = Some disk.
Proof using Hready.
  intros (t & ->) [= <-] Hs Ho. simpl in Hs. unfold survivor in Hs.
  destruct (rtq_previous q) as [p|] eqn:Hq; [|done]. injection Hs as <-. simpl.
  apply (old_disk p disk Hq), Ho, ready_present. congruence.
Qed.

Lemma retiring_settles r d : retiring q names old cand r d -> settles_as r d.
Proof using Hready.
  intros [(Hc & [x Hx] & Hst) Hw] rec s Hr Hs disk Hd. rewrite Hst, Hx in Hs. simpl in Hs.
  apply (survivor_disk r rec); [done|done| |].
  - destruct Hc as (t & ->). injection Hr as <-. unfold settled_record in Hs. simpl in Hs.
    by destruct (bool_decide _).
  - intros Ho. destruct Hw as [Hw|[Hw Hp]]; rewrite Hw in Hd; [by destruct old|congruence].
Qed.

Lemma publishing_settles r d :
  publishing q names old cand r d -> settles_as r d \/ doubled r d.
Proof using Hready.
  intros (Hc & [x Hx] & Hp & [[Hw Hst]|Hw]).
  - left. apply retiring_settles. split; [|by right]. split_and!; done.
  - destruct (decide (is_Some (d !! nm_staging names))) as [Hs|Hs]; [by right|left].
    intros rec s Hr Hset disk Hd. destruct Hc as (t & ->). injection Hr as <-.
    rewrite Hw, Hx in Hset, Hd. rewrite (bool_decide_eq_false_2 _ Hs) in Hset.
    unfold settled_record in Hset. simpl in Hset. injection Hset as <-. simpl.
    apply (ready_guest _ _ _ _ Hready). congruence.
Qed.

Lemma promoted_settles r d : promoted q names cand r d -> settles_as r d.
Proof using Hready.
  intros ((t & ->) & [x Hx] & Hw) rec s [= <-] Hs disk Hd. rewrite Hw, Hx in Hs, Hd.
  unfold settled_record in Hs. simpl in Hs. injection Hs as <-. simpl.
  apply (ready_guest _ _ _ _ Hready). congruence.
Qed.

Lemma interrupted_settles r d :
  interrupted q names before old cand r d -> settles_as r d \/ doubled r d.
Proof using Hready.
  intros [Hu|[Hr|[Hp|Hp]]]; [left; by apply untouched_settles|left; by apply retiring_settles| |
    left; by apply promoted_settles].
  by apply publishing_settles.
Qed.

Lemma ready_running : at_stage q (running q names before old cand) m.
Proof. done. Qed.
End ready.

Lemma lock_quiet q P :
  maintains (at_stage q P) (phase "retention image lock exceeded its budget"
    (_ ← tart (host (th_image_lock (profile_of_request q))); mret (Ok tt))).
Proof.
  apply maintains_phase, maintains_bind; [|intros; apply maintains_ret].
  apply at_stage_quiet. intros I st. by apply maintains_host, disks_image_lock.
Qed.

Lemma now_quiet q P : maintains (at_stage q P) now.
Proof. apply at_stage_quiet. intros I st. by apply maintains_now. Qed.

Lemma wp_retain_warm disk_of q names address m :
  ready disk_of q names m ->
  wp (retain_warm c q address)
    (fun o => at_stage q (concluded q names (live_record q m) (disk_at (nm_warm names) m)
       (disk_at (a_vm_name (rtq_allocation q)) m) o))
    (fun _ => False) (at_stage q (true_of disk_of names)) m.
Proof.
  intros Hready. pose proof (ready_names _ _ _ _ Hready) as Hn. unfold retain_warm. rewrite Hn.
  set (before := live_record q m). set (old := disk_at (nm_warm names) m).
  set (cand := disk_at (a_vm_name (rtq_allocation q)) m).
  assert (forall r d, untouched names before old r d -> true_of disk_of names r d) as Hu
    by (intros; by eapply untouched_true).
  apply wp_bind.
  eapply wp_mono; [apply maintains_ends; [apply now_quiet|by do 2 apply ends_on; apply ends_answer|
    exact (ready_running q names m)]| |done|by intros m' [? _]; apply Hu].
  intros t m1 H1. apply wp_bind.
  eapply wp_mono; [apply maintains_ends; [apply lock_quiet|apply ends_phase|exact H1]| |done|
    by intros m' [? _]; apply Hu].
  intros [[]|e] m2 H2; [|apply wp_ret; left; by destruct H2].
  apply wp_bind. eapply wp_mono; [by apply (wp_promote c q names Hn before old cand)| |done|].
  - intros [[]|[p e]] m3 H3.
    + apply wp_ret. destruct H3 as (Hc & _ & Hw). split_and!; [done|done|by left].
    + eapply wp_mono; [apply (wp_rollback c q names Hn before old cand); [|done]|done|done|].
      * by eapply ready_present.
      * intros m' [Hm|Hm]; [by apply Hu | by eapply staging_true].
  - intros m' [Hm|[Hm|[Hm|Hm]]]; [by apply Hu| | |].
    + eapply staging_true. by destruct Hm as [[? _] _].
    + eapply staging_true. by destruct Hm as [? _].
    + destruct Hm as (Hc & _ & Hw). eapply promoted_true; [done|done|by left].
Qed.

(** C34: the warm image that is booted is the recorded one, whatever became of
    its promotion.  The retention starts from a record that says promoted and
    whose generation is live, or from no record at all ([ready]).  Then
    wherever it ends, by success, failure, cancellation, timeout or the death
    of the daemon, a record that says promoted names the generation whose disk
    is live, if any is.  A retention that reports a promotion has recorded its
    own generation, one that reports a rollback the generation before, and a
    retention always answers unless the daemon dies.  From a record an earlier
    failure left staged this does not hold ([staged_record_relabelled]). *)
Theorem retention_truthful disk_of q names address m :
  ready disk_of q names m ->
  let '(ended, m') := retain_warm c q address m in
  truthful disk_of q names m' /\
  match ended with
  | Done o =>
      (ro_outcome o = RPromoted -> exists r, live_record q m' = Some r /\
         wi_state r = Promoted /\ wi_generation r = rtq_generation q) /\
      (ro_outcome o = RolledBack -> exists g r, rtq_previous q = Some g /\
         live_record q m' = Some r /\ wi_state r = Promoted /\
         wi_generation r = wg_generation g)
  | Dropped _ => False
  | Crashed => True
  end.
Proof.
  intros Hready.
  pose proof (wp_retain_warm disk_of q names address m Hready) as Hwp.
  unfold wp in Hwp. destruct (retain_warm c q address m) as [[o|b|] m']; [|done|by split].
  split; [by eapply concluded_true|]. unfold at_stage, concluded, surviving, survivor in Hwp.
  split; intros Ho; rewrite Ho in Hwp.
  - destruct Hwp as ((t & Hr) & _). eauto.
  - destruct Hwp as (Hr & _ & g & Hq & _). rewrite Hq in Hr. simpl in Hr. eauto 8.
Qed.

(** C33: the forward path of a promotion can be cut anywhere but in one place.
    It starts from a record that says promoted and whose generation is live, or
    from no record at all ([ready]).  Then wherever it ends, by success,
    failure, cancellation, timeout or the death of the daemon, what a restart
    settles on names the generation of the disk that is live then (the one
    there, or the retained copy the restart restores), except while the
    candidate is live and its staged copy not yet removed. *)
Theorem promotion_settles disk_of q names address deadline m :
  ready disk_of q names m ->
  let m' := (promote c q names address deadline m).2 in
  settles disk_of q names m' \/
  (exists r, live_record q m' = Some r /\ wi_state r = Staging /\
     is_Some (disk_at (nm_staging names) m') /\
     disk_at (nm_warm names) m' = disk_at (a_vm_name (rtq_allocation q)) m).
Proof.
  intros Hready m'. pose proof (ready_names _ _ _ _ Hready) as Hn.
  pose proof (wp_promote c q names Hn _ _ _ address deadline m (ready_running q names m)) as Hwp.
  assert (at_stage q (interrupted q names (live_record q m) (disk_at (nm_warm names) m)
    (disk_at (a_vm_name (rtq_allocation q)) m)) m') as Hi.
  { unfold m'. unfold wp in Hwp. destruct (promote c q names address deadline m) as [[[u|[p e]]|b|] m1];
      simpl in *; [|by eapply failed_interrupted|done|done]. by do 3 right. }
  apply (interrupted_settles disk_of q names m Hready) in Hi as [Hs|(Hc & Hst & Hw & _)].
  - left. exact Hs.
  - right. destruct Hc as (t & Hr). eauto 6.
Qed.

Lemma settle_present_disks profile r is_staged m :
  wi_state r = Staging -> disks (m_world (settle_warm profile r true is_staged m).2) = disks (m_world m).
Proof.
  intros Hr. unfold settle_warm. rewrite Hr. destruct is_staged; simpl.
  - unfold mbind, IO_bind, revert_record.
    pose proof (reverted_disks c (wi_profile r) (wi_warm_template r) (wi_previous r) m) as Hd.
    by destruct (ensure_warm_reverted _ _ _ m) as [x m1].
  - unfold finalize_record, io_map_err, images_save, mbind, IO_bind. destruct (negb _); [done|].
    match goal with |- context [stored ?s ?m] =>
      pose proof (stored_disks c s m) as Hs; destruct (stored s m) as [x m1] end. simpl in *. by rewrite Hs.
Qed.

(** C38: two moments of a promotion do not survive the daemon's death.  Let the
    record be staged with a generation before it, and the live image be there.
    If the candidate is live and its staged copy is there too, as between the
    two steps of a publication, the restart records the generation before over
    the candidate's disk; if the generation before is live and no staged copy
    is left, as in a rollback between the removal of the candidate and the
    revert of the record, the restart records the abandoned generation over
    the disk of the one before.  Either way it ends as a promoted record whose
    generation is not the live one. *)
Theorem interrupted_promotion_mislabelled disk_of q names profile r g live m :
  store_answers (W := TartWorld H) -> image_fits r ->
  image_fits (surviving_record (wi_profile r) (wi_warm_template r) g) ->
  wi_profile r = profile_of_request q -> live_record q m = Some r ->
  wi_state r = Staging -> wi_previous r = Some g ->
  disk_of (wg_generation g) <> disk_of (wi_generation r) ->
  disk_at (nm_warm names) m = Some live ->
  let is_staged := bool_decide (is_Some (disk_at (nm_staging names) m)) in
  disk_of (if is_staged then wi_generation r else wg_generation g) = Some live ->
  let '(answer, m') := settle_warm profile r true is_staged m in
  answer = Ok tt /\ disk_at (nm_warm names) m' = Some live /\
  exists s, live_record q m' = Some s /\ wi_state s = Promoted /\
    wi_generation s = (if is_staged then wg_generation g else wi_generation r) /\
    disk_of (wi_generation s) <> Some live.
Proof.
  intros Hstore Hfit Hfit' Hp Hr Hs Hg Hne Hlive is_staged Hdisk.
  pose proof (settle_warm_spec profile r true is_staged m Hstore Hfit) as Hspec.
  pose proof (settle_present_disks profile r is_staged m Hs) as Hd.
  destruct (settle_warm profile r true is_staged m) as [answer m']. simpl in Hd.
  destruct Hspec as [-> Hm]; [by intros g' [= <-]%(eq_trans (eq_sym Hg))|by rewrite Hp|].
  split; [done|]. split; [unfold disk_at; by rewrite Hd|].
  unfold live_record. rewrite Hm, Hp, lookup_partial_alter_eq. unfold settled_record. rewrite Hs.
  destruct is_staged; simpl; [unfold survivor; rewrite Hg; simpl|]; eexists; (split; [done|]); simpl;
    split_and!; try done; congruence.
Qed.
End properties.

(** ** Witnesses *)

(** The second generation over the first, on a host whose commands go by a
    script. *)
Definition first_image : WarmImageRecord :=
  {| wi_profile := "linux"; wi_warm_template := "linux-warm"; wi_generation := 1;
     wi_base_fingerprint := example_fingerprint; wi_produced_by := "id-0";
     wi_produced_at_unix := 500; wi_state := Promoted; wi_previous := None |}.

Definition example_request : RetentionRequest :=
  {| rtq_allocation := example_regeneration; rtq_profile := example_profile;
     rtq_warm_template := "linux-warm"; rtq_base_fingerprint := "ff00";
     rtq_generation := 2; rtq_previous := Some (generation_of first_image) |}.

Definition example_names : Names :=
  {| nm_warm := "linux-warm"; nm_staging := "linux-warm.staging";
     nm_previous := "linux-warm.previous" |}.

Definition example_disks : gmap string string :=
  {[ "linux-base" := "base"; "linux-warm" := "disk-1"; "ff-linux-9-1" := "disk-2" ]}.

Definition promotion_manager (script : Datatypes.list Turn) : Manager (TartWorld SimTart) :=
  mkManager example_config example_config 0 ∅ {[ "linux" := first_image ]} ∅ [] ∅ ∅ None None false
    1000 None [] (mkTartWorld (mkSimTart example_disks script 1000) ∅).

Definition example_disk_of (generation : Z) : option string :=
  if generation =? 1 then Some "disk-1" else if generation =? 2 then Some "disk-2" else None.

Definition example_text : ErrorText :=
  {| store_text _ := "store"; manager_text _ := "manager" |}.

(** A retention on the scripted host, and the daemon's next start. *)
Definition retained (script : Datatypes.list Turn) :
    outcome RetentionOutcome * Manager (TartWorld SimTart) :=
  @retain_warm SimTart sim_tart example_report example_text example_client example_request
    "10.0.0.7" (promotion_manager script).

Definition restarted_after (m : Manager (TartWorld SimTart)) : Manager (TartWorld SimTart) :=
  (@ensure_warm_consistent (TartWorld SimTart)
     (@tart_backend SimTart sim_tart example_client example_report) example_config
     (m <| m_world := mkTartWorld (tw_host (m_world m)) ∅ |>)).2.

(** The recorded generation, its state, and the live disk. *)
Definition authority (m : Manager (TartWorld SimTart)) : option (Z * WarmImageState) * option string :=
  (option_map (fun r => (wi_generation r, wi_state r)) (m_images m !! "linux"),
   disk_at "linux-warm" m).

Lemma example_ready script :
  ready example_disk_of example_request example_names (promotion_manager script).
Proof.
  split.
  - vm_compute. reflexivity.
  - exists first_image. vm_compute. auto.
  - intros g Hg. injection Hg as <-. split; [exists "disk-1"|]; vm_compute; reflexivity.
  - intros disk Hd. vm_compute in Hd |- *. exact Hd.
Qed.

(** A delete of the live image that takes effect and still fails. *)
Lemma retention_truthful_witness :
  let '(ended, m') := retained (repeat Fine 8 ++ [FailsAfter; Fails; Fails]) in
  truthful example_disk_of example_request example_names m' /\
  exists o, ended = Done o /\ ro_outcome o = RolledBack.
Proof.
  pose proof (@retention_truthful SimTart sim_tart sim_lawful example_report example_text
    example_client example_disk_of example_request example_names "10.0.0.7" _
    (example_ready (repeat Fine 8 ++ [FailsAfter; Fails; Fails]))) as Ht.
  unfold retained. destruct (@retain_warm _ _ _ _ _ _ _ _) as [ended m'] eqn:He.
  split; [exact (proj1 Ht)|]. apply (f_equal fst) in He. vm_compute in He. eauto.
Defined.

(** The daemon dies once the live image is gone. *)
Lemma promotion_settles_witness :
  settles example_disk_of example_request example_names
    (@promote SimTart sim_tart example_report example_text example_client example_request
       example_names "10.0.0.7" 301000000000 (promotion_manager (repeat Fine 8 ++ [DiesAfter]))).2.
Proof.
  destruct (@promotion_settles SimTart sim_tart sim_lawful example_report example_text
    example_client example_disk_of example_request example_names "10.0.0.7" 301000000000 _
    (example_ready (repeat Fine 8 ++ [DiesAfter]))) as [Hs|(r & _ & _ & _ & Hw)]; [exact Hs|].
  exfalso. vm_compute in Hw. discriminate Hw.
Defined.

(** The two moments are reached by retentions cut short, and the daemon's next
    start then records the generation that is not live. *)
Definition cut_in_publication := (retained (repeat Fine 10 ++ [DiesBefore])).2.
Definition cut_in_rollback := (retained (repeat Fine 4 ++ [Fails; Fails; Fine; Fine; DiesBefore])).2.

Example restart_mislabels :
  authority (restarted_after cut_in_publication) = (Some (1, Promoted), Some "disk-2") /\
  authority (restarted_after cut_in_rollback) = (Some (2, Promoted), Some "disk-1").
Proof. split; vm_compute; reflexivity. Qed.

(** A retention that starts from a record an earlier failure left staged takes
    that generation for the one before: it steps back to it, over the disk of
    another. *)
Definition staged_record : WarmImageRecord :=
  first_image <| wi_generation := 2 |> <| wi_state := Staging |>
    <| wi_previous := Some (generation_of first_image) |>.

Definition third_request : RetentionRequest :=
  {| rtq_allocation := example_regeneration; rtq_profile := example_profile;
     rtq_warm_template := "linux-warm"; rtq_base_fingerprint := "ff00";
     rtq_generation := 3; rtq_previous := Some (generation_of staged_record) |}.

Example staged_record_relabelled :
  let '(ended, m') := @retain_warm SimTart sim_tart example_report example_text example_client third_request
    "10.0.0.7" (promotion_manager (repeat Fine 8 ++ [FailsAfter; Fails; Fails])
                  <| m_images := {[ "linux" := staged_record ]} |>) in
  (exists o, ended = Done o /\ ro_outcome o = RolledBack) /\
  authority m' = (Some (2, Promoted), Some "disk-1").
Proof. vm_compute. eauto. Qed.

Lemma sim_store_answers :
  @store_answers (TartWorld SimTart) (@tart_backend SimTart sim_tart example_client example_report).
Proof. by intros w. Qed.

(** The record a state holds. *)
Definition record_in (m : Manager (TartWorld SimTart)) : WarmImageRecord :=
  default first_image (live_record example_request m).

Definition settled_in (is_staged : bool) (m : Manager (TartWorld SimTart)) : Manager (TartWorld SimTart) :=
  (@settle_warm _ (@tart_backend SimTart sim_tart example_client example_report) example_profile
     (record_in m) true is_staged m).2.

Lemma interrupted_promotion_mislabelled_witness :
  (exists s, live_record example_request (settled_in true cut_in_publication) = Some s /\
     wi_state s = Promoted /\ wi_generation s = 1 /\ example_disk_of (wi_generation s) <> Some "disk-2") /\
  (exists s, live_record example_request (settled_in false cut_in_rollback) = Some s /\
     wi_state s = Promoted /\ wi_generation s = 2 /\ example_disk_of (wi_generation s) <> Some "disk-1").
Proof.
  split; unfold settled_in; [set (m := cut_in_publication)|set (m := cut_in_rollback)].
  - pose proof (@interrupted_promotion_mislabelled SimTart sim_tart sim_lawful example_report example_client
      example_disk_of example_request example_names example_profile (record_in m) (generation_of first_image)
      "disk-2" m sim_store_answers) as Hm.
    replace (bool_decide (is_Some (disk_at (nm_staging example_names) m))) with true in Hm by (vm_compute; reflexivity).
    revert Hm. cbv zeta. destruct (@settle_warm _ _ _ _ _ _ m) as [answer m']. intros Hm.
    refine (proj2 (proj2 (Hm _ _ _ _ _ _ _ _ _)));
      first [vm_compute; reflexivity | split; vm_compute; discriminate | vm_compute; discriminate].
  - pose proof (@interrupted_promotion_mislabelled SimTart sim_tart sim_lawful example_report example_client
      example_disk_of example_request example_names example_profile (record_in m) (generation_of first_image)
      "disk-1" m sim_store_answers) as Hm.
    replace (bool_decide (is_Some (disk_at (nm_staging example_names) m))) with false in Hm by (vm_compute; reflexivity).
    revert Hm. cbv zeta. destruct (@settle_warm _ _ _ _ _ _ m) as [answer m']. intros Hm.
    refine (proj2 (proj2 (Hm _ _ _ _ _ _ _ _ _)));
      first [vm_compute; reflexivity | split; vm_compute; discriminate | vm_compute; discriminate].
Defined.
