(* ===== verification/Service.v ===== *)
(** * Requests ([crates/flanforge-manager/src/{service,resolve,config_reload}.rs])

    What one request goes through: authorization and resolution, the pool work
    that must precede admission, the decision under the entries lock, the
    commit of the claim and the allocation, and what a caller may read or
    cancel afterwards.  [create_locked] is the locked section alone, a function of the
    listing and the pool snapshot it is handed, so it can be run against stale
    ones. *)

From S2P Require Import Prelude Rust Text Identifiers Images Guest Hot Allocation Config ConfigValidate ConfigReload Claims Sizing Admission HotSelect Reaper Convert Manager HotPool Lifecycle WarmImages.

Open Scope Z_scope.
Open Scope stdpp_scope.

(** ** Names ([resolve.rs]) *)

(** [IdentifierError]'s [Display]. *)
Definition identifier_error_text (e : IdentifierError) : string :=
  match e with
  | Length kind min max =>
      kind +:+ " must be between " +:+ decimal min +:+ " and " +:+ decimal max +:+ " ASCII characters"
  | Character kind => kind +:+ " contains an invalid character"
  | Repository => "repository must have the form owner/name"
  | VmPrefixError => "VM prefix must end with '-'"
  end.

Definition vm_name (config : Config) (request : AllocationRequest) : result ManagerError VmName :=
  map_err (fun e => InvalidVmName (identifier_error_text e))
    (vm_name_new (rt_vm_prefix (c_runtime config) +:+ rq_profile request +:+ "-"
                  +:+ decimal (rq_run_id request) +:+ "-" +:+ decimal (rq_run_attempt request))).

Definition runner_label (profile : Profile) (uuid : string) : result ManagerError RunnerLabel :=
  map_err (fun e => InvalidRunnerLabel (identifier_error_text e))
    (runner_label_new (p_runner_label profile +:+ "-" +:+ uuid)).

(** ** One request *)

Record Resolved := {
  rs_profile : Profile;
  rs_size : GuestSize;
  rs_mode : AllocationMode;
  rs_source : SourceSelection;
  rs_lane : HotLane;
  rs_age_seconds : option Z;
}.

Section service.
Context {W : Type} {BK : Backend W} {HO : HashOrder}.

Definition authorize (config : Config) (request : AllocationRequest) (options : RequestOptions)
    (claims : ForgejoClaims) : IO W (result ManagerError Resolved) :=
  if negb (validate_request request) then mret (Err InvalidRequest)
  else
    profile ←? mret (profile_of config request);
    _ ←? mret (map_err AuthorizationE (ensure_authorized claims profile request));
    size ←? mret (map_err (fun _ => RequestExceedsProfile) (resolve_size options profile));
    age_seconds ←? mret (map_err (fun _ => RequestExceedsProfile)
                           (resolve_hot_age (ro_hot options) profile));
    let mode := resolve_mode options profile (default "" (workflow_file claims)) in
    source ← resolve_source (rq_profile request) profile mode;
    size ← effective_size size (rq_profile request) (ss_source source);
    mret (Ok {| rs_profile := profile; rs_size := size; rs_mode := mode; rs_source := source;
                rs_lane := from_ref_protected (is_ref_protected claims);
                rs_age_seconds := age_seconds |}).

Definition prepare_hot (config : Config) (request : AllocationRequest) (resolved : Resolved)
    (options : RequestOptions) : IO W (option HotContext) :=
  _ ← (if is_evicting (ro_hot options)
       then ensure_hot_evicted_for (rq_profile request) EvictRequested else mret tt);
  _ ← ensure_hot_yielded config (rs_size resolved);
  match rs_mode resolved with
  | Cold | Warm =>
      if is_retaining (ro_hot options)
      then hot_context config (rq_profile request) (rs_profile resolved) (rs_lane resolved)
             (rs_age_seconds resolved)
      else mret None
  | Regenerate => mret None
  end.

Definition abandon_hot_claim (claim : option HotClaim) : IO W unit :=
  match claim with
  | Some (Reused guest _ _) => ensure_hot_drained guest ResetFailed
  | _ => mret tt
  end.

(** The record a request is admitted with, and the claim it rests on. *)
Definition new_allocation (config : Config) (request : AllocationRequest)
    (options : RequestOptions) (resolved : Resolved) (context : option HotContext)
    (hot : list HotGuest) : IO W (result ManagerError (Allocation * option HotClaim)) :=
  entries ← gets m_entries;
  uuid ← call bk_uuid;
  label ←? mret (runner_label (rs_profile resolved) uuid);
  name ←? mret (vm_name config request);
  id ← call bk_uuid;
  created ← unix_time;
  sourced ← unix_time;
  claimed ← unix_time;
  decided ← unix_time;
  let a := allocation_new created id request name label (rs_mode resolved) (rs_size resolved) in
  let a := if bk_clone_source_deferred then a
           else set_clone_source sourced (ss_source (rs_source resolved))
                  (ss_warm_generation (rs_source resolved)) a in
  let claim := context ≫= fun context => plan_hot_claim claimed entries hot context (a_id a) in
  mret (Ok (apply_hot_decision decided claim (negb (is_none context)) (rs_lane resolved)
              (rs_age_seconds resolved) (rs_mode resolved) (rt_max_hot_vms (c_runtime config))
              options (rs_profile resolved) a, claim)).

Definition commit_claim (a : Allocation) (claim : option HotClaim) : IO W (result ManagerError unit) :=
  match claim with
  | Some (Reused guest _ _) =>
      _ ←? io_map_err StoreE (hot_save guest);
      _ ← emit HotClaimed (Some (a_id a)) (Some (hg_vm_name guest)) (Some (hg_profile guest));
      mret (Ok tt)
  | _ => mret (Ok tt)
  end.

(** The commit: the claim's record, the allocation's row, then the entry. *)
Definition commit (a : Allocation) (claim : option HotClaim) : IO W (result ManagerError unit) :=
  _ ←? commit_claim a claim;
  saved ← allocation_save a;
  match saved with
  | Err e => _ ← abandon_hot_claim claim; mret (Err (StoreE e))
  | Ok _ =>
      _ ← modify (fun m => m <| m_entries :=
            prune_terminal_history (<[a_id a := mkEntry a a false true false]> (m_entries m))
              (m_history_limit m) |>);
      mret (Ok tt)
  end.

(** The locked section of [create]: what it answers, and whether it is new. *)
Definition create_locked (config : Config) (request : AllocationRequest) (options : RequestOptions)
    (resolved : Resolved) (context : option HotContext)
    (machines : result WorkerError (list HostMachine)) (hot : result StoreError (list HotGuest)) :
    IO W (result ManagerError (Allocation * bool)) :=
  entries ← gets m_entries;
  is_closing ← gets m_is_closing;
  if is_closing : bool then mret (Err ShuttingDown)
  else match idempotent entries request with
  | Some existing => mret (Ok (existing, false))
  | None =>
      _ ←? mret (ensure_sole_producer entries (rq_profile request) (rs_mode resolved));
      machines ←? mret (map_err (fun _ => busy ProbeFailed None) machines);
      hot ←? mret (hot_snapshot hot config);
      _ ←? mret (ensure_capacity entries config (rs_size resolved) machines hot);
      planned ←? new_allocation config request options resolved context hot;
      _ ←? commit planned.1 planned.2;
      mret (Ok (planned.1, true))
  end.

Definition create (request : AllocationRequest) (options : RequestOptions)
    (claims : ForgejoClaims) : IO W (result ManagerError (Allocation * bool)) :=
  config ← gets m_config;
  resolved ←? authorize config request options claims;
  context ← prepare_hot config request resolved options;
  machines ← host_machines;
  hot ← hot_load_all;
  create_locked config request options resolved context machines hot.

(** ** Reading and cancelling *)

Definition get_authorized (id : AllocationId) (claims : ForgejoClaims) :
    IO W (result ManagerError Allocation) :=
  allocation ←? get id;
  config ← gets m_config;
  profile ←? mret (profile_of config (a_request allocation));
  _ ←? mret (map_err AuthorizationE (ensure_authorized claims profile (a_request allocation)));
  mret (Ok allocation).

(** [None] is a caller that waits, as in [cancel_by_id]. *)
Definition cancel_authorized (id : AllocationId) (claims : ForgejoClaims) :
    IO W (option (result ManagerError Allocation)) :=
  checked ← get_authorized id claims;
  match checked with
  | Err e => mret (Some (Err e))
  | Ok allocation =>
      if is_terminal (a_state allocation) then mret (Some (Ok allocation)) else cancel_by_id id
  end.

(** ** Configuration ([config_reload.rs]) *)

(** [ConfigHandle::apply]; [split] is the word splitter validation uses. *)
Definition apply_config (split : string -> option (list string)) (next : Config) :
    IO W (result ConfigError Z) :=
  _ ←? mret (ensure_valid split next);
  _ ← modify (fun m => m <| m_config := next |>);
  generation ← gets (fun m => (m_generation m + 1) mod 2 ^ 64);
  _ ← modify (fun m => m <| m_generation := generation |>);
  mret (Ok generation).

Definition restart_pending : IO W (list string) :=
  gets (fun m => restart_only_differences (m_startup m) (m_config m)).
End service.

(** ** Lemmas *)

Section service_lemmas.
Context {W : Type} {BK : Backend W} {HO : HashOrder}.
Implicit Types m : Manager W.

Lemma frames_abandon claim : frames (W := W) (abandon_hot_claim claim).
Proof. destruct claim as [[]|]; [apply frames_drained|apply frames_ret..]. Qed.

Lemma frames_commit_claim a claim : frames (W := W) (commit_claim a claim).
Proof.
  destruct claim as [[]|]; simpl; [|apply frames_ret..]. unfold try_, io_map_err.
  apply frames_bind; [apply frames_bind; [apply frames_hot_save|intros; apply frames_ret]|].
  intros []; solve_frames; apply frames_emit.
Qed.

(** What the record of a request is, whatever the clock and the identifiers. *)
Definition admitted_as (config : Config) (request : AllocationRequest) (resolved : Resolved)
    (a : Allocation) : Prop :=
  a_request a = request /\ a_state a = Requested /\ a_mode a = rs_mode resolved /\
  a_size a = Some (rs_size resolved) /\ vm_name config request = Ok (a_vm_name a) /\
  a_vm_created a = false.

(** The claim of a record, and the record of a claim. *)
Definition claims_machine (entries : gmap string Entry) (a : Allocation) (claim : option HotClaim) :
    Prop :=
  match claim with
  | Some (Reused guest origin _) =>
      a_origin a = origin /\ hot_vm_name origin = Some (hg_vm_name guest) /\
      hg_state guest = Claimed /\ hg_claimed_by guest = Some (a_id a) /\
      (hg_vm_name guest ∉ live_hot_names entries)
  | _ => a_origin a = Cloned
  end.

Lemma apply_hot_decision_as config request resolved now claim has lane age mode max options profile a :
  admitted_as config request resolved a ->
  admitted_as config request resolved
    (apply_hot_decision now claim has lane age mode max options profile a) /\
  a_id (apply_hot_decision now claim has lane age mode max options profile a) = a_id a.
Proof.
  intros H. unfold apply_hot_decision. destruct claim as [[guest origin source|]|]; [done..|].
  by destruct (is_retaining _).
Qed.

Lemma new_allocation_cases config request options resolved context hot m r m1 :
  new_allocation config request options resolved context hot m = (r, m1) ->
  (m_entries m1 = m_entries m /\ m_rows m1 = m_rows m /\ m_hot m1 = m_hot m /\
   m_history_limit m1 = m_history_limit m) /\
  forall a claim, r = Ok (a, claim) ->
    admitted_as config request resolved a /\ claims_machine (m_entries m) a claim.
Proof.
  unfold new_allocation, unix_time, gets, call, try_, mbind, IO_bind, mret, IO_ret. simpl.
  destruct (bk_uuid (m_world m)) as [uuid w1]. simpl.
  destruct (runner_label _ uuid) as [label|]; simpl; [|by intros [= <- <-]].
  destruct (vm_name config request) as [name|] eqn:Hname; simpl; [|by intros [= <- <-]].
  destruct (bk_uuid w1) as [id w2]. simpl.
  destruct (bk_unix_time w2) as [t1 w3]; simpl. destruct (bk_unix_time w3) as [t2 w4]; simpl.
  destruct (bk_unix_time w4) as [t3 w5]; simpl. destruct (bk_unix_time w5) as [t4 w6]; simpl.
  intros [= <- <-]. split; [done|]. intros a claim [= <- Hclaim].
  set (base := if bk_clone_source_deferred then _ else _) in *.
  assert (admitted_as config request resolved base /\ a_origin base = Cloned) as [Hbase Horigin].
  { unfold base. destruct bk_clone_source_deferred; by split_and!. }
  match goal with |- context [apply_hot_decision ?now ?c ?h ?l ?g ?mo ?mx ?o ?p base] =>
    destruct (apply_hot_decision_as config request resolved now c h l g mo mx o p base Hbase)
      as [Has Hid]; split; [exact Has|] end.
  rewrite Hclaim. destruct claim as [[guest origin source|]|]; simpl; [|done|by destruct (is_retaining _)].
  destruct context as [context|]; [|done]. simpl in Hclaim.
  apply plan_hot_claim_reused in Hclaim
    as (g & Hin & Hcl & Hn & _ & Hs & Hc & -> & -> & _).
  apply is_claimable_spec in Hcl as (_ & _ & _ & Hni & _).
  rewrite Hn. simpl. split_and!; try done.
Qed.

Lemma commit_claim_cases a claim m r m1 :
  commit_claim a claim m = (r, m1) ->
  same_tables m m1 /\ m_history_limit m1 = m_history_limit m /\
  (r = Ok tt -> match claim with
                | Some (Reused g _ _) => m_hot m1 !! hg_vm_name g = Some g
                | _ => True
                end).
Proof.
  intros Hrun. pose proof (frames_commit_claim a claim m) as Hframe. rewrite Hrun in Hframe.
  split; [exact Hframe|]. revert Hrun.
  destruct claim as [[g origin source|]|]; simpl; [|by intros [= <- <-]..].
  unfold hot_save, stored, try_, io_map_err, emit, modify, call, mbind, IO_bind, mret, IO_ret.
  destruct (negb _); simpl; [by intros [= <- <-]|].
  destruct (bk_store_fault (m_world m)) as [[] w]; simpl; intros [= <- <-]; simpl; [done|].
  split; [done|]. intros _. by rewrite lookup_insert_eq.
Qed.

Lemma allocation_save_rest a m :
  m_hot (allocation_save a m).2 = m_hot m /\
  m_history_limit (allocation_save a m).2 = m_history_limit m.
Proof.
  unfold allocation_save, stored, modify, call, mbind, IO_bind, mret, IO_ret.
  repeat (destruct (negb _); [done|]). by destruct (bk_store_fault (m_world m)) as [[] w].
Qed.

(** Both records and the entry, or nothing but the pool's own. *)
Lemma commit_cases a claim m r m' :
  commit a claim m = (r, m') ->
  (exists e, r = Err e) /\ same_tables m m' \/
  r = Ok tt /\ storable a /\
  m_entries m' = prune_terminal_history (<[a_id a := mkEntry a a false true false]> (m_entries m))
                   (m_history_limit m) /\
  m_rows m' = <[a_id a := a]> (m_rows m) /\
  match claim with
  | Some (Reused g _ _) => m_hot m' !! hg_vm_name g = Some g
  | _ => True
  end.
Proof.
  unfold commit, try_. unfold mbind at 1, IO_bind at 1.
  destruct (commit_claim a claim m) as [[[]|e] m1] eqn:Hc; simpl;
    apply commit_claim_cases in Hc as ((He & Hr) & Hl & Hh); [|intros [= <- <-]; left; split; [eauto|done]].
  specialize (Hh eq_refl). unfold mbind at 1, IO_bind at 1.
  pose proof (allocation_save_rest a m1) as [Hh2 Hl2].
  destruct (allocation_save a m1) as [saved m2] eqn:Hs.
  apply allocation_save_cases in Hs as [[[e ->] [He2 Hr2]]|(-> & Hst & He2 & Hr2)].
  - unfold mbind, IO_bind. pose proof (frames_abandon claim m2) as [He3 Hr3].
    destruct (abandon_hot_claim claim m2) as [u m3]. simpl in He3, Hr3. intros [= <- <-].
    left. split; [eauto|]. split; congruence.
  - intros [= <- <-]. right. simpl in *. rewrite He2, Hr2, Hl2, Hl, He, Hr, Hh2. done.
Qed.

Lemma admit_cases config request options resolved context machines hot m r m' :
  create_locked config request options resolved context machines hot m = (r, m') ->
  (exists e, r = Err e) /\ same_tables m m' \/
  (exists a, r = Ok (a, false) /\ m' = m /\ idempotent (m_entries m) request = Some a) \/
  exists a claim listing pool, r = Ok (a, true) /\ m_is_closing m = false /\
    idempotent (m_entries m) request = None /\
    ensure_sole_producer (m_entries m) (rq_profile request) (rs_mode resolved) = Ok tt /\
    machines = Ok listing /\ hot_snapshot hot config = Ok pool /\
    ensure_capacity (m_entries m) config (rs_size resolved) listing pool = Ok tt /\
    admitted_as config request resolved a /\ claims_machine (m_entries m) a claim /\ storable a /\
    m_entries m' = prune_terminal_history
                     (<[a_id a := mkEntry a a false true false]> (m_entries m)) (m_history_limit m) /\
    m_rows m' = <[a_id a := a]> (m_rows m) /\
    match claim with
    | Some (Reused g _ _) => m_hot m' !! hg_vm_name g = Some g
    | _ => True
    end.
Proof.
  unfold create_locked, try_. unfold gets at 1 2. unfold mbind at 1 2, IO_bind at 1 2. simpl.
  destruct (m_is_closing m); [intros [= <- <-]; left; split; eauto; done|].
  destruct (idempotent (m_entries m) request) as [existing|]; [intros [= <- <-]; right; left; eauto|].
  unfold mbind at 1, IO_bind at 1, mret at 1, IO_ret at 1. simpl.
  destruct (ensure_sole_producer _ _ _) as [[]|] eqn:Hsole;
    [|intros [= <- <-]; left; split; eauto; done].
  unfold mbind at 1, IO_bind at 1, mret at 1, IO_ret at 1. simpl.
  destruct machines as [listing|]; simpl; [|intros [= <- <-]; left; split; eauto; done].
  unfold mbind at 1, IO_bind at 1, mret at 1, IO_ret at 1. simpl.
  destruct (hot_snapshot hot config) as [pool|]; [|intros [= <- <-]; left; split; eauto; done].
  unfold mbind at 1, IO_bind at 1, mret at 1, IO_ret at 1. simpl.
  destruct (ensure_capacity _ _ _ _ _) as [[]|] eqn:Hcap;
    [|intros [= <- <-]; left; split; eauto; done].
  unfold mbind at 1, IO_bind at 1.
  destruct (new_allocation _ _ _ _ _ _ m) as [[[a claim]|] m1] eqn:Hnew;
    apply new_allocation_cases in Hnew as ((He & Hr & Hh & Hl) & Hfacts);
    [|intros [= <- <-]; left; split; eauto; done].
  destruct (Hfacts a claim eq_refl) as [Has Hclaim]. unfold mbind at 1, IO_bind at 1.
  destruct (commit _ _ m1) as [rc m2] eqn:Hcommit. simpl in Hcommit.
  apply commit_cases in Hcommit as [[[e ->] [He2 Hr2]]|(-> & Hst & He2 & Hr2 & Hh2)].
  - intros [= <- <-]. left. split; [eauto|]. split; congruence.
  - intros [= <- <-]. right. right. exists a, claim, listing, pool.
    rewrite He2, Hr2, He, Hr, Hl. split_and!; done.
Qed.
End service_lemmas.

Section create_lemmas.
Context {W : Type} {BK : Backend W} {HO : HashOrder}.
Implicit Types m : Manager W.

Lemma frames_host_machines : frames (W := W) host_machines.
Proof. unfold host_machines, probe_machines, instant. solve_frames. Qed.

#[local] Hint Resolve frames_host_machines frames_hot_load_all frames_images_load frames_drained
  frames_evicted : frames.

Lemma frames_resolve_source name profile mode : frames (W := W) (resolve_source name profile mode).
Proof. unfold resolve_source, warm_source, warm_candidate, missing_record. solve_frames. Qed.

Lemma frames_effective_size size name source : frames (W := W) (effective_size size name source).
Proof. unfold effective_size. solve_frames. Qed.

Lemma frames_authorize config request options claims :
  frames (W := W) (authorize config request options claims).
Proof.
  unfold authorize, try_.
  pose proof (frames_resolve_source) as H1. pose proof (frames_effective_size) as H2.
  solve_frames; auto.
Qed.

Lemma frames_yield_loop fuel config size : frames (W := W) (yield_loop fuel config size).
Proof. induction fuel; simpl; unfold yieldable_hot; solve_frames. Qed.

Lemma frames_prepare_hot config request resolved options :
  frames (W := W) (prepare_hot config request resolved options).
Proof.
  unfold prepare_hot, ensure_hot_evicted_for, drain_matching, ensure_hot_yielded, hot_context,
    promoted_generation.
  pose proof frames_yield_loop. solve_frames; auto.
Qed.

(** What an authorized request rests on. *)
Definition entitled_to (config : Config) (request : AllocationRequest) (options : RequestOptions)
    (claims : ForgejoClaims) (resolved : Resolved) : Prop :=
  validate_request request = true /\
  c_profiles config !! rq_profile request = Some (rs_profile resolved) /\
  ensure_authorized claims (rs_profile resolved) request = Ok tt /\
  (exists size, resolve_size options (rs_profile resolved) = Ok size /\
     cpu_count (rs_size resolved) = cpu_count size /\
     memory_mb (rs_size resolved) = memory_mb size /\
     storage_mb size <= storage_mb (rs_size resolved)) /\
  rs_mode resolved =
    resolve_mode options (rs_profile resolved) (default "" (workflow_file claims)) /\
  rs_lane resolved = from_ref_protected (is_ref_protected claims).

Lemma effective_size_floor size name source m :
  let size' := (effective_size size name source m).1 in
  cpu_count size' = cpu_count size /\ memory_mb size' = memory_mb size /\
  storage_mb size <= storage_mb size'.
Proof.
  unfold effective_size, call, mbind, IO_bind, mret, IO_ret.
  destruct (bk_base_storage_mb name source (m_world m)) as [[base|] w]; simpl; [|done].
  split_and!; [done|done|lia].
Qed.

Lemma authorize_ok config request options claims m resolved m' :
  authorize config request options claims m = (Ok resolved, m') ->
  entitled_to config request options claims resolved.
Proof.
  unfold authorize. destruct (validate_request request) eqn:Hv; cbn [negb]; [|discriminate].
  unfold try_. unfold mbind at 1, IO_bind at 1, mret at 1, IO_ret at 1, profile_of.
  destruct (c_profiles config !! _) as [profile|] eqn:Hp; cbn [ok_or map_err]; [|discriminate].
  unfold mbind at 1, IO_bind at 1, mret at 1, IO_ret at 1.
  destruct (ensure_authorized claims profile request) as [[]|] eqn:Ha; cbn [ok_or map_err]; [|discriminate].
  unfold mbind at 1, IO_bind at 1, mret at 1, IO_ret at 1.
  destruct (resolve_size options profile) as [size|] eqn:Hs; cbn [ok_or map_err]; [|discriminate].
  unfold mbind at 1, IO_bind at 1, mret at 1, IO_ret at 1.
  destruct (resolve_hot_age _ profile) as [age|]; cbn [ok_or map_err]; [|discriminate].
  unfold mbind at 1, IO_bind at 1. destruct (resolve_source _ _ _ m) as [source m1].
  unfold mbind at 1, IO_bind at 1.
  pose proof (effective_size_floor size (rq_profile request) (ss_source source) m1) as Hf.
  destruct (effective_size _ _ _ m1) as [size' m2]. intros [= <- _].
  split_and!; simpl; eauto.
Qed.

Lemma create_cases request options claims m r m' :
  create request options claims m = (r, m') ->
  (exists e, r = Err e) /\ same_tables m m' \/
  exists resolved context machines hot m1, same_tables m m1 /\
    entitled_to (m_config m) request options claims resolved /\
    create_locked (m_config m) request options resolved context machines hot m1 = (r, m').
Proof.
  unfold create, try_. unfold gets at 1. unfold mbind at 1 2, IO_bind at 1 2. simpl.
  pose proof (frames_authorize (m_config m) request options claims m) as F1.
  destruct (authorize _ _ _ _ m) as [[resolved|e] m1] eqn:Ha; simpl in F1;
    [|intros [= <- <-]; left; split; [eauto|exact F1]].
  apply authorize_ok in Ha. unfold mbind at 1, IO_bind at 1.
  pose proof (frames_prepare_hot (m_config m) request resolved options m1) as F2.
  destruct (prepare_hot _ _ _ _ m1) as [context m2]. unfold mbind at 1, IO_bind at 1.
  pose proof (frames_host_machines m2) as F3. destruct (host_machines m2) as [machines m3].
  unfold mbind at 1, IO_bind at 1. pose proof (frames_hot_load_all m3) as F4.
  destruct (hot_load_all m3) as [hot m4]. intros Hrun. right.
  exists resolved, context, machines, hot, m4. split_and!; [|done..].
  simpl in *. destruct F1, F2, F3, F4. split; congruence.
Qed.
End create_lemmas.

(** ** Names are one to one *)

Lemma dash_split s s' d d' :
  all_bytes is_ascii_digit d = true -> all_bytes is_ascii_digit d' = true ->
  s +:+ "-" +:+ d = s' +:+ "-" +:+ d' -> s = s' /\ d = d'.
Proof.
  assert (forall r t, all_bytes is_ascii_digit (r +:+ "-" +:+ t) = false) as Hno.
  { intros r t. rewrite !all_bytes_app. simpl. by rewrite andb_false_r. }
  intros Hd Hd'. revert s'. induction s as [|c s IH]; intros [|c' s'] H.
  - split; [done|]. by injection H.
  - exfalso. change ("" +:+ "-" +:+ d) with (String "-" d) in H.
    change (String c' s' +:+ "-" +:+ d') with (String c' (s' +:+ "-" +:+ d')) in H.
    injection H as _ ->. by rewrite Hno in Hd.
  - exfalso. change ("" +:+ "-" +:+ d') with (String "-" d') in H.
    change (String c s +:+ "-" +:+ d) with (String c (s +:+ "-" +:+ d)) in H.
    injection H as _ <-. by rewrite Hno in Hd'.
  - change (String c s +:+ "-" +:+ d) with (String c (s +:+ "-" +:+ d)) in H.
    change (String c' s' +:+ "-" +:+ d') with (String c' (s' +:+ "-" +:+ d')) in H.
    injection H as -> H. apply IH in H as [-> ->]. done.
Qed.

(** The identity a VM name encodes. *)
Definition run_of (r : AllocationRequest) : string * Z * Z :=
  (rq_profile r, rq_run_id r, rq_run_attempt r).

Definition is_run_sized (r : AllocationRequest) : bool :=
  in_range 0 u64_max (rq_run_id r) && in_range 0 u32_max (rq_run_attempt r).

Lemma vm_name_ok config request n :
  vm_name config request = Ok n ->
  n = rt_vm_prefix (c_runtime config) +:+ rq_profile request +:+ "-"
        +:+ decimal (rq_run_id request) +:+ "-" +:+ decimal (rq_run_attempt request) /\
  is_vm_name n = true.
Proof.
  unfold vm_name. intros H%map_err_ok. split.
  - unfold vm_name_new in H. by apply identifier_new_ok in H as [-> _].
  - unfold vm_name_new in *. pose proof H as [-> _]%identifier_new_ok.
    unfold is_vm_name, vm_name_new. by rewrite H.
Qed.

Lemma vm_name_inj config r r' n :
  is_run_sized r = true -> is_run_sized r' = true ->
  vm_name config r = Ok n -> vm_name config r' = Ok n -> run_of r = run_of r'.
Proof.
  unfold is_run_sized. intros H1 H2 [-> _]%vm_name_ok [Heq _]%vm_name_ok.
  apply andb_true_iff in H1 as [Hr1%in_range_spec Ha1%in_range_spec].
  apply andb_true_iff in H2 as [Hr2%in_range_spec Ha2%in_range_spec].
  assert (forall p q a b, p +:+ q +:+ "-" +:+ a +:+ "-" +:+ b =
    (p +:+ q +:+ "-" +:+ a) +:+ "-" +:+ b) as Hout by (intros; by rewrite <- !string_app_assoc).
  rewrite !Hout in Heq. apply dash_split in Heq as [Heq Hb]; [|apply decimal_digits..].
  rewrite !(string_app_assoc (rt_vm_prefix _)) in Heq.
  apply dash_split in Heq as [Heq Ha]; [|apply decimal_digits..].
  apply (inj (String.app _)) in Heq.
  apply decimal_inj in Ha; [|lia..]. apply decimal_inj in Hb; [|lia..].
  unfold run_of. congruence.
Qed.

Lemma vm_name_total split c u p request :
  ensure_valid split c = Ok u -> config_well_typed c = true ->
  c_profiles c !! rq_profile request = Some p -> is_run_sized request = true ->
  is_ok (vm_name c request) = true.
Proof.
  intros Hv Ht Hp Hs. pose proof (pv_vm_name _ _ _ (ensure_valid_profile _ _ _ _ _ Hv Hp)) as Hlen.
  pose proof (config_well_typed_profile _ _ _ Ht Hp) as Hwt.
  unfold config_well_typed in Ht. unfold profile_well_typed in Hwt.
  repeat (apply andb_true_iff in Ht as [Ht _]). repeat (apply andb_true_iff in Hwt as [Hwt _]).
  apply is_vm_prefix_spec in Ht as (Hpl & Hpf & Hpb). apply is_profile_name_spec in Hwt as (Hnl & _ & Hnb).
  apply andb_true_iff in Hs as [Hr%in_range_spec Ha%in_range_spec].
  pose proof (len_decimal 20 (rq_run_id request)) as Hld. pose proof (len_decimal 10 (rq_run_attempt request)) as Hla.
  unfold u64_max, u32_max, max_vm_name in *. unfold vm_name.
  assert (is_ok (vm_name_new (rt_vm_prefix (c_runtime c) +:+ rq_profile request +:+ "-"
    +:+ decimal (rq_run_id request) +:+ "-" +:+ decimal (rq_run_attempt request))) = true) as H.
  { apply is_vm_name_spec. rewrite !len_app, !all_bytes_app. change (len "-") with 1. split_and!; [lia|lia| |].
    - by destruct (rt_vm_prefix (c_runtime c)).
    - rewrite Hpb. rewrite (all_bytes_weaken is_profile_byte is_name_byte _ eq_refl Hnb).
      by rewrite !(all_bytes_weaken is_ascii_digit is_name_byte _ eq_refl (decimal_digits _)). }
  by destruct (vm_name_new _).
Qed.

(** A name under the prefix is none that configuration reserves. *)
Lemma prefixed_unreserved split c u n :
  ensure_valid split c = Ok u -> starts_with n (rt_vm_prefix (c_runtime c)) = true ->
  n ∉ reserved_image_names c.
Proof.
  intros Hv Hn (profile & p & Hp & [->|(warm & Hw & Hd)])%elem_of_reserved_image_names.
  - pose proof (pv_template _ _ _ (ensure_valid_profile _ _ _ _ _ Hv Hp)). congruence.
  - assert (n ∈ reserved_by p) as Hin.
    { unfold reserved_by. rewrite Hw. destruct Hd as [->|Hd]; [left|].
      unfold with_suffix, vm_name_new in Hd. apply identifier_new_ok in Hd as [-> _].
      right. left. }
    destruct (reserved_name_valid _ _ _ _ _ _ Hv Hp Hin). congruence.
Qed.

Lemma idempotent_cases {HO : HashOrder} entries request :
  match idempotent entries request with
  | Some a => exists id e, entries !! id = Some e /\ e_allocation e = a /\
                is_terminal (a_state a) = false /\ a_request a = request
  | None => forall id e, entries !! id = Some e -> is_terminal (a_state (e_allocation e)) = false ->
              a_request (e_allocation e) <> request
  end.
Proof.
  unfold idempotent. pose proof (find_some_iff (fun e => negb (is_terminal (a_state (e_allocation e)))
    && is_same_attempt (a_request (e_allocation e)) request) (hash_values entries)) as Hf.
  destruct (List.find _ _) as [e|]; simpl.
  - destruct Hf as [[id He]%elem_of_hash_values Hb]. simplify_bool.
    exists id, e. split_and!; try done. by apply is_same_attempt_spec.
  - intros id e He Hl Hr. specialize (Hf e). rewrite Hl in Hf. simpl in Hf.
    rewrite (proj2 (is_same_attempt_spec _ _) Hr) in Hf. discriminate Hf.
    apply elem_of_hash_values. eauto.
Qed.

(** ** Properties *)

(** C15: under a valid configuration every request for a configured profile has
    a VM name: it is well formed and carries the service prefix, so it is never
    a template or warm image that configuration names, and it belongs to one
    profile, run and attempt only.  The validator's length headroom is exactly
    what makes the name total. *)
Theorem vm_name_unique split c u p request :
  ensure_valid split c = Ok u -> config_well_typed c = true ->
  c_profiles c !! rq_profile request = Some p -> is_run_sized request = true ->
  exists n, vm_name c request = Ok n /\ is_vm_name n = true /\
    starts_with n (rt_vm_prefix (c_runtime c)) = true /\ (n ∉ reserved_image_names c) /\
    forall request', is_run_sized request' = true -> vm_name c request' = Ok n ->
      run_of request' = run_of request.
Proof.
  intros Hv Ht Hp Hs. pose proof (vm_name_total _ _ _ _ _ Hv Ht Hp Hs) as Hok.
  destruct (vm_name c request) as [n|] eqn:Hn; [|done]. exists n.
  pose proof (vm_name_ok _ _ _ Hn) as [Heq Hvm].
  assert (starts_with n (rt_vm_prefix (c_runtime c)) = true) as Hpre.
  { apply starts_with_spec. eauto. }
  split_and!; try done; [by eapply prefixed_unreserved|]. intros r' Hr' Hn'. by eapply vm_name_inj.
Qed.

Lemma vm_name_unique_witness :
  exists n, vm_name example_config example_request = Ok n /\ is_vm_name n = true /\
    starts_with n "ff-" = true.
Proof.
  destruct (vm_name_unique no_words example_config tt example_profile example_request)
    as (n & H1 & H2 & H3 & _); [vm_compute; reflexivity..|].
  exists n. exact (conj H1 (conj H2 H3)).
Defined.

(** C13: what a request leaves behind.  A refusal of any kind leaves every
    resident allocation and every row as it was.  An answer is only given to a
    caller whose signed claims the profile's policy authorizes.  A second
    request for a live attempt is answered with that attempt and changes
    nothing.  A new allocation is recorded once, resident and supervised with
    its row, requested with exactly the mode, size and name the request
    resolved to, when no live allocation serves the attempt, no other live
    regeneration produces for its profile and capacity admits it; a machine it
    reuses is one no live allocation named and its record is now claimed by
    this allocation.  No live allocation is pruned to make room. *)
Theorem create_spec {W} {BK : Backend W} {HO : HashOrder} request options claims (m : Manager W) :
  keyed (m_entries m) ->
  let '(answer, m') := create request options claims m in
  match answer with
  | Err _ => m_entries m' = m_entries m /\ m_rows m' = m_rows m
  | Ok (a, is_new) =>
      exists resolved, entitled_to (m_config m) request options claims resolved /\
      a_request a = request /\ is_terminal (a_state a) = false /\
      if is_new : bool then
        admitted_as (m_config m) request resolved a /\
        (forall id e, m_entries m !! id = Some e -> is_terminal (a_state (e_allocation e)) = false ->
           a_request (e_allocation e) <> request) /\
        ensure_sole_producer (m_entries m) (rq_profile request) (rs_mode resolved) = Ok tt /\
        (exists listing pool,
           ensure_capacity (m_entries m) (m_config m) (rs_size resolved) listing pool = Ok tt) /\
        (forall n, hot_vm_name (a_origin a) = Some n -> (n ∉ live_hot_names (m_entries m)) /\
           exists g, m_hot m' !! n = Some g /\ hg_state g = Claimed /\
             hg_claimed_by g = Some (a_id a)) /\
        m_entries m' !! a_id a = Some (mkEntry a a false true false) /\
        m_rows m' = <[a_id a := a]> (m_rows m) /\
        (forall id e, id <> a_id a -> m_entries m !! id = Some e ->
           is_terminal (a_state (e_allocation e)) = false -> m_entries m' !! id = Some e)
      else m_entries m' = m_entries m /\ m_rows m' = m_rows m /\
           exists id e, m_entries m !! id = Some e /\ e_allocation e = a
  end.
Proof.
  intros Hk. destruct (create _ _ _ m) as [answer m'] eqn:Hrun.
  apply create_cases in Hrun as [[[e ->] Hsame]|(resolved & ctx & ms & hot & m1 & [He Hr] & Hent & Hadm)];
    [exact Hsame|].
  apply admit_cases in Hadm as [[[e ->] [He1 Hr1]]|[(a & -> & -> & Hid)|
    (a & claim & listing & pool & -> & _ & Hid & Hsole & _ & _ & Hcap & Has & Hcl & _ & He1 & Hr1 & Hh1)]].
  - split; congruence.
  - rewrite He in Hid. pose proof (idempotent_cases (m_entries m) request) as Hi. rewrite Hid in Hi.
    destruct Hi as (id & e & Hlk & Hea & Hl & Hreq). exists resolved. split_and!; eauto.
  - rewrite He in *. rewrite Hr in Hr1. exists resolved. pose proof Has as (Hreq & Hst & _).
    pose proof (idempotent_cases (m_entries m) request) as Hi. rewrite Hid in Hi.
    assert (keyed (<[a_id a := mkEntry a a false true false]> (m_entries m))) as Hk1.
    { intros id e [[<- <-]|[_ ?]]%lookup_insert_Some; [done|by apply Hk]. }
    split_and!; try done; [by rewrite Hst|eauto| | |].
    + intros n Hn. destruct claim as [[g origin source|]|]; simpl in Hcl.
      * destruct Hcl as (Ho & Hon & Hs & Hc & Hni). rewrite Ho, Hon in Hn. injection Hn as <-.
        split; [done|]. eauto.
      * by rewrite Hcl in Hn.
      * by rewrite Hcl in Hn.
    + rewrite He1. apply prune_keeps_live; [done|by rewrite lookup_insert_eq|simpl; by rewrite Hst].
    + intros id e Hne Hlk Hl. rewrite He1. apply prune_keeps_live; [done| |done].
      by rewrite lookup_insert_ne.
Qed.

(** A first request on an idle host. *)
Definition empty_manager : Manager Sim := sim_manager example_config [] sim_world.

Definition plain_options : RequestOptions :=
  {| ro_warm := false; ro_hot := Untouched; ro_cpu_count := None; ro_memory_mb := None |}.

Example create_admits :
  match (create example_request plain_options example_claims empty_manager).1 with
  | Ok (a, is_new) => is_new = true /\ a_state a = Requested
  | Err _ => False
  end.
Proof. vm_compute. auto. Qed.

Lemma create_spec_witness :
  let '(answer, m') := create example_request plain_options example_claims empty_manager in
  match answer with
  | Err _ => True
  | Ok (a, is_new) => a_request a = example_request
  end.
Proof.
  pose proof (create_spec example_request plain_options example_claims empty_manager) as H.
  destruct (create _ _ _ _) as [[[a is_new]|e] m']; [|exact I].
  destruct H as (resolved & _ & Hr & _); [|exact Hr]. intros id e He. discriminate He.
Defined.
