(* ===== verification/Recovery.v ===== *)
(** * Starting again ([crates/flanforge-manager/src/recovery/allocations.rs,
    crates/flanforge-orm/src/stores/allocations.rs])

    What a daemon loads when it starts, and the recovery that ends every
    allocation a previous one left unfinished before anything is served. *)

From S2P Require Import Prelude Rust Text Identifiers Images Guest Hot Allocation Config ConfigValidate Claims Sizing Admission HotSelect Reaper Convert Manager HotPool Lifecycle WarmImages.

Open Scope Z_scope.
Open Scope stdpp_scope.

(** ** Loading *)

(** Descending by last update, then by identifier. *)
Definition newer : relation Allocation := fun a b =>
  a_updated_at_unix b < a_updated_at_unix a \/
  (a_updated_at_unix a = a_updated_at_unix b /\ String.le (a_id b) (a_id a)).

#[export] Instance newer_dec : RelDecision newer.
Proof. intros a b. unfold newer. apply _. Defined.

Definition is_live (a : Allocation) : bool := negb (is_terminal (a_state a)).

(** [decode_rows]: what a row that cannot be trusted leaves out. *)
Definition decode_rows : list Allocation -> list Allocation := List.filter validate_allocation.

(** The newest rows, then every live one that was not among them. *)
Definition merge_live (newest live : list Allocation) : list Allocation :=
  fold_left (fun seen a => if existsb (fun s => bool_decide (a_id s = a_id a)) seen then seen
                           else seen ++ [a]) live newest.

Section recovery.
Context {W : Type} {BK : Backend W} {HO : HashOrder}.

Definition load_recent (limit : nat) : IO W (result StoreError (list Allocation)) :=
  newest ←? stored (gets (fun m => take limit (merge_sort newer (hash_values (m_rows m)))));
  live ←? stored (gets (fun m => List.filter is_live (hash_values (m_rows m))));
  mret (Ok (merge_live (decode_rows newest) (decode_rows live))).

(** [recover] once the entries are loaded. *)
Definition recover_loaded (config : Config) (allocations : list Allocation) :
    IO W (result ManagerError unit) :=
  _ ← for_each (fun a => _ ← recover_allocation config a; mret tt) (List.filter is_live allocations);
  _ ← call bk_recovered;
  _ ← ensure_hot_consistent;
  _ ←? ensure_warm_consistent config;
  _ ← emit RecoveryCompleted None None None;
  mret (Ok tt).

Definition recover : IO W (result ManagerError unit) :=
  config ← gets m_config;
  limit ← gets m_history_limit;
  allocations ←? io_map_err StoreE (load_recent limit);
  _ ←? ensure_entries_loaded allocations;
  recover_loaded config allocations.

(** What a new process starts from: the tables, the host and the document it
    reads, nothing else. *)
Definition restarted (config : Config) (m : Manager W) : Manager W :=
  m <| m_startup := config |> <| m_config := config |> <| m_generation := 0 |> <| m_entries := ∅ |> <| m_quarantined := ∅ |> <| m_last_sweep := None |> <| m_probe := None |>
    <| m_is_closing := false |> <| m_teardown_deadline := None |> <| m_leaked := [] |>.
End recovery.

(** ** Lemmas *)

Lemma elem_of_merge_live newest live a :
  a ∈ merge_live newest live -> a ∈ newest \/ a ∈ live.
Proof.
  unfold merge_live. revert newest. induction live as [|b live IH]; intros newest; simpl; [auto|].
  intros [Ha|Ha]%IH; [|right; by right]. destruct (existsb _ newest); [auto|].
  apply elem_of_app in Ha as [Ha|Ha%list_elem_of_singleton]; [auto|]. subst. right. left.
Qed.

Lemma merge_live_mono newest live a : a ∈ newest -> a ∈ merge_live newest live.
Proof.
  unfold merge_live. revert newest. induction live as [|b live IH]; intros newest Ha; simpl; [done|].
  apply IH. destruct (existsb _ newest); [done|]. apply elem_of_app. by left.
Qed.

Lemma merge_live_complete newest live a :
  a ∈ live -> exists b, b ∈ merge_live newest live /\ a_id b = a_id a.
Proof.
  unfold merge_live. revert newest. induction live as [|b live IH]; intros newest Ha; simpl;
    [by apply not_elem_of_nil in Ha|].
  apply elem_of_cons in Ha as [->|Ha]; [|by apply IH].
  destruct (existsb _ newest) eqn:Hex.
  - apply existsb_exists in Hex as (s & Hs%list_elem_of_In & Hid%bool_decide_eq_true).
    exists s. split; [|done]. by apply merge_live_mono.
  - exists b. split; [|done]. apply merge_live_mono, elem_of_app. right. by apply list_elem_of_singleton.
Qed.

Lemma merge_live_NoDup newest live :
  NoDup (map a_id newest) -> NoDup (map a_id (merge_live newest live)).
Proof.
  unfold merge_live. revert newest. induction live as [|b live IH]; intros newest Hn; simpl; [done|].
  apply IH. destruct (existsb _ newest) eqn:Hex; [done|]. change (map ?f ?l) with (f <$> l).
  rewrite fmap_app. apply NoDup_app. split; [done|]. split; [|apply NoDup_singleton].
  intros id (s & -> & Hs)%list_elem_of_fmap Hid%list_elem_of_singleton.
  rewrite <- not_true_iff_false in Hex. apply Hex, existsb_exists. exists s.
  split; [by apply list_elem_of_In|]. by apply bool_decide_eq_true.
Qed.

Section loading.
Context {W : Type} {BK : Backend W} {HO : HashOrder}.
Implicit Types m : Manager W.

Definition rows_keyed (rows : gmap string Allocation) : Prop :=
  forall id a, rows !! id = Some a -> a_id a = id.

Lemma NoDup_row_ids rows : rows_keyed rows -> NoDup (map a_id (hash_values rows)).
Proof.
  intros Hk. unfold hash_values. change (map ?f ?l) with (f <$> l). rewrite <- list_fmap_compose.
  rewrite (list_fmap_ext _ fst); [rewrite hash_order_perm; apply NoDup_fst_map_to_list|].
  intros i [id a] Hi. simpl. apply Hk, elem_of_hash_order. by apply list_elem_of_lookup_2 in Hi.
Qed.

Lemma elem_of_rows rows a : rows_keyed rows -> a ∈ hash_values rows <-> rows !! a_id a = Some a.
Proof.
  intros Hk. rewrite elem_of_hash_values. split; [|eauto]. intros [id Ha].
  by rewrite (Hk id a Ha).
Qed.

(** What a restart loads: rows as they are, each once, and no live one missing. *)
Lemma load_recent_spec limit m l m' :
  rows_keyed (m_rows m) -> load_recent limit m = (Ok l, m') ->
  (forall a, a ∈ l -> m_rows m !! a_id a = Some a) /\ NoDup (map a_id l) /\
  (forall id a, m_rows m !! id = Some a -> is_live a = true -> validate_allocation a = true -> a ∈ l).
Proof.
  intros Hk. unfold load_recent, stored, try_, call, gets, mbind, IO_bind, mret, IO_ret.
  destruct (bk_store_fault (m_world m)) as [[] w1]; simpl; [discriminate|].
  destruct (bk_store_fault w1) as [[] w2]; simpl; [discriminate|]. intros [= <- _].
  set (rows := hash_values (m_rows m)).
  assert (forall a, a ∈ merge_live (decode_rows (take limit (merge_sort newer rows)))
    (decode_rows (List.filter is_live rows)) -> a ∈ rows) as Hsub.
  { intros a [Ha|Ha]%elem_of_merge_live; apply list_elem_of_In, List.filter_In in Ha as [Ha _].
    - apply list_elem_of_In in Ha. apply elem_of_take in Ha as (i & Ha%list_elem_of_lookup_2 & _).
      by rewrite merge_sort_Permutation in Ha.
    - apply List.filter_In in Ha as [Ha _]. by apply list_elem_of_In. }
  split_and!.
  - intros a Ha%Hsub. by apply elem_of_rows.
  - apply merge_live_NoDup. change (map ?f ?l) with (f <$> l).
    eapply sublist_NoDup; [|apply fmap_sublist, filter_bool_sublist].
    rewrite fmap_take. eapply sublist_NoDup; [|apply sublist_take].
    rewrite merge_sort_Permutation. by apply NoDup_row_ids.
  - intros id a Ha Hl Hv. destruct (merge_live_complete
      (decode_rows (take limit (merge_sort newer rows)))
      (decode_rows (List.filter is_live rows)) a) as (b & Hb & Hid).
    + apply list_elem_of_In, List.filter_In. split; [|done]. apply List.filter_In. split; [|done].
      apply list_elem_of_In. apply elem_of_hash_values. eauto.
    + pose proof (Hsub b Hb) as Hb'. apply elem_of_rows in Hb'; [|done].
      pose proof (Hk id a Ha) as Hida. rewrite Hid, Hida, Ha in Hb'. injection Hb' as <-. done.
Qed.

Lemma frames_load_recent limit : frames (W := W) (load_recent limit).
Proof. unfold load_recent, try_, stored. solve_frames. Qed.

(** Loading into an empty table succeeds and loads exactly the list. *)
Lemma ensure_entries_loaded_spec l m :
  NoDup (map a_id l) -> (forall a, a ∈ l -> m_entries m !! a_id a = None) ->
  (ensure_entries_loaded l m).1 = Ok tt /\
  m_rows (ensure_entries_loaded l m).2 = m_rows m /\
  forall id e, m_entries (ensure_entries_loaded l m).2 !! id = Some e <->
    m_entries m !! id = Some e \/ exists a, a ∈ l /\ a_id a = id /\ e = recovered_entry a.
Proof.
  revert m. induction l as [|a l IH]; intros m Hnd Hn; simpl.
  - split_and!; [done..|]. intros id e. split; [auto|].
    intros [?|(a & Ha & _)]; [done|by apply not_elem_of_nil in Ha].
  - apply NoDup_cons in Hnd as [Ha Hnd]. unfold gets, mbind, IO_bind.
    rewrite bool_decide_false; [|by rewrite (Hn a) by left; intros [? [=]]]. simpl.
    match goal with |- context [ensure_entries_loaded l ?s] => destruct (IH s Hnd) as (H1 & H2 & H3) end.
    { intros b Hb. simpl. rewrite lookup_insert_ne; [apply Hn; by right|].
      intros Heq. apply Ha. rewrite Heq. apply list_elem_of_fmap. eauto. }
    split_and!; [done..|]. intros id e. rewrite H3. simpl. rewrite lookup_insert_Some. split.
    + intros [[[<- <-]|[_ ?]]|(b & Hb & Hid & He)]; [right; exists a; split_and!; [left|..]; done|auto|].
      right. exists b. split_and!; [by right|..]; done.
    + intros [He|(b & [->|Hb]%elem_of_cons & Hid & ->)]; [|left; by left|right; eauto].
      left. right. split; [|done]. intros <-. rewrite (Hn a) in He; [done|left].
Qed.

(** A start over keyed rows fails to load, or loads every live row and goes on. *)
Lemma recover_cases m :
  rows_keyed (m_rows m) -> m_entries m = ∅ ->
  ((exists e, (recover m).1 = Err e) /\ m_rows (recover m).2 = m_rows m) \/
  exists l m1, recover m = recover_loaded (m_config m) l m1 /\ m_rows m1 = m_rows m /\
    (forall id e, m_entries m1 !! id = Some e <->
       exists a, a ∈ l /\ a_id a = id /\ e = recovered_entry a) /\
    (forall a, a ∈ l -> m_rows m !! a_id a = Some a) /\ NoDup (map a_id l) /\
    (forall id a, m_rows m !! id = Some a -> is_live a = true -> validate_allocation a = true ->
       a ∈ l).
Proof.
  intros Hk He. pose proof (frames_load_recent (m_history_limit m) m) as [Hf1 Hf2].
  unfold recover, try_, io_map_err, gets, mbind, IO_bind, mret, IO_ret.
  destruct (load_recent (m_history_limit m) m) as [[l|e] m1] eqn:Hload; simpl in *;
    [|left; split; [eauto|done]].
  destruct (load_recent_spec _ _ _ _ Hk Hload) as (Hrow & Hnd & Hlive).
  destruct (ensure_entries_loaded_spec l m1 Hnd) as (Hok & Hr2 & He2).
  { intros a _. by rewrite Hf1, He. }
  destruct (ensure_entries_loaded l m1) as [r2 m2]. simpl in Hok, Hr2, He2. subst r2.
  right. exists l, m2. split_and!; try done; [congruence|].
  intros id e. rewrite He2, Hf1, He, lookup_empty. naive_solver.
Qed.
End loading.
