(* ===== verification/System.v ===== *)
(** * The running daemon

    Every operation of the manager as one step relation over its whole state,
    crashes and restarts included, and what holds in every state it reaches.
    Requests are admitted against arbitrarily stale listings and pool
    snapshots, the backend's own work may change the host between any two
    steps, and any store call may fail. *)

From S2P Require Import Prelude Rust Text Identifiers Images Guest Hot Allocation Config ConfigValidate Claims Sizing Admission HotSelect Reaper Convert Manager HotPool Lifecycle WarmImages Sweep Service Recovery.

Open Scope Z_scope.
Open Scope stdpp_scope.

(** ** Consistent tables *)

(** Two live allocations that may not coexist: the same attempt, two producers
    of one profile's image, or two users of one pool machine. *)
Definition conflict (a b : Allocation) : Prop :=
  a_request a = a_request b \/
  (a_mode a = Regenerate /\ a_mode b = Regenerate /\
     rq_profile (a_request a) = rq_profile (a_request b)) \/
  exists n, hot_vm_name (a_origin a) = Some n /\ hot_vm_name (a_origin b) = Some n.

(** The rows a stopped daemon leaves. *)
Record durable (rows : gmap string Allocation) : Prop := {
  dur_keyed : forall id a, rows !! id = Some a -> a_id a = id;
  dur_valid : forall id a, rows !! id = Some a -> storable a;
  dur_disjoint : forall i j a b, rows !! i = Some a -> rows !! j = Some b ->
    is_live a = true -> is_live b = true -> conflict a b -> i = j;
}.

(** A running one: a resident is what its row says, where the retention of the
    history has left it, which it always does while the allocation is live; and
    every live row is resident. *)
Record consistent (resident rows : gmap string Allocation) : Prop := {
  con_durable : durable rows;
  con_keyed : forall id a, resident !! id = Some a -> a_id a = id;
  con_agree : forall id a b, resident !! id = Some a -> rows !! id = Some b -> a = b;
  con_live : forall id a, resident !! id = Some a -> is_live a = true -> rows !! id = Some a;
  con_resident : forall id a, rows !! id = Some a -> is_live a = true -> resident !! id = Some a;
}.

Definition residents {W} (m : Manager W) : gmap string Allocation := e_allocation <$> m_entries m.

(** A mutation of one allocation keeps what conflicts read, and ends for good. *)
Record moved (a a' : Allocation) : Prop := {
  mov_id : a_id a' = a_id a;
  mov_request : a_request a' = a_request a;
  mov_mode : a_mode a' = a_mode a;
  mov_origin : a_origin a' = a_origin a;
  mov_live : is_live a' = true -> is_live a = true;
}.

Lemma moved_conflict a a' b : moved a a' -> conflict a' b -> conflict a b.
Proof. intros [H1 H2 H3 H4 _]. unfold conflict. by rewrite H2, H3, H4. Qed.

Lemma conflict_sym a b : conflict a b -> conflict b a.
Proof. unfold conflict. naive_solver. Qed.

Lemma moved_transition now s a a' : transition now s a = Ok a' -> moved a a'.
Proof.
  intros [Hc ->]%transition_ok. constructor; try done. unfold is_live. simpl.
  revert Hc. by destruct (a_state a), s.
Qed.

Lemma moved_same_state a a' :
  a_id a' = a_id a -> a_request a' = a_request a -> a_mode a' = a_mode a ->
  a_origin a' = a_origin a -> a_state a' = a_state a -> moved a a'.
Proof. intros ? ? ? ? Hs. constructor; try done. unfold is_live. by rewrite Hs. Qed.

Lemma durable_write rows id a a' :
  durable rows -> a_id a = id -> (is_live a = true -> rows !! id = Some a) -> moved a a' ->
  storable a' -> durable (<[id := a']> rows).
Proof.
  intros [Hk Hv Hd] Hid Ha Hm Hs. constructor.
  - intros i b [[<- <-]|[_ Hb]]%lookup_insert_Some; [by rewrite (mov_id _ _ Hm)|by apply Hk].
  - intros i b [[<- <-]|[_ Hb]]%lookup_insert_Some; [done|by eapply Hv].
  - intros i j b c [[<- <-]|[Hi Hb]]%lookup_insert_Some [[<- <-]|[Hj Hc]]%lookup_insert_Some
      Hlb Hlc Hconf; [done| | |by eapply Hd].
    + pose proof (mov_live _ _ Hm Hlb) as Hl. apply (Hd id j a c (Ha Hl) Hc Hl Hlc).
      by eapply moved_conflict.
    + pose proof (mov_live _ _ Hm Hlc) as Hl. apply (Hd i id b a Hb (Ha Hl) Hlb Hl).
      apply conflict_sym. eapply moved_conflict; [done|]. by apply conflict_sym.
Qed.

Lemma consistent_write resident rows id a a' :
  consistent resident rows -> resident !! id = Some a -> moved a a' -> storable a' ->
  consistent (<[id := a']> resident) (<[id := a']> rows).
Proof.
  intros [Hd Hk Hag Hlv Hr] Ha Hm Hst. pose proof (Hk id a Ha) as Hid. constructor.
  - eapply durable_write; [done..| |done|done]. by apply Hlv.
  - intros i b [[<- <-]|[_ Hb]]%lookup_insert_Some; [by rewrite (mov_id _ _ Hm)|by apply Hk].
  - intros i b c [[<- <-]|[Hi Hb]]%lookup_insert_Some; [by rewrite lookup_insert_eq; intros [= <-]|].
    rewrite lookup_insert_ne by done. by apply Hag.
  - intros i b [[<- <-]|[Hi Hb]]%lookup_insert_Some Hl; [by rewrite lookup_insert_eq|].
    rewrite lookup_insert_ne by done. by apply Hlv.
  - intros i b [[<- <-]|[Hi Hb]]%lookup_insert_Some Hl; [by rewrite lookup_insert_eq|].
    rewrite lookup_insert_ne by done. by apply Hr.
Qed.

(** A new row that conflicts with no live one. *)
Lemma consistent_admit resident rows a :
  consistent resident rows -> storable a ->
  (forall id b, resident !! id = Some b -> is_live b = true -> ~ conflict a b) ->
  consistent (<[a_id a := a]> resident) (<[a_id a := a]> rows).
Proof.
  intros [[Hk Hv Hd] Hke Hag Hlv Hr] Hst Hn. constructor; [constructor|..].
  - intros i b [[<- <-]|[_ Hb]]%lookup_insert_Some; [done|by apply Hk].
  - intros i b [[<- <-]|[_ Hb]]%lookup_insert_Some; [done|by eapply Hv].
  - intros i j b c [[<- <-]|[Hi Hb]]%lookup_insert_Some [[<- <-]|[Hj Hc]]%lookup_insert_Some
      Hlb Hlc Hconf; [done| | |by eapply Hd].
    + exfalso. by eapply Hn; [apply Hr|..].
    + exfalso. eapply Hn; [by apply Hr|done|]. by apply conflict_sym.
  - intros i b [[<- <-]|[_ Hb]]%lookup_insert_Some; [done|by apply Hke].
  - intros i b c [[<- <-]|[Hi Hb]]%lookup_insert_Some; [by rewrite lookup_insert_eq; intros [= <-]|].
    rewrite lookup_insert_ne by done. by apply Hag.
  - intros i b [[<- <-]|[Hi Hb]]%lookup_insert_Some Hl; [by rewrite lookup_insert_eq|].
    rewrite lookup_insert_ne by done. by apply Hlv.
  - intros i b [[<- <-]|[Hi Hb]]%lookup_insert_Some Hl; [by rewrite lookup_insert_eq|].
    rewrite lookup_insert_ne by done. by apply Hr.
Qed.

(** Dropping residents that have ended. *)
Lemma consistent_drop resident resident' rows :
  consistent resident rows -> resident' ⊆ resident ->
  (forall id a, resident !! id = Some a -> is_live a = true -> resident' !! id = Some a) ->
  consistent resident' rows.
Proof.
  intros [Hd Hk Hag Hlv Hr] Hsub Hl. rewrite map_subseteq_spec in Hsub.
  constructor; [done|by eauto..|]. intros id a Ha Hlive. apply Hl; [by apply Hr|done].
Qed.

(** The retention of the history drops rows that have ended. *)
Lemma durable_prune rows rows' : durable rows -> rows' ⊆ rows -> durable rows'.
Proof.
  intros [Hk Hv Hd] Hsub. rewrite map_subseteq_spec in Hsub. constructor; eauto.
Qed.

Lemma consistent_prune resident rows rows' :
  consistent resident rows -> rows' ⊆ rows ->
  (forall id a, rows !! id = Some a -> is_live a = true -> rows' !! id = Some a) ->
  consistent resident rows'.
Proof.
  intros [Hd Hk Hag Hlv Hr] Hsub Hl. constructor; [by eapply durable_prune|done|..];
    rewrite map_subseteq_spec in Hsub; eauto.
Qed.

(** ** What the operations do to the tables

    A property [P] of the residents and the rows that implies consistency and
    survives every write of a moved allocation survives every operation other
    than an admission. *)

Section tables.
Context {W : Type} {BK : Backend W} {HO : HashOrder}.
Implicit Types m : Manager W.
Context (P : gmap string Allocation -> gmap string Allocation -> Prop).
Context (P_consistent : forall resident rows, P resident rows -> consistent resident rows).
Context (P_write : forall resident rows id a a', P resident rows -> resident !! id = Some a ->
  moved a a' -> storable a' -> P (<[id := a']> resident) (<[id := a']> rows)).

Definition tables m : Prop := P (residents m) (m_rows m).

Lemma tables_frames {A} (c : IO W A) : frames c -> preserves tables c.
Proof.
  intros Hf m Hm. destruct (Hf m) as [He Hr]. split; [|done].
  unfold tables, residents. by rewrite He, Hr.
Qed.

Lemma tables_update id f :
  (forall now a a', f now a = Ok a' -> moved a a') -> preserves tables (update (W := W) id f).
Proof.
  intros Hf m Hm. split; [|done]. destruct (update id f m) as [r m'] eqn:Hu. simpl.
  apply update_cases in Hu as [[_ [He Hr]]|(_ & e & now & a & He & Ha & Hs & He' & Hr')].
  - unfold tables, residents. by rewrite He, Hr.
  - apply Hf in Ha. assert (residents m !! id = Some (e_allocation e)) as Hres.
    { unfold residents. by rewrite lookup_fmap, He. }
    assert (a_id a = id) as Hid.
    { rewrite (mov_id _ _ Ha). by apply (con_keyed _ _ (P_consistent _ _ Hm)). }
    unfold tables, residents. rewrite He', Hr', fmap_insert, Hid.
    by eapply P_write.
Qed.

Lemma tables_modify (f : Manager W -> Manager W) :
  (forall m, residents (f m) = residents m) -> (forall m, m_rows (f m) = m_rows m) ->
  preserves tables (modify f).
Proof. intros H1 H2. apply preserves_modify. intros m. unfold tables. by rewrite H1, H2. Qed.

Lemma tables_set_entry id (f : Entry -> Entry) :
  (forall e, e_allocation (f e) = e_allocation e) -> preserves tables (set_entry (W := W) id f).
Proof.
  intros Hf. apply tables_modify; [|done]. intros m. apply map_eq. intros i. unfold residents. simpl.
  rewrite !lookup_fmap. destruct (decide (id = i)) as [<-|Hne].
  - rewrite lookup_alter_eq. destruct (m_entries m !! id); simpl; [by rewrite Hf|done].
  - by rewrite lookup_alter_ne.
Qed.

Lemma tables_call {A} (f : W -> A * W) : preserves tables (call f).
Proof. apply tables_frames, frames_call. Qed.

Lemma tables_emit k a n p : preserves tables (emit (W := W) k a n p).
Proof. apply tables_frames, frames_emit. Qed.

Lemma tables_transition_to id s : preserves tables (transition_to (W := W) id s).
Proof.
  unfold transition_to, get. walk ltac:(first
    [ apply tables_emit
    | apply tables_update; intros ? ? ? H%map_err_ok; by eapply moved_transition ]).
Qed.

Lemma tables_set id (f : Z -> Allocation -> Allocation) :
  (forall now a, moved a (f now a)) ->
  preserves tables (update (W := W) id (fun now a => Ok (f now a))).
Proof. intros Hf. apply tables_update. intros now a a' [= <-]. apply Hf. Qed.

Lemma moved_set_source now source a : moved a (set_source now source a).
Proof. unfold set_source. apply moved_same_state; by case_bool_decide. Qed.

Lemma moved_set_error now text a : moved a (set_error now text a).
Proof. by apply moved_same_state. Qed.

Lemma tables_record_error id text : preserves tables (record_error (W := W) id text).
Proof.
  unfold record_error. walk ltac:(first
    [ apply tables_emit | apply (tables_set _ (fun now => set_error now text)); intros;
      apply moved_set_error ]).
Qed.

Lemma tables_set_worker_error id e : preserves tables (set_worker_error (W := W) id e).
Proof.
  unfold set_worker_error. walk ltac:(first
    [ apply tables_emit
    | apply tables_update; intros now a a' [= <-]; destruct (is_capacity e); by apply moved_same_state ]).
Qed.

Lemma tables_ensure_cleaning id : preserves tables (ensure_cleaning (W := W) id).
Proof. unfold ensure_cleaning, get. walk ltac:(apply tables_transition_to). Qed.

Lemma tables_ensure_terminal a profile s : preserves tables (ensure_terminal (W := W) a profile s).
Proof.
  unfold ensure_terminal, finish_terminal, get. walk ltac:(first
    [ apply tables_ensure_cleaning | apply tables_record_error | apply tables_transition_to
    | apply tables_frames; first [apply frames_released | apply frames_cleanup_with_retries] ]).
Qed.

Lemma tables_teardown a profile result : preserves tables (teardown (W := W) a profile result).
Proof.
  unfold teardown, ensure_warm_quarantined, quarantine_warm, get, is_cancelled, release_supervision.
  walk ltac:(first
    [ apply tables_ensure_terminal | apply tables_set_worker_error
    | by apply tables_set_entry | by apply tables_modify ]).
Qed.

Lemma tables_cancel id : preserves tables (cancel_by_id (W := W) id).
Proof.
  unfold cancel_by_id, get. walk ltac:(first
    [ apply tables_ensure_terminal | by apply tables_set_entry ]).
Qed.

Lemma tables_begin_shutdown grace : preserves tables (begin_shutdown (W := W) grace).
Proof.
  unfold begin_shutdown, instant. walk ltac:(first [ apply tables_call | by apply tables_modify ]).
  apply tables_modify; [|done]. intros m. unfold residents. simpl. rewrite <- map_fmap_compose. apply map_fmap_ext.
  intros i e _. simpl. by destruct (is_awaited e).
Qed.

Lemma tables_recover_allocation config a : preserves tables (recover_allocation (W := W) config a).
Proof.
  unfold recover_allocation. walk ltac:(first
    [ apply tables_record_error | apply tables_ensure_terminal ]).
Qed.

Lemma tables_retention id outcome : preserves tables (record_retention (W := W) id outcome).
Proof. by apply (tables_set _ (fun now => set_retention now outcome)); intros; apply moved_same_state. Qed.

Lemma frames_warm_reverted profile warm previous :
  frames (W := W) (ensure_warm_reverted profile warm previous).
Proof. unfold ensure_warm_reverted, io_map_err, images_save, images_remove, stored. solve_frames. Qed.

Lemma tables_warm_consistent config : preserves tables (ensure_warm_consistent (W := W) config).
Proof.
  assert (forall machines l, preserves tables (reconcile_warm_all (W := W) machines l)) as Hall.
  { intros machines l. induction l as [|[name profile] l IH]; simpl; [by apply triple_ret|].
    unfold reconcile_warm, settle_warm, finalize_record, revert_record, restore_warm, delete_staged,
      mark_retention_interrupted, revert_record, images_save, stored.
    walk ltac:(first
      [ apply tables_frames, frames_images_load | apply tables_frames, frames_warm_reverted
      | apply tables_frames, frames_budget_for | apply tables_retention | apply tables_call
      | by apply tables_modify ]). }
  unfold ensure_warm_consistent. walk ltac:(first [ apply tables_call | apply Hall ]).
Qed.

Lemma frames_hot_consistent : frames (W := W) ensure_hot_consistent.
Proof.
  unfold ensure_hot_consistent, reconcile_hot, is_hot_adoptable, ensure_hot_forgotten, hot_reset_of,
    clocked, try_, io_map_err.
  pose proof (frames_hot_load_all (W := W)). pose proof (frames_hot_remove (W := W)).
  pose proof (frames_evicted (W := W)). pose proof (frames_hot_save (W := W)).
  pose proof (frames_emit (W := W)). pose proof (frames_unix_time (W := W)).
  pose proof (frames_budget_for (W := W)). solve_frames; auto.
Qed.

Lemma tables_recover_loaded config l : preserves tables (recover_loaded (W := W) config l).
Proof.
  unfold recover_loaded. pose proof (tables_frames _ frames_hot_consistent).
  walk ltac:(first [ apply tables_recover_allocation | apply tables_call
    | apply tables_warm_consistent | apply tables_emit ]).
Qed.

Lemma frames_record_warm_image record : frames (W := W) (record_warm_image record).
Proof. unfold record_warm_image, io_map_err, images_save, stored. solve_frames. Qed.

Lemma frames_sweep is_dry_run : frames (W := W) (sweep is_dry_run).
Proof.
  assert (forall c, frames (W := W) (reap c)) as Hreap.
  { intros c. unfold reap, images_load_all, hot_load_all, allocation_snapshot, stored, try_, io_map_err.
    solve_frames. }
  assert (forall l, frames (W := W) (reap_all l)) as Hall.
  { induction l; simpl; solve_frames; auto. }
  assert (forall l, frames (W := W) (apply_pruned_records l)) as Hpruned.
  { induction l; simpl; unfold images_remove, stored; solve_frames; auto. }
  pose proof (frames_bounded (W := W)). pose proof (frames_emit (W := W)).
  unfold sweep, sweep_warm_images, publish_sweep, allocation_snapshot, images_load_all, hot_load_all,
    stored, unix_time, try_, io_map_err.
  solve_frames; auto.
Qed.

Lemma frames_drain_matching keep reason : frames (W := W) (drain_matching keep reason).
Proof.
  unfold drain_matching. pose proof (frames_hot_load_all (W := W)).
  pose proof (frames_drained (W := W)). solve_frames; auto.
Qed.

Lemma frames_load_named name : frames (W := W) (load_named name).
Proof.
  unfold load_named, try_, io_map_err. pose proof (frames_hot_load (W := W)). solve_frames; auto.
Qed.

Lemma tables_hot_ready {ET : ErrorText} a : preserves tables (ensure_hot_ready (W := W) a).
Proof.
  unfold ensure_hot_ready. walk ltac:(first
    [ apply tables_frames, frames_hot_load | apply tables_transition_to | apply tables_call
    | apply tables_frames, frames_evicted ]).
Qed.

(** A daemon that starts over the rows another left: nothing was written, or it
    serves. *)
Lemma recover_tables m :
  durable (m_rows m) -> m_entries m = ∅ ->
  (forall resident, consistent resident (m_rows m) -> P resident (m_rows m)) ->
  ((exists e, (recover m).1 = Err e) /\ m_rows (recover m).2 = m_rows m) \/ tables (recover m).2.
Proof.
  intros Hd He HP. pose proof (dur_keyed _ Hd : rows_keyed (m_rows m)) as Hk.
  destruct (recover_cases m Hk He) as [H|(l & m1 & -> & Hr1 & He1 & Hrow & _ & Hlive)]; [by left|].
  right. apply tables_recover_loaded. unfold tables, residents. rewrite Hr1. apply HP.
  assert (forall id a, (e_allocation <$> m_entries m1) !! id = Some a -> m_rows m !! id = Some a) as Hsub.
  { intros id a. rewrite lookup_fmap. intros (e & Hlk & ->)%fmap_Some.
    apply He1 in Hlk as (b & Hb & <- & ->). by apply Hrow. }
  constructor; [done|..].
  - intros id a Ha%Hsub. by apply Hk.
  - intros id a b Ha%Hsub Hb. congruence.
  - intros id a Ha%Hsub _. done.
  - intros id a Ha Hl. rewrite lookup_fmap. rewrite (proj2 (He1 id (recovered_entry a))); [done|].
    exists a. split_and!; [|by apply Hk|done].
    apply (Hlive id); [done..|]. exact (proj1 (dur_valid _ Hd id a Ha)).
Qed.
(** One turn of some task that admits nothing, by its effect on the manager:
    the worker's reports, teardown, cancellation, the reaper, the operator's
    pool commands, reloads and shutdown. *)
Inductive task {ET : ErrorText} : (Manager W -> Manager W) -> Prop :=
| task_transition id s : task (fun m => (transition_to id s m).2)
| task_runner_id id runner : task (fun m => (record_runner_id id runner m).2)
| task_vm_created id : task (fun m => (record_vm_created id m).2)
| task_source id source : task (fun m => (record_source id source m).2)
| task_clone_source id source generation :
    task (fun m => (record_clone_source id source generation m).2)
| task_retention id outcome : task (fun m => (record_retention id outcome m).2)
| task_warm_image record : task (fun m => (record_warm_image record m).2)
| task_warm_reverted profile warm previous :
    task (fun m => (ensure_warm_reverted profile warm previous m).2)
| task_hot_ready a : task (fun m => (ensure_hot_ready a m).2)
| task_teardown a profile result : task (fun m => (teardown a profile result m).2)
| task_cancel id claims : task (fun m => (cancel_authorized id claims m).2)
| task_operator_cancel id : task (fun m => (cancel_by_id id m).2)
| task_sweep is_dry_run : task (fun m => (sweep is_dry_run m).2)
| task_hot_drain name : task (fun m => (hot_drain name m).2)
| task_hot_evict name : task (fun m => (hot_evict name m).2)
| task_reload split next : task (fun m => (apply_config split next m).2)
| task_reload_watch previous : task (fun m => (hot_reload_turn previous m).2)
| task_shutdown grace : task (fun m => (begin_shutdown grace m).2)
| task_collect awaited : task (fun m => (collect_leaks awaited m).2).

Lemma preserved {A} (I : Manager W -> Prop) (c : IO W A) m : preserves I c -> I m -> I (c m).2.
Proof. intros Hc Hm. by apply Hc. Qed.

Lemma tables_task {ET : ErrorText} f m : task f -> tables m -> tables (f m).
Proof.
  destruct 1; intros Hm; (apply preserved; [|exact Hm]).
  - apply tables_transition_to.
  - unfold record_runner_id. case_match; [by apply triple_ret|].
    by apply (tables_set _ (fun now => set_runner_id now runner)); intros; apply moved_same_state.
  - by apply (tables_set _ set_vm_created); intros; apply moved_same_state.
  - apply (tables_set _ (fun now => set_source now source)). intros. apply moved_set_source.
  - by apply (tables_set _ (fun now => set_clone_source now source generation)); intros;
      apply moved_same_state.
  - apply tables_retention.
  - apply tables_frames, frames_record_warm_image.
  - apply tables_frames, frames_warm_reverted.
  - apply tables_hot_ready.
  - apply tables_teardown.
  - unfold cancel_authorized, get_authorized, get. walk ltac:(apply tables_cancel).
  - apply tables_cancel.
  - apply tables_frames, frames_sweep.
  - apply tables_frames. unfold hot_drain, try_. pose proof frames_load_named.
    pose proof (frames_drained (W := W)). solve_frames; auto.
  - apply tables_frames. unfold hot_evict, try_. pose proof frames_load_named.
    pose proof (frames_evicted (W := W)). solve_frames; auto.
  - apply tables_frames. unfold apply_config, try_. solve_frames.
  - apply tables_frames. unfold hot_reload_turn, ensure_hot_reloaded.
    pose proof frames_drain_matching. pose proof (frames_bounded (W := W)). solve_frames; auto.
  - apply tables_begin_shutdown.
  - apply tables_frames. unfold collect_leaks. solve_frames.
Qed.
End tables.

(** A running daemon's tables. *)
Abbreviation running := (tables consistent) (only parsing).

Section running.
Context {W : Type} {BK : Backend W} {HO : HashOrder}.
Implicit Types m : Manager W.

Lemma running_keyed m : running m -> keyed (m_entries m).
Proof.
  intros Hm id e He. apply (con_keyed _ _ Hm). unfold residents. by rewrite lookup_fmap, He.
Qed.

(** The locked section never admits a conflict, whatever it was handed. *)
Lemma running_admit config request options resolved context machines hot :
  preserves running (create_locked (W := W) config request options resolved context machines hot).
Proof.
  intros m Hm. split; [|done]. destruct (create_locked _ _ _ _ _ _ _ m) as [r m'] eqn:Hrun. simpl.
  apply admit_cases in Hrun as [[_ [He Hr]]|[(a & _ & -> & _)|
    (a & claim & listing & pool & _ & _ & Hid & Hsole & _ & _ & _ & Has & Hcl & Hst & He & Hr & _)]];
    [unfold tables, residents; by rewrite He, Hr|done|].
  destruct Has as (Hreq & Hstate & Hmode & _).
  assert (running (m <| m_entries := <[a_id a := mkEntry a a false true false]> (m_entries m) |>
                     <| m_rows := <[a_id a := a]> (m_rows m) |>)) as Hm1.
  { unfold tables, residents. simpl. rewrite fmap_insert. apply consistent_admit; [done..|].
    intros id b Hb Hl. unfold residents in Hb. rewrite lookup_fmap in Hb.
    apply fmap_Some in Hb as (e & Hlk & ->). unfold is_live in Hl. apply negb_true_iff in Hl.
    intros [Hc|[(Ha1 & Hb1 & Hc)|(n & Ha1 & Hb1)]].
    - pose proof (idempotent_cases (m_entries m) request) as Hi. rewrite Hid in Hi.
      apply (Hi id e Hlk Hl). by rewrite <- Hc.
    - rewrite <- Hmode, Ha1 in Hsole.
      apply (sole_producer_ok _ _ id e Hsole Hlk Hl Hb1). by rewrite <- Hc, Hreq.
    - destruct claim as [[g origin source|]|]; simpl in Hcl; [|by rewrite Hcl in Ha1..].
      destruct Hcl as (Ho & Hon & _ & _ & Hni). rewrite Ho, Hon in Ha1. injection Ha1 as <-.
      apply Hni, live_hot_names_spec. eauto. }
  pose proof (running_keyed _ Hm1) as Hk1. unfold tables. rewrite Hr.
  eapply consistent_drop; [exact Hm1|..]; unfold residents; rewrite He; simpl.
  - apply map_fmap_mono, map_subseteq_spec. intros id e. apply prune_subseteq.
  - intros id b. rewrite !lookup_fmap. intros (e & Hlk & ->)%fmap_Some Hl.
    rewrite (prune_keeps_live _ _ _ e); [done..|]. unfold is_live in Hl. by apply negb_true_iff.
Qed.

Lemma running_create request options claims :
  preserves running (create (W := W) request options claims).
Proof.
  unfold create. apply preserves_bind; [apply preserves_gets|]. intros config.
  apply preserves_try; [apply tables_frames, frames_authorize|]. intros resolved.
  apply preserves_bind; [apply tables_frames, frames_prepare_hot|]. intros context.
  apply preserves_bind; [apply tables_frames, frames_host_machines|]. intros machines.
  apply preserves_bind; [apply tables_frames, frames_hot_load_all|]. intros hot.
  apply running_admit.
Qed.

End running.


(** ** The step relation *)

Section system.
Context {W : Type} {BK : Backend W} {ET : ErrorText} {HO : HashOrder}.

(** The hosts a first start may find, and what the backend may do to the host
    on its own: [run] and everything outside the daemon. *)
Context (fresh : W -> Prop) (drift : relation W).

(** A request, or its locked section against arbitrary snapshots. *)
Inductive admission : (Manager W -> Manager W) -> Prop :=
| admission_create request options claims :
    admission (fun m => (create request options claims m).2)
| admission_admit config request options resolved context machines hot :
    admission (fun m => (create_locked config request options resolved context machines hot m).2).

(** Serving ([true]) or stopped ([false]); a start that fails stops again.  The
    retention of the history runs at a start and between any two steps, and
    deletes any rows that have ended ([prune_history_safe] of [History]). *)
Inductive step : bool -> Manager W -> bool -> Manager W -> Prop :=
| step_admission m f : admission f -> step true m true (f m)
| step_task m f : task f -> step true m true (f m)
| step_start m m' : recover m = (Ok tt, m') -> step false m true m'
| step_start_failed m m' e config : recover m = (Err e, m') -> step false m false (restarted config m')
| step_crash m config : step true m false (restarted config m)
| step_prune up m rows :
    rows ⊆ m_rows m ->
    (forall id a, m_rows m !! id = Some a -> is_live a = true -> rows !! id = Some a) ->
    step up m up (m <| m_rows := rows |>)
| step_drift up m w : drift (m_world m) w -> step up m up (m <| m_world := w |>).

Inductive reachable : bool -> Manager W -> Prop :=
| reach_first config limit w :
    fresh w -> reachable false (mkManager config config 0 ∅ ∅ ∅ [] ∅ ∅ None None false limit None [] w)
| reach_step up m up' m' : reachable up m -> step up m up' m' -> reachable up' m'.

Lemma running_admission f m : admission f -> running m -> running (f m).
Proof.
  destruct 1; intros Hm; (apply preserved; [|exact Hm]); [apply running_create|apply running_admit].
Qed.

Definition sound (up : bool) (m : Manager W) : Prop :=
  durable (m_rows m) /\ if up then running m else m_entries m = ∅.

Lemma sound_step up m up' m' : sound up m -> step up m up' m' -> sound up' m'.
Proof.
  intros [Hd Hm]. destruct 1 as [m f Hf|m f Hf|m m' Hrun|m m' e config Hrun|m config|up m rows Hsub Hlv|up m w _].
  - apply (running_admission f m Hf) in Hm. split; [exact (con_durable _ _ Hm)|done].
  - apply (tables_task consistent (fun _ _ H => H) consistent_write f m Hf) in Hm.
    split; [exact (con_durable _ _ Hm)|done].
  - pose proof (recover_tables consistent (fun _ _ H => H) consistent_write m Hd Hm (fun _ H => H))
      as [[[e He] _]|Ht]; rewrite Hrun in *; [done|].
    split; [exact (con_durable _ _ Ht)|done].
  - pose proof (recover_tables consistent (fun _ _ H => H) consistent_write m Hd Hm (fun _ H => H))
      as [[_ Hr]|Ht]; rewrite Hrun in *; (split; [|done]); simpl.
    + simpl in Hr. by rewrite Hr.
    + exact (con_durable _ _ Ht).
  - done.
  - simpl in *. split; [by eapply durable_prune|]. destruct up; [|done]. by eapply consistent_prune.
  - split; [done|]. by destruct up.
Qed.

Lemma reachable_sound up m : reachable up m -> sound up m.
Proof.
  induction 1 as [config limit w _|up m up' m' _ IH Hs]; [|by eapply sound_step].
  split; [|done]. simpl. constructor; intros; simplify_map_eq.
Qed.
End system.

(** ** The specification of claims

    What the pool promises its users is a lock per machine.  One step either
    gives machines back, or takes one machine nobody holds; taking it leaves
    every lock of another allocation alone.  There is no step that hands a
    held machine over, and none that takes two. *)

Inductive lock_step : relation (gmap VmName AllocationId) :=
| lock_release locks locks' : locks' ⊆ locks -> lock_step locks locks'
| lock_acquire n id locks :
    locks !! n = None ->
    lock_step locks (<[n := id]> (filter (fun '(_, i) => i <> id) locks)).

(** A machine held before and after one step has the same holder. *)
Lemma lock_step_holder locks locks' n i j :
  lock_step locks locks' -> locks !! n = Some i -> locks' !! n = Some j -> i = j.
Proof.
  destruct 1 as [locks locks' Hsub|k id locks Hk]; intros Hi Hj.
  - eapply lookup_weaken in Hj; [|done]. congruence.
  - apply lookup_insert_Some in Hj as [[<- _]|[_ [Hj _]%map_lookup_filter_Some]]; congruence.
Qed.

(** The machine a row holds. *)
Definition holder (a : Allocation) : option VmName :=
  if is_live a then hot_vm_name (a_origin a) else None.

(** The locks the rows stand for, across restarts. *)
Definition locks (rows : gmap string Allocation) : gmap VmName AllocationId :=
  list_to_map (omap (fun '(id, a) => option_map (fun n => (n, id)) (holder a)) (map_to_list rows)).

Lemma holder_some a n :
  holder a = Some n <-> is_live a = true /\ hot_vm_name (a_origin a) = Some n.
Proof. unfold holder. destruct (is_live a); naive_solver. Qed.

Lemma locks_lookup rows n id :
  durable rows -> locks rows !! n = Some id <-> exists a, rows !! id = Some a /\ holder a = Some n.
Proof.
  intros Hd. unfold locks.
  assert (forall i, (n, i) ∈ omap (fun '(id, a) => option_map (fun n => (n, id)) (holder a))
    (map_to_list rows) <-> exists a, rows !! i = Some a /\ holder a = Some n) as Hin.
  { intros i. rewrite list_elem_of_omap. split.
    - intros ([j a] & Ha%elem_of_map_to_list & Hh). destruct (holder a) eqn:E; simplify_eq/=. eauto.
    - intros (a & Ha & Hh). exists (i, a). rewrite elem_of_map_to_list, Hh. done. }
  split; [intros H; apply Hin; by apply elem_of_list_to_map_2|].
  intros H. apply elem_of_list_to_map_1'; [|by apply Hin]. intros j Hj%Hin.
  destruct H as (a & Ha & [Hl Hn]%holder_some), Hj as (b & Hb & [Hl' Hn']%holder_some).
  apply (dur_disjoint _ Hd id j a b); try done. right. right. eauto.
Qed.

(** No row took a machine. *)
Definition shrinks (rows0 rows : gmap string Allocation) : Prop :=
  forall id a, rows !! id = Some a -> is_live a = true ->
    exists a0, rows0 !! id = Some a0 /\ is_live a0 = true /\ a_origin a0 = a_origin a.

Lemma shrinks_locks rows0 rows : durable rows0 -> durable rows -> shrinks rows0 rows ->
  locks rows ⊆ locks rows0.
Proof.
  intros Hd0 Hd Hs. apply map_subseteq_spec. intros n id.
  rewrite !locks_lookup by done. intros (a & Ha & [Hl Hn]%holder_some).
  destruct (Hs id a Ha Hl) as (a0 & Ha0 & Hl0 & Ho). exists a0. split; [done|].
  apply holder_some. by rewrite Ho.
Qed.

Lemma shrinks_refl rows : shrinks rows rows.
Proof. intros id a Ha Hl. eauto. Qed.

Lemma shrinks_write rows0 resident rows id a a' :
  consistent resident rows /\ shrinks rows0 rows -> resident !! id = Some a -> moved a a' ->
  storable a' ->
  consistent (<[id := a']> resident) (<[id := a']> rows) /\ shrinks rows0 (<[id := a']> rows).
Proof.
  intros [Hc Hs] Ha Hm Hst. split; [by eapply consistent_write|].
  intros i b [[<- <-]|[_ Hb]]%lookup_insert_Some Hl; [|by apply Hs].
  destruct (Hs id a) as (a0 & Ha0 & Hl0 & Ho).
  - apply (con_live _ _ Hc); [done|]. by apply (mov_live _ _ Hm).
  - by apply (mov_live _ _ Hm).
  - exists a0. split_and!; [done..|]. by rewrite Ho, (mov_origin _ _ Hm).
Qed.

(** An admission takes one free machine at most, and drops nothing but what a
    row of the same id held. *)
Lemma admit_locks rows a :
  durable rows -> durable (<[a_id a := a]> rows) ->
  (forall n, holder a = Some n -> locks rows !! n = None) ->
  lock_step (locks rows) (locks (<[a_id a := a]> rows)).
Proof.
  intros Hd Hd' Hfree. destruct (holder a) as [n|] eqn:Hh.
  - replace (locks (<[a_id a := a]> rows))
      with (<[n := a_id a]> (filter (fun '(_, i) => i <> a_id a) (locks rows)));
      [by constructor; apply Hfree|]. apply map_eq. intros k. apply option_eq. intros id.
    rewrite lookup_insert_Some, map_lookup_filter_Some, !locks_lookup by done. split.
    + intros [[<- <-]|[Hne [(b & Hb & Hhb) Hid]]]; [exists a; by rewrite lookup_insert_eq|].
      exists b. by rewrite lookup_insert_ne.
    + intros (b & [[<- <-]|[Hid Hb]]%lookup_insert_Some & Hhb); [left; naive_solver|].
      right. split; [|split; [by exists b|done]].
      intros ->. assert (locks rows !! k = Some id) as Hk by (apply locks_lookup; eauto).
      by rewrite (Hfree k eq_refl) in Hk.
  - constructor. apply map_subseteq_spec. intros k id. rewrite !locks_lookup by done.
    intros (b & [[<- <-]|[Hid Hb]]%lookup_insert_Some & Hhb); [congruence|eauto].
Qed.

Section refinement.
Context {W : Type} {BK : Backend W} {ET : ErrorText} {HO : HashOrder}.
Context (fresh : W -> Prop) (drift : relation W).
Implicit Types m : Manager W.

Lemma admit_refines config request options resolved context machines hot m :
  running m ->
  lock_step (locks (m_rows m))
    (locks (m_rows (create_locked config request options resolved context machines hot m).2)).
Proof.
  intros Hm. destruct (running_admit config request options resolved context machines hot m Hm)
    as [Hm' _].
  destruct (create_locked _ _ _ _ _ _ _ m) as [r m'] eqn:Hrun. simpl in *.
  apply admit_cases in Hrun as [[_ [_ Hr]]|[(a & _ & -> & _)|
    (a & claim & _ & _ & _ & _ & _ & _ & _ & _ & _ & _ & Hcl & _ & _ & Hr & _)]];
    [rewrite Hr; by constructor|by constructor|].
  apply con_durable in Hm'. rewrite Hr in *.
  apply admit_locks; [exact (con_durable _ _ Hm)|done|].
  intros n [_ Hn]%holder_some. destruct claim as [[g origin source|]|]; simpl in Hcl;
    [|by rewrite Hcl in Hn..].
  destruct Hcl as (Ho & Hon & _ & _ & Hni). rewrite Ho, Hon in Hn. injection Hn as <-.
  apply eq_None_not_Some. intros [id Hid].
  apply locks_lookup in Hid as (b & Hb & [Hl Hnb]%holder_some); [|exact (con_durable _ _ Hm)].
  apply Hni, live_hot_names_spec. apply (con_resident _ _ Hm) in Hb; [|done].
  unfold residents in Hb. rewrite lookup_fmap in Hb. apply fmap_Some in Hb as (e & He & ->).
  exists id, e. split_and!; [done| |done]. unfold is_live in Hl. by apply negb_true_iff.
Qed.

Lemma step_refines up m up' m' :
  sound up m -> step drift up m up' m' -> lock_step (locks (m_rows m)) (locks (m_rows m')).
Proof.
  intros Hs Hstep. pose proof (sound_step drift _ _ _ _ Hs Hstep) as [Hd' _].
  destruct Hs as [Hd Hm].
  pose (P := fun resident rows => consistent resident rows /\ shrinks (m_rows m) rows).
  assert (forall resident rows, P resident rows -> consistent resident rows) as P1 by (by intros ? ? []).
  assert (forall resident rows id a a', P resident rows -> resident !! id = Some a -> moved a a' ->
    storable a' -> P (<[id := a']> resident) (<[id := a']> rows)) as P2.
  { intros *. apply shrinks_write. }
  assert (forall resident, consistent resident (m_rows m) -> P resident (m_rows m)) as P3.
  { intros resident Hc. split; [done|apply shrinks_refl]. }
  destruct Hstep as [m f Hf|m f Hf|m m' Hrun|m m' e config Hrun|m config|up m rows Hsub Hlv|up m w _]; [|..|by constructor| |by constructor].
  - destruct Hf as [request options claims|]; [|by apply admit_refines].
    destruct (create request options claims m) as [r m'] eqn:Hrun. simpl in *.
    apply create_cases in Hrun as [[_ [_ ->]]|(? & ? & ? & ? & m1 & [He Hr] & _ & Hadm)];
      [by constructor|].
    rewrite <- Hr.
    match type of Hadm with ?c = _ => replace m' with c.2 by (by rewrite Hadm) end.
    apply admit_refines. unfold tables, residents in *. by rewrite He, Hr.
  - constructor. apply shrinks_locks; [done..|]. apply (tables_task P P1 P2 f m Hf), P3, Hm.
  - pose proof (recover_tables P P1 P2 m Hd Hm P3) as [[[e He] _]|[_ Ht]]; rewrite Hrun in *; [done|].
    constructor. by apply shrinks_locks.
  - pose proof (recover_tables P P1 P2 m Hd Hm P3) as [[_ Hr]|[_ Ht]]; rewrite Hrun in *; simpl in *.
    + rewrite Hr. by constructor.
    + constructor. by apply shrinks_locks.
  - constructor. apply shrinks_locks; [done|exact Hd'|]. intros id a Ha Hl. simpl in Ha.
    exists a. split_and!; [by eapply lookup_weaken|done..].
Qed.

(** ** Properties *)

(** C1: in every state a serving daemon reaches, through any interleaving of
    requests, worker reports, teardowns, cancellations, sweeps, reloads,
    operator commands, failing stores, crashes and restarts, two live
    allocations never serve the same run attempt, never produce the same
    profile's image and never hold the same pool machine; a live resident has
    its row, a resident is what its row says, and every live row is resident,
    so admission sees it. *)
Theorem live_allocations_disjoint m :
  reachable fresh drift true m ->
  (forall i j e f, m_entries m !! i = Some e -> m_entries m !! j = Some f ->
     is_live (e_allocation e) = true -> is_live (e_allocation f) = true -> i <> j ->
     a_request (e_allocation e) <> a_request (e_allocation f) /\
     (a_mode (e_allocation e) = Regenerate -> a_mode (e_allocation f) = Regenerate ->
        rq_profile (a_request (e_allocation e)) <> rq_profile (a_request (e_allocation f))) /\
     (forall n, hot_vm_name (a_origin (e_allocation e)) = Some n ->
        hot_vm_name (a_origin (e_allocation f)) <> Some n)) /\
  (forall i e, m_entries m !! i = Some e -> is_live (e_allocation e) = true ->
     m_rows m !! i = Some (e_allocation e)) /\
  (forall i e a, m_entries m !! i = Some e -> m_rows m !! i = Some a -> a = e_allocation e) /\
  (forall i a, m_rows m !! i = Some a -> is_live a = true ->
     exists e, m_entries m !! i = Some e /\ e_allocation e = a).
Proof.
  intros [Hd Hm]%reachable_sound. assert (forall i e, m_entries m !! i = Some e ->
    residents m !! i = Some (e_allocation e)) as Hres.
  { intros i e He. unfold residents. by rewrite lookup_fmap, He. }
  assert (forall i e, m_entries m !! i = Some e -> is_live (e_allocation e) = true ->
    m_rows m !! i = Some (e_allocation e)) as Hrow.
  { intros i e He%Hres. by apply (con_live _ _ Hm). }
  split_and!; [|done|..].
  - intros i j e f He Hf Hle Hlf Hne. apply Hrow in He; [|done]. apply Hrow in Hf; [|done].
    pose proof (dur_disjoint _ Hd i j _ _ He Hf Hle Hlf) as Hc. unfold conflict in Hc.
    split_and!; [naive_solver..|]. intros n Hn Hn'. eauto 10.
  - intros i e a He%Hres Ha. symmetry. by eapply (con_agree _ _ Hm).
  - intros i a Ha Hl. apply (con_resident _ _ Hm) in Ha; [|done].
    unfold residents in Ha. rewrite lookup_fmap in Ha. apply fmap_Some in Ha as (e & He & ->). eauto.
Qed.

(** C2: the claims of the daemon implement a lock per pool machine.  The lock
    table is exact before and after a step: it names every live row that holds
    a machine, so two live holders of one machine are impossible.  And every
    step of the running system, crashes and restarts included, is ONE step of
    the lock specification: it gives machines back, or it takes one machine
    nobody held and leaves the other allocations' locks alone.  A machine held
    on both sides of a step has kept its holder. *)
Theorem claims_refine_locks up m up' m' :
  reachable fresh drift up m -> step drift up m up' m' ->
  (forall rows, rows = m_rows m \/ rows = m_rows m' -> forall id a n,
     rows !! id = Some a -> is_live a = true -> hot_vm_name (a_origin a) = Some n ->
     locks rows !! n = Some id) /\
  (forall n id, locks (m_rows m') !! n = Some id -> exists a,
     m_rows m' !! id = Some a /\ is_live a = true /\ hot_vm_name (a_origin a) = Some n) /\
  lock_step (locks (m_rows m)) (locks (m_rows m')) /\
  (forall n i j, locks (m_rows m) !! n = Some i -> locks (m_rows m') !! n = Some j -> i = j).
Proof.
  intros Hr%reachable_sound Hs. pose proof (step_refines _ _ _ _ Hr Hs) as Hl.
  pose proof (sound_step drift _ _ _ _ Hr Hs) as [Hd' _]. destruct Hr as [Hd _].
  split_and!; [|..|done|].
  - intros rows Hrows id a n Ha Hlive Hn. apply locks_lookup; [by destruct Hrows as [-> | ->]|].
    exists a. by rewrite holder_some.
  - intros n id (a & Ha & [Hlive Hn]%holder_some)%locks_lookup; eauto.
  - intros n i j. by apply lock_step_holder.
Qed.
End refinement.

(** ** A concrete run: a first start, then one request. *)

Definition plain_text : ErrorText := {| store_text _ := "store"; manager_text _ := "manager" |}.

Definition started : Manager Sim := (recover empty_manager).2.

Definition served : Manager Sim :=
  (create example_request plain_options example_claims started).2.

Lemma started_reachable : reachable (ET := plain_text) (fun w => w = sim_world) eq true started.
Proof.
  eapply reach_step; [by apply (reach_first _ _ example_config 1000 sim_world)|].
  apply step_start. change (recover empty_manager = (Ok tt, (recover empty_manager).2)).
  rewrite (surjective_pairing (recover empty_manager)) at 1. by f_equal.
Qed.

Lemma served_reachable : reachable (ET := plain_text) (fun w => w = sim_world) eq true served.
Proof.
  eapply reach_step; [apply started_reachable|].
  apply (step_admission eq started (fun m => (create example_request plain_options example_claims m).2)).
  constructor.
Qed.

(** The request is live, resident and on disk. *)
Lemma live_allocations_disjoint_witness :
  exists e, m_entries served !! "id-1" = Some e /\ is_live (e_allocation e) = true /\
    m_rows served !! "id-1" = Some (e_allocation e).
Proof.
  destruct (m_entries served !! "id-1") as [e|] eqn:He; [|by vm_compute in He].
  assert (is_live (e_allocation e) = true) as Hl by (revert He; vm_compute; by intros [= <-]).
  exists e. split_and!; [done|done|].
  - destruct (live_allocations_disjoint (ET := plain_text) (fun w => w = sim_world) eq served
      served_reachable) as (_ & Hrow & _).
    by apply Hrow.
Defined.

(** The request took no machine, and the locks show it. *)
Lemma claims_refine_locks_witness :
  lock_step (locks (m_rows started)) (locks (m_rows served)) /\ locks (m_rows served) = ∅.
Proof.
  split; [|by vm_compute].
  assert (step (ET := plain_text) eq true started true served) as Hstep.
  { apply (step_admission eq started
      (fun m => (create example_request plain_options example_claims m).2)). constructor. }
  by destruct (claims_refine_locks (ET := plain_text) (fun w => w = sim_world) eq true started true
    served started_reachable Hstep) as (_ & _ & Hlock & _).
Defined.
