(* ===== verification/Pool.v ===== *)
(** * The pool over the whole system

    Every operation of the manager, and every start, keeps the pool's account:
    a machine the backend holds in its pool always has a row. *)

From S2P Require Import Prelude Rust Text Identifiers Images Guest Hot Allocation Config ConfigValidate Claims Sizing Admission HotSelect Reaper Convert Manager HotPool Lifecycle WarmImages Sweep Service Recovery System.

Open Scope Z_scope.
Open Scope stdpp_scope.

Section pool.
Context {W : Type} {BK : Backend W} {PB : PoolBackend W} {ET : ErrorText} {HO : HashOrder}.
Implicit Types m : Manager W.

(** The account, over all names. *)
Definition pool m : Prop := accounted (fun _ => True) m.

Lemma pool_call {A} (f : W -> A * W) : (forall w, held (f w).2 ⊆ held w) -> preserves pool (call f).
Proof. apply keeps_call. Qed.

Lemma pool_modify (f : Manager W -> Manager W) :
  (forall m, m_world (f m) = m_world m) -> (forall m, m_hot (f m) = m_hot m) ->
  preserves pool (modify f).
Proof. apply keeps_modify. Qed.

Lemma pool_stored {A} (c : IO W A) : preserves pool c -> preserves pool (stored c).
Proof.
  intros Hc. unfold stored. walk ltac:(apply pool_call; eauto with pool).
Qed.

Lemma pool_load {A} (f : Manager W -> A) : preserves pool (stored (gets f)).
Proof. apply pool_stored, preserves_gets. Qed.

Lemma pool_emit k a n p : preserves pool (emit k a n p).
Proof. apply keeps_emit. Qed.

Lemma pool_images_load n : preserves pool (images_load n).
Proof. apply keeps_images_load. Qed.

Lemma pool_host_machines : preserves pool host_machines.
Proof. apply keeps_host_machines. Qed.

Lemma pool_update id f : preserves pool (update id f).
Proof. apply keeps_update. Qed.

Lemma pool_transition_to id s : preserves pool (transition_to id s).
Proof. apply keeps_transition_to. Qed.

Lemma pool_set_entry id f : preserves pool (set_entry id f).
Proof. by apply pool_modify. Qed.

Lemma pool_evicted g reason : in_service g -> preserves pool (ensure_hot_evicted g reason).
Proof. apply keeps_hot_evicted. Qed.

(** Closes the primitive effects every operation is made of. *)
Ltac pool_leaf :=
  first
    [ apply pool_emit | apply pool_images_load | apply pool_host_machines | apply pool_update
    | apply pool_transition_to | apply pool_set_entry | apply pool_load
    | apply pool_call; eauto with pool | by apply pool_modify
    | apply pool_stored; by apply pool_modify ].

Lemma pool_record_error id text : preserves pool (record_error id text).
Proof. unfold record_error. walk ltac:(pool_leaf). Qed.

Lemma pool_ensure_cleaning id : preserves pool (ensure_cleaning id).
Proof. unfold ensure_cleaning, get. walk ltac:(pool_leaf). Qed.

Lemma pool_cleanup a profile : preserves pool (cleanup_with_retries a profile).
Proof.
  assert (forall n b last, preserves pool (cleanup_attempts n a b last)) as Hattempts.
  { intros n b. induction n as [|n IH]; intros last; simpl; [by apply triple_ret|].
    unfold cleanup_once, instant. walk ltac:(first [pool_leaf | apply IH]). }
  unfold cleanup_with_retries, budget_for, record_leak.
  walk ltac:(first [apply Hattempts | pool_leaf]).
Qed.

Lemma pool_ensure_terminal a profile s : preserves pool (ensure_terminal a profile s).
Proof.
  unfold ensure_terminal, finish_terminal, get.
  walk ltac:(first [ apply pool_ensure_cleaning | apply pool_record_error | apply pool_cleanup
    | by apply keeps_hot_released | pool_leaf ]).
Qed.

Lemma pool_teardown a profile result : preserves pool (teardown a profile result).
Proof.
  unfold teardown, ensure_warm_quarantined, quarantine_warm, get, is_cancelled, release_supervision,
    set_worker_error.
  walk ltac:(first [ apply pool_ensure_terminal | pool_leaf ]).
Qed.

Lemma pool_cancel id : preserves pool (cancel_by_id id).
Proof. unfold cancel_by_id, get. walk ltac:(first [ apply pool_ensure_terminal | pool_leaf ]). Qed.

Lemma pool_warm_reverted profile warm previous :
  preserves pool (ensure_warm_reverted profile warm previous).
Proof. unfold ensure_warm_reverted, images_save, images_remove. walk ltac:(pool_leaf). Qed.

Lemma pool_record_warm_image record : preserves pool (record_warm_image record).
Proof. unfold record_warm_image, images_save. walk ltac:(pool_leaf). Qed.

Lemma pool_hot_load_all : preserves pool hot_load_all.
Proof. apply pool_load. Qed.

Lemma pool_resolve_source name profile mode : preserves pool (resolve_source name profile mode).
Proof. unfold resolve_source, warm_source, warm_candidate, missing_record. walk ltac:(pool_leaf). Qed.

Lemma pool_authorize config request options claims :
  preserves pool (authorize config request options claims).
Proof.
  unfold authorize, effective_size. walk ltac:(first [ apply pool_resolve_source | pool_leaf ]).
Qed.

Lemma pool_prepare_hot config request resolved options :
  preserves pool (prepare_hot config request resolved options).
Proof.
  unfold prepare_hot, ensure_hot_evicted_for, hot_context, promoted_generation.
  walk ltac:(first [ apply keeps_drain_matching | apply keeps_hot_yielded | pool_leaf ]).
Qed.

Lemma pool_allocation_save a : preserves pool (allocation_save a).
Proof. apply keeps_allocation_save. Qed.

(** A claim is committed in service, and drained in service when abandoned. *)
Lemma pool_commit entries a claim :
  claims_machine entries a claim -> preserves pool (commit a claim).
Proof.
  intros Hc. assert (match claim with Some (Reused g _ _) => in_service g | _ => True end) as Hg.
  { destruct claim as [[g origin source|]|]; [|done..]. destruct Hc as (_ & _ & Hs & _).
    unfold in_service. by rewrite Hs. }
  unfold commit, commit_claim, abandon_hot_claim.
  walk ltac:(first [ by apply keeps_hot_save | by apply keeps_hot_drained
    | apply pool_allocation_save | pool_leaf ]).
Qed.

Lemma pool_new_allocation config request options resolved context hot :
  triple pool (new_allocation config request options resolved context hot) (fun r =>
    forall planned, r = Ok planned -> exists entries, claims_machine entries planned.1 planned.2).
Proof.
  assert (preserves pool (new_allocation config request options resolved context hot)) as Hp.
  { unfold new_allocation, unix_time. walk ltac:(pool_leaf). }
  intros m Hm. split; [by apply Hp|].
  destruct (new_allocation _ _ _ _ _ _ m) as [r m1] eqn:Hnew. simpl. intros [a claim] ->.
  apply new_allocation_cases in Hnew as [_ Hf]. exists (m_entries m). by apply Hf.
Qed.

Lemma pool_admit config request options resolved context machines hot :
  preserves pool (create_locked config request options resolved context machines hot).
Proof.
  unfold create_locked. do 2 (apply preserves_bind; [apply preserves_gets|]; intros ?).
  do 2 (case_match; [by apply triple_ret|]).
  do 4 (apply preserves_try; [by apply triple_ret|]; intros ?).
  eapply triple_try; [apply pool_new_allocation| |done]. intros [b claim] [entries Hc].
  apply preserves_try; [by eapply pool_commit|]. intros _. by apply triple_ret.
Qed.

Lemma pool_create request options claims : preserves pool (create request options claims).
Proof.
  unfold create. walk ltac:(first [ apply pool_authorize | apply pool_prepare_hot
    | apply pool_hot_load_all | apply pool_admit | pool_leaf ]).
Qed.

Lemma pool_sweep is_dry_run : preserves pool (sweep is_dry_run).
Proof.
  assert (forall c, preserves pool (reap c)) as Hreap.
  { intros c. unfold reap, images_load_all, hot_load_all, allocation_snapshot.
    walk ltac:(pool_leaf). }
  assert (forall l, preserves pool (reap_all l)) as Hall.
  { induction l; simpl; walk ltac:(apply Hreap). }
  assert (forall l, preserves pool (apply_pruned_records l)) as Hpruned.
  { induction l; simpl; unfold images_remove; walk ltac:(pool_leaf). }
  unfold sweep, sweep_warm_images, publish_sweep, allocation_snapshot, images_load_all, hot_load_all,
    unix_time.
  walk ltac:(first [ apply keeps_hot_bounded | apply Hall | apply Hpruned | pool_leaf ]).
Qed.

Lemma pool_warm_consistent config : preserves pool (ensure_warm_consistent config).
Proof.
  assert (forall machines l, preserves pool (reconcile_warm_all machines l)) as Hall.
  { intros machines l. induction l as [|[name profile] l IH]; simpl; [by apply triple_ret|].
    unfold reconcile_warm, settle_warm, finalize_record, restore_warm, delete_staged,
      mark_retention_interrupted, record_retention, revert_record, images_save, budget_for.
    walk ltac:(first [ apply pool_warm_reverted | pool_leaf ]). }
  unfold ensure_warm_consistent. walk ltac:(first [ apply Hall | pool_leaf ]).
Qed.

Lemma pool_recover : preserves pool recover.
Proof.
  assert (forall l, preserves pool (ensure_entries_loaded l)) as Hloaded.
  { induction l; simpl; walk ltac:(pool_leaf). }
  assert (forall n, preserves pool (load_recent n)) as Hrecent.
  { intros n. unfold load_recent. walk ltac:(pool_leaf). }
  unfold recover. do 2 (apply preserves_bind; [apply preserves_gets|]; intros ?).
  apply preserves_try; [apply preserves_map_err, Hrecent|]. intros l.
  unfold recover_loaded, recover_allocation.
  walk ltac:(first [ apply Hloaded | apply pool_record_error | apply pool_ensure_terminal
    | apply keeps_hot_consistent | apply pool_warm_consistent | pool_leaf ]).
Qed.

Lemma pool_task f m : task f -> pool m -> pool (f m).
Proof.
  destruct 1; intros Hm; (apply preserved; [|exact Hm]).
  - apply pool_transition_to.
  - unfold record_runner_id. walk ltac:(pool_leaf).
  - apply pool_update.
  - apply pool_update.
  - apply pool_update.
  - apply pool_update.
  - apply pool_record_warm_image.
  - apply pool_warm_reverted.
  - apply keeps_hot_ready.
  - apply pool_teardown.
  - unfold cancel_authorized, get_authorized, get. walk ltac:(apply pool_cancel).
  - apply pool_cancel.
  - apply pool_sweep.
  - apply keeps_hot_drain.
  - apply keeps_hot_evict.
  - unfold apply_config. walk ltac:(pool_leaf).
  - apply keeps_hot_reload_turn.
  - unfold begin_shutdown, instant. walk ltac:(pool_leaf).
  - unfold collect_leaks. walk ltac:(pool_leaf).
Qed.

Lemma pool_admission f m : admission f -> pool m -> pool (f m).
Proof.
  destruct 1; intros Hm; (apply preserved; [|exact Hm]); [apply pool_create|apply pool_admit].
Qed.
End pool.

(** Every machine the backend holds has a row. *)
Definition machines_recorded {W} {BK : Backend W} {PB : PoolBackend W} (m : Manager W) : Prop :=
  forall n, n ∈ held (m_world m) -> is_Some (m_hot m !! n).

(** No row outlives its machine's eviction. *)
Definition rows_unevicted {W} (m : Manager W) : Prop :=
  forall n g, m_hot m !! n = Some g -> hg_state g <> Evicted.

(** ** Properties *)

(** C3: in every state the system reaches, serving or stopped, every machine
    the backend holds in its pool has a row, and no row of the pool says it is
    evicted: a machine is recorded before it is kept and forgotten only after
    it is gone, through every operation, failing store, crash and restart.
    The backend is any that keeps the pool contract, and what it does on its
    own only loses machines. *)
Theorem pool_accounted {W} {BK : Backend W} {PB : PoolBackend W} {ET : ErrorText} {HO : HashOrder}
    (fresh : W -> Prop) (drift : relation W) up (m : Manager W) :
  (forall w, fresh w -> held w = ∅) -> (forall w w', drift w w' -> held w' ⊆ held w) ->
  reachable fresh drift up m -> machines_recorded m /\ rows_unevicted m.
Proof.
  intros Hfresh Hdrift Hr. assert (pool m) as [Ha He].
  { induction Hr as [config limit w Hw|up m up' m' _ IH Hs].
    - split; [simpl; rewrite (Hfresh w Hw); set_solver|]. apply map_Forall_empty.
    - destruct Hs as [m f Hf|m f Hf|m m' Hrun|m m' e config Hrun|m config|up m rows _ _|up m w Hd].
      + by apply pool_admission.
      + by apply pool_task.
      + pose proof (preserved pool recover m pool_recover IH) as H. by rewrite Hrun in H.
      + pose proof (preserved pool recover m pool_recover IH) as H. by rewrite Hrun in H.
      + exact IH.
      + exact IH.
      + destruct IH as [Ha Hb]. split; [|exact Hb]. intros n Hn. apply Ha. by apply (Hdrift _ w). }
  split; [|exact He]. intros n Hn. apply elem_of_dom. by apply Ha.
Qed.

(** A job that may leave its machine behind runs and ends. *)
Definition hot_options : RequestOptions :=
  {| ro_warm := false; ro_hot := Retain None; ro_cpu_count := None; ro_memory_mb := None |}.

Definition retained : Manager Sim :=
  match create example_request hot_options example_claims started with
  | (Ok (a, _), m) => (teardown a example_profile (Ok tt) (record_vm_created (a_id a) m).2).2
  | (Err _, m) => m
  end.

Lemma retained_reachable : reachable (ET := plain_text) (fun w => w = sim_world) eq true retained.
Proof.
  assert (reachable (ET := plain_text) (fun w => w = sim_world) eq true
    (create example_request hot_options example_claims started).2) as Hjob.
  { eapply reach_step; [apply started_reachable|].
    apply (step_admission eq started (fun m => (create example_request hot_options example_claims m).2)).
    constructor. }
  revert Hjob. unfold retained. destruct (create _ _ _ _) as [[[a ?]|?] m]; intros Hjob; [|done].
  eapply reach_step; [eapply reach_step; [done|]|].
  - apply (step_task eq m (fun m => (record_vm_created (a_id a) m).2)). constructor.
  - apply (step_task eq _ (fun m => (teardown a example_profile (Ok tt) m).2)). constructor.
Qed.

Lemma pool_accounted_witness :
  "ff-linux-77-1" ∈ held (m_world retained) /\ is_Some (m_hot retained !! "ff-linux-77-1").
Proof.
  assert ("ff-linux-77-1" ∈ held (m_world retained)) as Hheld.
  { apply (bool_decide_unpack _). by vm_compute. }
  split; [exact Hheld|].
  apply (pool_accounted (ET := plain_text) (fun w => w = sim_world) eq true retained);
    [by intros w ->|by intros w w' ->|apply retained_reachable|exact Hheld].
Defined.
