(* ===== verification/Virt.v ===== *)
(** * The libvirt helper ([crates/flanforge-runtime-libvirt/src/actor])

    Every change to the hypervisor is made by a helper process the daemon
    starts per request.  It creates an allocation's two volumes, journalling
    each in a checkpoint file before it counts on it ([storage/provision.rs],
    [checkpoint/]), defines and starts the domain ([guest.rs]), and deletes
    exactly what an ownership manifest names ([guest/cleanup.rs],
    [storage/cleanup.rs]).

    The daemon may kill the helper at any call, and every call may fail: a
    helper's step is a [Fut], and [Crashed] is the kill.  libvirt, the file
    system and the clock are an interface ([LibvirtHost]); what libvirt
    documents of its calls is a second one ([LawfulLibvirt]), stated over the
    volumes and domains the host has. *)

From S2P Require Import Prelude Rust Text Identifiers Guest Config Convert Admission Futures Wire.

Open Scope Z_scope.
Open Scope stdpp_scope.

(** ** Errors ([error.rs], [flanforge-libvirt-wire/src/error.rs]) *)

Definition wire_text (e : WireError) : string :=
  match e with
  | WireEncode contract => contract +:+ " cannot be encoded"
  | WireDecode contract => contract +:+ " cannot be decoded"
  | WireInvalid contract field =>
      contract +:+ " field " +:+ field +:+ " is structurally invalid"
  end.

Inductive RuntimeError :=
| EConfiguration (message : string)
| EActorUnavailable
| EHelper (code : HelperFailureCode) (message : string)
| EDeadline
| ELibvirt (operation message : string)
| ETransient (operation message : string)
| ECapacity (message : string)
| ECollision (operation message : string)
| EOwnership (message : string)
| EManifest (message : string)
| EManifestNotFound
| ESeed (message : string)
| EGuest (message : string)
| ECancelled
| ECleanup (operation cleanup : string).

#[export] Instance RuntimeError_eq_dec : EqDecision RuntimeError.
Proof. solve_decision. Defined.

Definition safe_message (value : string) : string :=
  bounded_text (text (map (fun c => if is_ascii_control c then " "%char else c) (bytes value))) 384.

Arguments safe_message : simpl never.

Definition libvirt_error (operation error : string) : RuntimeError :=
  ELibvirt operation (safe_message error).
Definition collision_error (operation message : string) : RuntimeError :=
  ECollision operation (safe_message message).
Definition helper_error (message : string) : RuntimeError := EHelper HfInternal (safe_message message).
Definition capacity_error (message : string) : RuntimeError := ECapacity (safe_message message).
Definition manifest_error (message : string) : RuntimeError := EManifest (safe_message message).
Definition ownership_error (message : string) : RuntimeError := EOwnership (safe_message message).
Definition from_helper (failure : HelperFailure) : RuntimeError :=
  EHelper (hf_code failure) (safe_message (hf_message failure)).

(** The [Debug] name of a code. *)
Definition code_text (code : HelperFailureCode) : string :=
  match code with
  | HfInvalidRequest => "InvalidRequest" | HfConfiguration => "Configuration"
  | HfUnavailable => "Unavailable" | HfDeadline => "Deadline" | HfNotFound => "NotFound"
  | HfTransient => "Transient" | HfCapacity => "Capacity" | HfConflict => "Conflict"
  | HfLibvirt => "Libvirt" | HfOwnership => "Ownership" | HfManifest => "Manifest"
  | HfSeed => "Seed" | HfInternal => "Internal"
  end.

(** The [Display] of an error. *)
Definition runtime_text (e : RuntimeError) : string :=
  match e with
  | EConfiguration message => "libvirt configuration is invalid: " +:+ message
  | EActorUnavailable => "libvirt actor is unavailable"
  | EHelper code message => "libvirt helper failed (" +:+ code_text code +:+ "): " +:+ message
  | EDeadline => "libvirt operation exceeded its deadline"
  | ELibvirt operation message => "libvirt " +:+ operation +:+ " failed: " +:+ message
  | ETransient operation message =>
      "libvirt " +:+ operation +:+ " is temporarily unavailable: " +:+ message
  | ECapacity message => "libvirt capacity check failed: " +:+ message
  | ECollision operation message =>
      "libvirt " +:+ operation +:+ " collided with an existing resource: " +:+ message
  | EOwnership message => "libvirt ownership check failed: " +:+ message
  | EManifest message => "libvirt manifest is invalid: " +:+ message
  | EManifestNotFound => "libvirt manifest is absent"
  | ESeed message => "libvirt seed creation failed: " +:+ message
  | EGuest message => "libvirt guest check failed: " +:+ message
  | ECancelled => "libvirt standalone operation was cancelled"
  | ECleanup operation cleanup => "libvirt cleanup failed after " +:+ operation +:+ ": " +:+ cleanup
  end.

Definition failure_code (e : RuntimeError) : HelperFailureCode :=
  match e with
  | EConfiguration _ => HfConfiguration
  | EActorUnavailable => HfUnavailable
  | EDeadline => HfDeadline
  | EHelper code _ => code
  | ELibvirt _ _ => HfLibvirt
  | ETransient _ _ => HfTransient
  | ECapacity _ => HfCapacity
  | ECollision _ _ => HfConflict
  | EOwnership _ => HfOwnership
  | EManifest _ => HfManifest
  | EManifestNotFound => HfNotFound
  | ESeed _ => HfSeed
  | EGuest _ | ECancelled | ECleanup _ _ => HfInternal
  end.

Definition helper_failure (e : RuntimeError) : HelperFailure :=
  failure_new (failure_code e) (runtime_text e).

Definition is_retryable (e : RuntimeError) : bool :=
  match e with
  | ETransient _ _ | EActorUnavailable | EDeadline => true
  | EHelper code _ => bool_decide (code = HfTransient) || bool_decide (code = HfUnavailable)
  | _ => false
  end.

(** [RuntimeError::manifest] of a wire error. *)
Definition as_manifest {A} (r : result WireError A) : result RuntimeError A :=
  map_err (fun e => manifest_error (wire_text e)) r.
Definition as_ownership {A} (r : result WireError A) : result RuntimeError A :=
  map_err (fun e => ownership_error (wire_text e)) r.

(** ** libvirt *)

Inductive ErrorNumber :=
| NoStorageVolume | NoStoragePool | StorageVolExist | NoDomain | NoDomainMetadata
| AgentUnresponsive | AgentUnsynced | AgentCommandTimeout | OperationTimeout
| OtherError (number : Z).

#[export] Instance ErrorNumber_eq_dec : EqDecision ErrorNumber.
Proof. solve_decision. Defined.

Record VirtError := { ve_code : ErrorNumber; ve_message : string }.

(** How a call ends: with an answer, with libvirt's error, or not at all,
    because the helper was killed during it. *)
Inductive Call (A : Type) :=
| Answered (a : A)
| Refused (error : VirtError)
| Killed.

Arguments Answered {A} a.
Arguments Refused {A} error.
Arguments Killed {A}.

(** Handles: a pool by its name; a volume by its pool, name and key; a domain
    by its UUID and name. *)
Record Vol := { vol_pool : string; vol_name : string; vol_key : string }.
Record Dom := { dom_uuid : Uuid; dom_name : string }.

Record VolInfo := { vi_capacity : Z; vi_allocation : Z }.

(** One change to the state directory: made, refused with or without effect,
    or cut off with or without effect. *)
Inductive Turn := Works | Fails (applied : bool) (message : string) | Stops (applied : bool).

Class LibvirtHost (H : Type) := {
  lh_turn : H -> Turn * H;
  (** [Instant::now], in nanoseconds, and [thread::sleep]. *)
  lh_now : H -> Z * H;
  lh_sleep : Z -> H -> H;
  lh_unix_time : H -> result string Z * H;
  lh_uuid : H -> Uuid * H;
  lh_connect : string -> H -> Call unit * H;
  lh_close : H -> Call unit * H;
  lh_pool_lookup : string -> H -> Call string * H;
  lh_pool_available : string -> H -> Call Z * H;
  lh_pool_is_active : string -> H -> Call bool * H;
  lh_pool_free : string -> H -> Call unit * H;
  lh_vol_lookup : string -> string -> H -> Call Vol * H;
  lh_vol_create_xml : string -> string -> H -> Call Vol * H;
  lh_vol_name : Vol -> H -> Call string * H;
  lh_vol_key : Vol -> H -> Call string * H;
  lh_vol_path : Vol -> H -> Call string * H;
  lh_vol_info : Vol -> H -> Call VolInfo * H;
  lh_vol_delete : Vol -> H -> Call unit * H;
  lh_vol_free : Vol -> H -> Call unit * H;
  (** A stream into a volume of a declared length: opened, fed, ended. *)
  lh_stream : H -> Call nat * H;
  lh_upload : Vol -> nat -> Z -> H -> Call unit * H;
  lh_send : nat -> string -> H -> Call Z * H;
  lh_finish : nat -> H -> Call unit * H;
  lh_abort : nat -> H -> Call unit * H;
  lh_dom_by_uuid : Uuid -> H -> Call Dom * H;
  lh_dom_by_name : string -> H -> Call Dom * H;
  lh_dom_define : string -> H -> Call Dom * H;
  lh_dom_undefine : Dom -> H -> Call unit * H;
  lh_dom_create : Dom -> H -> Call unit * H;
  lh_dom_is_active : Dom -> H -> Call bool * H;
  lh_dom_shutdown : Dom -> H -> Call unit * H;
  lh_dom_destroy : Dom -> H -> Call unit * H;
  lh_dom_name : Dom -> H -> Call string * H;
  lh_dom_uuid : Dom -> H -> Call Uuid * H;
  lh_dom_metadata : Dom -> H -> Call string * H;
  lh_dom_free : Dom -> H -> Call unit * H;
}.

(** The host and the daemon's state: the documents of the state directory by
    path, its directories, and the domains the pool has claimed. *)
Record HostWorld (H : Type) := mkHostWorld {
  hw_host : H;
  hw_files : gmap string string;
  hw_dirs : gset string;
  hw_claimed : gset VmName;
}.

Arguments mkHostWorld {H}.
Arguments hw_host {H}.
Arguments hw_files {H}.
Arguments hw_dirs {H}.
Arguments hw_claimed {H}.

#[export] Instance HostWorld_eta H : Eta (HostWorld H) := fun w =>
  mkHostWorld (hw_host w) (hw_files w) (hw_dirs w) (hw_claimed w).

(** ** Documents libvirt reads ([domain/{xml,metadata}.rs]) *)

Definition quote : ascii := ascii_of_nat 34.

(** [name="value"]. *)
Definition attr (name value : string) : string :=
  name +:+ "=" +:+ String quote (value +:+ String quote "").

(** [str::replace] of one character. *)
Definition replace (c : ascii) (replacement : string) (value : string) : string :=
  text (concat (map (fun d => if Ascii.eqb d c then bytes replacement else [d]) (bytes value))).

Definition escape (value : string) : string :=
  replace "'" "&apos;" (replace quote "&quot;" (replace ">" "&gt;" (replace "<" "&lt;"
    (replace "&" "&amp;" value)))).

Arguments escape : simpl never.

Definition METADATA_URI : string := LIBVIRT_OWNERSHIP_METADATA_URI.

Definition allocation_metadata (m : OwnershipManifest) : result RuntimeError string :=
  overlay_key ← ok_or (art_key (om_overlay m)) (ownership_error "overlay key is not persisted");
  seed_key ← ok_or (art_key (om_seed m)) (ownership_error "seed key is not persisted");
  Ok ("<flanforge:allocation " +:+ attr "xmlns:flanforge" METADATA_URI +:+ " " +:+ attr "schema" "1"
      +:+ " " +:+ attr "allocation" (om_allocation_id m)
      +:+ " " +:+ attr "instance" (om_service_instance m)
      +:+ " " +:+ attr "domain" (om_domain_uuid m)
      +:+ " " +:+ attr "overlay" (escape overlay_key)
      +:+ " " +:+ attr "seed" (escape seed_key) +:+ "/>").

(** What the parsers say of a text they reject. *)
Class ParserErrors := { xml_error : string -> string; json_error : string -> string }.

Definition ensure_metadata_matches {XC : XmlCodec} {XE : ParserErrors} (metadata : string) (m : OwnershipManifest) :
    result RuntimeError unit :=
  _ ← ensure (len metadata <=? 8192) (ownership_error "domain metadata is oversized");
  root ← ok_or (xml_root metadata) (ownership_error (xml_error metadata));
  overlay ← ok_or (art_key (om_overlay m)) (ownership_error "overlay key is absent");
  seed ← ok_or (art_key (om_seed m)) (ownership_error "seed key is absent");
  let namespace_matches :=
    match xe_namespace root with None => true | Some namespace => bool_decide (namespace = METADATA_URI) end in
  ensure
    (bool_decide (xe_name root = "allocation") && namespace_matches
     && bool_decide (attribute root "schema" = Some "1")
     && bool_decide (attribute root "allocation" = Some (om_allocation_id m))
     && bool_decide (attribute root "instance" = Some (om_service_instance m))
     && bool_decide (attribute root "domain" = Some (om_domain_uuid m))
     && bool_decide (attribute root "overlay" = Some overlay)
     && bool_decide (attribute root "seed" = Some seed))
    (ownership_error "live domain metadata does not match the durable manifest").

Record DomainSpec := {
  ds_manifest : OwnershipManifest;
  ds_pool : string;
  ds_network : string;
  ds_cpu_count : Z;
  ds_memory_mb : Z;
}.

(** The devices part of a domain, after its name and UUID. *)
Definition domain_devices (spec : DomainSpec) : string :=
  let m := ds_manifest spec in
  let disk driver volume target rest :=
    "<disk " +:+ attr "type" "volume" +:+ " " +:+ attr "device" "disk" +:+ "><driver "
    +:+ attr "name" "qemu" +:+ " " +:+ driver +:+ "/><source " +:+ attr "pool" (escape (ds_pool spec))
    +:+ " " +:+ attr "volume" (escape volume) +:+ "/><target " +:+ attr "dev" target +:+ " "
    +:+ attr "bus" "virtio" +:+ "/>" +:+ rest +:+ "</disk>" in
  "<devices>"
  +:+ disk (attr "type" "qcow2" +:+ " " +:+ attr "cache" "none" +:+ " " +:+ attr "discard" "unmap")
        (art_name (om_overlay m)) "vda" ""
  +:+ disk (attr "type" "raw") (art_name (om_seed m)) "vdb" "<readonly/>"
  +:+ "<interface " +:+ attr "type" "network" +:+ "><mac " +:+ attr "address" (om_mac_address m)
  +:+ "/><source " +:+ attr "network" (escape (ds_network spec)) +:+ "/><model " +:+ attr "type" "virtio"
  +:+ "/></interface><channel " +:+ attr "type" "unix" +:+ "><target " +:+ attr "type" "virtio" +:+ " "
  +:+ attr "name" "org.qemu.guest_agent.0" +:+ "/></channel><serial " +:+ attr "type" "pty" +:+ "><target "
  +:+ attr "port" "0" +:+ "/></serial><console " +:+ attr "type" "pty" +:+ "><target "
  +:+ attr "type" "serial" +:+ " " +:+ attr "port" "0" +:+ "/></console><memballoon "
  +:+ attr "model" "virtio" +:+ "/></devices></domain>".

Definition domain_xml (spec : DomainSpec) : result RuntimeError string :=
  let m := ds_manifest spec in
  metadata ← allocation_metadata m;
  Ok ("<domain " +:+ attr "type" "kvm" +:+ "><name>" +:+ escape (om_domain_name m) +:+ "</name><uuid>"
      +:+ om_domain_uuid m +:+ "</uuid><metadata>" +:+ metadata +:+ "</metadata><memory "
      +:+ attr "unit" "MiB" +:+ ">" +:+ decimal (ds_memory_mb spec) +:+ "</memory><currentMemory "
      +:+ attr "unit" "MiB" +:+ ">" +:+ decimal (ds_memory_mb spec) +:+ "</currentMemory><vcpu "
      +:+ attr "placement" "static" +:+ ">" +:+ decimal (ds_cpu_count spec) +:+ "</vcpu><os><type "
      +:+ attr "arch" "x86_64" +:+ " " +:+ attr "machine" "q35" +:+ ">hvm</type><boot " +:+ attr "dev" "hd"
      +:+ "/></os><features><acpi/><apic/></features><cpu " +:+ attr "mode" "host-model" +:+ " "
      +:+ attr "check" "partial" +:+ "/><clock " +:+ attr "offset" "utc"
      +:+ "/><on_poweroff>destroy</on_poweroff><on_reboot>restart</on_reboot><on_crash>destroy</on_crash>"
      +:+ domain_devices spec).

Definition ensure_libvirt_text (value : string) : result RuntimeError unit :=
  ensure (negb (is_empty value || (4096 <? len value)
                || any_byte (fun c => (byte_val c =? 0) || is_ascii_control c) value))
    (manifest_error "libvirt returned an unsafe storage path").

Definition overlay_xml (name : string) (capacity : Z) (backing_path : string) :
    result RuntimeError string :=
  _ ← ensure_libvirt_text backing_path;
  Ok ("<volume><name>" +:+ escape name +:+ "</name><capacity " +:+ attr "unit" "B" +:+ ">"
      +:+ decimal capacity +:+ "</capacity><target><format " +:+ attr "type" "qcow2"
      +:+ "/></target><backingStore><path>" +:+ escape backing_path +:+ "</path><format "
      +:+ attr "type" "qcow2" +:+ "/></backingStore></volume>").

Definition seed_xml (name : string) (capacity : Z) : string :=
  "<volume><name>" +:+ escape name +:+ "</name><capacity " +:+ attr "unit" "B" +:+ ">" +:+ decimal capacity
  +:+ "</capacity><target><format " +:+ attr "type" "raw"
  +:+ "/><permissions><mode>0600</mode></permissions></target></volume>".

(** ** The state directory ([checkpoint/{io,paths}.rs], [manifest/paths.rs])

    A document is written beside its place and moved there, so a change either
    takes effect whole or not at all; the temporary names carry no authority
    and are left out.  Directories are created private. *)

Definition NOT_FOUND : string := "No such file or directory (os error 2)".
Definition FILE_EXISTS : string := "File exists (os error 17)".

Definition allocation_dir (state_dir : PathBuf) (allocation_id : Uuid) : PathBuf :=
  join (lsp_allocations (libvirt_state_paths state_dir)) allocation_id.
Definition ownership_path (state_dir : PathBuf) (allocation_id : Uuid) : PathBuf :=
  join (allocation_dir state_dir allocation_id) "ownership.json".
Definition cleanup_path (state_dir : PathBuf) (allocation_id : Uuid) : PathBuf :=
  join (allocation_dir state_dir allocation_id) "cleanup-complete.json".
Definition known_hosts_path (state_dir : PathBuf) (allocation_id : Uuid) : PathBuf :=
  join (allocation_dir state_dir allocation_id) "known_hosts".
Definition allocation_path (state_dir : PathBuf) (allocation_id : Uuid) : PathBuf :=
  join (allocation_dir state_dir allocation_id) "volume-checkpoint.json".

(** [Path::parent]. *)
Definition parent (path : PathBuf) : option PathBuf := fst <$> rsplit_once "/" path.

Section files.
Context {H : Type} {LH : LibvirtHost H} {PE : ParserErrors}.
Context {JC : JsonCodec VolumeCheckpoint} {UC : UuidCodec}.
Local Abbreviation W := (HostWorld H).

(** One change of the documents. *)
Definition change (f : gmap string string -> gmap string string) : Fut W (result string unit) :=
  fun w =>
    let '(turn, h) := lh_turn (hw_host w) in
    let after applied :=
      let w := w <| hw_host := h |> in
      if applied : bool then w <| hw_files := f (hw_files w) |> else w in
    match turn with
    | Works => (Done (Ok tt), after true)
    | Fails applied message => (Done (Err message), after applied)
    | Stops applied => (Crashed, after applied)
    end.

(** One reading of the documents and directories. *)
Definition look {A} (f : gmap string string -> gset string -> A) : Fut W (result string A) := fun w =>
  let '(turn, h) := lh_turn (hw_host w) in
  let after := w <| hw_host := h |> in
  match turn with
  | Works => (Done (Ok (f (hw_files w) (hw_dirs w))), after)
  | Fails _ message => (Done (Err message), after)
  | Stops _ => (Crashed, after)
  end.

Definition on_file {A} (c : Fut W (result string A)) : Fut W (result RuntimeError A) :=
  fut_map_err manifest_error c.

Definition read_private_bounded_regular_optional (path : PathBuf) (maximum_bytes : Z)
    (description : string) : Fut W (result RuntimeError (option string)) :=
  found ←! on_file (look (fun files _ => files !! path));
  mret (match found with
        | None => Ok None
        | Some bytes =>
            if maximum_bytes <? len bytes
            then Err (manifest_error (description +:+ " is not a bounded regular file"))
            else Ok (Some bytes)
        end).

Definition ensure_private_directory (complaint : string) (path : PathBuf) :
    Fut W (result RuntimeError unit) :=
  found ←! on_file (look (fun files dirs =>
    (bool_decide (path ∈ dirs), bool_decide (is_Some (files !! path)))));
  mret (match found with
        | (true, _) => Ok tt
        | (false, true) => Err (manifest_error complaint)
        | (false, false) => Err (manifest_error NOT_FOUND)
        end).

Definition sync_directory (path : PathBuf) : Fut W (result string unit) :=
  found ←! look (fun _ dirs => bool_decide (path ∈ dirs));
  mret (ensure found NOT_FOUND).

Definition load_checkpoint (path : PathBuf) : Fut W (result RuntimeError (option VolumeCheckpoint)) :=
  found ←! read_private_bounded_regular_optional path MAX_VOLUME_CHECKPOINT_BYTES "volume checkpoint";
  mret (match found with
        | None => Ok None
        | Some bytes => Some <$> as_manifest (parse_checkpoint bytes)
        end).

Definition write_checkpoint (c : VolumeCheckpoint) (path : PathBuf) (replacing : bool) :
    Fut W (result RuntimeError unit) :=
  bytes ←! mret (as_manifest (encode_checkpoint c));
  directory ←! mret (ok_or (parent path) (manifest_error "checkpoint path has no parent"));
  _ ←! ensure_private_directory "checkpoint directory is not a private directory" directory;
  if replacing then on_file (change (fun files => <[path := bytes]> files))
  else
    exists_already ←! on_file (look (fun files _ => bool_decide (is_Some (files !! path))));
    if exists_already : bool then mret (Err (manifest_error FILE_EXISTS))
    else on_file (change (fun files => <[path := bytes]> files)).

Definition remove_checkpoint (path : PathBuf) : Fut W (result RuntimeError unit) :=
  _ ←! on_file (change (delete path));
  directory ←! mret (ok_or (parent path) (manifest_error "checkpoint path has no parent"));
  on_file (sync_directory directory).

(** ** The journal ([checkpoint/journal.rs]) *)

Record VolumeJournal := { vj_checkpoint : VolumeCheckpoint; vj_path : PathBuf }.

Definition begin_journal (checkpoint : VolumeCheckpoint) (path : PathBuf) :
    Fut W (result RuntimeError VolumeJournal) :=
  existing ←! load_checkpoint path;
  match existing with
  | Some _ => mret (Err (ownership_error "volume creation checkpoint already exists"))
  | None =>
      _ ←! write_checkpoint checkpoint path false;
      mret (Ok {| vj_checkpoint := checkpoint; vj_path := path |})
  end.

Definition journal_allocation (config : HelperConfig) (m : OwnershipManifest) :
    Fut W (result RuntimeError VolumeJournal) :=
  if negb (bool_decide (om_service_instance m = hcf_service_instance config))
  then mret (Err (ownership_error "allocation checkpoint service instance disagrees with the helper"))
  else
    checkpoint ←! mret (as_manifest (checkpoint_new (hcf_service_instance config) (hcf_pool config)
                                       (OwnerAllocation (om_allocation_id m))));
    begin_journal checkpoint (allocation_path (hcf_state_dir config) (om_allocation_id m)).

(** The journal after it, when the volume was recorded. *)
Definition journal_record (journal : VolumeJournal) (role : CheckpointVolumeRole) (name key : string) :
    Fut W (result RuntimeError VolumeJournal) :=
  let '(recorded, checkpoint) := record_volume role name key (vj_checkpoint journal) in
  _ ←! mret (as_manifest recorded);
  _ ←! write_checkpoint checkpoint (vj_path journal) true;
  mret (Ok {| vj_checkpoint := checkpoint; vj_path := vj_path journal |}).
End files.

(** ** Volumes ([actor/storage/{provision,cleanup,handles,import}.rs]) *)

Record CreateRequest := {
  cr_manifest : OwnershipManifest;
  cr_source : VolumePointer;
  cr_seed : string;
  cr_storage_bytes : Z;
}.

Record DefineRequest := {
  dr_manifest : OwnershipManifest;
  dr_cpu_count : Z;
  dr_memory_mb : Z;
}.

Definition ensure_identity (expected_name : string) (expected_key : option string)
    (live_name live_key : string) : result RuntimeError unit :=
  if negb (bool_decide (live_name = expected_name))
     || from_option (fun key => negb (bool_decide (key = live_key))) false expected_key
  then Err (ownership_error "configured-pool volume disagrees with the ownership manifest")
  else Ok tt.

Definition create_error (operation : string) (error : VirtError) : RuntimeError :=
  if bool_decide (ve_code error = StorageVolExist) then collision_error operation (ve_message error)
  else libvirt_error operation (ve_message error).

Section storage.
Context {H : Type} {LH : LibvirtHost H} {PE : ParserErrors}.
Context {JC : JsonCodec VolumeCheckpoint} {UC : UuidCodec}.
Local Abbreviation W := (HostWorld H).

(** One call of libvirt. *)
Definition call {A} (c : H -> Call A * H) : Fut W (result VirtError A) := fun w =>
  let '(ended, h) := c (hw_host w) in
  let w := w <| hw_host := h |> in
  match ended with
  | Answered a => (Done (Ok a), w)
  | Refused error => (Done (Err error), w)
  | Killed => (Crashed, w)
  end.

(** [.map_err(|error| RuntimeError::libvirt(operation, error))]. *)
Definition virt {A} (operation : string) (c : H -> Call A * H) : Fut W (result RuntimeError A) :=
  fut_map_err (fun e => libvirt_error operation (ve_message e)) (call c).

Definition free_volume (v : Vol) : Fut W (result RuntimeError unit) :=
  virt "volume handle release" (lh_vol_free v).
Definition free_pool (pool : string) : Fut W (result RuntimeError unit) :=
  virt "pool handle release" (lh_pool_free pool).

Definition active_pool (config : HelperConfig) (immediate_bytes : Z) :
    Fut W (result RuntimeError string) :=
  pool ←! virt "storage-pool lookup" (lh_pool_lookup (hcf_pool config));
  available ←! virt "storage-pool capacity" (lh_pool_available pool);
  let required := hcf_min_storage_free_bytes config + immediate_bytes in
  _ ←! mret (ensure (required <=? u64_max) (manifest_error "required storage capacity overflows"));
  is_active ←! virt "storage-pool state" (lh_pool_is_active pool);
  if negb is_active || (available <? required)
  then mret (Err (capacity_error "configured storage reserve is unavailable"))
  else mret (Ok pool).

Definition check_source_pointer (config : HelperConfig) (pointer : VolumePointer) :
    Fut W (result RuntimeError string) :=
  _ ←! mret (as_manifest (ensure_pointer_valid pointer));
  if negb (bool_decide (vp_pool pointer = hcf_pool config))
  then mret (Err (ownership_error "published base belongs to another storage pool"))
  else
    pool ←! virt "published base pool lookup" (lh_pool_lookup (hcf_pool config));
    volume ←! virt "published base lookup" (lh_vol_lookup pool (vp_volume_name pointer));
    key ←! virt "published base key" (lh_vol_key volume);
    info ←! virt "published base capacity" (lh_vol_info volume);
    path ←! virt "published base path" (lh_vol_path volume);
    _ ←! free_volume volume;
    _ ←! free_pool pool;
    mret (if negb (bool_decide (key = vp_volume_key pointer))
             || negb (vi_capacity info =? vp_virtual_bytes pointer)
          then Err (ownership_error "published base pointer disagrees with the configured-pool volume")
          else Ok path).

Definition create_volume (pool xml operation : string) : Fut W (result RuntimeError Vol) :=
  fut_map_err (create_error operation) (call (lh_vol_create_xml pool xml)).

Definition record_created (journal : VolumeJournal) (role : CheckpointVolumeRole) (name : string)
    (volume : Vol) (operation : string) : Fut W (result RuntimeError (string * VolumeJournal)) :=
  key ←! virt operation (lh_vol_key volume);
  journal ←! journal_record journal role name key;
  mret (Ok (key, journal)).

(** [send_exact] of a reader that holds [rest] in memory, and the inner loop
    that sends one chunk; [length] bytes are still due. *)
Fixpoint send_chunk (fuel : nat) (stream : nat) (chunk : string) : Fut W (result RuntimeError unit) :=
  if is_empty chunk then mret (Ok tt)
  else match fuel with
  | O => fun w => (Dropped false, w)
  | S fuel =>
      written ←! virt "volume upload send" (lh_send stream chunk);
      if written =? 0 then mret (Err (libvirt_error "volume upload send" "libvirt accepted zero bytes"))
      else send_chunk fuel stream (text (drop (Z.to_nat written) (bytes chunk)))
  end.

Definition UPLOAD_BUFFER_BYTES : Z := 1048576.

Fixpoint send_exact (fuel : nat) (stream : nat) (rest : string) (remaining : Z) :
    Fut W (result RuntimeError unit) :=
  if remaining <=? 0 then
    mret (ensure (is_empty rest) (manifest_error "uploaded source exceeds its declared length"))
  else match fuel with
  | O => fun w => (Dropped false, w)
  | S fuel =>
      let requested := Z.to_nat (Z.min remaining UPLOAD_BUFFER_BYTES) in
      let chunk := text (take requested (bytes rest)) in
      if is_empty chunk then mret (Err (manifest_error "uploaded source ended early"))
      else
        _ ←! send_chunk (String.length chunk) stream chunk;
        send_exact fuel stream (text (drop requested (bytes rest))) (remaining - len chunk)
  end.

(** [upload] from memory, without a digest to check. *)
Definition upload (volume : Vol) (content : string) (length : Z) : Fut W (result RuntimeError unit) :=
  stream ←! virt "upload stream" lh_stream;
  _ ←! virt "volume upload" (lh_upload volume stream length);
  sent ← send_exact (Z.to_nat length) stream content length;
  match sent with
  | Ok _ => virt "volume upload finish" (lh_finish stream)
  | Err error => _ ← call (lh_abort stream); mret (Err error)
  end.

Definition create_seed (pool name content : string) (journal : VolumeJournal) :
    Fut W (result RuntimeError string) :=
  volume ←! create_volume pool (seed_xml name (len content)) "seed creation";
  made ← (created ←! record_created journal RoleSeed name volume "seed key";
          _ ←! upload volume content (len content);
          mret (Ok (fst created)));
  _ ← (if is_ok made then mret (Ok tt) else call (lh_vol_delete volume));
  _ ←! free_volume volume;
  mret made.

(** The rest of [delete_exact], once the volume is found. *)
Definition delete_found (pool : string) (key : option string) (expected_name : string) (volume : Vol) :
    Fut W (result RuntimeError unit) :=
  live_name ←! virt "owned volume name" (lh_vol_name volume);
  live_key ←! virt "owned volume key" (lh_vol_key volume);
  match ensure_identity expected_name key live_name live_key with
  | Err error => _ ← free_volume volume; _ ← free_pool pool; mret (Err error)
  | Ok _ =>
      _ ←! virt "volume deletion" (lh_vol_delete volume);
      _ ←! free_volume volume;
      free_pool pool
  end.

Definition delete_exact (pool_name : string) (key : option string) (expected_name : string) :
    Fut W (result RuntimeError unit) :=
  pool ←! virt "owned pool lookup" (lh_pool_lookup pool_name);
  found ← call (lh_vol_lookup pool expected_name);
  match found with
  | Err error =>
      if bool_decide (ve_code error = NoStorageVolume) then free_pool pool
      else _ ← free_pool pool; mret (Err (libvirt_error "owned volume lookup" (ve_message error)))
  | Ok volume => delete_found pool key expected_name volume
  end.

Definition delete_artifact (pool_name : string) (artifact : Artifact) : Fut W (result RuntimeError unit) :=
  delete_exact pool_name (art_key artifact) (art_name artifact).

Definition ensure_pool_volume (pool_name key name : string) : Fut W (result RuntimeError unit) :=
  pool ←! virt "owned pool lookup" (lh_pool_lookup pool_name);
  volume ←! virt "owned volume lookup" (lh_vol_lookup pool name);
  live_name ←! virt "owned volume name" (lh_vol_name volume);
  live_key ←! virt "owned volume key" (lh_vol_key volume);
  _ ←! free_volume volume;
  _ ←! free_pool pool;
  mret (ensure_identity name (Some key) live_name live_key).

Definition create_guest_resources (config : HelperConfig) (request : CreateRequest) :
    Fut W (result RuntimeError OwnershipManifest) :=
  let m := cr_manifest request in
  let overlay_name := art_name (om_overlay m) in
  _ ←! mret (as_manifest (ensure_ownership_valid m));
  pool ←! active_pool config (len (cr_seed request));
  backing_path ←! check_source_pointer config (cr_source request);
  let capacity := Z.max (cr_storage_bytes request) (vp_virtual_bytes (cr_source request)) in
  journal ←! journal_allocation config m;
  xml ←! mret (overlay_xml overlay_name capacity backing_path);
  overlay ←! create_volume pool xml "overlay creation";
  recorded ← record_created journal RoleOverlay overlay_name overlay "overlay key";
  match recorded with
  | Err error =>
      _ ← call (lh_vol_delete overlay);
      _ ← free_volume overlay;
      _ ← free_pool pool;
      mret (Err error)
  | Ok (overlay_key, journal) =>
      let m := m <| om_overlay := set_key overlay_key (om_overlay m) |> in
      _ ←! free_volume overlay;
      seeded ← create_seed pool (art_name (om_seed m)) (cr_seed request) journal;
      match seeded with
      | Err error =>
          _ ← delete_exact (hcf_pool config) (Some overlay_key) overlay_name;
          _ ← free_pool pool;
          mret (Err error)
      | Ok seed_key =>
          let m := m <| om_seed := set_key seed_key (om_seed m) |> in
          _ ←! free_pool pool;
          _ ←! mret (as_manifest (ensure_ownership_valid m));
          mret (Ok m)
      end
  end.
End storage.

(** ** Recovered keys ([checkpoint/recovery.rs]) *)

Definition merge_artifact (a : Artifact) (checkpoint : option CheckpointVolume) :
    result RuntimeError Artifact :=
  match checkpoint with
  | None => Ok a
  | Some v =>
      if negb (bool_decide (art_name a = cv_name v))
         || from_option (fun key => negb (bool_decide (key = cv_key v))) false (art_key a)
      then Err (ownership_error "volume checkpoint disagrees with durable allocation ownership")
      else Ok (set_key (cv_key v) a)
  end.

Definition merge_allocation {UC : UuidCodec} (c : VolumeCheckpoint) (m : OwnershipManifest)
    (service_instance : Uuid) (pool : string) : result RuntimeError OwnershipManifest :=
  _ ← as_ownership (ensure_allocation c service_instance pool (om_allocation_id m)
                      (art_name (om_overlay m)) (art_name (om_seed m)));
  overlay ← merge_artifact (om_overlay m) (find_volume RoleOverlay c);
  seed ← merge_artifact (om_seed m) (find_volume RoleSeed c);
  let m := m <| om_overlay := overlay |> <| om_seed := seed |> in
  _ ← as_manifest (ensure_ownership_valid m);
  Ok m.

(** ** Ownership of a guest ([manifest/ownership/model.rs]) *)

Definition ensure_recovery_artifacts {UC : UuidCodec} (m : OwnershipManifest) : result RuntimeError unit :=
  let overlay := artifact_id (art_name (om_overlay m)) "root-" ".qcow2" in
  let seed := artifact_id (art_name (om_seed m)) "seed-" ".img" in
  if bool_decide (overlay = None) || negb (bool_decide (overlay = seed))
  then Err (ownership_error "durable allocation artifact identities disagree")
  else Ok tt.

(** ** Domains ([actor/guest.rs], [actor/guest/cleanup.rs]) *)

Definition STOP_POLL_NANOS : Z := 200000000.

Section guest.
Context {H : Type} {LH : LibvirtHost H} {PE : ParserErrors} {XC : XmlCodec} {UC : UuidCodec}.
Local Abbreviation W := (HostWorld H).

Definition free_domain (d : Dom) : Fut W (result RuntimeError unit) :=
  virt "domain handle release" (lh_dom_free d).

Definition ensure_domain (d : Dom) (m : OwnershipManifest) : Fut W (result RuntimeError unit) :=
  name ←! virt "domain name" (lh_dom_name d);
  uuid ←! virt "domain UUID" (lh_dom_uuid d);
  metadata ←! virt "domain metadata" (lh_dom_metadata d);
  mret (if negb (bool_decide (name = om_domain_name m)) || negb (bool_decide (uuid = om_domain_uuid m))
        then Err (ownership_error "live domain identity disagrees with its manifest")
        else ensure_metadata_matches metadata m).

Definition ensure_absent (name : string) : Fut W (result RuntimeError unit) :=
  found ← call (lh_dom_by_name name);
  match found with
  | Ok domain =>
      _ ←! free_domain domain;
      mret (Err (ownership_error "refusing to replace an existing libvirt domain"))
  | Err error =>
      mret (if bool_decide (ve_code error = NoDomain) then Ok tt
            else Err (libvirt_error "domain collision check" (ve_message error)))
  end.

Definition ensure_artifacts (pool_name : string) (m : OwnershipManifest) : Fut W (result RuntimeError unit) :=
  overlay ←! mret (ok_or (art_key (om_overlay m)) (ownership_error "overlay key is absent"));
  _ ←! ensure_pool_volume pool_name overlay (art_name (om_overlay m));
  seed ←! mret (ok_or (art_key (om_seed m)) (ownership_error "seed key is absent"));
  ensure_pool_volume pool_name seed (art_name (om_seed m)).

Definition define (config : HelperConfig) (request : DefineRequest) : Fut W (result RuntimeError unit) :=
  let m := dr_manifest request in
  _ ←! mret (as_manifest (ensure_ownership_valid m));
  _ ←! ensure_absent (om_domain_name m);
  _ ←! ensure_artifacts (hcf_pool config) m;
  xml ←! mret (domain_xml {| ds_manifest := m; ds_pool := hcf_pool config;
                             ds_network := hcf_network config;
                             ds_cpu_count := dr_cpu_count request;
                             ds_memory_mb := dr_memory_mb request |});
  domain ←! virt "domain definition" (lh_dom_define xml);
  matched ← ensure_domain domain m;
  _ ← (if is_ok matched then mret (Ok tt) else call (lh_dom_undefine domain));
  _ ←! free_domain domain;
  mret matched.

Definition exact_domain (m : OwnershipManifest) : Fut W (result RuntimeError Dom) :=
  domain ←! virt "domain lookup" (lh_dom_by_uuid (om_domain_uuid m));
  _ ←! ensure_domain domain m;
  mret (Ok domain).

Definition start (m : OwnershipManifest) : Fut W (result RuntimeError unit) :=
  domain ←! exact_domain m;
  _ ←! virt "domain start" (lh_dom_create domain);
  free_domain domain.

(** Whether the domain stopped before the deadline. *)
Fixpoint await_stopped (fuel : nat) (d : Dom) (deadline : Z) : Fut W (result RuntimeError bool) :=
  match fuel with
  | O => fun w => (Dropped false, w)
  | S fuel =>
      now ← on hw_host (fun h w => w <| hw_host := h |>) (answer lh_now);
      if deadline <=? now then mret (Ok false)
      else
        is_active ←! virt "domain state" (lh_dom_is_active d);
        if negb is_active then mret (Ok true)
        else
          _ ← on hw_host (fun h w => w <| hw_host := h |>)
                (answer (fun h => (tt, lh_sleep STOP_POLL_NANOS h)));
          await_stopped fuel d deadline
  end.

Definition stop (fuel : nat) (d : Dom) (deadline : Z) : Fut W (result RuntimeError unit) :=
  is_active ←! virt "domain state" (lh_dom_is_active d);
  if negb is_active then mret (Ok tt)
  else
    _ ← call (lh_dom_shutdown d);
    stopped ←! await_stopped fuel d deadline;
    if stopped : bool then mret (Ok tt)
    else
      destroyed ← call (lh_dom_destroy d);
      match destroyed with
      | Ok _ => mret (Ok tt)
      | Err error =>
          state ← call (lh_dom_is_active d);
          mret (match state with
                | Ok false => Ok tt
                | Ok true => Err (libvirt_error "domain forced stop" (ve_message error))
                | Err state =>
                    if bool_decide (ve_code state = NoDomain) then Ok tt
                    else Err (libvirt_error "domain forced stop" (ve_message error))
                end)
      end.
Definition cleanup_artifacts (m : OwnershipManifest) (remove : Artifact -> Fut W (result RuntimeError unit)) :
    Fut W (result RuntimeError unit) :=
  seed ← remove (om_seed m);
  overlay ← remove (om_overlay m);
  mret (match seed, overlay with
        | Ok _, Ok _ => Ok tt
        | Err error, Ok _ | Ok _, Err error => Err error
        | Err seed, Err overlay =>
            Err (libvirt_error "allocation volume cleanup"
                   ("seed: " +:+ runtime_text seed +:+ "; overlay: " +:+ runtime_text overlay))
        end).

(** The domain's part of [cleanup]. *)
Definition remove_domain (fuel : nat) (m : OwnershipManifest) (deadline : Z) :
    Fut W (result RuntimeError unit) :=
  found ← call (lh_dom_by_uuid (om_domain_uuid m));
  match found with
  | Ok domain =>
      _ ←! ensure_domain domain m;
      _ ←! stop fuel domain deadline;
      _ ←! virt "domain undefine" (lh_dom_undefine domain);
      free_domain domain
  | Err error =>
      mret (if bool_decide (ve_code error = NoDomain) then Ok tt
            else Err (libvirt_error "domain lookup" (ve_message error)))
  end.

Definition cleanup (fuel : nat) (config : HelperConfig) (m : OwnershipManifest) (deadline : Z) :
    Fut W (result RuntimeError unit) :=
  _ ←! mret (as_manifest (ensure_ownership_valid m));
  _ ←! mret (ensure_recovery_artifacts m);
  _ ←! remove_domain fuel m deadline;
  cleanup_artifacts m (delete_artifact (hcf_pool config)).

(** The sleeps a wait of so many seconds has room for, and two readings of
    the clock more. *)
Definition stop_fuel (timeout_seconds : Z) : nat :=
  Z.to_nat (timeout_seconds * 1000000000 / STOP_POLL_NANOS) + 2.

(** [HelperRequest::Cleanup], from [actor/host/allocation.rs]. *)
Definition cleanup_request (config : HelperConfig) (m : OwnershipManifest) (timeout_seconds : Z) :
    Fut W (result RuntimeError unit) :=
  now ← on hw_host (fun h w => w <| hw_host := h |>) (answer lh_now);
  cleanup (stop_fuel timeout_seconds) config m (now + timeout_seconds * 1000000000).
End guest.

(** ** What libvirt documents

    The volumes by pool and name, and the persistent domain definitions by
    UUID.  A call that fails or is cut off has its whole effect or none. *)

Record Volume := { v_key : string; v_path : string; v_capacity : Z }.
Record DomainDef := { dd_name : string; dd_metadata : string }.

(** Calls that change neither. *)
Inductive reading {H : Type} {LH : LibvirtHost H} : forall {A}, (H -> Call A * H) -> Prop :=
| reads_connect uri : reading (lh_connect uri)
| reads_close : reading lh_close
| reads_pool_lookup name : reading (lh_pool_lookup name)
| reads_pool_available pool : reading (lh_pool_available pool)
| reads_pool_is_active pool : reading (lh_pool_is_active pool)
| reads_pool_free pool : reading (lh_pool_free pool)
| reads_vol_lookup pool name : reading (lh_vol_lookup pool name)
| reads_vol_name v : reading (lh_vol_name v)
| reads_vol_key v : reading (lh_vol_key v)
| reads_vol_path v : reading (lh_vol_path v)
| reads_vol_info v : reading (lh_vol_info v)
| reads_vol_free v : reading (lh_vol_free v)
| reads_stream : reading lh_stream
| reads_upload v stream length : reading (lh_upload v stream length)
| reads_send stream chunk : reading (lh_send stream chunk)
| reads_finish stream : reading (lh_finish stream)
| reads_abort stream : reading (lh_abort stream)
| reads_dom_by_uuid uuid : reading (lh_dom_by_uuid uuid)
| reads_dom_by_name name : reading (lh_dom_by_name name)
| reads_dom_create d : reading (lh_dom_create d)
| reads_dom_is_active d : reading (lh_dom_is_active d)
| reads_dom_shutdown d : reading (lh_dom_shutdown d)
| reads_dom_destroy d : reading (lh_dom_destroy d)
| reads_dom_name d : reading (lh_dom_name d)
| reads_dom_uuid d : reading (lh_dom_uuid d)
| reads_dom_metadata d : reading (lh_dom_metadata d)
| reads_dom_free d : reading (lh_dom_free d).

Create HintDb reading.
#[export] Hint Constructors reading : reading.

(** What a call may answer where it answers. *)
Definition answers {H A} (c : H -> Call A * H) (h : H) (P : A -> H -> Prop) : Prop :=
  match c h with (Answered a, h) => P a h | _ => True end.

Definition refuses {H A} (c : H -> Call A * H) (h : H) (P : ErrorNumber -> Prop) : Prop :=
  match c h with (Refused e, _) => P (ve_code e) | _ => True end.

Class LawfulLibvirt (H : Type) {LH : LibvirtHost H} := {
  volumes : H -> gmap (string * string) Volume;
  domains : H -> gmap Uuid DomainDef;
  clock : H -> Z;
  (** The name libvirt reads in a volume's document, the name and UUID it
      reads in a domain's. *)
  read_volume : string -> option string;
  read_domain : string -> option (string * Uuid);
  lw_read_volume name rest :
    is_safe_name name MAX_SAFE_NAME_BYTES = true ->
    read_volume ("<volume><name>" +:+ name +:+ "</name>" +:+ rest) = Some name;
  lw_read_domain name uuid rest :
    is_safe_name name MAX_SAFE_NAME_BYTES = true -> is_safe_name uuid MAX_SAFE_NAME_BYTES = true ->
    read_domain ("<domain " +:+ attr "type" "kvm" +:+ "><name>" +:+ name +:+ "</name><uuid>"
                 +:+ uuid +:+ "</uuid>" +:+ rest) = Some (name, uuid);
  lw_reading A (c : H -> Call A * H) h :
    reading c ->
    volumes (c h).2 = volumes h /\ domains (c h).2 = domains h /\ clock h <= clock (c h).2;
  lw_turn h : volumes (lh_turn h).2 = volumes h /\ domains (lh_turn h).2 = domains h;
  lw_now h : volumes (lh_now h).2 = volumes h /\ domains (lh_now h).2 = domains h /\
    clock h <= (lh_now h).1 <= clock (lh_now h).2;
  lw_sleep d h : volumes (lh_sleep d h) = volumes h /\ domains (lh_sleep d h) = domains h /\
    clock h + d <= clock (lh_sleep d h);
  lw_unix_time h : volumes (lh_unix_time h).2 = volumes h /\ domains (lh_unix_time h).2 = domains h;
  lw_uuid h : volumes (lh_uuid h).2 = volumes h /\ domains (lh_uuid h).2 = domains h;
  lw_pool_lookup name h : answers (lh_pool_lookup name) h (fun pool _ => pool = name);
  lw_vol_lookup pool name h : answers (lh_vol_lookup pool name) h (fun v _ =>
    exists vol, volumes h !! (pool, name) = Some vol /\
      v = {| vol_pool := pool; vol_name := name; vol_key := v_key vol |});
  lw_no_volume pool name h : refuses (lh_vol_lookup pool name) h (fun code =>
    code = NoStorageVolume -> volumes h !! (pool, name) = None);
  lw_vol_name v h : answers (lh_vol_name v) h (fun name _ => name = vol_name v);
  lw_vol_key v h : answers (lh_vol_key v) h (fun key _ => key = vol_key v);
  lw_vol_create pool xml h :
    domains (lh_vol_create_xml pool xml h).2 = domains h /\
    (volumes (lh_vol_create_xml pool xml h).2 = volumes h \/
     exists name vol, read_volume xml = Some name /\ volumes h !! (pool, name) = None /\
       volumes (lh_vol_create_xml pool xml h).2 = <[(pool, name) := vol]> (volumes h));
  lw_vol_created pool xml h : answers (lh_vol_create_xml pool xml) h (fun v h' =>
    exists name vol, read_volume xml = Some name /\ volumes h !! (pool, name) = None /\
      volumes h' = <[(pool, name) := vol]> (volumes h) /\
      v = {| vol_pool := pool; vol_name := name; vol_key := v_key vol |});
  lw_vol_delete v h :
    domains (lh_vol_delete v h).2 = domains h /\
    (volumes (lh_vol_delete v h).2 = volumes h \/
     volumes (lh_vol_delete v h).2 = delete (vol_pool v, vol_name v) (volumes h));
  lw_vol_deleted v h : answers (lh_vol_delete v) h (fun _ h' =>
    volumes h' = delete (vol_pool v, vol_name v) (volumes h));
  lw_dom_by_uuid uuid h : answers (lh_dom_by_uuid uuid) h (fun d _ =>
    exists def, domains h !! uuid = Some def /\ d = {| dom_uuid := uuid; dom_name := dd_name def |});
  lw_no_domain uuid h : refuses (lh_dom_by_uuid uuid) h (fun code =>
    code = NoDomain -> domains h !! uuid = None);
  lw_no_domain_name name h : refuses (lh_dom_by_name name) h (fun code =>
    code = NoDomain -> forall uuid def, domains h !! uuid = Some def -> dd_name def <> name);
  lw_dom_name d h : answers (lh_dom_name d) h (fun name _ => name = dom_name d);
  lw_dom_uuid d h : answers (lh_dom_uuid d) h (fun uuid _ => uuid = dom_uuid d);
  lw_dom_metadata d h : answers (lh_dom_metadata d) h (fun metadata _ =>
    exists def, domains h !! dom_uuid d = Some def /\ dd_metadata def = metadata);
  (** A definition with a known UUID is replaced only under its own name. *)
  lw_dom_define xml h :
    volumes (lh_dom_define xml h).2 = volumes h /\
    (domains (lh_dom_define xml h).2 = domains h \/
     exists name uuid def, read_domain xml = Some (name, uuid) /\ dd_name def = name /\
       (forall old, domains h !! uuid = Some old -> dd_name old = name) /\
       domains (lh_dom_define xml h).2 = <[uuid := def]> (domains h));
  lw_dom_defined xml h : answers (lh_dom_define xml) h (fun d h' =>
    exists name uuid def, read_domain xml = Some (name, uuid) /\ dd_name def = name /\
      domains h' = <[uuid := def]> (domains h) /\ d = {| dom_uuid := uuid; dom_name := name |});
  lw_dom_undefine d h :
    volumes (lh_dom_undefine d h).2 = volumes h /\
    (domains (lh_dom_undefine d h).2 = domains h \/
     domains (lh_dom_undefine d h).2 = delete (dom_uuid d) (domains h));
  lw_dom_undefined d h : answers (lh_dom_undefine d) h (fun _ h' =>
    domains h' = delete (dom_uuid d) (domains h));
  lw_send stream chunk h : answers (lh_send stream chunk) h (fun written _ =>
    0 <= written <= len chunk);
}.

