(* ===== verification/VirtSpec.v ===== *)
(** * What the libvirt helper guarantees ([crates/flanforge-runtime-libvirt/src/actor])

    The theorems about [Virt], for every host that keeps [LawfulLibvirt]: a
    creation adds the manifest's volumes and nothing else, a cleanup removes
    what the manifest names and nothing else, wherever either is cut off, and
    one undoes the other.  [SimVirt] is an executable host that keeps the laws,
    on which the witnesses run. *)

From S2P Require Import Prelude Rust Text Identifiers Guest Config Convert Admission Futures Wire Virt.

Open Scope Z_scope.
Open Scope stdpp_scope.

(** ** Invariants

    What the theorems are about: the volumes, the domains and the state
    directory.  [yields I c R]: [I] holds however [c] ends, and [R] of what it
    answers. *)

Record View := mkView {
  vw_volumes : gmap (string * string) Volume;
  vw_domains : gmap Uuid DomainDef;
  vw_files : gmap string string;
  vw_dirs : gset string;
}.

Definition view {H} {LH : LibvirtHost H} {LL : LawfulLibvirt H} (w : HostWorld H) : View :=
  mkView (volumes (hw_host w)) (domains (hw_host w)) (hw_files w) (hw_dirs w).

Arguments view : simpl never.

Definition on_ok {E A} (R : A -> Prop) (r : result E A) : Prop :=
  match r with Ok a => R a | Err _ => True end.

Section yields.
Context {H : Type} {LH : LibvirtHost H} {LL : LawfulLibvirt H}.
Local Abbreviation W := (HostWorld H).
Implicit Types I : View -> Prop.

Definition yields {A} I (c : Fut W A) (R : A -> Prop) : Prop := forall w,
  I (view w) -> wp c (fun a w => I (view w) /\ R a) (fun w => I (view w)) (fun w => I (view w)) w.

Lemma yields_pure {A} I (a : A) (R : A -> Prop) : R a -> yields I (mret a) R.
Proof. by intros Ha w HI. Qed.

Lemma yields_seq {A B} I (c : Fut W A) (k : A -> Fut W B) R Q :
  yields I c R -> (forall a, R a -> yields I (k a) Q) -> yields I (x ← c; k x) Q.
Proof.
  intros Hc Hk w HI. apply wp_bind. eapply wp_mono; [by apply Hc| |done|done].
  intros a w' [HI' Ha]. by apply Hk.
Qed.

(** A step whose answer is not looked at. *)
Lemma yields_then {A B} I (c : Fut W A) (k : A -> Fut W B) R Q :
  yields I c R -> (forall a, yields I (k a) Q) -> yields I (x ← c; k x) Q.
Proof. intros Hc Hk. eapply yields_seq; eauto. Qed.

Lemma yields_try {E A B} I (c : Fut W (result E A)) (k : A -> Fut W (result E B)) R Q :
  yields I c (on_ok R) -> (forall a, R a -> yields I (k a) (on_ok Q)) ->
  yields I (fut_try c k) (on_ok Q).
Proof.
  intros Hc Hk. eapply yields_seq; [exact Hc|]. intros [a|e] Hr; [by apply Hk|]. by apply yields_pure.
Qed.

Lemma yields_mono {A} I (c : Fut W A) R Q : yields I c R -> (forall a, R a -> Q a) -> yields I c Q.
Proof.
  intros Hc HQ w HI. eapply wp_mono; [by apply Hc| |done|done]. intros a w' []. auto.
Qed.

Lemma yields_map_err {E F A} I (f : E -> F) (c : Fut W (result E A)) R :
  yields I c (on_ok R) -> yields I (fut_map_err f c) (on_ok R).
Proof. intros Hc. eapply yields_seq; [exact Hc|]. intros [] ?; by apply yields_pure. Qed.

Lemma yields_if {A} I (b : bool) (c d : Fut W A) R :
  yields I c R -> yields I d R -> yields I (if b then c else d) R.
Proof. by destruct b. Qed.

(** A call of libvirt, by what it does to the host. *)
Lemma yields_call {A} I (c : H -> Call A * H) (R : A -> Prop) :
  (forall w, I (view w) -> I (view (w <| hw_host := (c (hw_host w)).2 |>)) /\
             answers c (hw_host w) (fun a _ => R a)) ->
  yields I (call c) (on_ok R).
Proof.
  intros Hc w HI. destruct (Hc w HI) as [HI' HR]. unfold wp, call, answers in *.
  by destruct (c (hw_host w)) as [[a|e|] h].
Qed.

Lemma view_reading {A} (c : H -> Call A * H) w :
  reading c -> view (w <| hw_host := (c (hw_host w)).2 |>) = view w.
Proof.
  intros Hc. destruct (lw_reading A c (hw_host w) Hc) as (Hv & Hd & _).
  unfold view. simpl. by rewrite Hv, Hd.
Qed.

Lemma yields_reads {A} I (c : H -> Call A * H) (R : A -> Prop) :
  reading c -> (forall h, answers c h (fun a _ => R a)) -> yields I (call c) (on_ok R).
Proof. intros Hc HR. apply yields_call. intros w HI. by rewrite view_reading. Qed.

Lemma answers_any {A} (c : H -> Call A * H) h : answers c h (fun _ _ => True).
Proof. unfold answers. by destruct (c h) as [[] ?]. Qed.

Lemma answers_mono {A} (c : H -> Call A * H) h (P Q : A -> H -> Prop) :
  answers c h P -> (forall a h, P a h -> Q a h) -> answers c h Q.
Proof. unfold answers. destruct (c h) as [[] ?]; auto. Qed.

Lemma yields_read {A} I (c : H -> Call A * H) : reading c -> yields I (call c) (on_ok (fun _ => True)).
Proof. intros Hc. apply yields_reads; [done|]. intros h. apply answers_any. Qed.

Lemma yields_virt {A} I operation (c : H -> Call A * H) R :
  yields I (call c) (on_ok R) -> yields I (virt operation c) (on_ok R).
Proof. apply yields_map_err. Qed.

(** The state directory. *)
Lemma view_turn w : view (w <| hw_host := (lh_turn (hw_host w)).2 |>) = view w.
Proof. unfold view. simpl. by destruct (lw_turn (hw_host w)) as [-> ->]. Qed.

Lemma yields_look {A} I (f : gmap string string -> gset string -> A) (R : A -> Prop) :
  (forall v, I v -> R (f (vw_files v) (vw_dirs v))) -> yields I (look f) (on_ok R).
Proof.
  intros HR w HI. pose proof (view_turn w) as Hv. pose proof HI as HI'. rewrite <-Hv in HI'.
  unfold wp, look. destruct (lh_turn (hw_host w)) as [[|applied m|applied] h]; simpl in *; try done.
  split; [done|]. by apply (HR (view w)).
Qed.

Lemma yields_change I f :
  (forall v, I v -> I (mkView (vw_volumes v) (vw_domains v) (f (vw_files v)) (vw_dirs v))) ->
  yields I (change f) (on_ok (fun _ => True)).
Proof.
  intros Hf w HI. pose proof (view_turn w) as Hv. pose proof HI as HI'. rewrite <-Hv in HI'.
  pose proof (Hf _ HI') as HI''. unfold wp, change.
  destruct (lh_turn (hw_host w)) as [[|[] m|[]] h]; simpl in *; by split || done.
Qed.

(** The clock. *)
Lemma yields_now I : yields I (on hw_host (fun h w => w <| hw_host := h |>) (answer lh_now)) (fun _ => True).
Proof.
  intros w HI. apply wp_on, wp_answer. unfold view. simpl.
  destruct (lw_now (hw_host w)) as (Hv & Hd & _). rewrite Hv, Hd. done.
Qed.

Lemma yields_sleep I d :
  yields I (on hw_host (fun h w => w <| hw_host := h |>) (answer (fun h => (tt, lh_sleep d h)))) (fun _ => True).
Proof.
  intros w HI. apply wp_on, wp_answer. unfold view. simpl.
  destruct (lw_sleep d (hw_host w)) as (Hv & Hd & _). rewrite Hv, Hd. done.
Qed.
End yields.

(** [keeps I c]: the same of any answer. *)
Abbreviation keeps I c := (maintains (fun w => I (view w)) c).

Section keeps.
Context {H : Type} {LH : LibvirtHost H} {LL : LawfulLibvirt H}.
Local Abbreviation W := (HostWorld H).
Implicit Types I : View -> Prop.

Lemma yields_keeps {A} I (c : Fut W A) R : yields I c R -> keeps I c.
Proof. intros Hc w HI. eapply wp_mono; [by apply Hc| |done|done]. by intros a w' []. Qed.

Lemma keeps_yields {A} I (c : Fut W A) : keeps I c -> yields I c (fun _ => True).
Proof. intros Hc w HI. eapply wp_mono; [by apply Hc|done..]. Qed.

Lemma yields_after {A B} I (c : Fut W A) (k : A -> Fut W B) Q :
  keeps I c -> (forall a, yields I (k a) Q) -> yields I (x ← c; k x) Q.
Proof. intros Hc Hk. eapply yields_then; [by apply keeps_yields|done]. Qed.

Lemma yields_try_after {E A B} I (c : Fut W (result E A)) (k : A -> Fut W (result E B)) Q :
  keeps I c -> (forall a, yields I (k a) (on_ok Q)) -> yields I (fut_try c k) (on_ok Q).
Proof.
  intros Hc Hk. apply (yields_try _ _ _ (fun _ => True)); [|done].
  eapply yields_mono; [by apply keeps_yields|]. by intros [].
Qed.

(** An answer already there. *)
Lemma yields_try_ret {E A B} I (r : result E A) (k : A -> Fut W (result E B)) Q :
  (forall a, r = Ok a -> yields I (k a) (on_ok Q)) -> yields I (fut_try (mret r) k) (on_ok Q).
Proof.
  intros Hk. apply (yields_try _ _ _ (fun a => r = Ok a)); [|done]. apply yields_pure. by destruct r.
Qed.

Lemma keeps_read {A} I (c : H -> Call A * H) : reading c -> keeps I (call c).
Proof. intros Hc. eapply yields_keeps, yields_read, Hc. Qed.

Lemma keeps_look {A} I (f : gmap string string -> gset string -> A) : keeps I (look f).
Proof. eapply yields_keeps. by apply (yields_look _ _ (fun _ => True)). Qed.

Lemma keeps_virt {A} I operation (c : H -> Call A * H) : keeps I (call c) -> keeps I (virt operation c).
Proof. apply maintains_map_err. Qed.

Lemma keeps_now I : keeps I (on hw_host (fun h (w : W) => w <| hw_host := h |>) (answer lh_now)).
Proof. eapply yields_keeps, yields_now. Qed.

Lemma keeps_sleep I d :
  keeps I (on hw_host (fun h (w : W) => w <| hw_host := h |>) (answer (fun h => (tt, lh_sleep d h)))).
Proof. eapply yields_keeps, yields_sleep. Qed.

(** Running out of fuel changes nothing. *)
Lemma keeps_dropped {A} I cancelled : keeps I (fun w : W => (Dropped cancelled, w) : outcome A * W).
Proof. by intros w HI. Qed.
End keeps.

(** [spec P c Q I]: from [P], [Q] of what [c] answers and [I] where it does
    not answer. *)
Section spec.
Context {H : Type} {LH : LibvirtHost H} {LL : LawfulLibvirt H}.
Local Abbreviation W := (HostWorld H).
Implicit Types P I : View -> Prop.

Definition spec {A} P (c : Fut W A) (Q : A -> View -> Prop) I : Prop := forall w,
  P (view w) -> wp c (fun a w => Q a (view w)) (fun w => I (view w)) (fun w => I (view w)) w.

Lemma spec_bind {A B} P (c : Fut W A) (k : A -> Fut W B) R Q I :
  spec P c R I -> (forall a, spec (R a) (k a) Q I) -> spec P (x ← c; k x) Q I.
Proof.
  intros Hc Hk w HP. apply wp_bind. eapply wp_mono; [by apply Hc| |done|done]. intros a w' HR. by apply Hk.
Qed.

Lemma spec_mono {A} P P' (c : Fut W A) (Q Q' : A -> View -> Prop) I I' :
  spec P c Q I -> (forall v, P' v -> P v) -> (forall a v, Q a v -> Q' a v) -> (forall v, I v -> I' v) ->
  spec P' c Q' I'.
Proof. intros Hc HP HQ HI w HP'. eapply wp_mono; [by apply Hc, HP|auto..]. Qed.

Lemma spec_keeps {A} I (c : Fut W A) : spec I c (fun _ => I) I -> keeps I c.
Proof. done. Qed.

Lemma keeps_spec {A} I (c : Fut W A) : keeps I c -> spec I c (fun _ => I) I.
Proof. done. Qed.

(** From a precondition that gives [I]. *)
Lemma spec_quiet {A} P (c : Fut W A) I : keeps P c -> (forall v, P v -> I v) -> spec P c (fun _ => P) I.
Proof. intros Hc HP. by eapply spec_mono; [apply keeps_spec, Hc| | |]. Qed.

Lemma spec_call {A} P (c : H -> Call A * H) (Q : result VirtError A -> View -> Prop) I :
  (forall w, P (view w) ->
     match c (hw_host w) with
     | (Answered a, h) => Q (Ok a) (view (w <| hw_host := h |>))
     | (Refused e, h) => Q (Err e) (view (w <| hw_host := h |>))
     | (Killed, h) => I (view (w <| hw_host := h |>))
     end) ->
  spec P (call c) Q I.
Proof.
  intros Hc w HP. specialize (Hc w HP). unfold wp, call. by destruct (c (hw_host w)) as [[] ?].
Qed.

(** A reading call, with what its answer or its refuses says of the host. *)
Lemma spec_read {A} P (c : H -> Call A * H) (R : A -> View -> Prop) (N : ErrorNumber -> View -> Prop) I :
  reading c -> (forall v, P v -> I v) ->
  (forall w, P (view w) -> answers c (hw_host w) (fun a _ => R a (view w))) ->
  (forall w, P (view w) -> refuses c (hw_host w) (fun code => N code (view w))) ->
  spec P (call c)
    (fun r v => P v /\ match r with Ok a => R a v | Err e => N (ve_code e) v end) I.
Proof.
  intros Hc HI HR HN. apply spec_call. intros w HP. pose proof (view_reading c w Hc) as Hv.
  specialize (HR w HP). specialize (HN w HP). unfold answers, refuses in *.
  destruct (c (hw_host w)) as [[a|e|] h]; simpl in *; rewrite Hv; auto.
Qed.

Lemma spec_try {E A B} P (c : Fut W (result E A)) (k : A -> Fut W (result E B)) R Q I :
  spec P c (fun r v => match r with Ok a => R a v | Err e => Q (Err e) v end) I ->
  (forall a, spec (R a) (k a) Q I) -> spec P (fut_try c k) Q I.
Proof.
  intros Hc Hk w HP. apply wp_try. eapply wp_mono; [by apply Hc| |done|done].
  intros [a|e] w' HR; [|done]. by apply Hk.
Qed.

Lemma spec_fact {A} P (phi : Prop) (c : Fut W A) Q I : (phi -> spec P c Q I) -> spec (fun v => P v /\ phi) c Q I.
Proof. intros Hc w [HP Hphi]. by apply Hc. Qed.

Lemma spec_virt {A} P operation (c : H -> Call A * H) (Q : result RuntimeError A -> View -> Prop) I :
  spec P (call c) (fun r => Q (map_err (fun e => libvirt_error operation (ve_message e)) r)) I ->
  spec P (virt operation c) Q I.
Proof. intros Hc w HP. apply wp_map_err. eapply wp_mono; [by apply Hc|done..]. Qed.

(** A reading call under [?]. *)
Lemma spec_try_read {A B} P operation (c : H -> Call A * H) (k : A -> Fut W (result RuntimeError B)) (R : A -> View -> Prop) Q I :
  reading c -> (forall v, P v -> I v) -> (forall e v, P v -> Q (Err e) v) ->
  (forall w, P (view w) -> answers c (hw_host w) (fun a _ => R a (view w))) ->
  (forall a, spec (fun v => P v /\ R a v) (k a) Q I) -> spec P (fut_try (virt operation c) k) Q I.
Proof.
  intros Hc HI HQ HR Hk. apply (spec_try _ _ _ (fun a v => P v /\ R a v)); [|done].
  intros w HP. apply wp_map_err. eapply wp_mono.
  - apply (spec_read P c R (fun _ _ => True) I); try done. intros w' _. unfold refuses.
    by destruct (c (hw_host w')) as [[] ?].
  - intros [a|e] w' [HP' HR']; simpl; auto.
  - done.
  - done.
Qed.
End spec.

(** [achieves P c Q]: from [P], [Q] of what [c] answers when it succeeds. *)
Section achieves.
Context {H : Type} {LH : LibvirtHost H} {LL : LawfulLibvirt H}.
Local Abbreviation W := (HostWorld H).
Implicit Types P : View -> Prop.

Definition achieves {E A} P (c : Fut W (result E A)) (Q : A -> View -> Prop) : Prop := forall w,
  P (view w) ->
  wp c (fun r w => match r with Ok a => Q a (view w) | Err _ => True end) (fun _ => True) (fun _ => True) w.

Lemma achieves_ok {E A} P (c : Fut W (result E A)) Q w a w' :
  achieves P c Q -> P (view w) -> c w = (Done (Ok a), w') -> Q a (view w').
Proof. intros Hc HP Hrun. specialize (Hc w HP). unfold wp in Hc. by rewrite Hrun in Hc. Qed.

Lemma achieves_ret {E A} P (r : result E A) (Q : A -> View -> Prop) :
  (forall a v, r = Ok a -> P v -> Q a v) -> achieves P (mret r) Q.
Proof. intros Hr w HP. apply wp_ret. destruct r; [|done]. by eapply Hr. Qed.

Lemma achieves_try {E A B} P (c : Fut W (result E A)) (k : A -> Fut W (result E B)) R Q :
  achieves P c R -> (forall a, achieves (R a) (k a) Q) -> achieves P (fut_try c k) Q.
Proof.
  intros Hc Hk w HP. apply wp_try. eapply wp_mono; [by apply Hc| |done|done].
  intros [a|e] w' HR; [|done]. by apply Hk.
Qed.

Lemma achieves_bind {E A B} P (c : Fut W A) (k : A -> Fut W (result E B)) Q :
  keeps P c -> (forall a, achieves P (k a) Q) -> achieves P (x ← c; k x) Q.
Proof.
  intros Hc Hk w HP. apply wp_bind.
  eapply wp_mono; [by apply Hc| |done|done]. intros a w' HP'. by apply Hk.
Qed.

(** A fact of the answer alone. *)
Lemma achieves_fact {E A} P (phi : Prop) (c : Fut W (result E A)) Q :
  (phi -> achieves P c Q) -> achieves (fun v => P v /\ phi) c Q.
Proof. intros Hc w [HP Hphi]. by apply Hc. Qed.

Lemma achieves_answer {E A} P (r : result E A) (phi : A -> Prop) :
  (forall a, r = Ok a -> phi a) -> achieves P (mret r) (fun a v => P v /\ phi a).
Proof. intros Hr. apply achieves_ret. auto. Qed.

Lemma achieves_exists {E A X} (P : X -> View -> Prop) (c : Fut W (result E A)) Q :
  (forall x, achieves (P x) c Q) -> achieves (fun v => exists x, P x v) c Q.
Proof. intros Hc w [x HP]. by apply (Hc x). Qed.

Lemma achieves_pure {E A} P (phi : Prop) (c : Fut W (result E A)) Q :
  (phi -> achieves P c Q) -> achieves (fun v => phi /\ P v) c Q.
Proof. intros Hc w [Hphi HP]. by apply Hc. Qed.

(** A step that leaves [P] alone, and one whose answer is of no use. *)
Lemma achieves_keeps {E A} P (c : Fut W (result E A)) : keeps P c -> achieves P c (fun _ => P).
Proof. intros Hc w HP. eapply wp_mono; [by apply Hc| |done|done]. by intros []. Qed.

Lemma achieves_yields {E A} P (c : Fut W (result E A)) R :
  yields P c (on_ok R) -> achieves P c (fun a v => P v /\ R a).
Proof. intros Hc w HP. eapply wp_mono; [by apply Hc| |done|done]. by intros [] w' []. Qed.

Lemma achieves_mono {E A} P P' (c : Fut W (result E A)) (Q Q' : A -> View -> Prop) :
  achieves P c Q -> (forall v, P' v -> P v) -> (forall a v, Q a v -> Q' a v) -> achieves P' c Q'.
Proof.
  intros Hc HP HQ w HP'. eapply wp_mono; [by apply Hc, HP| |done|done]. intros [] w'; auto.
Qed.

Lemma achieves_map_err {E F A} P (f : E -> F) (c : Fut W (result E A)) Q :
  achieves P c Q -> achieves P (fut_map_err f c) Q.
Proof.
  intros Hc w HP. apply wp_map_err. eapply wp_mono; [by apply Hc| |done|done]. by intros [].
Qed.

Lemma achieves_call {A} P (c : H -> Call A * H) (Q : A -> View -> Prop) :
  (forall w, P (view w) -> answers c (hw_host w) (fun a h => Q a (view (w <| hw_host := h |>)))) ->
  achieves P (call c) Q.
Proof.
  intros Hc w HP. specialize (Hc w HP). unfold wp, call, answers in *.
  by destruct (c (hw_host w)) as [[] ?].
Qed.

(** Nothing is asked of any step. *)
Lemma keeps_true {A} (c : Fut W A) : keeps (fun _ => True) c.
Proof. intros w _. unfold wp. by destruct (c w) as [[] ?]. Qed.

(** [match c { Ok(a) => k, Err(error) => .. }], where the second fails. *)
Lemma achieves_match {E A B F} P (c : Fut W (result E A)) (k : A -> Fut W (result F B))
    (f : E -> Fut W (result F B)) R Q :
  achieves P c R -> (forall a, achieves (R a) (k a) Q) ->
  (forall e, achieves (fun _ => True) (f e) (fun _ _ => False)) ->
  achieves P (r ← c; match r with Ok a => k a | Err e => f e end) Q.
Proof.
  intros Hc Hk Hf w HP. apply wp_bind. eapply wp_mono; [by apply Hc| |done|done].
  intros [a|e] w' HR; [by apply Hk|].
  by apply (achieves_mono (fun _ => True) (fun _ => True) _ _ Q (Hf e)).
Qed.

Lemma achieves_fails {E A B} P (c : Fut W A) (k : A -> Fut W (result E B)) (Q : B -> View -> Prop) :
  (forall a, achieves (fun _ => True) (k a) Q) -> achieves P (x ← c; k x) Q.
Proof.
  intros Hk. apply (achieves_mono (fun _ => True) P _ Q Q); [|done|done].
  apply (achieves_bind (fun _ => True)); [apply keeps_true|exact Hk].
Qed.

(** [let result = ..; if result.is_err() { let _ = undo; } free?; result]. *)
Lemma achieves_guarded {E F A B} P (c : Fut W (result E A)) (undo : Fut W (result F B)) free Q
    (none : result F B) :
  achieves P c Q -> (forall a, keeps (Q a) free) ->
  achieves P (made ← c; _ ← (if is_ok made then mret none else undo); _ ←! free : Fut W (result E unit); mret made) Q.
Proof.
  intros Hc Hfree w HP. apply wp_bind. eapply wp_mono; [by apply Hc| |done|done].
  intros [a|e] w' HQ; simpl; apply wp_bind.
  - apply wp_ret, wp_try. eapply wp_mono; [by apply (Hfree a)| |done|done].
    by intros [|] w'' HQ'.
  - unfold wp at 1. destruct (undo w') as [[b| |] w2]; try done. apply wp_try. unfold wp at 1.
    by destruct (free w2) as [[[]| |] w3].
Qed.
End achieves.

Create HintDb keeps.
#[export] Hint Resolve keeps_look keeps_now keeps_sleep keeps_dropped : keeps.
#[export] Hint Extern 2 (maintains _ (call _)) => (apply keeps_read; solve [auto with reading]) : keeps.

(** Steps through a computation whose answers do not matter. *)
Ltac keeps :=
  repeat first
    [ progress intros
    | solve [eauto with keeps]
    | apply maintains_ret | apply keeps_virt | apply maintains_map_err
    | apply maintains_try | apply maintains_bind
    | match goal with
      | |- maintains _ (if ?b then _ else _) => apply maintains_if
      | |- maintains _ (match ?x with _ => _ end) => destruct x
      end ].

(** ** Names in documents *)

Lemma replace_absent c r s : c ∉ bytes s -> replace c r s = s.
Proof.
  intros Hc. unfold replace. rewrite <-(text_bytes s) at 2. f_equal.
  induction (bytes s) as [|d l IH]; [done|]. simpl. apply not_elem_of_cons in Hc as [Hd Hl].
  destruct (Ascii.eqb_spec d c); [congruence|]. simpl. f_equal. by apply IH.
Qed.

(** A safe name is written as it is. *)
Lemma escape_safe name maximum : is_safe_name name maximum = true -> escape name = name.
Proof.
  intros Hs. unfold is_safe_name in Hs. apply andb_true_iff in Hs as [_ Hs].
  assert (forall c, c ∈ ["&"; "<"; ">"; quote; "'"]%char -> c ∉ bytes name) as Hfree.
  { intros c Hc Hin. pose proof (all_bytes_elem _ _ _ Hs Hin) as Hp.
    repeat (apply elem_of_cons in Hc as [->|Hc]; [by vm_compute in Hp|]). by apply not_elem_of_nil in Hc. }
  unfold escape.
  rewrite (replace_absent "&" _ name), (replace_absent "<" _ name), (replace_absent ">" _ name),
    (replace_absent quote _ name), (replace_absent "'" _ name) by (apply Hfree; set_solver).
  done.
Qed.

Section documents.
Context {H : Type} {LH : LibvirtHost H} {LL : LawfulLibvirt H}.

Lemma read_overlay name capacity path xml :
  is_safe_name name MAX_SAFE_NAME_BYTES = true -> overlay_xml name capacity path = Ok xml ->
  read_volume xml = Some name.
Proof.
  intros Hn. unfold overlay_xml. destruct (ensure_libvirt_text path) as [[]|]; [|done]. simpl.
  intros [= <-]. rewrite (escape_safe _ _ Hn). by apply lw_read_volume.
Qed.

Lemma read_seed name capacity :
  is_safe_name name MAX_SAFE_NAME_BYTES = true -> read_volume (seed_xml name capacity) = Some name.
Proof. intros Hn. unfold seed_xml. rewrite (escape_safe _ _ Hn). by apply lw_read_volume. Qed.

Lemma read_defined spec xml :
  is_safe_name (om_domain_name (ds_manifest spec)) MAX_SAFE_NAME_BYTES = true ->
  is_safe_name (om_domain_uuid (ds_manifest spec)) MAX_SAFE_NAME_BYTES = true ->
  domain_xml spec = Ok xml ->
  read_domain xml = Some (om_domain_name (ds_manifest spec), om_domain_uuid (ds_manifest spec)).
Proof.
  intros Hn Hu. unfold domain_xml. destruct (allocation_metadata _) as [metadata|]; [|done].
  cbn [mbind result_bind]. intros [= <-]. rewrite (escape_safe _ _ Hn). by apply lw_read_domain.
Qed.
End documents.

(** ** Operations that only look *)

Section quiet.
Context {H : Type} {LH : LibvirtHost H} {LL : LawfulLibvirt H} {PE : ParserErrors}.
Context {JC : JsonCodec VolumeCheckpoint} {UC : UuidCodec}.
Local Abbreviation W := (HostWorld H).
Implicit Types (I : View -> Prop) (config : HelperConfig).

Lemma keeps_free_volume I (v : Vol) : keeps I (free_volume v).
Proof. unfold free_volume. keeps. Qed.

Lemma keeps_free_pool I pool : keeps I (free_pool pool).
Proof. unfold free_pool. keeps. Qed.

Lemma yields_pool_lookup I operation name :
  yields I (virt operation (lh_pool_lookup name)) (on_ok (fun pool => pool = name)).
Proof. apply yields_virt, yields_reads; [constructor | apply lw_pool_lookup]. Qed.

Lemma yields_active_pool I config bytes :
  yields I (active_pool config bytes) (on_ok (fun pool => pool = hcf_pool config)).
Proof.
  unfold active_pool. eapply yields_try.
  { apply yields_pool_lookup. }
  intros pool ->. apply yields_try_after; [by keeps|]. intros available.
  apply yields_try_ret. intros _ _. apply yields_try_after; [by keeps|]. intros active.
  apply yields_if; by apply yields_pure.
Qed.

Lemma keeps_send_chunk I fuel stream chunk : keeps I (send_chunk (LH := LH) fuel stream chunk).
Proof. revert chunk. induction fuel; intros chunk; simpl; keeps. Qed.

Lemma keeps_send_exact I fuel stream rest remaining : keeps I (send_exact (LH := LH) fuel stream rest remaining).
Proof.
  revert rest remaining. induction fuel; intros rest remaining; cbn [send_exact]; keeps.
  apply keeps_send_chunk.
Qed.

Lemma keeps_upload I v content length : keeps I (upload (LH := LH) v content length).
Proof. pose proof keeps_send_exact. unfold upload. keeps. Qed.

Lemma keeps_check_source_pointer I config pointer : keeps I (check_source_pointer config pointer).
Proof. unfold check_source_pointer, free_volume, free_pool. keeps. Qed.

Lemma keeps_load_checkpoint I path : keeps I (load_checkpoint path).
Proof. unfold load_checkpoint, read_private_bounded_regular_optional, on_file. keeps. Qed.

Lemma keeps_ensure_pool_volume I pool key name : keeps I (ensure_pool_volume pool key name).
Proof. unfold ensure_pool_volume, free_volume, free_pool. keeps. Qed.
End quiet.

#[export] Hint Resolve keeps_free_volume keeps_free_pool keeps_send_chunk keeps_send_exact keeps_upload
  keeps_check_source_pointer keeps_load_checkpoint keeps_ensure_pool_volume : keeps.

(** ** Creating an allocation's volumes *)

Lemma ownership_names_safe m :
  ensure_ownership_valid m = Ok tt ->
  is_safe_name (om_domain_name m) MAX_SAFE_NAME_BYTES = true /\
  is_safe_name (art_name (om_overlay m)) MAX_SAFE_NAME_BYTES = true /\
  is_safe_name (art_name (om_seed m)) MAX_SAFE_NAME_BYTES = true.
Proof. unfold ensure_ownership_valid, valid_field. intros Hv. simplify_result. done. Qed.

Section creation.
Context {H : Type} {LH : LibvirtHost H} {LL : LawfulLibvirt H} {PE : ParserErrors}.
Context {JC : JsonCodec VolumeCheckpoint} {UC : UuidCodec}.
(** [K]: what is known of every key libvirt gives out. *)
Context (config : HelperConfig) (K : string -> Prop).
Local Abbreviation W := (HostWorld H).

Definition overlay_at (m : OwnershipManifest) : string * string := (hcf_pool config, art_name (om_overlay m)).
Definition seed_at (m : OwnershipManifest) : string * string := (hcf_pool config, art_name (om_seed m)).

Definition checkpoint_at (m : OwnershipManifest) : PathBuf :=
  allocation_path (hcf_state_dir config) (om_allocation_id m).

(** The checkpoints a creation writes, in their order. *)
Definition overlay_entry (m : OwnershipManifest) (key : string) : CheckpointVolume :=
  {| cv_role := RoleOverlay; cv_name := art_name (om_overlay m); cv_key := key |}.
Definition seed_entry (m : OwnershipManifest) (key : string) : CheckpointVolume :=
  {| cv_role := RoleSeed; cv_name := art_name (om_seed m); cv_key := key |}.

Definition checkpoint_of (m : OwnershipManifest) (volumes : list CheckpointVolume) : VolumeCheckpoint :=
  mkCheckpoint 1 (hcf_service_instance config) (hcf_pool config) (OwnerAllocation (om_allocation_id m)) volumes.

Inductive journalled (m : OwnershipManifest) : list CheckpointVolume -> Prop :=
| journalled_none : journalled m []
| journalled_overlay key : K key -> journalled m [overlay_entry m key]
| journalled_both key key' : K key -> K key' -> journalled m [overlay_entry m key; seed_entry m key'].

Definition journal_of (m : OwnershipManifest) (volumes : list CheckpointVolume) : VolumeJournal :=
  {| vj_checkpoint := checkpoint_of m volumes; vj_path := checkpoint_at m |}.

(** What was there is still there, and nothing is new but the manifest's two
    volumes and its checkpoint. *)
Record adds_only (m : OwnershipManifest) (v0 v : View) : Prop := {
  ao_kept key vol : vw_volumes v0 !! key = Some vol -> vw_volumes v !! key = Some vol;
  ao_new key : key <> overlay_at m -> key <> seed_at m -> vw_volumes v !! key = vw_volumes v0 !! key;
  ao_domains : vw_domains v = vw_domains v0;
  ao_dirs : vw_dirs v = vw_dirs v0;
  ao_files path : path <> checkpoint_at m -> vw_files v !! path = vw_files v0 !! path;
  ao_checkpoint : vw_files v !! checkpoint_at m = vw_files v0 !! checkpoint_at m \/
    exists volumes, journalled m volumes /\ ensure_checkpoint_valid (checkpoint_of m volumes) = Ok tt /\
      vw_files v !! checkpoint_at m = Some (to_json (checkpoint_of m volumes));
}.

Lemma adds_only_refl m v : adds_only m v v.
Proof. split; auto. Qed.

Context (HK : forall (v : Vol) (h : H), answers (lh_vol_key v) h (fun key _ => K key)).
Context (m : OwnershipManifest) (v0 : View).
Local Abbreviation I := (adds_only m v0).

Lemma keys_known v h : answers (lh_vol_key v) h (fun key _ => key = vol_key v /\ K key).
Proof.
  pose proof (lw_vol_key v h) as Hk. specialize (HK v h). unfold answers in *.
  by destruct (lh_vol_key v h) as [[]].
Qed.

Lemma keeps_write_checkpoint volumes replacing :
  journalled m volumes ->
  keeps I (write_checkpoint (checkpoint_of m volumes) (checkpoint_at m) replacing).
Proof.
  intros Hj. unfold write_checkpoint. eapply yields_keeps, (yields_try_ret _ _ _ (fun _ => True)).
  intros bytes Hb. apply map_err_ok, encode_document_ok in Hb as (Hvalid & _ & ->).
  eapply yields_mono; [apply keeps_yields|by intros []].
  assert (keeps I (change (fun files => <[checkpoint_at m := to_json (checkpoint_of m volumes)]> files))).
  { eapply yields_keeps, yields_change. intros v [Hk Hn Hd Hr Hp Hc]. split; try done; simpl.
    - intros path Hne. rewrite lookup_insert_ne by done. by apply Hp.
    - right. exists volumes. by rewrite lookup_insert_eq. }
  unfold ensure_private_directory, on_file. keeps.
Qed.

Lemma yields_journal_record volumes entry :
  find_volume (cv_role entry) (checkpoint_of m volumes) = None -> journalled m (volumes ++ [entry]) ->
  yields I (journal_record (journal_of m volumes) (cv_role entry) (cv_name entry) (cv_key entry))
    (on_ok (fun j => j = journal_of m (volumes ++ [entry]))).
Proof.
  intros Hfind Hj. unfold journal_record, record_volume. cbn [vj_checkpoint journal_of].
  rewrite Hfind. simpl.
  replace {| cv_role := cv_role entry; cv_name := cv_name entry; cv_key := cv_key entry |} with entry
    by by destruct entry.
  change (mkCheckpoint 1 _ _ _ _) with (checkpoint_of m (volumes ++ [entry])).
  destruct (ensure_checkpoint_valid _) as [u|e]; [|by apply yields_try_ret].
  apply yields_try_ret. intros _ _. apply yields_try_after; [by apply keeps_write_checkpoint|].
  intros _. by apply yields_pure.
Qed.

Lemma yields_journal_allocation :
  yields I (journal_allocation config m) (on_ok (fun j => j = journal_of m [])).
Proof.
  unfold journal_allocation. apply yields_if; [by apply yields_pure|].
  apply yields_try_ret. intros c Hc. apply map_err_ok in Hc. unfold checkpoint_new in Hc.
  apply result_bind_ok in Hc as ([] & _ & [= <-]). change (mkCheckpoint 1 _ _ _ _) with (checkpoint_of m []).
  unfold begin_journal. apply yields_try_after; [apply keeps_load_checkpoint|].
  intros [|]; [by apply yields_pure|].
  apply yields_try_after; [apply (keeps_write_checkpoint []); constructor|]. intros _. by apply yields_pure.
Qed.

(** A volume of the manifest's, as a handle: not one that was there before. *)
Definition is_new (key : string * string) (v : Vol) : Prop :=
  (vol_pool v, vol_name v) = key /\ vw_volumes v0 !! key = None.

Lemma adds_volume v name vol :
  (hcf_pool config, name) = overlay_at m \/ (hcf_pool config, name) = seed_at m ->
  vw_volumes v !! (hcf_pool config, name) = None -> I v ->
  I (mkView (<[(hcf_pool config, name) := vol]> (vw_volumes v)) (vw_domains v) (vw_files v) (vw_dirs v)).
Proof.
  intros Hown Hfree [Hk Hn Hd Hr Hp Hc]. split; try done; simpl.
  - intros key vol' Hkey. apply Hk in Hkey. rewrite lookup_insert_ne; congruence.
  - intros key Ho Hs. rewrite lookup_insert_ne; [by apply Hn|]. destruct Hown; congruence.
Qed.

Lemma removes_volume v key :
  vw_volumes v0 !! key = None -> key = overlay_at m \/ key = seed_at m -> I v ->
  I (mkView (delete key (vw_volumes v)) (vw_domains v) (vw_files v) (vw_dirs v)).
Proof.
  intros Hnew Hown [Hk Hn Hd Hr Hp Hc]. split; try done; simpl.
  - intros key' vol Hkey. rewrite lookup_delete_ne; [by apply Hk|]. congruence.
  - intros key' Ho Hs. rewrite lookup_delete_ne; [by apply Hn|]. destruct Hown; congruence.
Qed.

Lemma yields_create_volume name xml operation :
  read_volume xml = Some name ->
  (hcf_pool config, name) = overlay_at m \/ (hcf_pool config, name) = seed_at m ->
  yields I (create_volume (hcf_pool config) xml operation) (on_ok (is_new (hcf_pool config, name))).
Proof.
  intros Hread Hown. apply yields_map_err, yields_call. intros w HI.
  destruct (lw_vol_create (hcf_pool config) xml (hw_host w)) as [Hd Hv]. split.
  - unfold view. simpl. rewrite Hd.
    destruct Hv as [->|(name' & vol & Hread' & Hfree & ->)]; [exact HI|].
    assert (name' = name) as -> by congruence. by apply (adds_volume (view w)).
  - eapply answers_mono; [apply lw_vol_created|]. intros v h (name' & vol & Hread' & Hfree & _ & ->).
    assert (name' = name) as -> by congruence. split; [done|].
    destruct (vw_volumes v0 !! _) as [vol0|] eqn:E; [|done].
    apply (ao_kept _ _ _ HI) in E. unfold view in E. simpl in E. congruence.
Qed.

Lemma keeps_delete_new key v :
  is_new key v -> key = overlay_at m \/ key = seed_at m -> keeps I (call (lh_vol_delete v)).
Proof.
  intros [<- Hnew] Hown. eapply yields_keeps, (yields_call _ _ (fun _ => True)). intros w HI.
  split; [|apply answers_any]. destruct (lw_vol_delete v (hw_host w)) as [Hd Hv].
  unfold view. simpl. rewrite Hd. destruct Hv as [->| ->]; [exact HI|]. by apply (removes_volume (view w)).
Qed.

Lemma yields_record_created volumes role name v operation :
  find_volume role (checkpoint_of m volumes) = None ->
  (forall key, K key -> journalled m (volumes ++ [{| cv_role := role; cv_name := name; cv_key := key |}])) ->
  yields I (record_created (journal_of m volumes) role name v operation)
    (on_ok (fun r => r.1 = vol_key v /\ K r.1 /\
       r.2 = journal_of m (volumes ++ [{| cv_role := role; cv_name := name; cv_key := r.1 |}]))).
Proof.
  intros Hfind Hj. unfold record_created. eapply yields_try.
  { apply yields_virt, yields_reads; [constructor | apply keys_known]. }
  intros key [-> Hkey]. eapply yields_try.
  { apply (yields_journal_record volumes {| cv_role := role; cv_name := name; cv_key := vol_key v |}); auto. }
  intros j ->. by apply yields_pure.
Qed.

Lemma keeps_create_seed content overlay_key :
  K overlay_key -> is_safe_name (art_name (om_seed m)) MAX_SAFE_NAME_BYTES = true ->
  keeps I (create_seed (hcf_pool config) (art_name (om_seed m)) content
             (journal_of m [overlay_entry m overlay_key])).
Proof.
  intros Hkey Hsafe. eapply yields_keeps. unfold create_seed.
  eapply (yields_try _ _ _ _ (fun _ => True)).
  { apply yields_create_volume; [by apply read_seed | by right]. }
  intros v Hv. eapply yields_after.
  { apply maintains_try.
    - eapply yields_keeps, yields_record_created; [done|]. intros key Hk. by apply journalled_both.
    - intros created. by keeps. }
  intros made. eapply yields_after.
  { destruct (is_ok made); [apply maintains_ret|]. eapply keeps_delete_new; [exact Hv | by right]. }
  intros _. apply yields_try_after; [by keeps|]. intros _.
  apply yields_pure. by destruct made.
Qed.

Lemma keeps_delete_exact key name :
  vw_volumes v0 !! (hcf_pool config, name) = None ->
  (hcf_pool config, name) = overlay_at m \/ (hcf_pool config, name) = seed_at m ->
  keeps I (delete_exact (hcf_pool config) key name).
Proof.
  intros Hnew Hown. eapply yields_keeps. unfold delete_exact.
  eapply (yields_try _ _ _ _ (fun _ => True)).
  { apply yields_pool_lookup. }
  intros pool ->. eapply yields_seq.
  { apply (yields_reads _ _ (fun v => (vol_pool v, vol_name v) = (hcf_pool config, name)));
      [constructor|]. intros h. eapply answers_mono; [apply lw_vol_lookup|].
    by intros v ? (vol & _ & ->). }
  intros found Hfound. eapply yields_mono; [apply keeps_yields|by intros []].
  destruct found as [v|e]; [|by keeps].
  assert (keeps I (call (lh_vol_delete v))) as Hdelete.
  { simpl in Hfound. eapply keeps_delete_new; [split; [exact Hfound|done]|done]. }
  by keeps.
Qed.

Lemma create_adds_only request :
  cr_manifest request = m -> keeps I (create_guest_resources config request).
Proof.
  intros Hm. unfold create_guest_resources. rewrite Hm. eapply yields_keeps.
  apply (yields_try_ret _ _ _ (fun _ => True)). intros [] Hvalid.
  apply map_err_ok, ownership_names_safe in Hvalid as (_ & Ho & Hs).
  eapply yields_try; [apply yields_active_pool|]. intros pool ->.
  apply yields_try_after; [by keeps|].
  intros path. eapply yields_try; [apply yields_journal_allocation|]. intros journal ->.
  apply yields_try_ret. intros xml Hxml. eapply yields_try.
  { apply yields_create_volume; [by eapply read_overlay, Hxml | by left]. }
  intros overlay Hnew. eapply yields_seq.
  { apply yields_record_created; [done|]. apply journalled_overlay. }
  intros [[key journal']|error] Hr; (eapply yields_mono; [apply keeps_yields|by intros []]).
  - destruct Hr as (_ & Hkey & Hj). simpl in Hkey, Hj. subst journal'.
    assert (keeps I (create_seed (hcf_pool config) (art_name (om_seed m)) (cr_seed request)
      (journal_of m [overlay_entry m key]))) by by apply keeps_create_seed.
    assert (keeps I (delete_exact (hcf_pool config) (Some key) (art_name (om_overlay m)))).
    { apply keeps_delete_exact; [apply Hnew | by left]. }
    by keeps.
  - assert (keeps I (call (lh_vol_delete overlay))) by (by eapply keeps_delete_new; [|left]).
    by keeps.
Qed.

(** *** What a creation that succeeds has made *)

(** A fact that neither a new document nor a new volume takes away. *)
Definition stable (P : View -> Prop) : Prop :=
  (forall v files, P v -> P (mkView (vw_volumes v) (vw_domains v) files (vw_dirs v))) /\
  (forall v key vol, vw_volumes v !! key = None -> P v ->
     P (mkView (<[key := vol]> (vw_volumes v)) (vw_domains v) (vw_files v) (vw_dirs v))).

Lemma achieves_write_checkpoint P c path replacing :
  stable P ->
  achieves P (write_checkpoint c path replacing)
    (fun _ v => P v /\ vw_files v !! path = Some (to_json c)).
Proof.
  intros [HP _]. unfold write_checkpoint.
  apply (achieves_try _ _ _ (fun bytes v => P v /\ bytes = to_json c)).
  { apply achieves_ret. intros bytes v Hb Hv. apply map_err_ok, encode_document_ok in Hb as (_ & _ & ->). done. }
  intros bytes w [Hw ->]. revert w Hw.
  assert (achieves P (on_file (change (fun files => <[path := to_json c]> files)))
    (fun _ v => P v /\ vw_files v !! path = Some (to_json c))) as Hchange.
  { apply achieves_map_err. intros w Hw. pose proof (view_turn w) as Hv.
    pose proof (HP (view w) (<[path := to_json c]> (hw_files w)) Hw) as HP'. rewrite <-Hv in HP'.
    unfold wp, change. destruct (lh_turn (hw_host w)) as [[|[] ?|[]] h]; try done. split; [exact HP'|].
    apply lookup_insert_eq. }
  change (achieves P (directory ←! mret (ok_or (parent path) (manifest_error "checkpoint path has no parent"));
    _ ←! ensure_private_directory "checkpoint directory is not a private directory" directory;
    if replacing then on_file (change (fun files => <[path := to_json c]> files))
    else
      exists_already ←! on_file (look (fun files _ => bool_decide (is_Some (files !! path))));
      if exists_already : bool then mret (Err (manifest_error FILE_EXISTS))
      else on_file (change (fun files => <[path := to_json c]> files)))
    (fun _ v => P v /\ vw_files v !! path = Some (to_json c))).
  eapply achieves_try; [apply achieves_keeps, maintains_ret|]. intros directory.
  eapply achieves_try; [apply achieves_keeps; unfold ensure_private_directory, on_file; keeps|]. intros [].
  destruct replacing; [exact Hchange|].
  eapply achieves_try; [apply achieves_keeps; unfold on_file; keeps|]. intros [|]; [|exact Hchange].
  by apply achieves_ret.
Qed.

Lemma achieves_journal_record P volumes entry :
  stable P -> find_volume (cv_role entry) (checkpoint_of m volumes) = None ->
  achieves P (journal_record (journal_of m volumes) (cv_role entry) (cv_name entry) (cv_key entry))
    (fun j v => (P v /\ vw_files v !! checkpoint_at m = Some (to_json (checkpoint_of m (volumes ++ [entry])))) /\
                j = journal_of m (volumes ++ [entry])).
Proof.
  intros HP Hfind. unfold journal_record, record_volume. cbn [vj_checkpoint vj_path journal_of].
  rewrite Hfind. simpl.
  replace {| cv_role := cv_role entry; cv_name := cv_name entry; cv_key := cv_key entry |} with entry
    by by destruct entry.
  change (mkCheckpoint 1 _ _ _ _) with (checkpoint_of m (volumes ++ [entry])).
  destruct (ensure_checkpoint_valid _) as [u|e]; [|by intros w Hw].
  eapply achieves_try; [apply achieves_keeps, maintains_ret|]. intros ?.
  eapply achieves_try; [by apply achieves_write_checkpoint|]. intros ?.
  apply achieves_ret. by intros j v [= <-].
Qed.

Lemma achieves_record_created P volumes role name h operation :
  stable P -> find_volume role (checkpoint_of m volumes) = None ->
  let volumes' := volumes ++ [{| cv_role := role; cv_name := name; cv_key := vol_key h |}] in
  achieves P (record_created (journal_of m volumes) role name h operation)
    (fun r v => (P v /\ vw_files v !! checkpoint_at m = Some (to_json (checkpoint_of m volumes'))) /\
                r = (vol_key h, journal_of m volumes')).
Proof.
  intros HP Hfind volumes'. unfold record_created. eapply achieves_try.
  { eapply achieves_yields, yields_virt, yields_reads; [constructor | apply lw_vol_key]. }
  intros key w [Hw ->]. revert w Hw.
  change (achieves P (journal ←! journal_record (journal_of m volumes) role name (vol_key h);
    mret (Ok (vol_key h, journal))) (fun r v => (P v /\ vw_files v !! checkpoint_at m =
      Some (to_json (checkpoint_of m volumes'))) /\ r = (vol_key h, journal_of m volumes'))).
  eapply achieves_try.
  { by apply (achieves_journal_record P volumes {| cv_role := role; cv_name := name; cv_key := vol_key h |}). }
  intros j. apply achieves_ret. by intros r v [= <-] [? ->].
Qed.

Lemma achieves_create_volume P name xml operation :
  stable P -> read_volume xml = Some name ->
  achieves P (create_volume (hcf_pool config) xml operation) (fun h v => exists vol,
    h = {| vol_pool := hcf_pool config; vol_name := name; vol_key := v_key vol |} /\ P v /\
    vw_volumes v !! (hcf_pool config, name) = Some vol).
Proof.
  intros [_ HP] Hread. apply achieves_map_err, achieves_call. intros w Hw.
  destruct (lw_vol_create (hcf_pool config) xml (hw_host w)) as [Hd _].
  pose proof (lw_vol_created (hcf_pool config) xml (hw_host w)) as Hc. unfold answers in *.
  destruct (lh_vol_create_xml (hcf_pool config) xml (hw_host w)) as [[v|e|] h]; try done.
  destruct Hc as (name' & vol & Hread' & Hfree & Hv & ->). assert (name' = name) as -> by congruence.
  exists vol. unfold view. simpl in *. rewrite Hv, Hd. split_and!; [done| |by rewrite lookup_insert_eq].
  by apply (HP (view w)).
Qed.

(** A volume that is there stays there. *)
Definition has (at_ : string * string) (vol : Volume) (v : View) : Prop := vw_volumes v !! at_ = Some vol.

Lemma stable_volume at_ vol : stable (has at_ vol).
Proof.
  unfold has. split; [done|]. intros v key vol' Hfree Hv. simpl. rewrite lookup_insert_ne; [done|]. congruence.
Qed.

Lemma stable_and P Q : stable P -> stable Q -> stable (fun v => P v /\ Q v).
Proof. intros [] []. split; naive_solver. Qed.

Lemma achieves_create_seed P content overlay_key :
  stable P -> is_safe_name (art_name (om_seed m)) MAX_SAFE_NAME_BYTES = true ->
  achieves P (create_seed (hcf_pool config) (art_name (om_seed m)) content
      (journal_of m [overlay_entry m overlay_key]))
    (fun key v => exists vol, key = v_key vol /\ P v /\ vw_volumes v !! seed_at m = Some vol /\
       vw_files v !! checkpoint_at m =
         Some (to_json (checkpoint_of m [overlay_entry m overlay_key; seed_entry m key]))).
Proof.
  intros HP Hsafe. unfold create_seed. eapply achieves_try.
  { by apply achieves_create_volume, read_seed. }
  intros h w (vol & -> & Hw). set (P' := fun v => P v /\ vw_volumes v !! seed_at m = Some vol).
  set (Q := fun (key : string) v => exists vol, key = v_key vol /\ P v /\ vw_volumes v !! seed_at m = Some vol /\
       vw_files v !! checkpoint_at m =
         Some (to_json (checkpoint_of m [overlay_entry m overlay_key; seed_entry m key]))).
  apply (achieves_guarded P' _ _ (free_volume _) Q); [|intros key; by keeps|done].
  eapply achieves_try.
  { apply (achieves_record_created P' [overlay_entry m overlay_key]); [|done].
    apply stable_and; [done|apply stable_volume]. }
  intros [key j]. set (R := fun v => (P' v /\ _) /\ _). eapply (achieves_try R); [apply achieves_keeps; by keeps|].
  intros ?. apply achieves_ret. intros key' v [= <-] [[[HPv Hvol] Hf] [= -> _]]. by exists vol.
Qed.

(** A creation that succeeds made both volumes, and its answer and its
    checkpoint both carry their keys. *)
Definition made (m' : OwnershipManifest) (v : View) : Prop := exists overlay seed,
  m' = m <| om_overlay := set_key (v_key overlay) (om_overlay m) |>
         <| om_seed := set_key (v_key seed) (om_seed m) |> /\
  vw_volumes v !! overlay_at m = Some overlay /\ vw_volumes v !! seed_at m = Some seed /\
  vw_files v !! checkpoint_at m =
    Some (to_json (checkpoint_of m [overlay_entry m (v_key overlay); seed_entry m (v_key seed)])) /\
  ensure_ownership_valid m' = Ok tt.

Lemma achieves_journal_allocation :
  achieves (fun _ => True) (journal_allocation config m) (fun j _ => True /\ j = journal_of m []).
Proof.
  unfold journal_allocation. case_match; [by apply achieves_ret|]. eapply achieves_try.
  { apply (achieves_answer _ _ (fun c => c = checkpoint_of m [])). intros c Hc%map_err_ok.
    unfold checkpoint_new in Hc. by apply result_bind_ok in Hc as ([] & _ & [= <-]). }
  intros c. apply achieves_fact. intros ->. unfold begin_journal.
  eapply achieves_try; [apply achieves_keeps, keeps_true|]. intros [c|]; [by apply achieves_ret|].
  eapply achieves_try; [apply achieves_keeps, keeps_true|]. intros ?.
  apply achieves_ret. by intros j v [= <-].
Qed.

Lemma create_makes request :
  cr_manifest request = m ->
  achieves (fun _ => True) (create_guest_resources config request) made.
Proof.
  intros Hm. unfold create_guest_resources. rewrite Hm. eapply achieves_try.
  { apply (achieves_answer _ _ (fun _ => ensure_ownership_valid m = Ok tt)). by intros [] Hv%map_err_ok. }
  intros ?. apply achieves_fact. intros (_ & Ho & Hs)%ownership_names_safe.
  eapply achieves_try; [apply achieves_yields, yields_active_pool|].
  intros pool. apply achieves_fact. intros ->.
  eapply achieves_try; [apply achieves_keeps, keeps_true|]. intros path.
  eapply achieves_try; [apply achieves_journal_allocation|]. intros j. apply achieves_fact. intros ->.
  eapply achieves_try.
  { apply (achieves_answer _ _ (fun xml => read_volume xml = Some (art_name (om_overlay m)))).
    intros xml Hxml. by eapply read_overlay. }
  intros xml. apply achieves_fact. intros Hread.
  eapply achieves_try; [by apply achieves_create_volume|]. intros overlay. cbv beta.
  apply achieves_exists. intros vol. apply achieves_pure. intros ->.
  set (h := {| vol_pool := _ |}). apply (achieves_mono (has (overlay_at m) vol) _ _ made);
    [|by intros v []|done].
  eapply achieves_match.
  { apply (achieves_record_created _ []); [apply stable_volume|done]. }
  2: { intros e. do 3 (apply achieves_fails; intros ?). by apply achieves_ret. }
  intros [key j]. apply achieves_fact. intros [= -> ->]. cbn [vol_key h].
  apply (achieves_mono (has (overlay_at m) vol) _ _ made); [|by intros v []|done].
  eapply achieves_try; [apply achieves_keeps; by keeps|]. intros ?. eapply achieves_match.
  { apply achieves_create_seed; [apply stable_volume|done]. }
  2: { intros e. do 2 (apply achieves_fails; intros ?). by apply achieves_ret. }
  intros key. match goal with |- achieves ?P _ _ => set (R := P) end.
  eapply (achieves_try R); [apply achieves_keeps; by keeps|].
  intros ?. eapply (achieves_try R).
  { eapply (achieves_answer R _ (fun _ => ensure_ownership_valid _ = Ok tt)). intros [] Hv%map_err_ok. exact Hv. }
  intros ?. apply achieves_ret. intros m' v [= <-] [(seed & -> & Ho' & Hs' & Hf) Hv]. by exists vol, seed.
Qed.
End creation.

(** ** Deleting what a manifest names *)

Section deletion.
Context {H : Type} {LH : LibvirtHost H} {LL : LawfulLibvirt H} {PE : ParserErrors} {XC : XmlCodec}.
Context {UC : UuidCodec}.
Local Abbreviation W := (HostWorld H).

(** An artifact may be the live volume's: the key agrees where it is known. *)
Definition may_be (key : option string) (vol : Volume) : Prop := forall k, key = Some k -> k = v_key vol.

Lemma ensure_identity_ok name key live_name live_key :
  ensure_identity name key live_name live_key = Ok tt <->
  live_name = name /\ (forall k, key = Some k -> k = live_key).
Proof.
  unfold ensure_identity. destruct key as [k|]; simpl; repeat case_bool_decide; simpl; naive_solver.
Qed.

(** A deletion of [name] preserves what does not depend on it, and may only
    remove a volume whose key agrees. *)
Definition survives (I : View -> Prop) (at_ : string * string) (key : option string) : Prop :=
  forall v vol, I v -> vw_volumes v !! at_ = Some vol -> may_be key vol ->
    I (mkView (delete at_ (vw_volumes v)) (vw_domains v) (vw_files v) (vw_dirs v)).

Definition handle_of (at_ : string * string) (vol : Volume) : Vol :=
  {| vol_pool := at_.1; vol_name := at_.2; vol_key := v_key vol |}.

Lemma delete_call_spec (I : View -> Prop) at_ key vol :
  survives I at_ key -> may_be key vol ->
  spec (fun v => I v /\ vw_volumes v !! at_ = Some vol) (call (lh_vol_delete (handle_of at_ vol)))
    (fun r v => I v /\ (is_ok r = true -> vw_volumes v !! at_ = None)) I.
Proof.
  intros Hdel Hmay. apply spec_call. intros w [HI Hvol]. set (h := handle_of at_ vol).
  assert ((vol_pool h, vol_name h) = at_) as Hat by by destruct at_.
  destruct (lw_vol_delete h (hw_host w)) as [Hd Hv]. pose proof (lw_vol_deleted h (hw_host w)) as Hdone.
  rewrite Hat in Hv, Hdone.
  assert (I (view (w <| hw_host := (lh_vol_delete h (hw_host w)).2 |>))) as HI'.
  { unfold view. simpl. rewrite Hd. destruct Hv as [->| ->]; [exact HI|]. by apply (Hdel (view w) vol). }
  unfold answers in Hdone. destruct (lh_vol_delete h (hw_host w)) as [[[]|e|] h']; simpl in *; try done.
  split; [done|]. intros _. unfold view. simpl. rewrite Hdone. apply lookup_delete_eq.
Qed.

Lemma delete_found_spec (I : View -> Prop) pool key name vol :
  survives I (pool, name) key ->
  spec (fun v => I v /\ vw_volumes v !! (pool, name) = Some vol)
    (delete_found pool key name (handle_of (pool, name) vol))
    (fun r v => I v /\ (r = Ok tt -> vw_volumes v !! (pool, name) = None)) I.
Proof.
  intros Hdel. unfold delete_found.
  apply (spec_try_read _ _ _ _ (fun live_name _ => live_name = name));
    [auto with reading|by intros ? []|by intros ? ? []|intros w _; apply lw_vol_name|].
  intros live_name. apply (spec_try_read _ _ _ _ (fun live_key _ => live_key = v_key vol));
    [auto with reading|by intros ? [[] _]|by intros ? ? [[] _]|intros w _; apply lw_vol_key|].
  intros live_key. destruct (ensure_identity _ _ _ _) as [[]|e] eqn:Hid.
  2: { apply (spec_mono I _ _ (fun r v => I v /\ exists e, r = Err e) _ I);
         [|by intros ? [[[] _] _]|naive_solver|done].
       eapply spec_bind; [apply keeps_spec, keeps_free_volume|]. intros ?.
       eapply spec_bind; [apply keeps_spec, keeps_free_pool|]. intros ? w HI. split; eauto. }
  apply (spec_try _ _ _ (fun _ v => I v /\ vw_volumes v !! (pool, name) = None)).
  - intros w [[[HI Hvol] ->] ->]. apply ensure_identity_ok in Hid as [_ Hmay]. apply wp_map_err.
    eapply wp_mono; [by eapply delete_call_spec| |done|done].
    intros [[]|e] w' [HI' Hgone]; simpl; [auto|by split].
  - intros ?. set (J := fun v => I v /\ vw_volumes v !! (pool, name) = None).
    eapply (spec_mono J _ _ (fun _ => J) _ J); [apply keeps_spec; by keeps|done| |]; unfold J; naive_solver.
Qed.

Lemma delete_exact_spec (I : View -> Prop) pool key name :
  survives I (pool, name) key ->
  spec I (delete_exact pool key name)
    (fun r v => I v /\ (r = Ok tt -> vw_volumes v !! (pool, name) = None)) I.
Proof.
  intros Hdel. unfold delete_exact. apply (spec_try _ _ _ (fun p v => I v /\ p = pool)).
  { intros w HI. eapply wp_mono; [by apply (yields_pool_lookup I)| |done|done].
    intros [p|e] w' [HI' Hp]; [done|]. by split. }
  intros p. eapply (spec_bind _ _ _ (fun r v => I v /\ p = pool /\ match r with
    | Ok h => exists vol, vw_volumes v !! (pool, name) = Some vol /\ h = handle_of (pool, name) vol
    | Err e => ve_code e = NoStorageVolume -> vw_volumes v !! (pool, name) = None end)).
  { intros w [HI ->]. eapply wp_mono; [apply (spec_read I _
      (fun h v => exists vol, vw_volumes v !! (pool, name) = Some vol /\ h = handle_of (pool, name) vol)
      (fun code v => code = NoStorageVolume -> vw_volumes v !! (pool, name) = None) I)| |done|done];
      [constructor|done|intros w' _; apply lw_vol_lookup|intros w' _; apply lw_no_volume|done|].
    by intros r w' []. }
  intros [h|e] w (HI & -> & Hr).
  - destruct Hr as (vol & Hvol & ->). by apply delete_found_spec.
  - case_bool_decide as Hcode.
    + eapply wp_mono; [apply (keeps_free_pool (fun v => I v /\ vw_volumes v !! (pool, name) = None)); auto| | |];
        naive_solver.
    + apply wp_bind. eapply wp_mono; [by apply (keeps_free_pool I)| |done|done]. by split.
Qed.

Lemma keeps_delete_exact_of (I : View -> Prop) pool key name :
  survives I (pool, name) key -> keeps I (delete_exact pool key name).
Proof.
  intros Hdel. apply spec_keeps. by eapply spec_mono; [by apply delete_exact_spec|done|by intros ? ? []|].
Qed.

(** *** Domains *)

Definition domain_of (uuid : Uuid) (def : DomainDef) : Dom := {| dom_uuid := uuid; dom_name := dd_name def |}.

(** The definition carries the manifest's name and metadata. *)
Definition is_domain_of (m : OwnershipManifest) (def : DomainDef) : Prop :=
  dd_name def = om_domain_name m /\ ensure_metadata_matches (dd_metadata def) m = Ok tt.

Lemma keeps_ensure_domain (I : View -> Prop) d m : keeps I (ensure_domain d m).
Proof. unfold ensure_domain. keeps. Qed.

Lemma keeps_free_domain (I : View -> Prop) d : keeps I (free_domain d).
Proof. unfold free_domain. keeps. Qed.

Lemma keeps_await_stopped (I : View -> Prop) fuel d deadline : keeps I (await_stopped (LH := LH) fuel d deadline).
Proof. induction fuel; cbn [await_stopped]; keeps. Qed.

Lemma keeps_stop (I : View -> Prop) fuel d deadline : keeps I (stop (LH := LH) fuel d deadline).
Proof. pose proof (keeps_await_stopped I). unfold stop. keeps. Qed.

Lemma ensure_domain_spec (v0 : View) uuid def m :
  vw_domains v0 !! uuid = Some def ->
  spec (eq v0) (ensure_domain (domain_of uuid def) m)
    (fun r v => v0 = v /\ (r = Ok tt -> is_domain_of m def /\ uuid = om_domain_uuid m)) (eq v0).
Proof.
  intros Hdef. unfold ensure_domain.
  apply (spec_try_read _ _ _ _ (fun name _ => name = dd_name def));
    [auto with reading|done|done|intros w _; apply lw_dom_name|].
  intros name. apply (spec_try_read _ _ _ _ (fun u _ => u = uuid));
    [auto with reading|by intros ? []|by intros ? ? []|intros w _; apply lw_dom_uuid|].
  intros u. apply (spec_try_read _ _ _ _ (fun metadata _ => metadata = dd_metadata def));
    [auto with reading|by intros ? [[] _]|by intros ? ? [[] _]| |].
  { intros w [[Hw _] _]. eapply answers_mono; [apply lw_dom_metadata|].
    intros metadata h (def' & Hdef' & <-). subst v0. unfold view in Hdef. simpl in *. congruence. }
  intros metadata w [[[Hw ->] ->] ->]. apply wp_ret. split; [done|].
  by repeat case_bool_decide.
Qed.

(** *** A whole cleanup *)

Context (config : HelperConfig) (m : OwnershipManifest) (v0 : View).
Local Abbreviation uuid := (om_domain_uuid m).

(** What a cleanup may have done at any point: the domain is gone only if it
    was the manifest's, volumes go only after it, and only those the manifest
    names, under the keys it records. *)
Record removes_only (v : View) : Prop := {
  ro_domains : vw_domains v = vw_domains v0 \/
    exists def, vw_domains v0 !! uuid = Some def /\ is_domain_of m def /\
      vw_domains v = delete uuid (vw_domains v0);
  ro_order : vw_volumes v = vw_volumes v0 \/ vw_domains v !! uuid = None;
  ro_volumes key : vw_volumes v !! key = vw_volumes v0 !! key \/
    vw_volumes v !! key = None /\
    exists a, (a = om_overlay m \/ a = om_seed m) /\ key = (hcf_pool config, art_name a) /\
      forall vol, vw_volumes v0 !! key = Some vol -> may_be (art_key a) vol;
  ro_files : vw_files v = vw_files v0 /\ vw_dirs v = vw_dirs v0;
}.

Lemma removes_only_refl : removes_only v0.
Proof. split; auto. Qed.

(** The domain is out of the way. *)
Definition domain_gone (v : View) : Prop := removes_only v /\ vw_domains v !! uuid = None.

Lemma domain_gone_survives a :
  a = om_overlay m \/ a = om_seed m ->
  survives domain_gone (hcf_pool config, art_name a) (art_key a).
Proof.
  intros Ha v vol [[Hd Ho Hv Hf] Hgone] Hvol Hmay. split; [|done]. split; try done; simpl; [by right|].
  intros key. destruct (decide (key = (hcf_pool config, art_name a))) as [->|Hne].
  - right. split; [apply lookup_delete_eq|]. exists a. split_and!; [done|done|].
    intros vol' Hvol'. destruct (Hv (hcf_pool config, art_name a)) as [E|[E _]]; [|congruence].
    by replace vol' with vol by congruence.
  - rewrite lookup_delete_ne by done. apply Hv.
Qed.

Lemma undefine_spec def :
  vw_domains v0 !! uuid = Some def -> is_domain_of m def ->
  spec (eq v0) (call (lh_dom_undefine (domain_of uuid def)))
    (fun r v => removes_only v /\ (is_ok r = true -> domain_gone v)) removes_only.
Proof.
  intros Hdef Hm. apply spec_call. intros w Hw.
  destruct (lw_dom_undefine (domain_of uuid def) (hw_host w)) as [Hv Hd].
  pose proof (lw_dom_undefined (domain_of uuid def) (hw_host w)) as Hdone.
  assert (removes_only (view (w <| hw_host := (lh_dom_undefine (domain_of uuid def) (hw_host w)).2 |>))) as HI.
  { assert (vw_domains v0 = domains (hw_host w)) as Ed by by rewrite Hw.
    assert (vw_volumes v0 = volumes (hw_host w)) as Ev by by rewrite Hw.
    split; unfold view; simpl; rewrite ?Ed, ?Ev, ?Hv; auto.
    - destruct Hd as [->|Hd]; [by left|]. right. rewrite Ed in Hdef. by exists def.
    - by rewrite Hw. }
  unfold answers in Hdone.
  destruct (lh_dom_undefine (domain_of uuid def) (hw_host w)) as [[[]|e|] h]; simpl in *; try done.
  repeat split; try done; try apply HI. unfold view. simpl. rewrite Hdone. apply lookup_delete_eq.
Qed.

Lemma remove_domain_spec fuel deadline :
  spec (eq v0) (remove_domain fuel m deadline)
    (fun r v => removes_only v /\ (r = Ok tt -> domain_gone v)) removes_only.
Proof.
  assert (forall v, v0 = v -> removes_only v) as Hrefl by (intros v <-; apply removes_only_refl).
  unfold remove_domain. eapply spec_bind.
  { apply (spec_read _ _ (fun d v => exists def, vw_domains v !! uuid = Some def /\ d = domain_of uuid def)
      (fun code v => code = NoDomain -> vw_domains v !! uuid = None));
      [constructor|done|intros w _; apply lw_dom_by_uuid|intros w _; apply lw_no_domain]. }
  intros [d|e] w [Hw Hr].
  - destruct Hr as (def & Hdef & ->). rewrite <-Hw in Hdef. revert w Hw.
    change (spec (eq v0) (_ ←! ensure_domain (domain_of uuid def) m; _ ←! stop fuel (domain_of uuid def) deadline;
      _ ←! virt "domain undefine" (lh_dom_undefine (domain_of uuid def)); free_domain (domain_of uuid def))
      (fun r v => removes_only v /\ (r = Ok tt -> domain_gone v)) removes_only).
    apply (spec_try _ _ _ (fun _ v => v0 = v /\ is_domain_of m def)).
    { intros w Hw. eapply wp_mono; [by apply (ensure_domain_spec v0)| | |]; [|auto..].
      intros [[]|e] w' [Hw' Hok]; [by split; [|apply Hok]|]. split; [auto|done]. }
    intros _. apply (spec_try _ _ _ (fun _ v => v0 = v /\ is_domain_of m def)).
    { intros w [Hw Hm]. eapply wp_mono; [by apply (keeps_stop (eq v0))| | |]; [|auto..].
      intros [[]|e] w' Hw'; [done|]. split; [auto|done]. }
    intros _. apply (spec_try _ _ _ (fun _ => domain_gone)).
    { intros w [Hw Hm]. apply wp_map_err. eapply wp_mono; [by apply (undefine_spec def)| | |]; [|auto..].
      intros [[]|e] w' [HI Hok]; simpl; [by apply Hok|]. split; [auto|done]. }
    intros _ w Hw.
    eapply wp_mono; [by apply (keeps_free_domain domain_gone)| | |]; unfold domain_gone; naive_solver.
  - apply wp_ret. split; [auto|]. case_bool_decide; [|done]. intros _. split; [auto|]. by apply Hr.
Qed.

Definition nothing_left (v : View) : Prop :=
  vw_domains v !! uuid = None /\ vw_volumes v !! overlay_at config m = None /\
  vw_volumes v !! seed_at config m = None.

Lemma cleanup_spec fuel deadline :
  spec (eq v0) (cleanup fuel config m deadline)
    (fun r v => removes_only v /\ (r = Ok tt -> nothing_left v)) removes_only.
Proof.
  assert (forall v, v0 = v -> removes_only v) as Hrefl by (intros v <-; apply removes_only_refl).
  unfold cleanup. apply (spec_try _ _ _ (fun _ v => v0 = v)).
  { intros w Hw. apply wp_ret. destruct (as_manifest _); [done|]. split; [auto|done]. }
  intros _. apply (spec_try _ _ _ (fun _ v => v0 = v)).
  { intros w Hw. apply wp_ret. destruct (ensure_recovery_artifacts m); [done|]. split; [auto|done]. }
  intros _. apply (spec_try _ _ _ (fun _ => domain_gone)).
  { eapply spec_mono; [apply remove_domain_spec|done| |done]. intros [[]|e] v [HI Hok]; simpl; [by apply Hok|].
    by split. }
  intros _. unfold cleanup_artifacts, delete_artifact.
  eapply spec_bind.
  { eapply spec_mono; [apply (delete_exact_spec domain_gone), domain_gone_survives; by right|done|done|].
    by intros v []. }
  intros seed. eapply spec_bind.
  { apply (spec_mono (fun v => domain_gone v /\ (seed = Ok tt -> vw_volumes v !! seed_at config m = None)) _ _
      (fun r v => (domain_gone v /\ (seed = Ok tt -> vw_volumes v !! seed_at config m = None)) /\
                  (r = Ok tt -> vw_volumes v !! overlay_at config m = None)) _
      (fun v => domain_gone v /\ (seed = Ok tt -> vw_volumes v !! seed_at config m = None)));
      [|done|by intros r v Hr; exact Hr|by intros v [[] _]].
    apply (delete_exact_spec (fun v => domain_gone v /\ (seed = Ok tt -> vw_volumes v !! seed_at config m = None))).
    intros v vol [Hg Hs] Hvol Hmay. split; [by eapply domain_gone_survives; [by left|..]|].
    intros Hok. simpl. apply lookup_delete_None. right. by apply Hs. }
  intros overlay w [[[HI Hd] Hs] Ho]. apply wp_ret. split; [done|].
  destruct seed as [[]|], overlay as [[]|]; try done. intros _. by split_and!; [|apply Ho|apply Hs].
Qed.
End deletion.

(** ** A creation can be taken back *)

Lemma safe_key_weaken key small large :
  is_safe_key key large = true -> len key <= small -> is_safe_key key small = true.
Proof.
  unfold is_safe_key. intros Hk Hl. repeat (apply andb_true_iff in Hk as [Hk ?]).
  repeat (apply andb_true_iff; split); try done. by apply Z.leb_le.
Qed.

Lemma safe_key_len key maximum : is_safe_key key maximum = true -> len key <= maximum.
Proof. unfold is_safe_key. intros Hk. repeat (apply andb_true_iff in Hk as [Hk ?]). by apply Z.leb_le. Qed.

(** A manifest as it is first written: no volume has a key yet. *)
Definition keyless (m : OwnershipManifest) : Prop :=
  art_key (om_overlay m) = None /\ art_key (om_seed m) = None.

(** A manifest with other keys. *)
Definition with_keys (m : OwnershipManifest) (overlay seed : option string) : OwnershipManifest :=
  m <| om_overlay := {| art_name := art_name (om_overlay m); art_key := overlay |} |>
    <| om_seed := {| art_name := art_name (om_seed m); art_key := seed |} |>.

Definition fits (key : option string) : Prop :=
  forall k, key = Some k -> is_safe_key k MAX_ARTIFACT_KEY_BYTES = true.

Lemma with_keys_valid m overlay seed :
  ensure_ownership_valid m = Ok tt -> fits overlay -> fits seed ->
  ensure_ownership_valid (with_keys m overlay seed) = Ok tt.
Proof.
  unfold ensure_ownership_valid, with_keys. intros Hv Ho Hs. simpl.
  repeat (apply result_bind_ok in Hv as ([] & -> & Hv); cbn [mbind result_bind]).
  assert (forall key, fits key -> from_option (fun k => is_safe_key k MAX_ARTIFACT_KEY_BYTES) true key = true) as Hf.
  { intros [k|] Hk; [by apply Hk|done]. }
  by rewrite !Hf.
Qed.

Section recovery.
Context {UC : UuidCodec} (config : HelperConfig).

Lemma ensure_volumes_keys before volumes :
  ensure_volumes before volumes = Ok tt ->
  Forall (fun v => is_safe_key (cv_key v) MAX_VOLUME_KEY_BYTES = true) volumes.
Proof.
  revert before. induction volumes as [|v volumes IH]; intros before; [done|]. cbn [ensure_volumes].
  intros ([] & Hv & ([] & _ & Hr)%result_bind_ok)%result_bind_ok.
  unfold ensure_volume in Hv. rewrite valid_field_ok in Hv. apply andb_true_iff in Hv as [_ Hv].
  constructor; [done|]. by eapply IH.
Qed.

Lemma checkpoint_keys c :
  ensure_checkpoint_valid c = Ok tt ->
  Forall (fun v => is_safe_key (cv_key v) MAX_VOLUME_KEY_BYTES = true) (vc_volumes c).
Proof.
  unfold ensure_checkpoint_valid.
  intros ([] & _ & (id & _ & ([] & _ & ([] & Hv & _)%result_bind_ok)%result_bind_ok)%result_bind_ok)%result_bind_ok.
  by eapply ensure_volumes_keys.
Qed.

Lemma merge_with c m overlay seed :
  ensure_allocation c (hcf_service_instance config) (hcf_pool config) (om_allocation_id m)
    (art_name (om_overlay m)) (art_name (om_seed m)) = Ok tt ->
  merge_artifact (om_overlay m) (find_volume RoleOverlay c) =
    Ok {| art_name := art_name (om_overlay m); art_key := overlay |} ->
  merge_artifact (om_seed m) (find_volume RoleSeed c) =
    Ok {| art_name := art_name (om_seed m); art_key := seed |} ->
  ensure_ownership_valid m = Ok tt -> fits overlay -> fits seed ->
  merge_allocation c m (hcf_service_instance config) (hcf_pool config) = Ok (with_keys m overlay seed).
Proof.
  intros Ha Ho Hs Hm Hfo Hfs. pose proof (with_keys_valid m overlay seed Hm Hfo Hfs) as Hv.
  unfold merge_allocation. rewrite Ha. cbn [as_ownership map_err mbind result_bind]. rewrite Ho.
  cbn [mbind result_bind]. rewrite Hs. cbn [mbind result_bind]. fold (with_keys m overlay seed).
  by rewrite Hv.
Qed.

Lemma merge_recorded a role key :
  art_key a = None ->
  merge_artifact a (Some {| cv_role := role; cv_name := art_name a; cv_key := key |}) =
    Ok {| art_name := art_name a; art_key := Some key |}.
Proof. intros Ha. unfold merge_artifact. simpl. by rewrite bool_decide_eq_true_2, Ha. Qed.

Lemma merge_unrecorded a : art_key a = None -> merge_artifact a None = Ok {| art_name := art_name a; art_key := None |}.
Proof. by destruct a as [name key]; intros [= ->]. Qed.

Lemma journalled_binding (K : string -> Prop) m volumes :
  journalled K m volumes -> ensure_checkpoint_valid (checkpoint_of config m volumes) = Ok tt ->
  ensure_allocation (checkpoint_of config m volumes) (hcf_service_instance config) (hcf_pool config)
    (om_allocation_id m) (art_name (om_overlay m)) (art_name (om_seed m)) = Ok tt.
Proof.
  intros Hj Hc. unfold ensure_allocation, ensure_binding. rewrite Hc. simpl.
  rewrite !(bool_decide_eq_true_2 (_ = _)) by done.
  destruct Hj; simpl; by rewrite ?(bool_decide_eq_true_2 (_ = _)) by done.
Qed.

(** The checkpoint a creation left gives the manifest the keys it recorded. *)
Lemma merge_journalled (K : string -> Prop) m volumes :
  (forall key, K key -> len key <= MAX_ARTIFACT_KEY_BYTES) ->
  ensure_ownership_valid m = Ok tt -> keyless m -> journalled K m volumes ->
  ensure_checkpoint_valid (checkpoint_of config m volumes) = Ok tt ->
  exists overlay seed,
    merge_allocation (checkpoint_of config m volumes) m (hcf_service_instance config) (hcf_pool config) =
      Ok (with_keys m overlay seed) /\ ensure_ownership_valid (with_keys m overlay seed) = Ok tt.
Proof.
  intros HK Hm [Ho Hs] Hj Hc. pose proof (journalled_binding K m volumes Hj Hc) as Ha.
  assert (forall v, v ∈ volumes -> K (cv_key v) -> fits (Some (cv_key v))) as Hfit.
  { intros v Hv Hkey k [= <-]. eapply safe_key_weaken; [|by apply HK].
    apply checkpoint_keys in Hc. rewrite Forall_forall in Hc. by apply Hc. }
  enough (exists overlay seed, (merge_artifact (om_overlay m) (find_volume RoleOverlay (checkpoint_of config m volumes)) =
    Ok {| art_name := art_name (om_overlay m); art_key := overlay |}) /\ fits overlay /\
    (merge_artifact (om_seed m) (find_volume RoleSeed (checkpoint_of config m volumes)) =
    Ok {| art_name := art_name (om_seed m); art_key := seed |}) /\ fits seed) as (overlay & seed & Ho' & Hfo & Hs' & Hfs).
  { exists overlay, seed. split; [by apply merge_with|by apply with_keys_valid]. }
  assert (fits None) by done.
  destruct Hj as [|key Hkey|key key' Hkey Hkey'].
  - exists None, None. by split_and!; [apply merge_unrecorded| |apply merge_unrecorded|].
  - exists (Some key), None. split_and!; [by apply merge_recorded| |by apply merge_unrecorded|done].
    by apply (Hfit (overlay_entry m key)); [left|].
  - exists (Some key), (Some key'). split_and!; [by apply merge_recorded| |by apply merge_recorded|].
    + by apply (Hfit (overlay_entry m key)); [left|].
    + by apply (Hfit (seed_entry m key')); [right; left|].
Qed.
End recovery.

Lemma ownership_keys_fit m :
  ensure_ownership_valid m = Ok tt -> fits (art_key (om_overlay m)) /\ fits (art_key (om_seed m)).
Proof.
  unfold ensure_ownership_valid, valid_field, fits. intros Hv. simplify_result.
  split; intros k Hk; by rewrite Hk in *.
Qed.

Lemma merge_artifact_key a v a' : merge_artifact a (Some v) = Ok a' -> art_key a' = Some (cv_key v).
Proof. unfold merge_artifact. case_match; [done|]. by intros [= <-]. Qed.

(** A volume key the checkpoint accepts but the manifest does not is never
    recovered: once a key of more than 1024 bytes is in an allocation's
    checkpoint, merging it is an error, whatever the manifest. *)
Theorem long_key_unmergeable {UC : UuidCodec} (m : OwnershipManifest) (c : VolumeCheckpoint) instance pool v role :
  (role = RoleOverlay \/ role = RoleSeed) -> find_volume role c = Some v ->
  MAX_ARTIFACT_KEY_BYTES < len (cv_key v) ->
  exists e, merge_allocation c m instance pool = Err e.
Proof.
  intros Hrole Hfind Hlong. destruct (merge_allocation c m instance pool) as [m'|e] eqn:E; [|by exists e]. exfalso.
  unfold merge_allocation in E. apply result_bind_ok in E as ([] & _ & E).
  apply result_bind_ok in E as (overlay & Ho & (seed & Hs & ([] & Hv & _)%result_bind_ok)%result_bind_ok).
  apply map_err_ok, ownership_keys_fit in Hv as [Hfo Hfs]. simpl in Hfo, Hfs.
  assert (fits (Some (cv_key v))) as Hfit.
  { destruct Hrole as [-> | ->].
    - rewrite Hfind in Ho. apply merge_artifact_key in Ho. by rewrite Ho in Hfo.
    - rewrite Hfind in Hs. apply merge_artifact_key in Hs. by rewrite Hs in Hfs. }
  specialize (Hfit _ eq_refl). apply safe_key_len in Hfit. lia.
Qed.

(** Keys of some answer, each short enough for a manifest, or one that is not. *)
Lemma journalled_short_or_long (K : string -> Prop) m volumes :
  journalled K m volumes ->
  journalled (fun key => len key <= MAX_ARTIFACT_KEY_BYTES) m volumes \/
  exists role v, (role = RoleOverlay \/ role = RoleSeed) /\ K (cv_key v) /\
    MAX_ARTIFACT_KEY_BYTES < len (cv_key v) /\
    forall config, find_volume role (checkpoint_of config m volumes) = Some v.
Proof.
  destruct 1 as [|key Hk|key key' Hk Hk']; [left; constructor|..].
  - destruct (Z.le_gt_cases (len key) MAX_ARTIFACT_KEY_BYTES); [left; by constructor|].
    right. exists RoleOverlay, (overlay_entry m key). simpl. auto.
  - destruct (Z.le_gt_cases (len key) MAX_ARTIFACT_KEY_BYTES);
      [|right; exists RoleOverlay, (overlay_entry m key); simpl; auto].
    destruct (Z.le_gt_cases (len key') MAX_ARTIFACT_KEY_BYTES);
      [left; by constructor|right; exists RoleSeed, (seed_entry m key'); simpl; auto].
Qed.

Section reversible.
Context {H : Type} {LH : LibvirtHost H} {LL : LawfulLibvirt H} {PE : ParserErrors} {XC : XmlCodec}.
Context {JC : JsonCodec VolumeCheckpoint} {UC : UuidCodec}.
Local Abbreviation W := (HostWorld H).

(** However a step ends, it ends in a state. *)
Lemma keeps_end {A} (I : View -> Prop) (c : Fut W A) w : keeps I c -> I (view w) -> I (view (c w).2).
Proof. intros Hc HI. specialize (Hc w HI). unfold wp in Hc. by destruct (c w) as [[] ?]. Qed.

Lemma spec_done {A} P (c : Fut W A) Q I w a w' :
  spec P c Q I -> P (view w) -> c w = (Done a, w') -> Q a (view w').
Proof. intros Hc HP Hrun. specialize (Hc w HP). unfold wp in Hc. by rewrite Hrun in Hc. Qed.

(** The manifest a cleanup works from: the one on disk, with the keys of the
    checkpoint where there is one. *)
Definition recovered (config : HelperConfig) (m m' : OwnershipManifest) (files : gmap string string) : Prop :=
  match files !! checkpoint_at config m with
  | None => m' = m
  | Some bytes => exists c, json_parse bytes = Some c /\
      merge_allocation c m (hcf_service_instance config) (hcf_pool config) = Ok m'
  end.

(** A key libvirt can answer for some volume. *)
Definition answered (key : string) : Prop := exists (v : Vol) (h : H), (lh_vol_key v h).1 = Answered key.

Lemma answered_keys (v : Vol) (h : H) : answers (lh_vol_key v) h (fun key _ => answered key).
Proof.
  unfold answers. destruct (lh_vol_key v h) as [[key| |] h'] eqn:E; try done.
  exists v, h. by rewrite E.
Qed.

(** A manifest under some keys, cleaned up over what a creation added. *)
Lemma cleanup_restores (config : HelperConfig) (K : string -> Prop) m overlay seed (w w1 : W) fuel deadline w2 :
  volumes (hw_host w) !! overlay_at config m = None -> volumes (hw_host w) !! seed_at config m = None ->
  adds_only config K m (view w) (view w1) ->
  cleanup fuel config (with_keys m overlay seed) deadline w1 = (Done (Ok tt), w2) ->
  volumes (hw_host w2) = volumes (hw_host w) /\
  domains (hw_host w2) = delete (om_domain_uuid m) (domains (hw_host w)).
Proof.
  intros Ho Hs [_ Hnew Hdom _ _ _] Hrun.
  pose proof (spec_done _ _ _ _ _ _ _ (cleanup_spec config (with_keys m overlay seed) (view w1) fuel deadline)
    eq_refl Hrun) as [[Hd _ Hv _] Hleft]. destruct (Hleft eq_refl) as (Hgone & Hgo & Hgs).
  change (om_domain_uuid (with_keys m overlay seed)) with (om_domain_uuid m) in *.
  change (overlay_at config (with_keys m overlay seed)) with (overlay_at config m) in *.
  change (seed_at config (with_keys m overlay seed)) with (seed_at config m) in *. split.
  - apply map_eq. intros key. destruct (decide (key = overlay_at config m)) as [->|Hno]; [by rewrite Ho|].
    destruct (decide (key = seed_at config m)) as [->|Hns]; [by rewrite Hs|].
    rewrite <-(Hnew key Hno Hns : volumes (hw_host w1) !! key = volumes (hw_host w) !! key).
    destruct (Hv key) as [E|(_ & a & [-> | ->] & Ha & _)]; [exact E|done|done].
  - change (domains (hw_host w1) = domains (hw_host w)) in Hdom.
    change (domains (hw_host w2) !! om_domain_uuid m = None) in Hgone. destruct Hd as [Hd|(def & _ & _ & Hd)].
    + change (domains (hw_host w2) = domains (hw_host w1)) in Hd. rewrite <-Hdom, <-Hd.
      by rewrite delete_id.
    + change (domains (hw_host w2) = delete (om_domain_uuid m) (domains (hw_host w1))) in Hd. by rewrite Hd, Hdom.
Qed.

(** C6: A creation can be taken back wherever it stopped, unless libvirt gave
    a volume a key longer than a manifest holds.  It starts with neither
    volume there and no checkpoint; it ends in success, in an error or with
    the helper killed at any call.  Then either the manifest and whatever
    checkpoint it left merge, and a cleanup that succeeds with them leaves the
    volumes exactly as they were before the creation and no domain under the
    manifest's UUID; or the checkpoint records a key libvirt answered that is
    longer than [MAX_ARTIFACT_KEY_BYTES], and merging it is an error. *)
Theorem creation_reversible (config : HelperConfig) (request : CreateRequest) (w : W) :
  let m := cr_manifest request in
  ensure_ownership_valid m = Ok tt -> keyless m ->
  volumes (hw_host w) !! overlay_at config m = None -> volumes (hw_host w) !! seed_at config m = None ->
  hw_files w !! checkpoint_at config m = None ->
  let w1 := (create_guest_resources config request w).2 in
  (exists m', recovered config m m' (hw_files w1) /\
     forall fuel deadline w2, cleanup fuel config m' deadline w1 = (Done (Ok tt), w2) ->
       volumes (hw_host w2) = volumes (hw_host w) /\
       domains (hw_host w2) = delete (om_domain_uuid m) (domains (hw_host w))) \/
  (exists bytes c role v e, hw_files w1 !! checkpoint_at config m = Some bytes /\ json_parse bytes = Some c /\
     find_volume role c = Some v /\ answered (cv_key v) /\ MAX_ARTIFACT_KEY_BYTES < len (cv_key v) /\
     merge_allocation c m (hcf_service_instance config) (hcf_pool config) = Err e).
Proof.
  intros m Hvalid Hkeyless Ho Hs Hfresh w1.
  pose proof (keeps_end _ _ w (create_adds_only config _ answered_keys m (view w) request eq_refl)
    (adds_only_refl config _ m (view w))) as Hadds. fold w1 in Hadds.
  enough ((exists overlay seed, recovered config m (with_keys m overlay seed) (hw_files w1)) \/
    exists vols role v, hw_files w1 !! checkpoint_at config m = Some (to_json (checkpoint_of config m vols)) /\
      (role = RoleOverlay \/ role = RoleSeed) /\ find_volume role (checkpoint_of config m vols) = Some v /\
      answered (cv_key v) /\ MAX_ARTIFACT_KEY_BYTES < len (cv_key v))
    as [(overlay & seed & Hrec)|(vols & role & v & Hf & Hrole & Hfind & Hans & Hlong)].
  - left. exists (with_keys m overlay seed). split; [done|]. intros fuel deadline w2. by eapply cleanup_restores.
  - right. destruct (long_key_unmergeable m (checkpoint_of config m vols) (hcf_service_instance config)
      (hcf_pool config) v role Hrole Hfind Hlong) as [e He].
    exists (to_json (checkpoint_of config m vols)), (checkpoint_of config m vols), role, v, e.
    by rewrite json_roundtrip.
  - pose proof (ao_checkpoint _ _ _ _ _ Hadds) as Hck. unfold recovered.
    change (vw_files (view w1)) with (hw_files w1) in Hck.
    change (vw_files (view w)) with (hw_files w) in Hck.
    destruct Hck as [Hck|(vols & Hj & Hc & Hck)]; rewrite Hck.
    { left. rewrite Hfresh. exists None, None.
      destruct Hkeyless, m as [? ? ? ? ? ? [] [] ? ? ?]; simpl in *; by subst. }
    destruct (journalled_short_or_long _ _ _ Hj) as [Hshort|(role & v & Hrole & Hk & Hlong & Hfind)].
    + left. destruct (merge_journalled config _ m vols (fun _ Hk => Hk) Hvalid Hkeyless Hshort Hc)
        as (overlay & seed & Hm & _).
      exists overlay, seed, (checkpoint_of config m vols). by rewrite json_roundtrip.
    + right. exists vols, role, v. split_and!; auto.
Qed.
End reversible.

(** ** Defining a domain *)

Section definition.
Context {H : Type} {LH : LibvirtHost H} {LL : LawfulLibvirt H} {PE : ParserErrors} {XC : XmlCodec}.
Context {UC : UuidCodec}.
Context (config : HelperConfig) (request : DefineRequest) (v0 : View).
Local Abbreviation W := (HostWorld H).
Local Abbreviation m := (dr_manifest request).

(** A step from [v0] that only looks: it ends in [v0], and a success gives a
    fact about [v0]. *)
Definition finds {A} (c : Fut W (result RuntimeError A)) (R : A -> Prop) : Prop :=
  spec (eq v0) c (fun r v => v0 = v /\ on_ok R r) (eq v0).

Lemma finds_try {A B} (c : Fut W (result RuntimeError A)) (k : A -> Fut W (result RuntimeError B)) R Q :
  finds c R -> (forall a, R a -> finds (k a) Q) -> finds (fut_try c k) Q.
Proof.
  intros Hc Hk. apply (spec_try _ _ _ (fun a v => v0 = v /\ R a)).
  - eapply spec_mono; [exact Hc|done| |done]. by intros [] v [].
  - intros a w [Hw Ha]. by apply Hk.
Qed.

Lemma finds_ret {A} (r : result RuntimeError A) R : on_ok R r -> finds (mret r) R.
Proof. by intros Hr w Hw. Qed.

Lemma finds_read {A} operation (c : H -> Call A * H) (R : A -> Prop) :
  reading c -> (forall w, v0 = view w -> answers c (hw_host w) (fun a _ => R a)) ->
  finds (virt operation c) R.
Proof.
  intros Hc HR w Hw. apply wp_map_err. eapply wp_mono.
  - apply (spec_read (eq v0) c (fun a _ => R a) (fun _ _ => True) (eq v0)); try done.
    intros w' _. unfold refuses. by destruct (c (hw_host w')) as [[] ?].
  - by intros [] w' [].
  - done.
  - done.
Qed.

Lemma finds_pool_volume pool key name :
  finds (ensure_pool_volume pool key name)
    (fun _ => exists vol, vw_volumes v0 !! (pool, name) = Some vol /\ v_key vol = key).
Proof.
  unfold ensure_pool_volume. eapply finds_try.
  { apply finds_read; [constructor|]. intros w _. apply lw_pool_lookup. }
  intros ? ->. eapply finds_try.
  { apply (finds_read _ _ (fun v => exists vol, vw_volumes v0 !! (pool, name) = Some vol /\
      v = {| vol_pool := pool; vol_name := name; vol_key := v_key vol |})); [constructor|].
    intros w ->. apply lw_vol_lookup. }
  intros ? (vol & Hvol & ->). eapply finds_try.
  { apply (finds_read _ _ (fun _ => True)); [constructor|]. intros w _. apply answers_any. }
  intros live_name _. eapply finds_try.
  { apply finds_read; [constructor|]. intros w _. apply lw_vol_key. }
  intros ? ->. eapply (finds_try _ _ (fun _ => True)).
  { apply finds_read; [constructor|]. intros w _. apply answers_any. }
  intros _ _. eapply (finds_try _ _ (fun _ => True)).
  { apply finds_read; [constructor|]. intros w _. apply answers_any. }
  intros _ _. apply finds_ret. destruct (ensure_identity _ _ _ _) as [[]|] eqn:E; [|done].
  apply ensure_identity_ok in E as [_ E]. exists vol. split; [done|]. symmetry. by apply E.
Qed.

Lemma finds_absent name :
  finds (ensure_absent name) (fun _ => forall uuid def, vw_domains v0 !! uuid = Some def -> dd_name def <> name).
Proof.
  unfold ensure_absent. eapply spec_bind.
  { apply (spec_read (eq v0) _ (fun _ _ => True) (fun code v => code = NoDomain ->
      forall uuid def, vw_domains v !! uuid = Some def -> dd_name def <> name)); [constructor|done| |].
    - intros w _. apply answers_any.
    - intros w _. apply lw_no_domain_name. }
  intros [d|e] w [Hw Hr].
  - apply wp_try. eapply wp_mono; [by apply (keeps_free_domain (eq v0))| | |]; [|done..].
    by intros [] w' Hw'.
  - apply wp_ret. split; [done|]. case_bool_decide as Hc; [|done]. rewrite Hw. exact (Hr Hc).
Qed.

(** The volumes the manifest names, under the keys it records. *)
Definition has_artifact (a : Artifact) : Prop := exists vol,
  vw_volumes v0 !! (hcf_pool config, art_name a) = Some vol /\ art_key a = Some (v_key vol).

Lemma finds_artifacts : finds (ensure_artifacts (hcf_pool config) m)
  (fun _ => has_artifact (om_overlay m) /\ has_artifact (om_seed m)).
Proof.
  unfold ensure_artifacts. eapply (finds_try _ _ (fun key => art_key (om_overlay m) = Some key)).
  { apply finds_ret. by destruct (art_key _). }
  intros overlay Ho. eapply finds_try; [apply finds_pool_volume|]. intros _ (vo & Hvo & Hko).
  eapply (finds_try _ _ (fun key => art_key (om_seed m) = Some key)).
  { apply finds_ret. by destruct (art_key (om_seed m)). }
  intros seed Hs w Hw. eapply wp_mono; [by apply finds_pool_volume| |done|done].
  intros [[]|e] w' [Hw' Hr]; [|done]. destruct Hr as (vs & Hvs & Hks). split; [done|]. split.
  - exists vo. by rewrite Ho, Hko.
  - exists vs. by rewrite Hs, Hks.
Qed.

(** What a definition may have done at any point. *)
Definition defines_only (v : View) : Prop :=
  vw_volumes v = vw_volumes v0 /\ vw_files v = vw_files v0 /\ vw_dirs v = vw_dirs v0 /\
  (vw_domains v = vw_domains v0 \/
   vw_domains v0 !! om_domain_uuid m = None /\ has_artifact (om_overlay m) /\ has_artifact (om_seed m) /\
   exists def, dd_name def = om_domain_name m /\ vw_domains v = <[om_domain_uuid m := def]> (vw_domains v0)).

Lemma defines_refl : defines_only v0.
Proof. unfold defines_only. auto. Qed.

Context (Huuid : is_safe_name (om_domain_uuid m) MAX_SAFE_NAME_BYTES = true).
Local Abbreviation spec_of := {| ds_manifest := m; ds_pool := hcf_pool config;
  ds_network := hcf_network config; ds_cpu_count := dr_cpu_count request;
  ds_memory_mb := dr_memory_mb request |}.

(** The domain is new and is defined over the manifest's volumes. *)
Definition defined (d : Dom) (v : View) : Prop := exists def,
  d = domain_of (om_domain_uuid m) def /\ defines_only v /\ vw_domains v0 !! om_domain_uuid m = None /\
  vw_domains v = <[om_domain_uuid m := def]> (vw_domains v0).

Lemma define_call_spec xml :
  is_safe_name (om_domain_name m) MAX_SAFE_NAME_BYTES = true -> domain_xml spec_of = Ok xml ->
  (forall uuid def, vw_domains v0 !! uuid = Some def -> dd_name def <> om_domain_name m) ->
  has_artifact (om_overlay m) -> has_artifact (om_seed m) ->
  spec (eq v0) (virt "domain definition" (lh_dom_define xml))
    (fun r v => match r with Ok d => defined d v | Err _ => defines_only v end) defines_only.
Proof.
  intros Hname Hxml Habsent Ho Hs. pose proof (read_defined spec_of xml Hname Huuid Hxml) as Hread.
  apply spec_virt, spec_call. intros w Hw. simpl in Hread.
  assert (vw_domains v0 = domains (hw_host w)) as Ed by by rewrite Hw.
  assert (vw_volumes v0 = volumes (hw_host w)) as Ev by by rewrite Hw.
  assert (vw_files v0 = hw_files w /\ vw_dirs v0 = hw_dirs w) as [Ef Er] by by rewrite Hw.
  destruct (lw_dom_define xml (hw_host w)) as [Hv Hd]. pose proof (lw_dom_defined xml (hw_host w)) as Hdone.
  assert (defines_only (view (w <| hw_host := (lh_dom_define xml (hw_host w)).2 |>)) /\
    (domains (lh_dom_define xml (hw_host w)).2 = vw_domains v0 \/ vw_domains v0 !! om_domain_uuid m = None))
    as [HI Hcase].
  { unfold defines_only, view. simpl. rewrite Hv, Ev, Ef, Er, Ed.
    destruct Hd as [->|(name & uuid & def & Hread' & Hn & Hold & ->)]; [by auto 6|].
    assert (name = om_domain_name m /\ uuid = om_domain_uuid m) as [-> ->] by by simplify_eq.
    assert (domains (hw_host w) !! om_domain_uuid m = None) as Hfree.
    { destruct (domains (hw_host w) !! _) as [old|] eqn:E; [|done].
      destruct (Habsent (om_domain_uuid m) old); [by rewrite Ed|by apply Hold]. }
    split; [|by right]. split_and!; [done..|]. right. split_and!; [done..|]. by exists def. }
  unfold answers in Hdone. destruct (lh_dom_define xml (hw_host w)) as [[d|e|] h]; simpl in *; [|done|done].
  destruct Hdone as (name & uuid & def & Hread' & Hn & Hdoms & ->).
  assert (name = om_domain_name m /\ uuid = om_domain_uuid m) as [-> ->] by by simplify_eq.
  exists def. unfold domain_of. rewrite Hn. split_and!; [done|done| |by rewrite Ed].
  destruct Hcase as [Hcase|Hcase]; [|done]. exfalso.
  apply (Habsent (om_domain_uuid m) def); [|done]. rewrite <-Hcase, Hdoms. apply lookup_insert_eq.
Qed.

Lemma spec_finds {A B} (c : Fut W (result RuntimeError A)) (k : A -> Fut W (result RuntimeError B)) R Q :
  finds c R -> (forall e v, v0 = v -> Q (Err e) v) -> (forall a, R a -> spec (eq v0) (k a) Q defines_only) ->
  spec (eq v0) (fut_try c k) Q defines_only.
Proof.
  intros Hc Hq Hk. apply (spec_try _ _ _ (fun a v => v0 = v /\ R a)).
  - eapply spec_mono; [exact Hc|done| |].
    + intros [] v []; [done|]. by apply Hq.
    + intros v <-. apply defines_refl.
  - intros a. apply (spec_fact (eq v0)), Hk.
Qed.

Lemma undefine_new def v :
  defines_only v -> vw_domains v0 !! om_domain_uuid m = None ->
  vw_domains v = <[om_domain_uuid m := def]> (vw_domains v0) ->
  spec (eq v) (call (lh_dom_undefine (domain_of (om_domain_uuid m) def))) (fun _ => defines_only) defines_only.
Proof.
  intros HI Hfree Hdom. apply spec_call. intros w Hw.
  destruct (lw_dom_undefine (domain_of (om_domain_uuid m) def) (hw_host w)) as [Hv Hd].
  assert (defines_only (view (w <| hw_host := (lh_dom_undefine (domain_of (om_domain_uuid m) def) (hw_host w)).2 |>))) as HI'.
  { subst v. destruct HI as (Ev & Ef & Er & Ed). unfold defines_only, view in *. simpl in *.
    rewrite Hv, Ev, Ef, Er. split_and!; try done. destruct Hd as [->| ->]; [done|]. left.
    rewrite Hdom. by rewrite delete_insert_id. }
  by destruct (lh_dom_undefine _ _) as [[] h].
Qed.

(** After the definition: the live domain is checked, and taken back unless it
    carries the manifest's metadata. *)
Lemma check_defined_spec d :
  spec (defined d)
    (matched ← ensure_domain d m;
     _ ← (if is_ok matched then mret (Ok tt) else call (lh_dom_undefine d));
     _ ←! free_domain d;
     mret matched)
    (fun r v => defines_only v /\ (r = Ok tt -> exists def, is_domain_of m def /\
       vw_domains v0 !! om_domain_uuid m = None /\ vw_domains v = <[om_domain_uuid m := def]> (vw_domains v0)))
    defines_only.
Proof.
  intros w (def & -> & HI & Hfree & Hdom). set (v := view w) in *.
  assert (vw_domains v !! om_domain_uuid m = Some def) as Hdef by (rewrite Hdom; apply lookup_insert_eq).
  apply wp_bind. eapply wp_mono; [by apply (ensure_domain_spec v)| |by intros w' <-|by intros w' <-].
  intros [[]|e] w' [Hw' Hok]; simpl; apply wp_bind.
  - apply wp_ret, wp_try. eapply wp_mono; [by apply (keeps_free_domain (eq v))| |by intros w2 <-|by intros w2 <-].
    intros [[]|e] w2 Hw2; [apply wp_ret|]; rewrite <-Hw2; (split; [done|]); [|done].
    intros _. exists def. destruct (Hok eq_refl) as [Hm _]. split_and!; [exact Hm|exact Hfree|].
    by rewrite <-Hdom, Hw2.
  - eapply wp_mono; [by eapply (undefine_new def v)| |done|done]. intros ? w2 HI2. apply wp_try.
    eapply wp_mono; [by apply (keeps_free_domain defines_only)| |done|done]. by intros [] w3 HI3.
Qed.

Lemma define_steps :
  spec (eq v0) (define config request)
    (fun r v => defines_only v /\ (r = Ok tt -> exists def, is_domain_of m def /\
       vw_domains v0 !! om_domain_uuid m = None /\ vw_domains v = <[om_domain_uuid m := def]> (vw_domains v0)))
    defines_only.
Proof.
  assert (forall v, v0 = v -> defines_only v) as Hrefl by (intros v <-; apply defines_refl).
  unfold define. eapply (spec_try _ _ _ (fun _ v => v0 = v /\ ensure_ownership_valid m = Ok tt)).
  { intros w Hw. apply wp_ret. destruct (ensure_ownership_valid m) as [[]|]; simpl; [done|]. by split; [apply Hrefl|]. }
  intros ?. apply (spec_fact (eq v0)). intros (Hname & _)%ownership_names_safe.
  eapply spec_finds; [apply finds_absent|by split; [apply Hrefl|]|]. intros ? Habsent.
  eapply spec_finds; [apply finds_artifacts|by split; [apply Hrefl|]|]. intros ? [Ho Hs].
  eapply (spec_finds _ _ (fun xml => domain_xml spec_of = Ok xml)); [|by split; [apply Hrefl|]|].
  { apply finds_ret. by destruct (domain_xml _). }
  intros xml Hxml. eapply spec_try; [|apply check_defined_spec].
  eapply spec_mono; [by apply (define_call_spec xml)|done| |done]. intros [d|e] v Hv; [done|]. by split.
Qed.
End definition.

(** ** A cleanup ends *)

Section ending.
Context {H : Type} {LH : LibvirtHost H} {LL : LawfulLibvirt H} {PE : ParserErrors} {XC : XmlCodec}.
Context {UC : UuidCodec}.
Local Abbreviation W := (HostWorld H).

Lemma ends_call {A} (c : H -> Call A * H) : ends (S := W) (call c).
Proof. intros w b. unfold call. by destruct (c (hw_host w)) as [[] ?]. Qed.

Lemma ends_virt {A} operation (c : H -> Call A * H) : ends (S := W) (virt operation c).
Proof. apply ends_bind; [apply ends_call|]. intros. apply ends_ret. Qed.

(** Steps that take no time back. *)
Definition clock_from (t : Z) (w : W) : Prop := t <= clock (hw_host w).

Lemma later_call {A} t (c : H -> Call A * H) : reading c -> maintains (clock_from t) (call c).
Proof.
  intros Hc w Ht. destruct (lw_reading A c (hw_host w) Hc) as (_ & _ & Hclock).
  unfold clock_from in *. unfold wp, call. destruct (c (hw_host w)) as [[] h]; simpl in *; lia.
Qed.

Lemma await_stopped_ends fuel d deadline (w : W) b :
  Z.max 0 (deadline - clock (hw_host w)) <= STOP_POLL_NANOS * (Z.of_nat fuel - 1) ->
  (await_stopped fuel d deadline w).1 <> Dropped b.
Proof.
  revert w. induction fuel as [|fuel IH]; intros w Hfuel; [unfold STOP_POLL_NANOS in Hfuel; lia|].
  cbn [await_stopped]. unfold mbind, Fut_bind, on, answer.
  destruct (lw_now (hw_host w)) as (_ & _ & Hnow). destruct (lh_now (hw_host w)) as [t h]. simpl in Hnow.
  destruct (Z.leb_spec deadline t); [done|].
  unfold fut_try, virt, fut_map_err, mbind, Fut_bind, call.
  destruct (lw_reading _ (lh_dom_is_active d) h (reads_dom_is_active d)) as (_ & _ & Hact).
  simpl. destruct (lh_dom_is_active d h) as [[active|e|] h']; simpl in *; try done.
  destruct active; simpl; [|done]. apply IH. simpl.
  destruct (lw_sleep STOP_POLL_NANOS h') as (_ & _ & Hsleep).
  unfold STOP_POLL_NANOS in *. assert (1 <= Z.of_nat fuel) by (destruct fuel; lia). lia.
Qed.

Lemma ends_delete_exact pool key name : ends (S := W) (delete_exact pool key name).
Proof.
  pose proof @ends_virt. pose proof @ends_call. unfold delete_exact, delete_found, free_pool, free_volume. walk_ends.
Qed.

Lemma stop_fuel_enough timeout deadline t :
  deadline <= t + timeout * 1000000000 ->
  Z.max 0 (deadline - t) <= STOP_POLL_NANOS * (Z.of_nat (stop_fuel timeout) - 1).
Proof.
  intros Hd. unfold stop_fuel. set (n := timeout * 1000000000) in *.
  assert (0 < STOP_POLL_NANOS) as Hp by done. pose proof (Z.mul_succ_div_gt n STOP_POLL_NANOS Hp).
  destruct (Z.le_gt_cases 0 n); [|unfold STOP_POLL_NANOS in *; lia].
  assert (0 <= n / STOP_POLL_NANOS) by (apply Z.div_pos; lia). unfold STOP_POLL_NANOS in *. lia.
Qed.

(** A step that takes no time back and ends, before one that needs the time. *)
Lemma wp_later {A} t (c : Fut W A) Q w :
  maintains (clock_from t) c -> ends c -> clock_from t w -> (forall a w', clock_from t w' -> Q a w') ->
  wp c Q (fun _ => False) (fun _ => True) w.
Proof.
  intros Hc He Hw HQ. by eapply wp_mono; [apply (maintains_ends _ c w Hc He Hw)| | |].
Qed.

Lemma wp_ends {A} (c : Fut W A) w : ends c -> wp c (fun _ _ => True) (fun _ => False) (fun _ => True) w.
Proof. intros He. specialize (He w). unfold wp. destruct (c w) as [[|b|] ?]; try done. by apply (He b). Qed.

Lemma later_virt {A} t operation (c : H -> Call A * H) : reading c -> maintains (clock_from t) (virt operation c).
Proof. intros Hc. by apply maintains_map_err, later_call. Qed.

Section waiting.
Context (timeout deadline t : Z) (Hdeadline : deadline <= t + timeout * 1000000000).

Lemma stop_waits d (w : W) :
  clock_from t w ->
  wp (stop (stop_fuel timeout) d deadline) (fun _ _ => True) (fun _ => False) (fun _ => True) w.
Proof.
  intros Hw. unfold stop. apply wp_try. apply (wp_later t); [apply later_virt; by auto with reading|apply ends_virt|done|].
  intros [[]|e] w1 Hw1; simpl; [|by apply wp_ret|done]. apply wp_bind.
  apply (wp_later t); [apply later_call; by auto with reading|apply ends_call|done|]. intros _ w2 Hw2. apply wp_try.
  assert (forall b, (await_stopped (stop_fuel timeout) d deadline w2).1 <> Dropped b) as Hawait.
  { intros b. apply await_stopped_ends, stop_fuel_enough. unfold clock_from in Hw2. lia. }
  unfold wp at 1. destruct (await_stopped _ d deadline w2) as [[[[]|e]|b|] w3]; simpl in *; try done.
  - apply wp_bind. eapply wp_mono; [apply wp_ends, ends_call| |done|done]. intros [[]|e] w4 _; [by apply wp_ret|].
    apply wp_bind. eapply wp_mono; [apply wp_ends, ends_call| |done|done]. intros ? w5 _. by apply wp_ret.
  - by apply (Hawait b).
Qed.

Lemma remove_domain_waits m (w : W) :
  clock_from t w ->
  wp (remove_domain (stop_fuel timeout) m deadline) (fun _ _ => True) (fun _ => False) (fun _ => True) w.
Proof.
  intros Hw. unfold remove_domain. apply wp_bind.
  apply (wp_later t); [apply later_call; by auto with reading|apply ends_call|done|].
  intros [d|e] w1 Hw1; [|by apply wp_ret]. apply wp_try. apply (wp_later t); [| |done|].
  { unfold ensure_domain. repeat first [apply maintains_ret | apply maintains_try
      | progress intros | apply later_virt; by auto with reading]. }
  { pose proof @ends_virt. unfold ensure_domain. walk_ends. }
  intros [[]|e] w2 Hw2; [|done]. apply wp_try. eapply wp_mono; [by apply stop_waits| |done|done].
  intros [[]|e] w3 _; [|done]. pose proof @ends_virt. apply wp_ends. unfold free_domain. walk_ends.
Qed.
End waiting.

(** C39: A cleanup ends: the wait for the guest to stop has room for no more
    sleeps than its fuel, so the helper answers or is killed, and never loops
    past its deadline. *)
Theorem cleanup_request_ends (config : HelperConfig) (m : OwnershipManifest) (timeout_seconds : Z) (w : W) b :
  (cleanup_request config m timeout_seconds w).1 <> Dropped b.
Proof.
  enough (wp (cleanup_request config m timeout_seconds) (fun _ _ => True) (fun _ => False) (fun _ => True) w) as Hwp.
  { unfold wp in Hwp. by destruct (cleanup_request _ _ _ w) as [[] ?]. }
  unfold cleanup_request. apply wp_bind, wp_on, wp_answer.
  destruct (lw_now (hw_host w)) as (_ & _ & Hnow). destruct (lh_now (hw_host w)) as [t h]. simpl in *.
  unfold cleanup. apply wp_try, wp_ret. destruct (as_manifest _); [|done]. apply wp_try, wp_ret.
  destruct (ensure_recovery_artifacts m); [|done]. apply wp_try.
  eapply wp_mono; [apply (remove_domain_waits timeout_seconds _ t); [done|unfold clock_from; simpl; lia]| |done|done].
  intros [[]|e] w1 _; [|done]. apply wp_ends. pose proof ends_delete_exact.
  unfold cleanup_artifacts, delete_artifact. walk_ends.
Qed.
End ending.

(** ** The contracts of the three requests *)

Section contracts.
Context {H : Type} {LH : LibvirtHost H} {LL : LawfulLibvirt H} {PE : ParserErrors} {XC : XmlCodec}.
Context {JC : JsonCodec VolumeCheckpoint} {UC : UuidCodec}.
Local Abbreviation W := (HostWorld H).

Lemma spec_end {A} P (c : Fut W A) (Q : A -> View -> Prop) (I : View -> Prop) w :
  spec P c (fun a v => I v /\ Q a v) I -> P (view w) ->
  I (view (c w).2) /\ forall a, (c w).1 = Done a -> Q a (view (c w).2).
Proof.
  intros Hc HP. specialize (Hc w HP). unfold wp in Hc. destruct (c w) as [[] ?]; simpl; naive_solver.
Qed.

(** A creation touches nothing that was there.  However it ends, every
    volume, domain and document that existed is as it was, and the only things
    that can be new are the manifest's two volumes and its checkpoint; and when
    it succeeds both volumes are there, and its answer and its checkpoint carry
    the keys libvirt gave them. *)
Theorem creation_confined (config : HelperConfig) (request : CreateRequest) (w : W) :
  let m := cr_manifest request in
  let w' := (create_guest_resources config request w).2 in
  adds_only config (fun _ => True) m (view w) (view w') /\
  forall m', (create_guest_resources config request w).1 = Done (Ok m') -> made config m m' (view w').
Proof.
  intros m w'. split.
  - apply (keeps_end _ _ w (create_adds_only config (fun _ => True) (fun v h => answers_any _ h) m (view w) request eq_refl)).
    apply adds_only_refl.
  - intros m' Hok. pose proof (create_makes config m request eq_refl w I) as Hwp. unfold wp in Hwp.
    unfold w'. destruct (create_guest_resources config request w) as [[] w1]; simpl in *; by simplify_eq.
Qed.

(** C7: A cleanup deletes only what its manifest names.  Wherever it stops, the
    domain is gone only if it carried the manifest's name and metadata, volumes
    are gone only after the domain, and only those two, each only while its
    live key agrees with the recorded one; and when it succeeds neither the
    domain nor a volume is left. *)
Theorem cleanup_confined (fuel : nat) (config : HelperConfig) (m : OwnershipManifest) (deadline : Z) (w : W) :
  let w' := (cleanup fuel config m deadline w).2 in
  removes_only config m (view w) (view w') /\
  ((cleanup fuel config m deadline w).1 = Done (Ok tt) -> nothing_left config m (view w')).
Proof.
  intros w'. destruct (spec_end _ _ _ _ w (cleanup_spec config m (view w) fuel deadline) eq_refl) as [HI Hok].
  split; [done|]. intros Hdone. by apply (Hok (Ok tt)).
Qed.

(** A domain is only ever defined fresh, over the manifest's own volumes.
    However the request ends, volumes and documents are as they were and no
    domain that existed is changed; a domain left behind is under the
    manifest's UUID and name, over two volumes that are there under the
    recorded keys; and when it succeeds the definition carries the manifest's
    metadata. *)
Theorem definition_confined (config : HelperConfig) (request : DefineRequest) (w : W) :
  is_safe_name (om_domain_uuid (dr_manifest request)) MAX_SAFE_NAME_BYTES = true ->
  let w' := (define config request w).2 in
  defines_only config request (view w) (view w') /\
  ((define config request w).1 = Done (Ok tt) -> exists def,
     is_domain_of (dr_manifest request) def /\
     domains (hw_host w) !! om_domain_uuid (dr_manifest request) = None /\
     domains (hw_host w') = <[om_domain_uuid (dr_manifest request) := def]> (domains (hw_host w))).
Proof.
  intros Huuid w'. destruct (spec_end _ _ _ _ w (define_steps config request (view w) Huuid) eq_refl) as [HI Hok].
  split; [done|]. intros Hdone. by apply (Hok (Ok tt)).
Qed.
End contracts.

(** ** An executable host *)

Module SimVirt.

Record Host := mkHost {
  h_volumes : gmap (string * string) Volume;
  h_domains : gmap string DomainDef;
  h_clock : Z;
  (** The calls left before the helper is killed. *)
  h_calls : option nat;
  (** The uses of the state directory left before the process dies. *)
  h_turns : option nat;
  (** The bytes of the volumes, what a stream has not given yet, and the
      documents the domains were defined from. *)
  h_contents : gmap (string * string) string;
  h_unread : string;
  h_documents : gmap string string;
  (** The domains that are shut off. *)
  h_stopped : gset string;
}.

#[export] Instance Host_eta : Eta Host := fun h =>
  mkHost (h_volumes h) (h_domains h) (h_clock h) (h_calls h) (h_turns h) (h_contents h) (h_unread h) (h_documents h)
    (h_stopped h).

Definition step {A} (f : Host -> Call A * Host) (h : Host) : Call A * Host :=
  match h_calls h with
  | None => f h
  | Some O => (Killed, h)
  | Some (S n) => f (h <| h_calls := Some n |>)
  end.

Definition refused {A} (code : ErrorNumber) (h : Host) : Call A * Host :=
  (Refused {| ve_code := code; ve_message := "refused" |}, h).

Definition reply {A} (a : A) (h : Host) : Call A * Host := (Answered a, h).

Definition read_volume (xml : string) : option string :=
  rest ← strip_prefix xml "<volume><name>"; fst <$> split_once "<" rest.

Definition read_domain (xml : string) : option (string * string * string) :=
  rest ← strip_prefix xml ("<domain " +:+ attr "type" "kvm" +:+ "><name>");
  named ← split_once "<" rest;
  rest ← strip_prefix (snd named) "/name><uuid>";
  identified ← split_once "<" rest;
  Some (fst named, fst identified, snd identified).

(** What stands in [<metadata>], after the UUID. *)
Definition read_metadata (rest : string) : string :=
  default "" (rest ← strip_prefix rest "/uuid><metadata>"; fst <$> split_once_str "</metadata>" rest).

Definition host_create (pool xml : string) (h : Host) : Call Vol * Host :=
  match read_volume xml with
  | None => refused (OtherError 1) h
  | Some name =>
      match h_volumes h !! (pool, name) with
      | Some _ => refused StorageVolExist h
      | None =>
          let vol := {| v_key := "/" +:+ pool +:+ "/" +:+ name; v_path := "/" +:+ pool +:+ "/" +:+ name;
                        v_capacity := 0 |} in
          (Answered {| vol_pool := pool; vol_name := name; vol_key := v_key vol |},
           h <| h_volumes := <[(pool, name) := vol]> (h_volumes h) |>)
      end
  end.

Definition host_lookup (pool name : string) (h : Host) : Call Vol * Host :=
  match h_volumes h !! (pool, name) with
  | None => refused NoStorageVolume h
  | Some vol => reply {| vol_pool := pool; vol_name := name; vol_key := v_key vol |} h
  end.

Definition host_define (xml : string) (h : Host) : Call Dom * Host :=
  match read_domain xml with
  | None => refused (OtherError 1) h
  | Some (name, uuid, rest) =>
      match h_domains h !! uuid with
      | Some _ => refused (OtherError 2) h
      | None =>
          (Answered {| dom_uuid := uuid; dom_name := name |},
           h <| h_domains := <[uuid := {| dd_name := name; dd_metadata := read_metadata rest |}]> (h_domains h) |>
             <| h_documents := <[uuid := xml]> (h_documents h) |>)
      end
  end.

Definition by_name (name : string) (h : Host) : Call Dom * Host :=
  match List.find (fun d => bool_decide (dd_name (snd d) = name)) (map_to_list (h_domains h)) with
  | None => refused NoDomain h
  | Some (uuid, def) => reply {| dom_uuid := uuid; dom_name := dd_name def |} h
  end.

Definition host_info (v : Vol) (h : Host) : Call VolInfo * Host :=
  match h_volumes h !! (vol_pool v, vol_name v) with
  | None => refused NoStorageVolume h
  | Some vol =>
      reply {| vi_capacity := v_capacity vol;
               vi_allocation := len (default "" (h_contents h !! (vol_pool v, vol_name v))) |} h
  end.

Definition host_path (v : Vol) (h : Host) : Call string * Host :=
  match h_volumes h !! (vol_pool v, vol_name v) with
  | None => refused NoStorageVolume h
  | Some vol => reply (v_path vol) h
  end.

#[export] Instance host : LibvirtHost Host := {
  lh_turn h := match h_turns h with
               | None => (Works, h)
               | Some O => (Stops false, h)
               | Some (S n) => (Works, h <| h_turns := Some n |>)
               end;
  lh_now h := (h_clock h, h);
  lh_sleep d h := h <| h_clock := h_clock h + Z.max 0 d |>;
  lh_unix_time h := (Ok 1700000000, h);
  lh_uuid h := ("9c8f1b1e-52fd-4a86-8c8b-6d0a3c9e1f70", h);
  lh_connect _ := step (reply tt);
  lh_close := step (reply tt);
  lh_pool_lookup name := step (reply name);
  lh_pool_available _ := step (reply 1000000000);
  lh_pool_is_active _ := step (reply true);
  lh_pool_free _ := step (reply tt);
  lh_vol_lookup pool name := step (host_lookup pool name);
  lh_vol_create_xml pool xml := step (host_create pool xml);
  lh_vol_name v := step (reply (vol_name v));
  lh_vol_key v := step (fun h =>
    if len (vol_key v) <=? MAX_ARTIFACT_KEY_BYTES then reply (vol_key v) h else refused (OtherError 3) h);
  lh_vol_path v := step (host_path v);
  lh_vol_info v := step (host_info v);
  lh_vol_delete v := step (fun h => (Answered tt, h <| h_volumes := delete (vol_pool v, vol_name v) (h_volumes h) |>));
  lh_vol_free _ := step (reply tt);
  lh_stream := step (reply 0%nat);
  lh_upload _ _ _ := step (reply tt);
  lh_send _ chunk := step (reply (len chunk));
  lh_finish _ := step (reply tt);
  lh_abort _ := step (reply tt);
  lh_dom_by_uuid uuid := step (fun h =>
    match h_domains h !! uuid with
    | None => refused NoDomain h
    | Some def => reply {| dom_uuid := uuid; dom_name := dd_name def |} h
    end);
  lh_dom_by_name name := step (by_name name);
  lh_dom_define xml := step (host_define xml);
  lh_dom_undefine d := step (fun h => (Answered tt, h <| h_domains := delete (dom_uuid d) (h_domains h) |>
                                                                        <| h_documents := delete (dom_uuid d) (h_documents h) |>));
  lh_dom_create d := step (fun h => reply tt (h <| h_stopped := h_stopped h ∖ {[ dom_uuid d ]} |>));
  lh_dom_is_active d := step (fun h => reply (bool_decide (dom_uuid d ∉ h_stopped h)) h);
  lh_dom_shutdown d := step (fun h => reply tt (h <| h_stopped := {[ dom_uuid d ]} ∪ h_stopped h |>));
  lh_dom_destroy d := step (fun h => reply tt (h <| h_stopped := {[ dom_uuid d ]} ∪ h_stopped h |>));
  lh_dom_name d := step (reply (dom_name d));
  lh_dom_uuid d := step (reply (dom_uuid d));
  lh_dom_metadata d := step (fun h =>
    match h_domains h !! dom_uuid d with
    | None => refused NoDomainMetadata h
    | Some def => reply (dd_metadata def) h
    end);
  lh_dom_free _ := step (reply tt);
}.

(** A step changes nothing but the count, apart from what its call changes. *)
Lemma step_cases {A} (f : Host -> Call A * Host) h :
  step f h = (Killed, h) \/ exists calls, step f h = f (h <| h_calls := calls |>).
Proof.
  unfold step. destruct (h_calls h) as [[|n]|] eqn:E; [by left|right; by eexists|right].
  exists None. by destruct h; simpl in *; subst.
Qed.

Lemma step_answers {A} (f : Host -> Call A * Host) h (P : A -> Host -> Prop) :
  (forall calls, answers f (h <| h_calls := calls |>) P) -> answers (step f) h P.
Proof. intros Hf. unfold answers. by destruct (step_cases f h) as [-> | [calls ->]]; [|apply Hf]. Qed.

Lemma step_refusal {A} (f : Host -> Call A * Host) h (P : ErrorNumber -> Prop) :
  (forall calls, refuses f (h <| h_calls := calls |>) P) -> refuses (step f) h P.
Proof. intros Hf. unfold refuses. by destruct (step_cases f h) as [-> | [calls ->]]; [|apply Hf]. Qed.

Lemma step_state {A} (f : Host -> Call A * Host) h (P : Host -> Prop) :
  P h -> (forall calls, P (f (h <| h_calls := calls |>)).2) -> P (step f h).2.
Proof. intros Hh Hf. by destruct (step_cases f h) as [-> | [calls ->]]; [|apply Hf]. Qed.

Lemma name_has_no_markup name maximum : is_safe_name name maximum = true -> "<"%char ∉ bytes name.
Proof.
  unfold is_safe_name. intros Hs Hin. apply andb_true_iff in Hs as [_ Hs].
  pose proof (all_bytes_elem _ _ _ Hs Hin) as Hp. by vm_compute in Hp.
Qed.

Lemma read_volume_written name rest :
  is_safe_name name MAX_SAFE_NAME_BYTES = true ->
  read_volume ("<volume><name>" +:+ name +:+ "</name>" +:+ rest) = Some name.
Proof.
  intros Hn. unfold read_volume. assert (forall s, strip_prefix ("<volume><name>" +:+ s) "<volume><name>" = Some s) as Hp
    by (intros s; by apply strip_prefix_spec).
  rewrite Hp. cbn [mbind option_bind]. change ("</name>" +:+ rest) with (String "<" ("/name>" +:+ rest)).
  rewrite split_once_app; [done|]. by eapply name_has_no_markup.
Qed.

Lemma read_domain_written name uuid rest :
  is_safe_name name MAX_SAFE_NAME_BYTES = true -> is_safe_name uuid MAX_SAFE_NAME_BYTES = true ->
  read_domain ("<domain " +:+ attr "type" "kvm" +:+ "><name>" +:+ name +:+ "</name><uuid>" +:+ uuid
               +:+ "</uuid>" +:+ rest) = Some (name, uuid, "/uuid>" +:+ rest).
Proof.
  intros Hn Hu. unfold read_domain. set (pre := "<domain " +:+ attr "type" "kvm" +:+ "><name>").
  assert (strip_prefix ("<domain " +:+ attr "type" "kvm" +:+ "><name>" +:+ name +:+ "</name><uuid>" +:+ uuid
    +:+ "</uuid>" +:+ rest) pre = Some (name +:+ String "<" ("/name><uuid>" +:+ uuid +:+ "</uuid>" +:+ rest))) as ->.
  { apply strip_prefix_spec. unfold pre. by rewrite <-!string_app_assoc. }
  cbn [mbind option_bind]. rewrite split_once_app by by eapply name_has_no_markup. cbn [mbind option_bind fst snd].
  assert (forall s, strip_prefix ("/name><uuid>" +:+ s) "/name><uuid>" = Some s) as ->
    by (intros s; by apply strip_prefix_spec).
  cbn [mbind option_bind]. change ("</uuid>" +:+ rest) with (String "<" ("/uuid>" +:+ rest)).
  by rewrite split_once_app by by eapply name_has_no_markup.
Qed.

(** The fields a call leaves alone. *)
Definition same (h h' : Host) : Prop :=
  h_volumes h' = h_volumes h /\ h_domains h' = h_domains h /\ h_clock h <= h_clock h'.

Lemma reading_same A (c : Host -> Call A * Host) h : reading c -> same h (c h).2.
Proof.
  assert (same h h) as Hrefl by (split_and!; [done|done|lia]).
  intros Hc. destruct Hc; apply (step_state _ h (same h)); try done; intros calls;
    unfold same, host_lookup, host_info, host_path, by_name; simpl; repeat case_match; simpl; (split_and!; [done|done|lia]).
Qed.

Lemma by_name_none name h : refuses (by_name name) h (fun code =>
  code = NoDomain -> forall uuid def, h_domains h !! uuid = Some def -> dd_name def <> name).
Proof.
  unfold refuses, by_name. destruct (List.find _ _) as [[uuid def]|] eqn:E; simpl; [done|].
  intros _ uuid def Hdef Hn.
  pose proof (find_none _ _ E (uuid, def)) as Hf. simpl in Hf. rewrite bool_decide_eq_true_2 in Hf by done.
  discriminate Hf. by apply list_elem_of_In, elem_of_map_to_list.
Qed.

Ltac sim := intros; first [apply step_answers | apply step_refusal]; intros calls;
  unfold answers, refuses, host_lookup, host_create, host_define, refused, reply; simpl; repeat case_match; simplify_eq/=; eauto 10.

#[local] Obligation Tactic := idtac.

#[export] Program Instance lawful : LawfulLibvirt Host := {
  volumes := h_volumes;
  domains := h_domains;
  clock := h_clock;
  Virt.read_volume := read_volume;
  Virt.read_domain := fun xml => fst <$> read_domain xml;
}.
Next Obligation. exact read_volume_written. Qed.
Next Obligation. intros name uuid rest Hn Hu. exact (f_equal (fmap fst) (read_domain_written name uuid rest Hn Hu)). Qed.
Next Obligation. intros A c h Hc. exact (reading_same A c h Hc). Qed.
Next Obligation. intros h. simpl. by destruct (h_turns h) as [[]|]. Qed.
Next Obligation. simpl. intros. split_and!; [done|done|lia|lia]. Qed.
Next Obligation. simpl. intros. split_and!; [done|done|lia]. Qed.
Next Obligation. done. Qed.
Next Obligation. done. Qed.
Next Obligation. sim. Qed.
Next Obligation. sim. Qed.
Next Obligation. sim. Qed.
Next Obligation. sim. Qed.
Next Obligation. sim. Qed.
Next Obligation.
  intros pool xml h. simpl. apply (step_state _ h (fun h' => h_domains h' = h_domains h /\ (h_volumes h' = h_volumes h \/
    exists name vol, read_volume xml = Some name /\ h_volumes h !! (pool, name) = None /\
      h_volumes h' = <[(pool, name) := vol]> (h_volumes h)))); [by auto|].
  intros calls. unfold host_create, refused. repeat case_match; simplify_eq/=; eauto 10.
Qed.
Next Obligation. sim. Qed.
Next Obligation.
  intros v h. simpl. by apply (step_state _ h (fun h' => h_domains h' = h_domains h /\ (h_volumes h' = h_volumes h \/
    h_volumes h' = delete (vol_pool v, vol_name v) (h_volumes h)))); auto.
Qed.
Next Obligation. sim. Qed.
Next Obligation. sim. Qed.
Next Obligation. sim. Qed.
Next Obligation. intros name h. apply step_refusal. intros calls. exact (by_name_none name (h <| h_calls := calls |>)). Qed.
Next Obligation. sim. Qed.
Next Obligation. sim. Qed.
Next Obligation. sim. Qed.
Next Obligation.
  intros xml h. simpl. apply (step_state _ h (fun h' => h_volumes h' = h_volumes h /\ (h_domains h' = h_domains h \/
    exists name uuid def, fst <$> read_domain xml = Some (name, uuid) /\ dd_name def = name /\
      (forall old, h_domains h !! uuid = Some old -> dd_name old = name) /\
      h_domains h' = <[uuid := def]> (h_domains h)))); [by auto|].
  intros calls. unfold host_define, refused. destruct (read_domain xml) as [[[name uuid] rest]|]; [|by auto]. simpl.
  destruct (h_domains h !! uuid) as [|] eqn:E; simpl; [by auto|]. split; [done|]. right.
  exists name, uuid, {| dd_name := name; dd_metadata := read_metadata rest |}.
  split_and!; [done|done|congruence|done].
Qed.
Next Obligation.
  intros xml h. apply step_answers. intros calls. unfold answers, host_define, refused. simpl.
  destruct (read_domain xml) as [[[name uuid] rest]|]; [|done]. destruct (h_domains h !! uuid); [done|].
  by exists name, uuid, {| dd_name := name; dd_metadata := read_metadata rest |}.
Qed.
Next Obligation.
  intros d h. simpl. by apply (step_state _ h (fun h' => h_volumes h' = h_volumes h /\ (h_domains h' = h_domains h \/
    h_domains h' = delete (dom_uuid d) (h_domains h)))); auto.
Qed.
Next Obligation. sim. Qed.
Next Obligation.
  intros stream chunk h. apply step_answers. intros calls. unfold answers, reply. pose proof (len_nonneg chunk). lia.
Qed.

(** The attributes of a one-element document. *)
Fixpoint attributes (pieces : list string) : list (string * string) :=
  match pieces with
  | name :: value :: pieces =>
      match rsplit_once " " name with
      | Some (_, name) => (text (removelast (bytes name)), value) :: attributes pieces
      | None => attributes pieces
      end
  | _ => []
  end.

#[export] Instance xml : XmlCodec := {
  xml_root metadata := Some {|
    xe_name := "allocation"; xe_namespace := Some METADATA_URI;
    xe_attributes := attributes (split quote metadata); xe_children := [] |} }.

#[export] Instance errors : ParserErrors := { xml_error _ := "malformed"; json_error _ := "malformed" }.
#[export] Instance uuids : UuidCodec := {| uuid_parse := Some |}.
#[export] Instance checkpoints : JsonCodec VolumeCheckpoint := braced_json VolumeCheckpoint.

Definition id : Uuid := "5a0c1f64-9f52-4f43-8a54-0d9d2f6c8b11".

Definition config : HelperConfig := {|
  hcf_uri := "qemu:///system"; hcf_pool := "flanforge"; hcf_network := "flanforge-ci";
  hcf_state_dir := "/var/lib/flanforge"; hcf_service_instance := id;
  hcf_min_storage_free_bytes := 1; hcf_allow_insecure_transport := false; hcf_is_warm_declared := true |}.

Definition manifest : OwnershipManifest :=
  ownership_new id id "job-1" "9c8f1b1e-52fd-4a86-8c8b-6d0a3c9e1f70" "02:0d:9d:2f:6c:8b"
    (artifact_new ("root-" +:+ id +:+ ".qcow2")) (artifact_new ("seed-" +:+ id +:+ ".img"))
    "flanforge-job-1" (known_hosts_path "/var/lib/flanforge" id) 1700000000.

Definition request : CreateRequest := {|
  cr_manifest := manifest;
  cr_source := {| vp_pool := "flanforge"; vp_volume_name := "base.qcow2";
                  vp_volume_key := "/flanforge/base.qcow2"; vp_virtual_bytes := 1; vp_generation := 1;
                  vp_produced_at_unix := 1 |};
  cr_seed := "seed"; cr_storage_bytes := 1 |}.

Definition world (calls : option nat) : HostWorld Host := {|
  hw_host := mkHost {[ ("flanforge", "base.qcow2") :=
    {| v_key := "/flanforge/base.qcow2"; v_path := "/flanforge/base.qcow2"; v_capacity := 1 |} ]} ∅ 0 calls None ∅ EmptyString ∅ ∅;
  hw_files := ∅;
  hw_dirs := {[ allocation_dir "/var/lib/flanforge" id ]};
  hw_claimed := ∅ |}.
End SimVirt.

(** ** Witnesses *)

Section witnesses.
Import SimVirt.

(** The helper is killed while it creates the seed: the overlay is there, the
    checkpoint names it, and a cleanup that follows leaves nothing. *)
Lemma creation_reversible_witness :
  let w1 := (create_guest_resources config request (world (Some 20%nat))).2 in
  (create_guest_resources config request (world (Some 20%nat))).1 = Crashed /\
  exists m', recovered config manifest m' (hw_files w1) /\
    forall fuel deadline w2, cleanup fuel config m' deadline w1 = (Done (Ok tt), w2) ->
      h_volumes (hw_host w2) = h_volumes (hw_host (world None)) /\
      h_domains (hw_host w2) = delete (om_domain_uuid manifest) ∅.
Proof.
  split; [by vm_compute|].
  destruct (creation_reversible config request (world (Some 20%nat)))
    as [(m' & Hr & Hc)|(bytes & c & role & v & e & Hf & Hp & _ & _ & _ & He)];
    [vm_compute; reflexivity | split; reflexivity | vm_compute; reflexivity | vm_compute; reflexivity
    | vm_compute; reflexivity | |].
  - exists m'. split; [exact Hr|]. intros fuel deadline w2 Hrun. exact (Hc fuel deadline w2 Hrun).
  - exfalso. vm_compute in Hf. injection Hf as <-. vm_compute in Hp. injection Hp as <-.
    vm_compute in He. discriminate.
Defined.

Definition allocated : OwnershipManifest :=
  with_keys manifest (Some ("/flanforge/root-" +:+ id +:+ ".qcow2")) (Some ("/flanforge/seed-" +:+ id +:+ ".img")).

Definition define_request : DefineRequest := {|
  dr_manifest := allocated; dr_cpu_count := 2; dr_memory_mb := 2048 |}.

Lemma definition_confined_witness :
  let w := (create_guest_resources config request (world None)).2 in
  (define config define_request w).1 = Done (Ok tt) /\
  exists def, is_domain_of allocated def /\
    h_domains (hw_host (define config define_request w).2) = <[om_domain_uuid manifest := def]> (h_domains (hw_host w)).
Proof.
  intros w. assert ((define config define_request w).1 = Done (Ok tt)) as Hok by (vm_compute; reflexivity).
  split; [exact Hok|].
  destruct (definition_confined config define_request w) as [_ Hd]; [vm_compute; reflexivity|].
  destruct (Hd Hok) as (def & Hm & _ & Hdom). exists def. split; [exact Hm | exact Hdom].
Defined.
End witnesses.
