(* ===== verification/VirtWorker.v ===== *)
(** * The libvirt worker ([crates/flanforge-runtime-libvirt/src/worker])

    The daemon's side of a libvirt guest: the helper requests it makes
    ([actor/client]), the ownership manifest and the cleanup tombstone it keeps
    on disk ([manifest/]), the creation of an allocation's domain
    ([worker/prepare/boot.rs]) and its removal, by the allocation's own cleanup
    ([worker/{run,cleanup}.rs]) or by the reaper ([worker/reap.rs]).

    The manifest on disk is the only evidence of what an allocation owns on the
    hypervisor; [VirtAuthority] proves what its handling guarantees. *)

From S2P Require Import Prelude Rust Text Identifiers Guest Allocation Config ConfigValidate Convert Admission Reaper Futures Wire Virt VirtSpec.

Open Scope Z_scope.
Open Scope stdpp_scope.

(** ** The daemon's side of a request *)

(** What becomes of a helper the daemon waits for: its reply arrives, it is
    lost to an error of the pipe or to its deadline, the wait around the whole
    request ends, or the daemon dies. *)
Inductive Fate :=
| Received
| Lost (error : RuntimeError)
| Abandoned
| ParentDied.

Class LibvirtDaemon (H : Type) := {
  (** The lock that orders changes, within its timeout. *)
  ld_lock : H -> bool * H;
  ld_spawn : H -> result string unit * H;
  ld_fate : H -> Fate * H;
  ld_cancelled : H -> bool * H;
  (** [RunnerRegistration::delete_runner], under its timeout. *)
  ld_delete_runner : Allocation -> H -> result WorkerError unit * H;
  (** A fresh OpenSSH key pair, private half first. *)
  ld_host_key : H -> result string (string * string) * H;
  (** [AllocationReporter::set_vm_created] and [transition(Booting)]. *)
  ld_report_created : H -> result string unit * H;
  ld_report_booting : H -> result string unit * H;
  (** The order in which a directory's entries are read. *)
  ld_read_dir : list string -> list string;
}.

Definition as_worker (e : RuntimeError) : WorkerError := worker_error_new (runtime_text e).

Record LibvirtWorker := {
  lw_config : HelperConfig;
  lw_instance : Uuid;
  lw_state_dir : PathBuf;
  lw_operator_public_key : option string;
  lw_privileged_public_key : option string;
  lw_guest_user : string;
  (** [guest.privileged_user] of the configuration in force. *)
  lw_privileged_user : string;
}.

Definition inner_timeout_seconds (outer slack maximum_seconds : Z) (operation : string) :
    result RuntimeError Z :=
  let seconds := Z.min ((outer - slack) / 1000000000) maximum_seconds in
  if (slack <=? outer) && (0 <? seconds) then Ok seconds
  else Err (EConfiguration (operation +:+ " timeout cannot reserve parent completion slack")).

Definition CLEANUP_REPLY_SLACK : Z := from_secs LIBVIRT_CLEANUP_PARENT_SLACK_SECONDS.

Section actor.
Context {H : Type} {LH : LibvirtHost H} {LD : LibvirtDaemon H} {PE : ParserErrors} {XC : XmlCodec}.
Context {JC : JsonCodec VolumeCheckpoint} {JR : JsonCodec HelperRequest} {UC : UuidCodec} {WC : WireCodec}.
Context (wk : LibvirtWorker).
Local Abbreviation W := (HostWorld H).
Local Abbreviation config := (lw_config wk).

Definition host {A} (f : H -> A * H) : Fut W A := on hw_host (fun h w => w <| hw_host := h |>) (answer f).

(** [host::execute]: the helper connects, runs the request and disconnects. *)
Definition execute {A} (op : Fut W (result RuntimeError A)) : Fut W (result HelperFailure A) :=
  connected ← call (lh_connect (hcf_uri config));
  match connected with
  | Err error =>
      mret (Err (failure_new HfUnavailable (runtime_text (libvirt_error "connection" (ve_message error)))))
  | Ok _ =>
      reply ← op;
      closed ← call lh_close;
      mret (match map_err helper_failure reply, closed with
            | reply, Ok _ => reply
            | Err failure, Err _ => Err failure
            | Ok _, Err error =>
                Err (failure_new HfLibvirt (runtime_text (libvirt_error "connection close" (ve_message error))))
            end)
  end.

(** The helper process around it: a reply that does not arrive is an error. *)
Definition run_helper {A} (op : Fut W (result RuntimeError A)) : Fut W (result RuntimeError A) :=
  spawned ← host ld_spawn;
  match spawned return Fut W (result RuntimeError A) with
  | Err message => mret (Err (helper_error message))
  | Ok _ => fun w =>
      let '(ended, w) := execute op w in
      let '(fate, h) := ld_fate (hw_host w) in
      let w := w <| hw_host := h |> in
      match fate, ended with
      | ParentDied, _ => (Crashed, w)
      | Abandoned, _ => (Dropped false, w)
      | Lost error, _ => (Done (Err error), w)
      | Received, Done reply => (Done (map_err from_helper reply), w)
      | Received, _ => (Done (Err EDeadline), w)
      end
  end.

(** [LibvirtActor::request_with] and [dispatch]. *)
Definition request_with {A} (timeout : Z) (build : Z -> result RuntimeError (HelperRequest * Fut W (result RuntimeError A))) :
    Fut W (result RuntimeError A) :=
  started ← host lh_now;
  locked ← host ld_lock;
  if negb locked then mret (Err EDeadline)
  else
    now ← host lh_now;
    let remaining := started + timeout - now in
    if remaining <=? 0 then mret (Err EDeadline)
    else
      built ←! mret (build remaining);
      _ ←! mret (map_err (fun e => helper_error (wire_text e)) (encode_request (fst built)));
      run_helper (snd built).

Definition actor_cleanup (m : OwnershipManifest) (timeout : Z) : Fut W (result RuntimeError unit) :=
  request_with timeout (fun remaining =>
    seconds ← inner_timeout_seconds remaining CLEANUP_REPLY_SLACK 600 "cleanup";
    Ok (HCleanup config m seconds, cleanup_request config m seconds)).

Definition actor_create (request : CreateRequest) (timeout : Z) : Fut W (result RuntimeError OwnershipManifest) :=
  request_with timeout (fun _ =>
    Ok (HCreate config (cr_manifest request) (cr_source request) (cr_seed request) (cr_storage_bytes request),
        create_guest_resources config request)).

Definition actor_define (request : DefineRequest) (timeout : Z) : Fut W (result RuntimeError unit) :=
  request_with timeout (fun _ =>
    Ok (HDefine config (dr_manifest request) (dr_cpu_count request) (dr_memory_mb request),
        define config request)).

Definition actor_start (m : OwnershipManifest) (timeout : Z) : Fut W (result RuntimeError unit) :=
  request_with timeout (fun _ => Ok (HStart config m, start m)).
End actor.

(** ** The pool's claims ([worker/hot/pool.rs]) *)

Section claims.
Context {H : Type}.
Local Abbreviation W := (HostWorld H).

Definition ensure_claimed (name : VmName) : Fut W unit :=
  answer (fun w => (tt, w <| hw_claimed := {[ name ]} ∪ hw_claimed w |>)).
Definition is_claimed (name : VmName) : Fut W bool :=
  answer (fun w => (bool_decide (name ∈ hw_claimed w), w)).
Definition release (name : VmName) : Fut W unit :=
  answer (fun w => (tt, w <| hw_claimed := hw_claimed w ∖ {[ name ]} |>)).
End claims.

(** ** The seed ([seed/build.rs])

    Serializers and the FAT image are libraries; the document that goes into
    it is the code's. *)

Record SshKeys := { sk_ed25519_private : string; sk_ed25519_public : string }.
Record WriteFile := { wf_path : string; wf_owner : string; wf_permissions : string; wf_content : string }.

Record CloudConfig := {
  cc_ssh_deletekeys : bool;
  cc_ssh_genkeytypes : list string;
  cc_ssh_keys : option SshKeys;
  cc_write_files : list WriteFile;
  cc_bootcmd : list (list string);
}.

Record Metadata := { md_instance_id : string; md_local_hostname : string }.
Record SeedBundle := { sb_image : string; sb_host_key_alias : string; sb_known_hosts : string }.

Class SeedFormats := {
  yaml_of : CloudConfig -> result string string;
  metadata_of : Metadata -> result string string;
  (** A [CIDATA] volume with these [meta-data] and [user-data]. *)
  fat_image : string -> string -> result string string;
}.

Definition DISABLE_SSHD : string :=
  "systemctl stop sshd.service sshd.socket >/dev/null 2>&1 || true; systemctl --runtime mask sshd.service sshd.socket".

Definition newline : string := text [ascii_of_nat 10].

Definition seed_error (message : string) : RuntimeError := ESeed (safe_message message).

Definition authorized_keys (user content : string) : WriteFile := {|
  wf_path := "/home/" +:+ user +:+ "/.ssh/authorized_keys";
  wf_owner := user +:+ ":" +:+ user;
  wf_permissions := "0600";
  wf_content := content |}.

Definition cloud_config (host_key : option (string * string)) (authorized_key : option string)
    (guest_user privileged_user : string) (privileged_key : option string) : CloudConfig := {|
  cc_ssh_deletekeys := true;
  cc_ssh_genkeytypes := [];
  cc_ssh_keys := (fun '(private, public) =>
    {| sk_ed25519_private := private; sk_ed25519_public := public |}) <$> host_key;
  cc_write_files :=
    option_list (authorized_keys guest_user <$> authorized_key)
    ++ option_list (authorized_keys privileged_user <$> (_ ← authorized_key; privileged_key));
  cc_bootcmd :=
    if bool_decide (is_Some authorized_key) then []
    else [["cloud-init-per"; "once"; "flanforge-no-sshd"; "sh"; "-c"; DISABLE_SSHD]] |}.

Section seeds.
Context {H : Type} {LD : LibvirtDaemon H} {SF : SeedFormats}.
Local Abbreviation W := (HostWorld H).

Definition build_seed (allocation_id hostname : string) (authorized_key : option string)
    (guest_user privileged_user : string) (privileged_key : option string) :
    Fut W (result RuntimeError SeedBundle) :=
  host_key ←! match authorized_key return Fut W (result RuntimeError (option (string * string))) with
              | Some _ => generated ← host ld_host_key; mret (Some <$> map_err seed_error generated)
              | None => mret (Ok None)
              end;
  let cloud := cloud_config host_key authorized_key guest_user privileged_user privileged_key in
  user_data ←! mret (map_err seed_error (yaml_of cloud));
  meta_data ←! mret (map_err seed_error (metadata_of
    {| md_instance_id := allocation_id; md_local_hostname := replace "_" "-" hostname |}));
  image ←! mret (map_err seed_error (fat_image meta_data ("#cloud-config" +:+ newline +:+ user_data)));
  let alias := "flanforge-" +:+ allocation_id in
  mret (Ok {|
    sb_image := image;
    sb_host_key_alias := alias;
    sb_known_hosts := match host_key with
                      | Some (_, public) => alias +:+ " " +:+ public +:+ newline
                      | None => ""
                      end |}).
End seeds.

(** ** The manifest and the tombstone on disk
    ([manifest/ownership/{io,model}.rs], [manifest/{state,cleanup}.rs]) *)

Section documents.
Context {H : Type} {LH : LibvirtHost H} {PE : ParserErrors} {UC : UuidCodec}.
Context {JO : JsonCodec OwnershipManifest} {JT : JsonCodec CleanupTombstone}.
Local Abbreviation W := (HostWorld H).

Definition load_ownership (path : PathBuf) : Fut W (result RuntimeError OwnershipManifest) :=
  found ←! read_private_bounded_regular_optional path MAX_OWNERSHIP_MANIFEST_BYTES "ownership manifest";
  mret (match found with
        | None => Err EManifestNotFound
        | Some bytes =>
            if is_empty bytes then Err (manifest_error "ownership manifest is empty")
            else
              m ← ok_or (json_parse bytes) (manifest_error (json_error bytes));
              _ ← as_manifest (ensure_ownership_valid m);
              Ok m
        end).

Definition save_ownership (m : OwnershipManifest) (path : PathBuf) : Fut W (result RuntimeError unit) :=
  _ ←! mret (as_manifest (ensure_ownership_valid m));
  if MAX_OWNERSHIP_MANIFEST_BYTES <? len (to_json m)
  then mret (Err (manifest_error "ownership manifest is oversized"))
  else
    directory ←! mret (ok_or (parent path) (manifest_error "ownership path has no parent"));
    _ ←! ensure_private_directory "allocation state path is not a private directory" directory;
    on_file (change (fun files => <[path := to_json m]> files)).

Definition create_private_directory (path : PathBuf) : Fut W (result RuntimeError unit) := fun w =>
  let '(turn, h) := lh_turn (hw_host w) in
  let exists_already := bool_decide (path ∈ hw_dirs w) || bool_decide (is_Some (hw_files w !! path)) in
  let has_parent := from_option (fun p => bool_decide (p ∈ hw_dirs w)) false (parent path) in
  let after applied :=
    let w := w <| hw_host := h |> in
    if (applied : bool) && has_parent && negb exists_already then w <| hw_dirs := {[ path ]} ∪ hw_dirs w |> else w in
  match turn with
  | Works => if negb has_parent then (Done (Err (manifest_error NOT_FOUND)), after false)
             else if exists_already then (Done (Err (manifest_error FILE_EXISTS)), after false)
             else (Done (Ok tt), after true)
  | Fails applied message => (Done (Err (manifest_error message)), after applied)
  | Stops applied => (Crashed, after applied)
  end.

Definition write_known_hosts (path : PathBuf) (contents : string) : Fut W (result RuntimeError unit) :=
  directory ←! mret (ok_or (parent path) (manifest_error "host-key anchor has no parent directory"));
  exists_already ←! on_file (look (fun files _ => bool_decide (is_Some (files !! path))));
  if exists_already : bool then mret (Err (manifest_error FILE_EXISTS))
  else
    _ ←! on_file (change (fun files => <[path := ""]> files));
    _ ←! on_file (change (fun files => <[path := contents]> files));
    on_file (sync_directory directory).

(** The last five of a UUID's sixteen bytes. *)
Definition mac_for (allocation_id : Uuid) : string :=
  let tail := drop (length (bytes allocation_id) - 10) (bytes allocation_id) in
  let octet i := text (take 2 (drop (2 * i) tail)) in
  "02:" +:+ octet 0%nat +:+ ":" +:+ octet 1%nat +:+ ":" +:+ octet 2%nat +:+ ":" +:+ octet 3%nat +:+ ":" +:+ octet 4%nat.

Definition intent_for (allocation_id : Uuid) (vm_name : VmName) (instance : Uuid) (state_dir : PathBuf)
    (host_key_alias : string) : Fut W (result RuntimeError OwnershipManifest) :=
  artifact_id ← host lh_uuid;
  domain_uuid ← host lh_uuid;
  now ← host lh_unix_time;
  seconds ←! mret (map_err manifest_error now);
  let m := ownership_new allocation_id instance vm_name domain_uuid (mac_for allocation_id)
             (artifact_new ("root-" +:+ artifact_id +:+ ".qcow2"))
             (artifact_new ("seed-" +:+ artifact_id +:+ ".img"))
             host_key_alias (known_hosts_path state_dir allocation_id) seconds in
  _ ←! mret (as_manifest (ensure_ownership_valid m));
  mret (Ok m).

Definition ensure_matches (m : OwnershipManifest) (allocation_id : Uuid) (vm_name : VmName) (instance : Uuid)
    (state_dir : PathBuf) : result RuntimeError unit :=
  _ ← as_manifest (ensure_ownership_valid m);
  if negb (bool_decide (om_allocation_id m = allocation_id))
     || negb (bool_decide (om_domain_name m = vm_name))
     || negb (bool_decide (om_service_instance m = instance))
     || negb (bool_decide (om_known_hosts_file m = known_hosts_path state_dir allocation_id))
  then Err (ownership_error "durable allocation and libvirt manifest disagree")
  else ensure_recovery_artifacts m.

Definition ensure_reapable (m : OwnershipManifest) (allocation_id : Uuid) (vm_name : VmName)
    (state_dir : PathBuf) : result RuntimeError unit :=
  _ ← as_manifest (ensure_ownership_valid m);
  if negb (bool_decide (om_allocation_id m = allocation_id))
     || negb (bool_decide (om_domain_name m = vm_name))
     || negb (bool_decide (om_known_hosts_file m = known_hosts_path state_dir allocation_id))
  then Err (ownership_error "durable allocation and libvirt manifest disagree")
  else ensure_recovery_artifacts m.

Definition read_cleanup (path : PathBuf) : Fut W (result RuntimeError (option CleanupTombstone)) :=
  found ←! read_private_bounded_regular_optional path MAX_CLEANUP_TOMBSTONE_BYTES "cleanup tombstone";
  mret (match found with
        | None => Ok None
        | Some bytes => Some <$> as_manifest (parse_tombstone bytes)
        end).

Definition load_cleanup (state_dir : PathBuf) (allocation_id : Uuid) :
    Fut W (result RuntimeError (option CleanupTombstone)) :=
  read_cleanup (cleanup_path state_dir allocation_id).

Definition ensure_cleanup_matches (t : CleanupTombstone) (allocation_id : Uuid) (vm_name : VmName)
    (instance : Uuid) : result RuntimeError unit :=
  _ ← as_manifest (ensure_tombstone_valid t);
  if negb (bool_decide (ct_allocation_id t = allocation_id))
     || negb (bool_decide (ct_domain_name t = vm_name))
     || negb (bool_decide (ct_service_instance t = instance))
  then Err (ownership_error "cleanup tombstone and durable allocation disagree")
  else Ok tt.

Definition ensure_matches_manifest (t : CleanupTombstone) (m : OwnershipManifest) : result RuntimeError unit :=
  if negb (bool_decide (ct_allocation_id t = om_allocation_id m))
     || negb (bool_decide (ct_service_instance t = om_service_instance m))
     || negb (bool_decide (ct_domain_name t = om_domain_name m))
     || negb (bool_decide (ct_domain_uuid t = om_domain_uuid m))
  then Err (ownership_error "cleanup tombstone and ownership manifest disagree")
  else Ok tt.

(** The link that puts the tombstone in its place never replaces one. *)
Definition record_cleanup (state_dir : PathBuf) (m : OwnershipManifest) : Fut W (result RuntimeError CleanupTombstone) :=
  let directory := allocation_dir state_dir (om_allocation_id m) in
  let path := cleanup_path state_dir (om_allocation_id m) in
  _ ←! ensure_private_directory "allocation state path is not a private directory" directory;
  existing ←! read_cleanup path;
  match existing with
  | Some existing =>
      _ ←! mret (ensure_matches_manifest existing m);
      mret (Ok existing)
  | None =>
      now ← host lh_unix_time;
      seconds ←! mret (map_err manifest_error now);
      let tombstone := tombstone_new (om_allocation_id m) (om_service_instance m) (om_domain_name m)
                         (om_domain_uuid m) seconds in
      bytes ←! mret (as_manifest (encode_tombstone tombstone));
      _ ←! on_file (change (fun files =>
             if bool_decide (is_Some (files !! path)) then files else <[path := bytes]> files));
      _ ←! on_file (sync_directory directory);
      mret (Ok tombstone)
  end.
End documents.

(** ** Cleaning up ([worker/cleanup.rs]) *)

Inductive GuestCleanup :=
| GcEmpty
| GcOwned (m : OwnershipManifest)
| GcTombstoned.

Section worker.
Context {H : Type} {LH : LibvirtHost H} {LD : LibvirtDaemon H} {PE : ParserErrors} {XC : XmlCodec}.
Context {JC : JsonCodec VolumeCheckpoint} {JR : JsonCodec HelperRequest}.
Context {JO : JsonCodec OwnershipManifest} {JT : JsonCodec CleanupTombstone} {SF : SeedFormats}.
Context {UC : UuidCodec} {WC : WireCodec} (wk : LibvirtWorker).
Local Abbreviation W := (HostWorld H).
Local Abbreviation state_dir := (lw_state_dir wk).

(** [?] of a [RuntimeError] in a function that answers a [WorkerError]. *)
Definition into_worker {A} (c : Fut W (result RuntimeError A)) : Fut W (result WorkerError A) :=
  fut_map_err as_worker c.

Definition cleanup_guest (a : Allocation) (timeout : Z) : Fut W (result WorkerError GuestCleanup) :=
  let id := a_id a in
  loaded ← load_ownership (ownership_path state_dir id);
  match loaded with
  | Err EManifestNotFound =>
      if negb (a_vm_created a) then
        checkpoint ←! into_worker (load_checkpoint (allocation_path state_dir id));
        match checkpoint with
        | Some _ => mret (Err (worker_error_new "volume checkpoint exists without allocation ownership"))
        | None => mret (Ok GcEmpty)
        end
      else
        loaded ←! into_worker (load_cleanup state_dir id);
        tombstone ←! mret (ok_or loaded
          (worker_error_new "ownership authority is absent for a created libvirt guest"));
        _ ←! into_worker (mret (ensure_cleanup_matches tombstone id (a_vm_name a) (lw_instance wk)));
        _ ←! into_worker (remove_checkpoint (allocation_path state_dir id));
        mret (Ok GcTombstoned)
  | Err error => mret (Err (as_worker error))
  | Ok m =>
      _ ←! into_worker (mret (ensure_matches m id (a_vm_name a) (lw_instance wk) state_dir));
      checkpoint ←! into_worker (load_checkpoint (allocation_path state_dir id));
      m ←! match checkpoint with
           | None => mret (Ok m)
           | Some checkpoint =>
               m ←! into_worker (mret (merge_allocation checkpoint m (lw_instance wk) (hcf_pool (lw_config wk))));
               _ ←! into_worker (save_ownership m (ownership_path state_dir id));
               mret (Ok m)
           end;
      _ ←! into_worker (actor_cleanup wk m timeout);
      mret (Ok (GcOwned m))
  end.

(** One file of the loop in [remove_authority_files]. *)
Definition remove_state_file (path : PathBuf) : Fut W (result WorkerError unit) :=
  found ←! fut_map_err (fun _ => worker_error_new "cannot inspect allocation state")
             (look (fun files dirs => (bool_decide (is_Some (files !! path)), bool_decide (path ∈ dirs))));
  match found with
  | (true, _) =>
      fut_map_err (fun _ => worker_error_new "cannot remove allocation state file") (change (delete path))
  | (false, true) => mret (Err (worker_error_new "refusing to remove non-file allocation state"))
  | (false, false) => mret (Ok tt)
  end.

Definition remove_authority_files (allocation_id : Uuid) : Fut W (result WorkerError unit) :=
  let directory := allocation_dir state_dir allocation_id in
  found ←! fut_map_err (fun _ => worker_error_new "cannot inspect allocation state")
             (look (fun files dirs => (bool_decide (directory ∈ dirs), bool_decide (is_Some (files !! directory)))));
  match found with
  | (false, true) => mret (Err (worker_error_new "allocation state path is not a directory"))
  | (false, false) => mret (Ok tt)
  | (true, _) =>
      _ ←! remove_state_file (join directory "known_hosts");
      _ ←! remove_state_file (join directory "ownership.json");
      _ ←! remove_state_file (join directory "volume-checkpoint.json");
      fut_map_err (fun _ => worker_error_new "cannot sync allocation state") (sync_directory directory)
  end.

(** [remove_dir]: a directory with anything left in it stays. *)
Definition remove_dir (path : PathBuf) : Fut W (result string bool) := fun w =>
  let '(turn, h) := lh_turn (hw_host w) in
  let is_child p := bool_decide (parent p = Some path) in
  let has_children := existsb is_child ((map_to_list (hw_files w)).*1 ++ elements (hw_dirs w)) in
  let after applied :=
    let w := w <| hw_host := h |> in
    if (applied : bool) && negb has_children then w <| hw_dirs := hw_dirs w ∖ {[ path ]} |> else w in
  match turn with
  | Works =>
      if negb (bool_decide (path ∈ hw_dirs w)) then (Done (Ok false), after false)
      else if has_children then (Done (Err "Directory not empty (os error 39)"), after false)
      else (Done (Ok true), after true)
  | Fails applied message => (Done (Err message), after applied)
  | Stops applied => (Crashed, after applied)
  end.

Definition remove_empty_local_state (allocation_id : Uuid) : Fut W (result WorkerError unit) :=
  let directory := allocation_dir state_dir allocation_id in
  _ ←! remove_authority_files allocation_id;
  removed ←! fut_map_err (fun _ => worker_error_new "allocation state directory is not empty") (remove_dir directory);
  if removed : bool then
    parent ←! mret (ok_or (parent directory) (worker_error_new "allocation state has no parent"));
    fut_map_err (fun _ => worker_error_new "cannot sync allocation state") (sync_directory parent)
  else mret (Ok tt).

Definition finalize_local_state (allocation_id : Uuid) (outcome : GuestCleanup) : Fut W (result WorkerError unit) :=
  match outcome with
  | GcTombstoned => mret (Ok tt)
  | GcOwned m =>
      _ ←! into_worker (record_cleanup state_dir m);
      remove_authority_files allocation_id
  | GcEmpty => remove_empty_local_state allocation_id
  end.

(** ** The worker's calls ([worker/{run,reap}.rs]) *)

Definition finish_cleanup (allocation_id : Uuid) (guest : result WorkerError GuestCleanup)
    (runner : result WorkerError unit) : Fut W (result WorkerError unit) :=
  match guest with
  | Err error => mret (Err error)
  | Ok GcTombstoned => mret (Ok tt)
  | Ok guest => _ ←! mret runner; finalize_local_state allocation_id guest
  end.

(** [cleanup]; the runner's deletion touches none of this state, so the two
    joined halves run in turn. *)
Definition worker_cleanup (a : Allocation) (budget : CleanupBudget) : Fut W (result WorkerError unit) :=
  claimed ← (if is_hot_reuse (a_origin a) then mret true else is_claimed (a_vm_name a));
  if claimed : bool then
    timed (worker_error_new "Forgejo cleanup exceeded its timeout") (host (ld_delete_runner a))
  else
    let slack := from_secs LIBVIRT_CLEANUP_PARENT_SLACK_SECONDS in
    now ← host lh_now;
    let guard := limit now budget (cb_allowance budget + slack) in
    guest ← timed (worker_error_new "libvirt cleanup exceeded its timeout")
              (cleanup_guest a (sat_sub guard slack));
    runner ← timed (worker_error_new "Forgejo cleanup exceeded its timeout") (host (ld_delete_runner a));
    finish_cleanup (a_id a) guest runner.

Definition load_owned (allocation_id : Uuid) : Fut W (result WorkerError OwnershipManifest) :=
  into_worker (load_ownership (ownership_path state_dir allocation_id)).

Definition ensure_reaped (allocation_id : Uuid) (name : VmName) (budget : CleanupBudget)
    (registration : option Allocation) : Fut W (result WorkerError unit) :=
  m ←! load_owned allocation_id;
  _ ←! into_worker (mret (ensure_reapable m allocation_id name state_dir));
  now ← host lh_now;
  let budget := Reaper.at_least budget (from_secs LIBVIRT_MIN_CLEANUP_TIMEOUT_SECONDS) in
  _ ←! into_worker (actor_cleanup wk m (Reaper.timeout now budget));
  _ ← match registration with
      | Some a => host (ld_delete_runner a)
      | None => mret (Ok tt)
      end;
  _ ←! into_worker (record_cleanup state_dir m);
  remove_authority_files allocation_id.

(** [find_by_domain]: the entries still to scan, and how many were. *)
Fixpoint find_among (domain_name : string) (entries : list string) (scanned : Z) :
    Fut W (result RuntimeError Uuid) :=
  match entries with
  | [] => mret (Err (ownership_error "no libvirt ownership manifest claims that domain"))
  | entry :: entries =>
      if 4096 <? scanned + 1
      then mret (Err (manifest_error "libvirt state holds too many allocations to search"))
      else match uuid_parse entry with
      | None => find_among domain_name entries (scanned + 1)
      | Some allocation_id =>
          loaded ← load_ownership (ownership_path state_dir allocation_id);
          match loaded with
          | Ok m =>
              if bool_decide (om_domain_name m = domain_name) then mret (Ok allocation_id)
              else find_among domain_name entries (scanned + 1)
          | Err _ => find_among domain_name entries (scanned + 1)
          end
      end
  end.

Definition find_by_domain (domain_name : string) : Fut W (result RuntimeError Uuid) :=
  let allocations := lsp_allocations (libvirt_state_paths state_dir) in
  listed ←! on_file (look (fun files dirs =>
    (bool_decide (allocations ∈ dirs),
     omap (fun p => match rsplit_once "/" p with
                    | Some (directory, name) => if bool_decide (directory = allocations) then Some name else None
                    | None => None
                    end) ((map_to_list files).*1 ++ elements dirs))));
  if negb (fst listed) then mret (Err (manifest_error NOT_FOUND))
  else find_among domain_name (ld_read_dir (snd listed)) 0.

Definition reapable_allocation (authorization : ReapAuthorization) (name : VmName) :
    Fut W (result WorkerError Uuid) :=
  match authorization with
  | ByRecord allocation_id => mret (Ok allocation_id)
  | ByPrefix => into_worker (find_by_domain name)
  | ByStaging _ | ByImage _ =>
      mret (Err (worker_error_new "libvirt retires images on the sweep, never through a deletion"))
  end.

Definition delete_vm (request : ReapRequest) : Fut W (result WorkerError unit) :=
  if bool_decide (rr_name request ∈ rr_reserved request)
  then mret (Err (worker_error_new "refusing to delete a name live configuration claims"))
  else
    allocation_id ←! reapable_allocation (rr_authorization request) (rr_name request);
    ensure_reaped allocation_id (rr_name request) (rr_budget request) (rr_allocation request).

Definition evict_hot (name : VmName) (budget : CleanupBudget) : Fut W (result WorkerError unit) :=
  _ ← release name;
  allocation_id ←! into_worker (find_by_domain name);
  ensure_reaped allocation_id name budget None.

(** ** Booting a domain ([worker/prepare.rs], [worker/prepare/boot.rs]) *)

Definition ensure_not_cancelled (boundary : string) : Fut W (result WorkerError unit) :=
  cancelled ← host ld_cancelled;
  mret (if cancelled : bool then Err (worker_error_new ("allocation was cancelled " +:+ boundary)) else Ok tt).

Definition remaining (deadline : Z) : Fut W (result WorkerError Z) :=
  now ← host lh_now;
  mret (if 0 <? deadline - now then Ok (deadline - now)
        else Err (worker_error_new "libvirt preparation exceeded its timeout")).

Definition persist_or_cleanup (m : OwnershipManifest) (manifest_path : PathBuf) (allocation_id : Uuid)
    (deadline : Z) : Fut W (result WorkerError unit) :=
  saved ← save_ownership m manifest_path;
  match saved with
  | Ok _ => into_worker (remove_checkpoint (allocation_path state_dir allocation_id))
  | Err error =>
      rest ← remaining deadline;
      let rest := match rest with Ok rest => rest | Err _ => 0 end in
      cleanup ← actor_cleanup wk m (Z.max rest (from_secs LIBVIRT_MIN_CLEANUP_TIMEOUT_SECONDS));
      _ ← (if is_ok cleanup then remove_checkpoint (allocation_path state_dir allocation_id)
           else mret (Ok tt));
      mret (Err (as_worker error))
  end.

Definition boot_domain (a : Allocation) (size : GuestSize) (source : VolumePointer) (storage_bytes deadline : Z) :
    Fut W (result WorkerError OwnershipManifest) :=
  let id := a_id a in
  seed ←! into_worker (build_seed id (a_vm_name a) (lw_operator_public_key wk) (lw_guest_user wk)
                         (lw_privileged_user wk) (lw_privileged_public_key wk));
  _ ←! into_worker (create_private_directory (allocation_dir state_dir id));
  m ←! into_worker (intent_for id (a_vm_name a) (lw_instance wk) state_dir (sb_host_key_alias seed));
  _ ←! into_worker (write_known_hosts (om_known_hosts_file m) (sb_known_hosts seed));
  let manifest_path := ownership_path state_dir id in
  _ ←! into_worker (save_ownership m manifest_path);
  _ ←! ensure_not_cancelled "before guest resource creation";
  rest ←! remaining deadline;
  m ←! into_worker (actor_create wk {| cr_manifest := m; cr_source := source; cr_seed := sb_image seed;
                                       cr_storage_bytes := storage_bytes |} rest);
  _ ←! persist_or_cleanup m manifest_path id deadline;
  _ ←! ensure_not_cancelled "after guest resource creation";
  rest ←! remaining deadline;
  _ ←! into_worker (actor_define wk {| dr_manifest := m; dr_cpu_count := cpu_count size;
                                       dr_memory_mb := memory_mb size |} rest);
  reported ← host ld_report_created;
  _ ←! mret (map_err worker_error_new reported);
  _ ←! ensure_not_cancelled "after domain definition";
  reported ← host ld_report_booting;
  _ ←! mret (map_err worker_error_new reported);
  rest ←! remaining deadline;
  _ ←! into_worker (actor_start wk m rest);
  mret (Ok m).
End worker.
