(* ===== verification/VirtAuthority.v ===== *)
(** * The authority over a libvirt guest

    What the handling of the ownership manifest guarantees
    ([crates/flanforge-runtime-libvirt/src/worker]), over any lawful hypervisor
    and through every failed call, killed helper, elapsed timeout and crash:

    - [boot_authorized]: a domain or volume a boot made is named by the manifest
      on disk;
    - [authority_kept]: a teardown gives the manifest up only once nothing it
      names is left;
    - [pooled_guest_survives]: cleaning up after a pooled guest touches nothing;
    - [orphan_checkpoint_stuck]: a checkpoint that outlives its manifest makes
      every later cleanup of an unfinished creation an error. *)

From S2P Require Import Prelude Rust Text Identifiers Guest Allocation Config ConfigValidate Convert Admission Reaper Futures Wire Virt VirtSpec VirtWorker.

Open Scope Z_scope.
Open Scope stdpp_scope.

(** The daemon's own steps touch neither volumes nor domains, and a fresh UUID
    is written in hexadecimal digits and hyphens. *)
Definition quiet {H A} {LH : LibvirtHost H} {LL : LawfulLibvirt H} (f : H -> A * H) : Prop :=
  forall h, volumes (f h).2 = volumes h /\ domains (f h).2 = domains h.

Class LawfulDaemon (H : Type) {LH : LibvirtHost H} {LL : LawfulLibvirt H} {LD : LibvirtDaemon H} := {
  ld_quiet_lock : quiet ld_lock;
  ld_quiet_spawn : quiet ld_spawn;
  ld_quiet_fate : quiet ld_fate;
  ld_quiet_cancelled : quiet ld_cancelled;
  ld_quiet_delete_runner a : quiet (ld_delete_runner a);
  ld_quiet_host_key : quiet ld_host_key;
  ld_quiet_report_created : quiet ld_report_created;
  ld_quiet_report_booting : quiet ld_report_booting;
  ld_uuid_safe h : is_safe_name (lh_uuid h).1 MAX_SAFE_NAME_BYTES = true;
}.

#[export] Hint Resolve ld_quiet_lock ld_quiet_spawn ld_quiet_fate ld_quiet_cancelled ld_quiet_delete_runner
  ld_quiet_host_key ld_quiet_report_created ld_quiet_report_booting : keeps.

(** ** Paths *)

Lemma join_suffix p n : exists q, join p n = q +:+ n.
Proof.
  unfold join. case_match; [by exists p|]. exists (p +:+ "/"). by rewrite <-!string_app_assoc.
Qed.

(** The last eleven characters of a name, as long as the shortest of them. *)
Definition ending (n : string) : list ascii := take 11 (reverse (bytes n)).

Lemma join_ending p n : (11 <= length (bytes n))%nat -> ending (join p n) = ending n.
Proof.
  intros Hlen. destruct (join_suffix p n) as [q ->]. unfold ending. rewrite bytes_app, reverse_app.
  by rewrite take_app_le by (rewrite length_reverse; lia).
Qed.

(** Documents of different names never share a path. *)
Lemma join_ne p q n k :
  (11 <= length (bytes n))%nat -> (11 <= length (bytes k))%nat -> ending n <> ending k -> join p n <> join q k.
Proof. intros Hn Hk Hne E. apply (f_equal ending) in E. by rewrite !join_ending in E. Qed.

Ltac solve_path_ne := apply join_ne; vm_compute; first [lia | congruence].

Lemma checkpoint_not_ownership d e id id' : allocation_path d id <> ownership_path e id'.
Proof. solve_path_ne. Qed.
Lemma known_hosts_not_ownership d e id id' : known_hosts_path d id <> ownership_path e id'.
Proof. solve_path_ne. Qed.
Lemma tombstone_not_ownership d e id id' : cleanup_path d id <> ownership_path e id'.
Proof. solve_path_ne. Qed.

(** ** Requests *)

Section requests.
Context {H : Type} {LH : LibvirtHost H} {LL : LawfulLibvirt H} {LD : LibvirtDaemon H} {LW : LawfulDaemon H}.
Context {PE : ParserErrors} {XC : XmlCodec} {JC : JsonCodec VolumeCheckpoint} {JR : JsonCodec HelperRequest}.
Context {JO : JsonCodec OwnershipManifest} {JT : JsonCodec CleanupTombstone} {SF : SeedFormats}.
Context {UC : UuidCodec} {WC : WireCodec} (wk : LibvirtWorker).
Local Abbreviation W := (HostWorld H).
Implicit Types I P : View -> Prop.

Lemma view_quiet {A} (f : H -> A * H) (w : W) : quiet f -> view (w <| hw_host := (f (hw_host w)).2 |>) = view w.
Proof. intros Hf. destruct (Hf (hw_host w)) as [Hv Hd]. unfold view. simpl. by rewrite Hv, Hd. Qed.

Lemma yields_host {A} I (f : H -> A * H) (R : A -> Prop) :
  quiet f -> (forall h, R (f h).1) -> yields I (host f) R.
Proof. intros Hf HR w HI. apply wp_on, wp_answer. by rewrite view_quiet. Qed.

Lemma keeps_host {A} I (f : H -> A * H) : quiet f -> keeps I (host f).
Proof. intros Hf. eapply yields_keeps. by apply (yields_host _ _ (fun _ => True)). Qed.

Lemma quiet_now : quiet lh_now.
Proof. intros h. by destruct (lw_now h) as (Hv & Hd & _). Qed.
Lemma quiet_unix_time : quiet lh_unix_time.
Proof. intros h. apply lw_unix_time. Qed.
Lemma quiet_uuid : quiet lh_uuid.
Proof. intros h. apply lw_uuid. Qed.

(** What a request may have done is what its operation may have done, and it
    succeeds only where the operation did. *)
Definition does {E A} P I (c : Fut W (result E A)) (Q : A -> View -> Prop) : Prop :=
  spec P c (fun r v => I v /\ forall a, r = Ok a -> Q a v) I.

Lemma does_ret {E A} P I (a : A) (Q : A -> View -> Prop) :
  (forall v, P v -> I v /\ Q a v) -> does P I (mret (Ok a : result E A)) Q.
Proof. intros HP w HPw. apply wp_ret. destruct (HP _ HPw). split; [done|]. by intros a' [= <-]. Qed.

Lemma does_fail {E A} P I (e : E) (Q : A -> View -> Prop) : (forall v, P v -> I v) -> does P I (mret (Err e)) Q.
Proof. intros HP w HPw. apply wp_ret. by split; [apply HP|]. Qed.

Lemma does_after {E A B} P I (c : Fut W A) (k : A -> Fut W (result E B)) Q :
  keeps P c -> (forall v, P v -> I v) -> (forall a, does P I (k a) Q) -> does P I (x ← c; k x) Q.
Proof. intros Hc HP Hk. eapply spec_bind; [by apply (spec_quiet P)|done]. Qed.

Lemma does_try {E A B} P I (c : Fut W (result E A)) (k : A -> Fut W (result E B)) R Q :
  does P I c R -> (forall a, does (R a) I (k a) Q) -> does P I (fut_try c k) Q.
Proof.
  intros Hc Hk. eapply (spec_try _ _ _ R); [|exact Hk]. eapply spec_mono; [exact Hc|done| |done].
  intros [a|e] v [HI HR]; [by apply HR|by split].
Qed.

Lemma does_keeps {E A} P I (c : Fut W (result E A)) :
  keeps P c -> (forall v, P v -> I v) -> does P I c (fun _ => P).
Proof.
  intros Hc HP. eapply spec_mono; [by apply (spec_quiet P); [exact Hc|exact HP]|done| |done].
  intros r v Hv. by split; [apply HP|].
Qed.

(** A step whose answer does not matter, under [?]. *)
Lemma does_try_after {E A B} P I (c : Fut W (result E A)) (k : A -> Fut W (result E B)) Q :
  keeps P c -> (forall v, P v -> I v) -> (forall a, does P I (k a) Q) -> does P I (fut_try c k) Q.
Proof. intros Hc HP Hk. eapply does_try; [by apply does_keeps|done]. Qed.

(** An answer already there. *)
Lemma does_try_ret {E A B} P I (r : result E A) (k : A -> Fut W (result E B)) Q :
  (forall v, P v -> I v) -> (forall a, r = Ok a -> does P I (k a) Q) -> does P I (fut_try (mret r) k) Q.
Proof.
  intros HP Hk w HPw. apply wp_try, wp_ret. destruct r as [a|e]; [by apply Hk|]. by split; [apply HP|].
Qed.

Lemma does_map_err {E F A} P I (f : E -> F) (c : Fut W (result E A)) Q :
  does P I c Q -> does P I (fut_map_err f c) Q.
Proof.
  intros Hc w HP. apply wp_map_err. eapply wp_mono; [by apply Hc| |done|done].
  intros [] w' [HI HQ]; (split; [done|]); [|done]. intros a' [= <-]. by apply HQ.
Qed.

Lemma does_timed {E A} P I (e : E) (c : Fut W (result E A)) Q : does P I c Q -> does P I (timed e c) Q.
Proof. intros Hc w HP. apply wp_timed. eapply wp_mono; [by apply Hc|done| |done]. by split. Qed.

Lemma does_mono {E A} P P' I I' (c : Fut W (result E A)) (Q Q' : A -> View -> Prop) :
  does P I c Q -> (forall v, P' v -> P v) -> (forall v, I v -> I' v) -> (forall a v, I v -> Q a v -> Q' a v) ->
  does P' I' c Q'.
Proof. intros Hc HP HI HQ. eapply spec_mono; [exact Hc|done|naive_solver|done]. Qed.

Lemma keeps_does {E A} I (c : Fut W (result E A)) Q : does I I c Q -> keeps I c.
Proof. intros Hc w HI. eapply wp_mono; [by apply Hc| |done|done]. by intros r w' []. Qed.

Lemma does_end {E A} P I (c : Fut W (result E A)) (Q : A -> View -> Prop) w :
  does P I c Q -> P (view w) -> I (view (c w).2) /\ forall a, (c w).1 = Done (Ok a) -> Q a (view (c w).2).
Proof. intros Hc HP. specialize (Hc w HP). unfold wp in Hc. destruct (c w) as [[] ?]; naive_solver. Qed.

(** One reading of the documents. *)
Lemma does_look {A} P I (f : gmap string string -> gset string -> A) :
  (forall v, P v -> I v) -> does P I (look f) (fun x v => P v /\ x = f (vw_files v) (vw_dirs v)).
Proof.
  intros HP w HPw. pose proof (view_turn w) as Hv. pose proof (HP _ HPw) as HI. rewrite <-Hv in HPw, HI.
  unfold wp, look. destruct (lh_turn (hw_host w)) as [[|applied m|applied] h]; simpl in *; try done.
  split; [done|]. by intros x [= <-].
Qed.

(** One change of the documents. *)
Definition with_files (f : gmap string string -> gmap string string) (v : View) : View :=
  mkView (vw_volumes v) (vw_domains v) (f (vw_files v)) (vw_dirs v).

Lemma does_change P I f (Q : View -> Prop) :
  (forall v, P v -> I v) -> (forall v, P v -> I (with_files f v) /\ Q (with_files f v)) ->
  does P I (change f) (fun _ => Q).
Proof.
  intros HP Hf w HPw. pose proof (view_turn w) as Hv. destruct (Hf _ HPw) as [HI HQ]. specialize (HP _ HPw).
  rewrite <-Hv in HP, HI, HQ. unfold wp, change, with_files in *.
  destruct (lh_turn (hw_host w)) as [[|[] m|[]] h]; simpl in *; by repeat split.
Qed.

Lemma keeps_change I f : (forall v, I v -> I (with_files f v)) -> keeps I (change f).
Proof. intros Hf. by eapply yields_keeps, yields_change. Qed.

Lemma does_run_helper {A} P I (c : Fut W (result RuntimeError A)) Q :
  (forall v, P v -> I v) -> does P I c Q -> does P I (run_helper wk c) Q.
Proof.
  intros HP Hc. unfold run_helper, does. eapply spec_bind.
  { apply (spec_quiet P); [|done]. apply keeps_host, ld_quiet_spawn. }
  intros [[]|e]; [|by intros w Hw; apply wp_ret; split; [apply HP|]].
  assert (spec P (execute wk c) (fun r v => I v /\ forall a, r = Ok a -> Q a v) I) as He.
  { unfold execute. eapply spec_bind; [apply (spec_quiet P); [|done]; apply keeps_read; constructor|].
    intros [?|e]; [|by intros w Hw; apply wp_ret; split; [apply HP|]].
    eapply spec_bind; [exact Hc|]. intros r. eapply spec_bind.
    { apply (spec_quiet (fun v => I v /\ forall a, r = Ok a -> Q a v)); [|by intros v []].
      apply (keeps_read (fun v => I v /\ forall a, r = Ok a -> Q a v)). constructor. }
    intros closed w [HI Hr]. apply wp_ret. split; [done|]. intros x.
    destruct r, closed; simpl; try done. intros [= <-]. by apply Hr. }
  intros w HI. specialize (He w HI). unfold wp in *. destruct (execute wk c w) as [ended w']. simpl in *.
  pose proof (view_quiet ld_fate w' ld_quiet_fate) as Hv.
  destruct (ld_fate (hw_host w')) as [fate h]. simpl in Hv.
  destruct fate, ended as [reply| |]; simpl; rewrite Hv; try naive_solver.
  destruct He as [HI' Hr]. split; [done|]. destruct reply; naive_solver.
Qed.

Lemma does_request {A} P I timeout (build : Z -> result RuntimeError (HelperRequest * Fut W (result RuntimeError A))) Q :
  (forall v, P v -> I v) -> (forall remaining b, build remaining = Ok b -> does P I (snd b) Q) ->
  does P I (request_with wk timeout build) Q.
Proof.
  intros HP Hb. unfold request_with. apply does_after; [apply keeps_host, quiet_now|done|]. intros started.
  apply does_after; [apply keeps_host, ld_quiet_lock|done|]. intros [|]; [|by apply does_fail]. simpl.
  apply does_after; [apply keeps_host, quiet_now|done|]. intros now.
  case_match; [by apply does_fail|]. apply does_try_ret; [done|]. intros b Hbuild.
  apply does_try_ret; [done|]. intros ? _. apply does_run_helper; [done|]. by eapply Hb.
Qed.

(** From each state the precondition allows. *)
Lemma does_from {E A} P I (c : Fut W (result E A)) Q :
  (forall v, P v -> does (eq v) I c Q) -> does P I c Q.
Proof. intros Hc w HP. by apply (Hc (view w)). Qed.

Lemma does_fact {E A} P (phi : Prop) I (c : Fut W (result E A)) Q :
  (phi -> does P I c Q) -> does (fun v => P v /\ phi) I c Q.
Proof. apply spec_fact. Qed.

Local Abbreviation config := (lw_config wk).

Lemma does_actor_cleanup v0 m timeout :
  does (eq v0) (removes_only config m v0) (actor_cleanup wk m timeout) (fun _ => nothing_left config m).
Proof.
  assert (forall v, v0 = v -> removes_only config m v0 v) as Hrefl by (intros v <-; apply removes_only_refl).
  apply does_request; [done|]. intros rest b (seconds & _ & [= <-])%result_bind_ok. simpl. unfold cleanup_request.
  apply does_after; [apply keeps_now|done|]. intros now.
  eapply spec_mono; [apply cleanup_spec|done| |done]. intros r v [HI Hok]. split; [done|]. by intros [].
Qed.

Lemma does_actor_create v0 request timeout :
  does (eq v0) (adds_only config (fun _ => True) (cr_manifest request) v0) (actor_create wk request timeout)
    (made config (cr_manifest request)).
Proof.
  assert (forall v, v0 = v -> adds_only config (fun _ => True) (cr_manifest request) v0 v) as Hrefl
    by (intros v <-; apply adds_only_refl).
  apply does_request; [done|]. intros rest b [= <-] w Hw. simpl.
  pose proof (create_adds_only config (fun _ => True) (fun v h => answers_any _ h) _ v0 request eq_refl w (Hrefl _ Hw)) as Hadds.
  pose proof (create_makes config _ request eq_refl w I) as Hmade. unfold wp in *.
  destruct (create_guest_resources config request w) as [[[]| |] w']; try done. split; [done|]. by intros m' [= <-].
Qed.

Lemma does_actor_define v0 request timeout :
  is_safe_name (om_domain_uuid (dr_manifest request)) MAX_SAFE_NAME_BYTES = true ->
  does (eq v0) (defines_only config request v0) (actor_define wk request timeout) (fun _ _ => True).
Proof.
  intros Huuid. apply does_request; [intros v <-; apply defines_refl|]. intros rest b [= <-].
  eapply spec_mono; [by apply define_steps|done| |done]. by intros r v [HI _].
Qed.

Lemma keeps_actor_start I m timeout : keeps I (actor_start wk m timeout).
Proof.
  assert (does I I (actor_start wk m timeout) (fun _ => I)) as Hd.
  { apply does_request; [done|]. intros rest b [= <-]. apply does_keeps; [|done]. simpl.
    unfold start, exact_domain, ensure_domain, free_domain. keeps. }
  by eapply keeps_does.
Qed.

Lemma does_save P I m path (Q : View -> Prop) :
  let saved := with_files (fun files => <[path := to_json m]> files) in
  (forall v, P v -> I v) -> (forall v, P v -> I (saved v) /\ Q (saved v)) ->
  does P I (save_ownership m path) (fun _ => Q).
Proof.
  intros saved HP HQ. unfold save_ownership. apply does_try_ret; [done|]. intros _ _.
  case_match; [by apply does_fail|]. apply does_try_ret; [done|]. intros directory _.
  apply does_try_after; [unfold ensure_private_directory, on_file; keeps|done|]. intros _.
  by apply does_map_err, does_change.
Qed.

Lemma keeps_remove_checkpoint I path : (forall v, I v -> I (with_files (delete path) v)) -> keeps I (remove_checkpoint path).
Proof.
  intros Hd. pose proof (keeps_change I _ Hd). unfold remove_checkpoint, sync_directory, on_file. keeps.
Qed.
End requests.

(** ** A boot *)

Section boot.
Context {H : Type} {LH : LibvirtHost H} {LL : LawfulLibvirt H} {LD : LibvirtDaemon H} {LW : LawfulDaemon H}.
Context {PE : ParserErrors} {XC : XmlCodec} {JC : JsonCodec VolumeCheckpoint} {JR : JsonCodec HelperRequest}.
Context {JO : JsonCodec OwnershipManifest} {JT : JsonCodec CleanupTombstone} {SF : SeedFormats}.
Context {UC : UuidCodec} {WC : WireCodec} (wk : LibvirtWorker) (id : Uuid).
Local Abbreviation W := (HostWorld H).
Local Abbreviation config := (lw_config wk).
Local Abbreviation state_dir := (lw_state_dir wk).

(** The manifest of this identity is on disk, with whichever keys are known. *)
Definition on_disk (m : OwnershipManifest) (v : View) : Prop := exists overlay seed,
  vw_files v !! ownership_path state_dir id = Some (to_json (with_keys m overlay seed)).

(** The guests and volumes are as they were, but for those the manifest names. *)
Definition confined (m : OwnershipManifest) (v0 v : View) : Prop :=
  (forall key, key <> overlay_at config m -> key <> seed_at config m -> vw_volumes v !! key = vw_volumes v0 !! key) /\
  (forall uuid, uuid <> om_domain_uuid m -> vw_domains v !! uuid = vw_domains v0 !! uuid).

Definition untouched (v0 v : View) : Prop :=
  vw_volumes v = vw_volumes v0 /\ vw_domains v = vw_domains v0.

Definition owned (m : OwnershipManifest) (v0 v : View) : Prop := on_disk m v /\ confined m v0 v.

(** Whatever is new is named by the manifest on disk. *)
Definition authorized (v0 v : View) : Prop :=
  untouched v0 v \/ exists m, om_allocation_id m = id /\ owned m v0 v.

Context (v0 : View).

Lemma untouched_files f v : untouched v0 v -> untouched v0 (with_files f v).
Proof. done. Qed.

Lemma authorized_untouched v : untouched v0 v -> authorized v0 v.
Proof. by left. Qed.

Lemma on_disk_insert m path bytes v :
  path <> ownership_path state_dir id -> on_disk m v -> on_disk m (with_files (fun files => <[path := bytes]> files) v).
Proof. intros Hne (o & s & Hf). exists o, s. simpl. by rewrite lookup_insert_ne. Qed.

Lemma on_disk_delete m path v :
  path <> ownership_path state_dir id -> on_disk m v -> on_disk m (with_files (delete path) v).
Proof. intros Hne (o & s & Hf). exists o, s. simpl. by rewrite lookup_delete_ne. Qed.

Lemma on_disk_saved m overlay seed v :
  on_disk m (with_files (fun files => <[ownership_path state_dir id := to_json (with_keys m overlay seed)]> files) v).
Proof. exists overlay, seed. simpl. by rewrite lookup_insert_eq. Qed.

(** Nothing of the daemon's own steps goes near the manifest of [m]. *)
Lemma owned_adds m m' v v' :
  owned m v0 v -> adds_only config (fun _ => True) (with_keys m m'.1 m'.2) v v' -> owned m v0 v'.
Proof.
  intros [(o & s & Hf) [Hv Hd]] [_ Hnew Hdom _ Hfiles _]. split.
  - exists o, s. rewrite Hfiles; [done|]. intros E. by apply (checkpoint_not_ownership _ _ _ _ (eq_sym E)).
  - split; [|by rewrite Hdom]. intros key Ho Hs. rewrite Hnew by done. by apply Hv.
Qed.

Lemma owned_removes m keys v v' :
  owned m v0 v -> removes_only config (with_keys m keys.1 keys.2) v v' -> owned m v0 v'.
Proof.
  intros [(o & s & Hf) [Hv Hd]] [Hdom _ Hvol [Hfiles _]]. split; [exists o, s; by rewrite Hfiles|]. split.
  - intros key Ho Hs. rewrite <-Hv by done. destruct (Hvol key) as [E|(_ & a & [-> | ->] & Ha & _)]; done.
  - intros uuid Hne. rewrite <-Hd by done. destruct Hdom as [->|(def & _ & _ & ->)]; [done|].
    by rewrite lookup_delete_ne.
Qed.

Lemma owned_defines m keys request v v' :
  dr_manifest request = with_keys m keys.1 keys.2 ->
  owned m v0 v -> defines_only config request v v' -> owned m v0 v'.
Proof.
  intros Hm [(o & s & Hf) [Hv Hd]] (Hvol & Hfiles & _ & Hdom). split; [exists o, s; by rewrite Hfiles|]. split.
  - by rewrite Hvol.
  - intros uuid Hne. rewrite <-Hd by done. destruct Hdom as [->|(_ & _ & _ & def & _ & ->)]; [done|].
    rewrite lookup_insert_ne; [done|]. rewrite Hm. by apply not_eq_sym.
Qed.

Lemma keeps_cleanup_owned m keys timeout :
  keeps (owned m v0) (actor_cleanup wk (with_keys m keys.1 keys.2) timeout).
Proof.
  eapply keeps_does, does_from. intros v Hv.
  eapply does_mono; [apply does_actor_cleanup|done| |done]. intros v'. by apply owned_removes.
Qed.

Lemma owned_removed m d v :
  owned m v0 v -> owned m v0 (with_files (delete (allocation_path d id)) v).
Proof. intros [Hf Hc]. split; [|done]. apply on_disk_delete; [apply checkpoint_not_ownership|done]. Qed.

Lemma keeps_remaining (I : View -> Prop) deadline : keeps I (remaining (LH := LH) deadline).
Proof. apply maintains_bind; [apply keeps_host, quiet_now|]. intros. apply maintains_ret. Qed.

Lemma keeps_not_cancelled (I : View -> Prop) boundary : keeps I (ensure_not_cancelled boundary).
Proof. apply maintains_bind; [apply keeps_host, ld_quiet_cancelled|]. intros. apply maintains_ret. Qed.

Lemma keeps_persist m keys deadline :
  keeps (owned m v0) (persist_or_cleanup wk (with_keys m keys.1 keys.2) (ownership_path state_dir id) id deadline).
Proof.
  assert (keeps (owned m v0) (remove_checkpoint (allocation_path state_dir id))) as Hremove.
  { apply keeps_remove_checkpoint. intros v. apply owned_removed. }
  assert (keeps (owned m v0) (save_ownership (with_keys m keys.1 keys.2) (ownership_path state_dir id))) as Hsave.
  { apply (keeps_does _ _ (fun _ => owned m v0)), does_save; [done|]. intros v [_ Hc].
    split; (split; [apply on_disk_saved|done]). }
  unfold persist_or_cleanup, into_worker. apply maintains_bind; [done|]. intros [?|e]; [keeps|].
  apply maintains_bind; [apply keeps_remaining|]. intros rest.
  apply maintains_bind; [apply keeps_cleanup_owned|]. intros cleaned. keeps.
Qed.

Lemma keeps_build_seed (I : View -> Prop) allocation_id hostname key guest_user privileged_user privileged_key :
  keeps I (build_seed (H := H) allocation_id hostname key guest_user privileged_user privileged_key).
Proof.
  pose proof (keeps_host I ld_host_key ld_quiet_host_key). unfold build_seed. keeps.
Qed.

Lemma keeps_untouched_directory path : keeps (untouched v0) (create_private_directory path).
Proof.
  intros w Hw. pose proof (view_turn w) as Hv. unfold wp, create_private_directory, view, untouched in *.
  destruct (lh_turn (hw_host w)) as [turn h]; simpl in *.
  assert (volumes h = vw_volumes v0 /\ domains h = vw_domains v0) by (injection Hv as -> ->; done).
  destruct (from_option _ _ _), (bool_decide _ || bool_decide _), turn as [|[] m|[]]; done.
Qed.

Lemma keeps_untouched_change f : keeps (untouched v0) (change f).
Proof. by apply keeps_change. Qed.

Lemma keeps_write_known_hosts path contents : keeps (untouched v0) (write_known_hosts path contents).
Proof.
  pose proof keeps_untouched_change. unfold write_known_hosts, sync_directory, on_file. keeps.
Qed.

Definition fresh (m : OwnershipManifest) : Prop :=
  om_allocation_id m = id /\ is_safe_name (om_domain_uuid m) MAX_SAFE_NAME_BYTES = true /\ m = with_keys m None None.

Lemma does_intent vm_name alias :
  does (untouched v0) (authorized v0) (intent_for id vm_name (lw_instance wk) state_dir alias)
    (fun m v => untouched v0 v /\ fresh m).
Proof.
  assert (yields (untouched v0) (intent_for id vm_name (lw_instance wk) state_dir alias) (on_ok fresh)) as Hy.
  { unfold intent_for. apply yields_after; [apply keeps_host, quiet_uuid|]. intros artifact.
    apply (yields_seq _ _ _ (fun uuid => is_safe_name uuid MAX_SAFE_NAME_BYTES = true));
      [apply yields_host; [apply quiet_uuid|apply ld_uuid_safe]|]. intros uuid Huuid.
    apply yields_after; [apply keeps_host, quiet_unix_time|]. intros now.
    apply yields_try_ret. intros seconds _. apply yields_try_ret. intros _ _. by apply yields_pure. }
  intros w Hw. eapply wp_mono; [by apply Hy| | |]; [|by left..].
  intros r w' [Hv Hr]. split; [by left|]. by intros m ->.
Qed.

Lemma boot_steps a size source storage_bytes deadline :
  a_id a = id ->
  does (untouched v0) (authorized v0) (boot_domain wk a size source storage_bytes deadline) (fun _ _ => True).
Proof.
  intros Hid. unfold boot_domain, into_worker. rewrite Hid. pose proof authorized_untouched as Hu.
  apply does_try_after; [apply maintains_map_err, keeps_build_seed|done|]. intros seed.
  apply does_try_after; [apply maintains_map_err, keeps_untouched_directory|done|]. intros _.
  eapply does_try; [apply does_map_err, does_intent|]. intros m. apply (does_fact (untouched v0)).
  intros (Hm & Huuid & Hkeyless).
  apply does_try_after; [apply maintains_map_err, keeps_write_known_hosts|done|]. intros _.
  apply (does_try _ _ _ _ (fun _ => owned m v0)).
  { apply does_map_err, does_save; [done|]. intros v Hv. split; [by left|]. split.
    - pose proof (on_disk_saved m None None v) as Hs. by rewrite <-Hkeyless in Hs.
    - destruct Hv as [Hvol Hdom]. by split; intros; simpl; rewrite ?Hvol, ?Hdom. }
  assert (forall v, owned m v0 v -> authorized v0 v) as Ho by (intros v Hv; right; by exists m). intros _.
  apply does_try_after; [apply keeps_not_cancelled|done|]. intros _.
  apply does_try_after; [apply keeps_remaining|done|]. intros rest.
  apply (does_try _ _ _ _ (fun m' v => owned m v0 v /\ exists keys, m' = with_keys m keys.1 keys.2)).
  { apply does_map_err, does_from. intros v Hv.
    eapply does_mono; [apply does_actor_create|done| |].
    - simpl. intros v' Hv'. apply Ho. eapply (owned_adds m (None, None)); [exact Hv|]. simpl. by rewrite <-Hkeyless.
    - simpl. intros m' v' Hadds (overlay & seed' & -> & _). split; [|by exists (Some (v_key overlay), Some (v_key seed'))].
      eapply (owned_adds m (None, None)); [exact Hv|]. simpl. by rewrite <-Hkeyless. }
  intros m'. apply does_from. intros v [Hv [keys ->]]. apply (does_mono (owned m v0) _ (authorized v0) _ _ (fun _ _ => True)); [|by intros ? <-|done..].
  clear v Hv. apply does_try_after; [apply keeps_persist|done|]. intros _.
  apply does_try_after; [apply keeps_not_cancelled|done|]. intros _.
  apply does_try_after; [apply keeps_remaining|done|]. intros rest'.
  apply does_try_after; [|done|].
  { apply maintains_map_err. eapply keeps_does, does_from. intros v Hv.
    eapply does_mono; [by apply does_actor_define|done| |done]. intros v'. by apply (owned_defines m keys). }
  intros _. apply does_after; [apply keeps_host, ld_quiet_report_created|done|]. intros reported.
  apply does_try_ret; [done|]. intros _ _.
  apply does_try_after; [apply keeps_not_cancelled|done|]. intros _.
  apply does_after; [apply keeps_host, ld_quiet_report_booting|done|]. intros reported'.
  apply does_try_ret; [done|]. intros _ _.
  apply does_try_after; [apply keeps_remaining|done|]. intros rest2.
  apply does_try_after; [apply maintains_map_err, keeps_actor_start|done|]. intros _.
  apply does_ret. auto.
Qed.
End boot.

(** ** A teardown *)

Lemma merge_artifact_name a v a' : merge_artifact a v = Ok a' -> art_name a' = art_name a.
Proof. unfold merge_artifact. repeat case_match; intros [= <-]; done. Qed.

(** A merge changes nothing but keys. *)
Lemma merge_only_keys {UC : UuidCodec} c m instance pool m' :
  merge_allocation c m instance pool = Ok m' -> exists keys, m' = with_keys m keys.1 keys.2.
Proof.
  unfold merge_allocation. intros (_ & _ & (overlay & Ho & (seed & Hs & (_ & _ & [= <-])%result_bind_ok)%result_bind_ok)%result_bind_ok)%result_bind_ok.
  apply merge_artifact_name in Ho, Hs. exists (art_key overlay, art_key seed). unfold with_keys. simpl.
  by rewrite <-Ho, <-Hs; destruct overlay, seed.
Qed.

Section teardown.
Context {H : Type} {LH : LibvirtHost H} {LL : LawfulLibvirt H} {LD : LibvirtDaemon H} {LW : LawfulDaemon H}.
Context {PE : ParserErrors} {XC : XmlCodec} {JC : JsonCodec VolumeCheckpoint} {JR : JsonCodec HelperRequest}.
Context {JO : JsonCodec OwnershipManifest} {JT : JsonCodec CleanupTombstone} {SF : SeedFormats}.
Context {UC : UuidCodec} {WC : WireCodec} (wk : LibvirtWorker) (id : Uuid) (m : OwnershipManifest).
Local Abbreviation W := (HostWorld H).
Local Abbreviation config := (lw_config wk).
Local Abbreviation state_dir := (lw_state_dir wk).
Local Abbreviation held := (on_disk wk id m).
Local Abbreviation gone := (nothing_left config m).

(** The manifest is given up only once nothing it names is left. *)
Definition kept (v : View) : Prop := nothing_left config m v \/ on_disk wk id m v.

Lemma held_kept v : held v -> kept v.
Proof. by right. Qed.
Lemma gone_kept v : gone v -> kept v.
Proof. by left. Qed.

Lemma does_load :
  spec held (load_ownership (ownership_path state_dir id))
    (fun r v => held v /\ match r with
                          | Ok m' => exists keys, m' = with_keys m keys.1 keys.2
                          | Err e => e <> EManifestNotFound
                          end) held.
Proof.
  unfold load_ownership, read_private_bounded_regular_optional, on_file. intros w Hw.
  apply wp_try, wp_try, wp_map_err. eapply wp_mono; [by apply (does_look held held)| |done|done].
  intros [bytes|e] w' [Hheld Hr]; simpl; [|by split]. specialize (Hr _ eq_refl) as [_ ->].
  destruct Hheld as (o & s & Hf). rewrite Hf. apply wp_ret.
  assert (held (view w')) as Hheld by (by exists o, s).
  destruct (_ <? _); [by split|]. apply wp_ret. split; [done|]. rewrite json_roundtrip.
  destruct (is_empty _); [done|]. simpl.
  destruct (ensure_ownership_valid (with_keys m o s)) as [[]|e] eqn:E; rewrite ?E; simpl; [by exists (o, s)|].
  done.
Qed.

Lemma does_cleanup_held keys timeout :
  does held kept (actor_cleanup wk (with_keys m keys.1 keys.2) timeout) (fun _ => gone).
Proof.
  apply does_from. intros v Hv. eapply does_mono; [apply does_actor_cleanup|done| |done].
  intros v' [_ _ _ [Hf _]]. right. destruct Hv as (o & s & Hv). exists o, s. by rewrite Hf.
Qed.

Definition torn_down (g : GuestCleanup) (v : View) : Prop := gone v /\ exists m', g = GcOwned m'.

Lemma does_cleanup_guest a timeout :
  a_id a = id -> does held kept (cleanup_guest wk a timeout) torn_down.
Proof.
  intros Hid. unfold cleanup_guest, into_worker. rewrite Hid. pose proof held_kept as Hk.
  eapply spec_bind; [eapply spec_mono; [apply does_load|done|intros r v Hv; exact Hv|done]|].
  intros [m'|e]; cycle 1.
  { intros w [Hw He]. destruct e; simpl; try (apply wp_ret; by split; [apply Hk|]). done. }
  apply (does_fact held). intros [keys ->].
  apply does_try_after; [keeps|done|]. intros _.
  apply does_try_after; [keeps|done|]. intros checkpoint.
  apply (does_try _ _ _ _ (fun m' v => held v /\ exists keys, m' = with_keys m keys.1 keys.2)).
  - destruct checkpoint as [c|]; [|by apply does_ret; intros v Hv; split; [apply Hk|]; eauto].
    apply (does_try _ _ _ _ (fun m' v => held v /\ exists keys, m' = with_keys m keys.1 keys.2)).
    { apply does_map_err. intros w Hw. apply wp_ret. split; [by apply Hk|].
      intros m' (keys' & ->)%merge_only_keys. split; [done|]. by exists keys'. }
    intros m'. apply (does_fact held). intros [keys' ->].
    apply does_try_after; [|done|].
    { apply maintains_map_err, (keeps_does _ _ (fun _ => held)), does_save; [done|].
      intros v _. split; apply on_disk_saved. }
    intros _. apply does_ret. intros v Hv. split; [by apply Hk|]. eauto.
  - intros m'. apply (does_fact held). intros [keys' ->].
    eapply does_try; [apply does_map_err, does_cleanup_held|]. intros ?.
    apply does_ret. intros v Hv. split; [by left|]. unfold torn_down. eauto.
Qed.

(** Once nothing is left, the documents may go. *)
Lemma keeps_gone_change f : keeps gone (change f).
Proof. by apply keeps_change. Qed.

Lemma keeps_record_cleanup m' : keeps gone (record_cleanup state_dir m').
Proof.
  pose proof keeps_gone_change. pose proof (keeps_host gone lh_unix_time quiet_unix_time).
  unfold record_cleanup, read_cleanup, read_private_bounded_regular_optional, ensure_private_directory, sync_directory, on_file.
  keeps.
Qed.

Lemma keeps_remove_authority_files id' : keeps gone (remove_authority_files wk id').
Proof.
  pose proof keeps_gone_change. unfold remove_authority_files, remove_state_file, sync_directory. keeps.
Qed.

Lemma does_reap name budget registration :
  does held kept (ensure_reaped wk id name budget registration) (fun _ => gone).
Proof.
  unfold ensure_reaped, load_owned, into_worker. pose proof held_kept as Hk. pose proof gone_kept as Hg.
  apply (does_try _ _ _ _ (fun m' v => held v /\ exists keys, m' = with_keys m keys.1 keys.2)).
  { apply does_map_err. eapply spec_mono; [apply does_load|done| |done].
    intros r v [Hv Hr]. split; [by apply Hk|]. by intros m' ->. }
  intros m'. apply (does_fact held). intros [keys ->].
  apply does_try_after; [keeps|done|]. intros _.
  apply does_after; [apply keeps_host, quiet_now|done|]. intros now.
  eapply does_try; [apply does_map_err, does_cleanup_held|]. intros ?.
  apply does_after; [|done|].
  { pose proof (fun a => keeps_host gone (ld_delete_runner a) (ld_quiet_delete_runner a)). keeps. }
  intros _. apply does_try_after; [apply maintains_map_err, keeps_record_cleanup|done|]. intros _.
  apply does_keeps; [apply keeps_remove_authority_files|done].
Qed.
End teardown.

(** ** What the worker guarantees *)

Section guarantees.
Context {H : Type} {LH : LibvirtHost H} {LL : LawfulLibvirt H} {LD : LibvirtDaemon H} {LW : LawfulDaemon H}.
Context {PE : ParserErrors} {XC : XmlCodec} {JC : JsonCodec VolumeCheckpoint} {JR : JsonCodec HelperRequest}.
Context {JO : JsonCodec OwnershipManifest} {JT : JsonCodec CleanupTombstone} {SF : SeedFormats}.
Context {UC : UuidCodec} {WC : WireCodec} (wk : LibvirtWorker).
Local Abbreviation W := (HostWorld H).
Local Abbreviation config := (lw_config wk).
Local Abbreviation state_dir := (lw_state_dir wk).

(** The guest is the pool's rather than the allocation's. *)
Definition pooled (a : Allocation) (w : W) : bool :=
  is_hot_reuse (a_origin a) || bool_decide (a_vm_name a ∈ hw_claimed w).

(** The steps of a cleanup once the guest is known to be the allocation's. *)
Definition unpooled_cleanup (a : Allocation) (timeout : Z -> Z) : Fut W (result WorkerError unit) :=
  now ← host lh_now;
  guest ← timed (worker_error_new "libvirt cleanup exceeded its timeout") (cleanup_guest wk a (timeout now));
  runner ← timed (worker_error_new "Forgejo cleanup exceeded its timeout") (host (ld_delete_runner a));
  finish_cleanup wk (a_id a) guest runner.

Lemma worker_cleanup_cases a budget w :
  exists timeout, worker_cleanup wk a budget w =
    if pooled a w then
      timed (worker_error_new "Forgejo cleanup exceeded its timeout") (host (ld_delete_runner a)) w
    else unpooled_cleanup a timeout w.
Proof.
  exists (fun now => sat_sub (limit now budget (cb_allowance budget + from_secs LIBVIRT_CLEANUP_PARENT_SLACK_SECONDS))
                       (from_secs LIBVIRT_CLEANUP_PARENT_SLACK_SECONDS)).
  unfold worker_cleanup. unfold mbind at 1, Fut_bind at 1.
  assert ((if is_hot_reuse (a_origin a) then mret true else is_claimed (a_vm_name a)) w = (Done (pooled a w), w)) as ->.
  { unfold pooled. by destruct (is_hot_reuse (a_origin a)). }
  by destruct (pooled a w).
Qed.

(** A guest's end and the rest of a cleanup. *)
Lemma does_unpooled a m timeout :
  does (on_disk wk (a_id a) m) (kept wk (a_id a) m)
    (unpooled_cleanup a timeout) (fun _ => nothing_left config m).
Proof.
  pose proof (held_kept wk (a_id a) m) as Hk. pose proof (gone_kept wk (a_id a) m) as Hg.
  unfold unpooled_cleanup. apply does_after; [apply keeps_host, quiet_now|done|]. intros now.
  eapply spec_bind; [by apply does_timed, does_cleanup_guest|]. intros guest.
  set (R := fun v => kept wk (a_id a) m v /\ forall g, guest = Ok g -> torn_down wk m g v).
  change (does R (kept wk (a_id a) m) (runner ← timed (worker_error_new "Forgejo cleanup exceeded its timeout") (host (ld_delete_runner a));
     finish_cleanup wk (a_id a) guest runner) (fun _ => nothing_left config m)).
  apply does_after; [apply maintains_timed, keeps_host, ld_quiet_delete_runner|by intros v []|]. intros runner.
  destruct guest as [g|e]; [|by apply does_fail; intros v []].
  apply does_from. intros v [_ Hv]. destruct (Hv g eq_refl) as [Hgone [m' ->]]. simpl.
  apply (does_mono (nothing_left config m) _ (kept wk (a_id a) m) _ _ (fun _ => nothing_left config m)); [|by intros ? <-|done..].
  apply does_try_ret; [done|]. intros _ _. unfold finalize_local_state, into_worker.
  apply does_try_after; [apply maintains_map_err, keeps_record_cleanup|done|]. intros _.
  apply does_keeps; [apply keeps_remove_authority_files|done].
Qed.

(** Without the manifest, a checkpoint is no evidence an unfinished creation
    may act on. *)
Lemma does_orphan a timeout v bytes :
  vw_files v !! ownership_path state_dir (a_id a) = None ->
  vw_files v !! allocation_path state_dir (a_id a) = Some bytes -> a_vm_created a = false ->
  does (eq v) (eq v) (cleanup_guest wk a timeout) (fun _ _ => False).
Proof.
  intros Hown Hck Hcreated. unfold cleanup_guest. rewrite Hcreated. eapply spec_bind.
  { apply (spec_mono (eq v) _ _ (fun r v' => v = v' /\ is_ok r = false) _ (eq v)); [|done|intros r v' Hr; exact Hr|done].
    unfold load_ownership, read_private_bounded_regular_optional, on_file. intros w Hw.
    apply wp_try, wp_try, wp_map_err. eapply wp_mono; [by apply (does_look (eq v) (eq v))| |done|done].
    intros [found|e] w' [Hv Hr]; simpl; [|done]. destruct (Hr _ eq_refl) as [_ ->]. by rewrite <-Hv, Hown. }
  intros [m|e]; [by intros w [_ ?]|]. intros w [Hw _].
  destruct e; try (apply wp_ret; split; [done|]; intros ? [=]). simpl.
  apply wp_try. unfold into_worker, load_checkpoint, read_private_bounded_regular_optional, on_file.
  apply wp_map_err, wp_try, wp_try, wp_map_err. eapply wp_mono; [by apply (does_look (eq v) (eq v))| |done|done].
  intros [found|e] w' [Hv Hr]; simpl; [|done]. destruct (Hr _ eq_refl) as [_ ->]. rewrite <-Hv, Hck.
  apply wp_ret. destruct (_ <? _); simpl; [done|]. apply wp_ret. destruct (parse_checkpoint bytes); simpl; [|done].
  by apply wp_ret.
Qed.

(** C4: What a boot makes is always on record.  However [boot_domain] ends (in
    success, in an error, with its helper killed at any call or with the daemon
    dead), either no domain and no volume differs from before, or the
    allocation's manifest is on disk and everything that differs is a volume or
    the domain it names. *)
Theorem boot_authorized (a : Allocation) (size : GuestSize) (source : VolumePointer) (storage_bytes deadline : Z) (w : W) :
  authorized wk (a_id a) (view w) (view (boot_domain wk a size source storage_bytes deadline w).2).
Proof.
  by destruct (does_end _ _ _ _ w (boot_steps wk (a_id a) (view w) a size source storage_bytes deadline eq_refl))
    as [Hb _].
Qed.

(** C5: The record outlives what it records.  While an allocation's manifest is
    on disk, neither its own cleanup nor a reaping gives it up, however they
    end, before the domain and both volumes it names are gone; and either
    succeeds only once they are, save for the cleanup of a guest the pool has
    kept. *)
Theorem authority_kept (a : Allocation) (m : OwnershipManifest) (w : W) :
  on_disk wk (a_id a) m (view w) ->
  (forall budget, let c := worker_cleanup wk a budget in
     kept wk (a_id a) m (view (c w).2) /\
     (pooled a w = false -> (c w).1 = Done (Ok tt) -> nothing_left config m (view (c w).2))) /\
  (forall name budget registration, let c := ensure_reaped wk (a_id a) name budget registration in
     kept wk (a_id a) m (view (c w).2) /\
     ((c w).1 = Done (Ok tt) -> nothing_left config m (view (c w).2))).
Proof.
  intros Hw. split.
  - intros budget c. unfold c. destruct (worker_cleanup_cases a budget w) as [timeout ->].
    destruct (pooled a w).
    + split; [|done]. apply held_kept.
      by apply (keeps_end (on_disk wk (a_id a) m)); [apply maintains_timed, keeps_host, ld_quiet_delete_runner|].
    + destruct (does_end _ _ _ _ w (does_unpooled a m timeout) Hw) as [HI Hok]. split; [done|]. intros _. apply Hok.
  - intros name budget registration c.
    destruct (does_end _ _ _ _ w (does_reap wk (a_id a) m name budget registration) Hw) as [HI Hok].
    by split; [|apply Hok].
Qed.

(** A guest the pool kept survives the cleanup of its allocation.  Whatever
    the cleanup answers, no domain, volume, document or directory changes. *)
Theorem pooled_guest_survives (a : Allocation) (budget : CleanupBudget) (w : W) :
  pooled a w = true ->
  view (worker_cleanup wk a budget w).2 = view w.
Proof.
  intros Hp. destruct (worker_cleanup_cases a budget w) as [timeout ->]. rewrite Hp. symmetry.
  by apply (keeps_end (eq (view w))); [apply maintains_timed, keeps_host, ld_quiet_delete_runner|].
Qed.

(** C40: A checkpoint that outlives its manifest is never cleaned up.  For an
    allocation whose domain was never recorded as created, every cleanup is
    then an error that changes nothing, so the next one is too. *)
Theorem orphan_checkpoint_stuck (a : Allocation) (budget : CleanupBudget) (w : W) (bytes : string) :
  hw_files w !! ownership_path state_dir (a_id a) = None ->
  hw_files w !! allocation_path state_dir (a_id a) = Some bytes ->
  a_vm_created a = false -> pooled a w = false ->
  (worker_cleanup wk a budget w).1 <> Done (Ok tt) /\ view (worker_cleanup wk a budget w).2 = view w.
Proof.
  intros Hown Hck Hcreated Hp. destruct (worker_cleanup_cases a budget w) as [timeout ->]. rewrite Hp.
  assert (does (eq (view w)) (eq (view w)) (unpooled_cleanup a timeout) (fun _ _ => False)) as Hd.
  { unfold unpooled_cleanup. apply does_after; [apply keeps_host, quiet_now|done|]. intros now.
    eapply spec_bind; [by eapply does_timed, does_orphan|]. intros [g|e]; [intros w' [_ Hf]; by destruct (Hf g)|].
    intros w' [Hw' _]. apply wp_bind.
    eapply wp_mono; [by apply (maintains_timed (fun w' => view w = view w')), Hw'; apply (keeps_host (eq (view w))), ld_quiet_delete_runner| |done|done].
    by intros r w2 Hw2. }
  destruct (does_end _ _ _ _ w Hd eq_refl) as [HI Hok]. split; [|done]. by intros Hdone%Hok.
Qed.
End guarantees.

(** ** An executable worker *)

Module SimWorker.
Import SimVirt.

(** A codec through a countable type. *)
Definition json_via {A B} `{Countable B} (to : A -> B) (back : B -> A) (Hback : forall a, back (to a) = a) : JsonCodec A.
Proof.
  refine {| to_json a := to_json (JsonCodec := braced_json B) (to a);
            json_parse s := back <$> json_parse (JsonCodec := braced_json B) s |}.
  intros a. rewrite json_roundtrip. simpl. by rewrite Hback.
Defined.

(** Texts and numbers apart, which keeps the encodings short. *)
Abbreviation fields := (list (option string) * list Z)%type.

Definition manifest_to (m : OwnershipManifest) : fields :=
  ([Some (om_allocation_id m); Some (om_service_instance m); Some (om_domain_name m); Some (om_domain_uuid m);
    Some (om_mac_address m); Some (art_name (om_overlay m)); art_key (om_overlay m); Some (art_name (om_seed m));
    art_key (om_seed m); Some (om_host_key_alias m); Some (om_known_hosts_file m)],
   [om_schema_version m; om_created_unix_seconds m]).

Definition manifest_of (f : fields) : OwnershipManifest :=
  let s i := default "" (mjoin (f.1 !! i)) in
  let z i := default 0 (f.2 !! i) in
  mkOwnership (z 0%nat) (s 0%nat) (s 1%nat) (s 2%nat) (s 3%nat) (s 4%nat)
    {| art_name := s 5%nat; art_key := mjoin (f.1 !! 6%nat) |} {| art_name := s 7%nat; art_key := mjoin (f.1 !! 8%nat) |}
    (s 9%nat) (s 10%nat) (z 1%nat).

Lemma manifest_of_to m : manifest_of (manifest_to m) = m.
Proof. by destruct m as [? ? ? ? ? ? [] [] ? ? ?]. Qed.

Definition tombstone_to (t : CleanupTombstone) : fields :=
  ([Some (ct_allocation_id t); Some (ct_service_instance t); Some (ct_domain_name t); Some (ct_domain_uuid t)],
   [ct_schema_version t; ct_cleaned_unix_seconds t]).

Definition tombstone_of (f : fields) : CleanupTombstone :=
  let s i := default "" (mjoin (f.1 !! i)) in
  let z i := default 0 (f.2 !! i) in
  {| ct_schema_version := z 0%nat; ct_allocation_id := s 0%nat; ct_service_instance := s 1%nat;
     ct_domain_name := s 2%nat; ct_domain_uuid := s 3%nat; ct_cleaned_unix_seconds := z 1%nat |}.

Lemma tombstone_of_to t : tombstone_of (tombstone_to t) = t.
Proof. by destruct t. Qed.

Definition config_to (c : HelperConfig) :=
  (hcf_uri c, hcf_pool c, hcf_network c, hcf_state_dir c, hcf_service_instance c, hcf_min_storage_free_bytes c,
   hcf_allow_insecure_transport c, hcf_is_warm_declared c).

Definition config_of c : HelperConfig :=
  let '(a, b, c, d, e, f, g, h) := c in
  {| hcf_uri := a; hcf_pool := b; hcf_network := c; hcf_state_dir := d; hcf_service_instance := e;
     hcf_min_storage_free_bytes := f; hcf_allow_insecure_transport := g; hcf_is_warm_declared := h |}.

Definition exec_to (x : AgentExecRequest) := (ax_path x, ax_arguments x, ax_input x, ax_is_output_captured x).

Definition exec_of x : AgentExecRequest :=
  let '(a, b, c, d) := x in
  {| ax_path := a; ax_arguments := b; ax_input := c; ax_is_output_captured := d |}.

Definition account_to (a : JobAccount) := (ja_name a, ja_uid a).
Definition account_of (a : string * Z) : JobAccount := {| ja_name := a.1; ja_uid := a.2 |}.

Definition guest_to (g : GuestRecord) :=
  (gr_schema_version g, gr_contract_version g,
   (go_id (gr_os g), go_version_id (gr_os g), go_architecture (gr_os g)),
   (gt_version (gr_forgejo_runner g), gt_sha256 (gr_forgejo_runner g)),
   (pm_version (gr_podman g), pm_rootless (gr_podman g), pm_docker_api (gr_podman g)),
   (fun a => (ga_exec_enabled a, ga_block_rpcs a)) <$> gr_agent g,
   account_to <$> gr_job_account g, account_to <$> gr_privileged_account g, gr_dependency_proxy_configured g).

Definition guest_of g : GuestRecord :=
  let '(a, b, (c, d, e), (f, h), (i, j, k), l, m, n, o) := g in
  {| gr_schema_version := a; gr_contract_version := b;
     gr_os := {| go_id := c; go_version_id := d; go_architecture := e |};
     gr_forgejo_runner := {| gt_version := f; gt_sha256 := h |};
     gr_podman := {| pm_version := i; pm_rootless := j; pm_docker_api := k |};
     gr_agent := (fun x => {| ga_exec_enabled := x.1; ga_block_rpcs := x.2 |}) <$> l;
     gr_job_account := account_of <$> m; gr_privileged_account := account_of <$> n;
     gr_dependency_proxy_configured := o |}.

Lemma guest_of_to g : guest_of (guest_to g) = g.
Proof. by destruct g as [? ? [] [] [] [[]|] [[]|] [[]|] ?]. Qed.

Definition image_to (m : BaseImageManifest) :=
  (bm_schema_version m, bm_created_at m,
   (fun s => (os_image_url s, os_image_sha256 s, repository_revision s, repository_dirty s)) <$> bm_source m,
   (fun b => (packer_version b, qemu_plugin_version b)) <$> bm_builder m,
   (im_file (bm_image m), im_format (bm_image m), im_sha256 (bm_image m), im_bytes (bm_image m),
    im_virtual_bytes (bm_image m)),
   (fun p => (api_url (pv_runner_release p), download_base_url (pv_runner_release p),
              signing_primary_fingerprint (pv_runner_release p), dp_configured (pv_dependency_proxy p),
              dp_ca_sha256 (pv_dependency_proxy p))) <$> bm_provenance m,
   guest_to <$> bm_guest m).

Definition image_of m : BaseImageManifest :=
  let '(a, b, c, d, (e, f, g, h, i), j, k) := m in
  {| bm_schema_version := a; bm_created_at := b;
     bm_source := (fun '(x, y, z, t) => {| os_image_url := x; os_image_sha256 := y; repository_revision := z;
                                           repository_dirty := t |}) <$> c;
     bm_builder := (fun '(x, y) => {| packer_version := x; qemu_plugin_version := y |}) <$> d;
     bm_image := {| im_file := e; im_format := f; im_sha256 := g; im_bytes := h; im_virtual_bytes := i |};
     bm_provenance := (fun '(x, y, z, t, u) =>
       {| pv_runner_release := {| api_url := x; download_base_url := y; signing_primary_fingerprint := z |};
          pv_dependency_proxy := {| dp_configured := t; dp_ca_sha256 := u |} |}) <$> j;
     bm_guest := guest_of <$> k |}.

Lemma image_of_to m : image_of (image_to m) = m.
Proof. destruct m as [? ? [[]|] [[]|] [] [[[] []]|] [g|]];
  cbn -[guest_to guest_of]; by rewrite ?guest_of_to. Qed.

Definition request_to (r : HelperRequest) :=
  match r with
  | HProbe x0 => inl (config_to x0)
  | HInventory x0 => inr (inl (config_to x0))
  | HCheckSource x0 x1 => inr (inr (inl (config_to x0, x1)))
  | HCreate x0 x1 x2 x3 x4 => inr (inr (inr (inl (config_to x0, manifest_to x1, x2, x3, x4))))
  | HDefine x0 x1 x2 x3 => inr (inr (inr (inr (inl (config_to x0, manifest_to x1, x2, x3)))))
  | HStart x0 x1 => inr (inr (inr (inr (inr (inl (config_to x0, manifest_to x1))))))
  | HAddress x0 x1 x2 => inr (inr (inr (inr (inr (inr (inl (config_to x0, manifest_to x1, x2)))))))
  | HCleanup x0 x1 x2 => inr (inr (inr (inr (inr (inr (inr (inl (config_to x0, manifest_to x1, x2))))))))
  | HImport x0 x1 x2 x3 x4 => inr (inr (inr (inr (inr (inr (inr (inr (inl (config_to x0, x1, x2, x3, image_to x4)))))))))
  | HDeleteVolume x0 x1 x2 => inr (inr (inr (inr (inr (inr (inr (inr (inr (inl (config_to x0, x1, x2))))))))))
  | HWarmQuiesce x0 x1 x2 => inr (inr (inr (inr (inr (inr (inr (inr (inr (inr (inl (config_to x0, manifest_to x1, x2)))))))))))
  | HWarmCapture x0 x1 x2 x3 x4 x5 => inr (inr (inr (inr (inr (inr (inr (inr (inr (inr (inr (inl (config_to x0, manifest_to x1, x2, x3, x4, x5))))))))))))
  | HWarmVerify x0 x1 x2 x3 x4 x5 => inr (inr (inr (inr (inr (inr (inr (inr (inr (inr (inr (inr (inl (config_to x0, x1, x2, x3, x4, x5)))))))))))))
  | HAgentProbe x0 x1 x2 => inr (inr (inr (inr (inr (inr (inr (inr (inr (inr (inr (inr (inr (inl (config_to x0, manifest_to x1, x2))))))))))))))
  | HAgentExec x0 x1 x2 x3 => inr (inr (inr (inr (inr (inr (inr (inr (inr (inr (inr (inr (inr (inr (inl (config_to x0, manifest_to x1, exec_to x2, x3)))))))))))))))
  | HAgentExecStatus x0 x1 x2 x3 => inr (inr (inr (inr (inr (inr (inr (inr (inr (inr (inr (inr (inr (inr (inr (inl (config_to x0, manifest_to x1, x2, x3))))))))))))))))
  | HWarmRetire x0 x1 x2 => inr (inr (inr (inr (inr (inr (inr (inr (inr (inr (inr (inr (inr (inr (inr (inr (config_to x0, x1, x2))))))))))))))))
  end.

Definition request_of r : HelperRequest :=
  match r with
  | inl (x0) => HProbe (config_of x0)
  | inr (inl (x0)) => HInventory (config_of x0)
  | inr (inr (inl (x0, x1))) => HCheckSource (config_of x0) x1
  | inr (inr (inr (inl (x0, x1, x2, x3, x4)))) => HCreate (config_of x0) (manifest_of x1) x2 x3 x4
  | inr (inr (inr (inr (inl (x0, x1, x2, x3))))) => HDefine (config_of x0) (manifest_of x1) x2 x3
  | inr (inr (inr (inr (inr (inl (x0, x1)))))) => HStart (config_of x0) (manifest_of x1)
  | inr (inr (inr (inr (inr (inr (inl (x0, x1, x2))))))) => HAddress (config_of x0) (manifest_of x1) x2
  | inr (inr (inr (inr (inr (inr (inr (inl (x0, x1, x2)))))))) => HCleanup (config_of x0) (manifest_of x1) x2
  | inr (inr (inr (inr (inr (inr (inr (inr (inl (x0, x1, x2, x3, x4))))))))) => HImport (config_of x0) x1 x2 x3 (image_of x4)
  | inr (inr (inr (inr (inr (inr (inr (inr (inr (inl (x0, x1, x2)))))))))) => HDeleteVolume (config_of x0) x1 x2
  | inr (inr (inr (inr (inr (inr (inr (inr (inr (inr (inl (x0, x1, x2))))))))))) => HWarmQuiesce (config_of x0) (manifest_of x1) x2
  | inr (inr (inr (inr (inr (inr (inr (inr (inr (inr (inr (inl (x0, x1, x2, x3, x4, x5)))))))))))) => HWarmCapture (config_of x0) (manifest_of x1) x2 x3 x4 x5
  | inr (inr (inr (inr (inr (inr (inr (inr (inr (inr (inr (inr (inl (x0, x1, x2, x3, x4, x5))))))))))))) => HWarmVerify (config_of x0) x1 x2 x3 x4 x5
  | inr (inr (inr (inr (inr (inr (inr (inr (inr (inr (inr (inr (inr (inl (x0, x1, x2)))))))))))))) => HAgentProbe (config_of x0) (manifest_of x1) x2
  | inr (inr (inr (inr (inr (inr (inr (inr (inr (inr (inr (inr (inr (inr (inl (x0, x1, x2, x3))))))))))))))) => HAgentExec (config_of x0) (manifest_of x1) (exec_of x2) x3
  | inr (inr (inr (inr (inr (inr (inr (inr (inr (inr (inr (inr (inr (inr (inr (inl (x0, x1, x2, x3)))))))))))))))) => HAgentExecStatus (config_of x0) (manifest_of x1) x2 x3
  | inr (inr (inr (inr (inr (inr (inr (inr (inr (inr (inr (inr (inr (inr (inr (inr (x0, x1, x2)))))))))))))))) => HWarmRetire (config_of x0) x1 x2
  end.

Lemma request_of_to r : request_of (request_to r) = r.
Proof.
  destruct r; unfold request_to, request_of; repeat match goal with c : HelperConfig |- _ => destruct c end;
    repeat match goal with x : AgentExecRequest |- _ => destruct x end;
    by rewrite ?manifest_of_to, ?image_of_to.
Qed.

#[export] Instance manifests : JsonCodec OwnershipManifest := json_via manifest_to manifest_of manifest_of_to.
#[export] Instance tombstones : JsonCodec CleanupTombstone := json_via tombstone_to tombstone_of tombstone_of_to.
#[export] Instance requests : JsonCodec HelperRequest := json_via request_to request_of request_of_to.
#[export] Instance wires : WireCodec := {|
  url_parse _ := Some {| url_serialization := "https://example.org"; url_scheme := "https"; url_username := "";
                         url_password := None; url_host_str := Some "example.org";
                         url_path := "/"; url_query := None; url_fragment := None |};
  is_rfc3339 _ := true |}.
#[export] Instance seeds : SeedFormats := {|
  yaml_of _ := Ok "yaml"; metadata_of _ := Ok "metadata"; fat_image metadata user := Ok (metadata +:+ user) |}.

(** Requests are served at once. *)
#[export] Instance daemon : LibvirtDaemon Host := {
  ld_lock h := (true, h);
  ld_spawn h := (Ok tt, h);
  ld_fate h := (Received, h);
  ld_cancelled h := (false, h);
  ld_delete_runner _ h := (Ok tt, h);
  ld_host_key h := (Ok ("private", "public"), h);
  ld_report_created h := (Ok tt, h);
  ld_report_booting h := (Ok tt, h);
  ld_read_dir entries := entries;
}.

#[export] Instance lawful_daemon : LawfulDaemon Host.
Proof. by split. Qed.

Definition worker : LibvirtWorker := {|
  lw_config := config; lw_instance := id; lw_state_dir := "/var/lib/flanforge"; lw_operator_public_key := None;
  lw_privileged_public_key := None; lw_guest_user := "runner"; lw_privileged_user := "prunner" |}.

Definition allocation : Allocation :=
  allocation_new 1700000000 id
    {| rq_profile := "linux"; rq_repository := "owner/repo"; rq_run_id := 1; rq_run_attempt := 1 |}
    "job-1" "flanforged-1" Cold {| cpu_count := 2; memory_mb := 4096; storage_mb := 16384 |}.

(** Before the first boot. *)
Definition host_at (calls turns : option nat) : HostWorld Host := {|
  hw_host := hw_host (world calls) <| h_turns := turns |>;
  hw_files := ∅;
  hw_dirs := {[ lsp_allocations (libvirt_state_paths "/var/lib/flanforge") ]};
  hw_claimed := ∅ |}.

Definition boot (w : HostWorld Host) :=
  boot_domain worker allocation {| cpu_count := 2; memory_mb := 4096; storage_mb := 16384 |}
    (cr_source request) 1 600000000000 w.

Definition again (turns : option nat) (w : HostWorld Host) : HostWorld Host :=
  w <| hw_host := hw_host w <| h_calls := None |> <| h_turns := turns |> |>.

(** The helper is killed while it uploads the seed. *)
Definition cut_short : HostWorld Host := (boot (host_at (Some 21%nat) None)).2.

(** The manifest the boot first wrote. *)
Definition intended : OwnershipManifest :=
  ownership_new id id "job-1" (lh_uuid (hw_host cut_short)).1 (mac_for id)
    (artifact_new ("root-" +:+ (lh_uuid (hw_host cut_short)).1 +:+ ".qcow2"))
    (artifact_new ("seed-" +:+ (lh_uuid (hw_host cut_short)).1 +:+ ".img"))
    ("flanforge-" +:+ id) (known_hosts_path "/var/lib/flanforge" id) 1700000000.

(** The daemon dies in the cleanup, between two of the files it removes. *)
Definition orphaned : HostWorld Host :=
  again None (worker_cleanup worker allocation (allow 600000000000) (again (Some 13%nat) cut_short)).2.
End SimWorker.

(** ** Witnesses *)

Section witnesses.
Import SimVirt SimWorker.

(** A boot cut short leaves two volumes, and its manifest names them. *)
Lemma boot_authorized_witness :
  (boot (host_at (Some 21%nat) None)).1 = Done (Err (WorkerFailed "libvirt operation exceeded its deadline")) /\
  authorized worker id (view (host_at (Some 21%nat) None)) (view cut_short).
Proof.
  split; [vm_compute; reflexivity|].
  exact (boot_authorized worker allocation {| cpu_count := 2; memory_mb := 4096; storage_mb := 16384 |}
    (cr_source request) 1 600000000000 (host_at (Some 21%nat) None)).
Defined.

(** The cleanup that follows it succeeds, and nothing is left. *)
Lemma authority_kept_witness :
  let w := again None cut_short in
  (worker_cleanup worker allocation (allow 600000000000) w).1 = Done (Ok tt) /\
  nothing_left config intended (view (worker_cleanup worker allocation (allow 600000000000) w).2).
Proof.
  intros w.
  assert ((worker_cleanup worker allocation (allow 600000000000) w).1 = Done (Ok tt)) as Hok by (vm_compute; reflexivity).
  split; [exact Hok|].
  assert (on_disk worker (a_id allocation) intended (view w)) as Hw by (exists None, None; vm_compute; reflexivity).
  assert (pooled allocation w = false) as Hp by (vm_compute; reflexivity).
  destruct (authority_kept worker allocation intended w Hw) as [Hc _].
  destruct (Hc (allow 600000000000)) as [_ Hleft]. exact (Hleft Hp Hok).
Defined.

(** A whole guest, claimed by the pool before its cleanup. *)
Lemma pooled_guest_survives_witness :
  let w := (boot (host_at None None)).2 <| hw_claimed := {[ "job-1" ]} |> in
  view (worker_cleanup worker allocation (allow 600000000000) w).2 = view w.
Proof. apply (pooled_guest_survives worker allocation). vm_compute. reflexivity. Defined.

(** The files a dead daemon left behind: the guest is gone, and no cleanup ever
    says so. *)
Lemma orphan_checkpoint_stuck_witness :
  nothing_left config intended (view orphaned) /\
  (worker_cleanup worker allocation (allow 600000000000) orphaned).1 <> Done (Ok tt).
Proof.
  split; [by vm_compute|].
  destruct (hw_files orphaned !! allocation_path "/var/lib/flanforge" id) as [bytes|] eqn:E;
    [|exfalso; revert E; vm_compute; congruence].
  apply (orphan_checkpoint_stuck worker allocation (allow 600000000000) orphaned bytes);
    [vm_compute; reflexivity | exact E | reflexivity | vm_compute; reflexivity].
Defined.
End witnesses.
