(* ===== verification/VirtWarm.v ===== *)
(** * Warm volumes of the libvirt backend
      ([crates/flanforge-runtime-libvirt/src/{actor/storage/warm,actor/guest/quiesce.rs,file/qcow2.rs}])

    A warm generation is a standalone volume flattened from a finished guest's
    overlay.  A document per profile names the current one and those it
    superseded.  This file models what the helper does for it: quiesce the
    guest, capture and verify a generation, and retire those that nothing
    references any more.  [VirtWarmSpec] proves what is kept. *)

From S2P Require Import Prelude Rust Text Identifiers Images Guest Allocation Config ConfigValidate Convert Admission Reaper Manager Futures Wire Virt VirtWorker.

Open Scope Z_scope.
Open Scope stdpp_scope.

(** ** What libvirt offers besides *)

Class LibvirtVolumes (H : Type) := {
  lh_pool_refresh : string -> H -> Call unit * H;
  lh_list_volumes : string -> H -> Call (list Vol) * H;
  lh_list_domains : H -> Call (list Dom) * H;
  lh_vol_xml : Vol -> H -> Call string * H;
  lh_vol_by_path : string -> H -> Call Vol * H;
  lh_vol_create_from : string -> string -> Vol -> H -> Call Vol * H;
  lh_dom_xml : Dom -> H -> Call string * H;
  (** A stream out of a volume, and at most so many bytes of it. *)
  lh_download : Vol -> nat -> Z -> H -> Call unit * H;
  lh_recv : nat -> Z -> H -> Call string * H;
}.

(** A parsed document, as [roxmltree] presents it. *)
Inductive Xml :=
| XElement (name : string) (attributes : list (string * string)) (children : list Xml)
| XText (text : string).

Class XmlTree := { xml_tree : string -> option Xml }.

Definition has_tag_name (name : string) (node : Xml) : bool :=
  match node with XElement n _ _ => bool_decide (n = name) | XText _ => false end.

Definition children (node : Xml) : list Xml :=
  match node with XElement _ _ children => children | XText _ => [] end.

(** The node and everything below it, in document order. *)
Fixpoint descendants (node : Xml) : list Xml :=
  node :: match node with
          | XElement _ _ children => concat (map descendants children)
          | XText _ => []
          end.

(** The text an element starts with. *)
Definition text_of (node : Xml) : option string :=
  match children node with XText t :: _ => Some t | _ => None end.

Definition attribute_of (node : Xml) (name : string) : option string :=
  match node with
  | XElement _ attributes _ => snd <$> List.find (fun a => bool_decide (a.1 = name)) attributes
  | XText _ => None
  end.

(** ** qcow2 headers and paths ([file/qcow2.rs]) *)

Definition QCOW2_MAGIC : list ascii :=
  ["Q"%char; "F"%char; "I"%char; ascii_of_nat 251].
Definition HEADER_BYTES : nat := 32.
Definition HEADER_WINDOW_BYTES : Z := 65536.

Record Qcow2Header := { qh_virtual_bytes : Z; qh_backing_file : option string }.

Definition from_be_bytes (l : list ascii) : Z := foldl (fun n c => n * 256 + byte_val c) 0 l.
Definition read_u32 (l : list ascii) (offset : nat) : Z := from_be_bytes (take 4 (drop offset l)).
Definition read_u64 (l : list ascii) (offset : nat) : Z := from_be_bytes (take 8 (drop offset l)).

(** [str::from_utf8]. *)
Fixpoint is_utf8 (l : list ascii) : bool :=
  match l with
  | [] => true
  | a :: l1 =>
      let byte := byte_val a in
      let tail c := in_range 128 191 (byte_val c) in
      if byte <? 128 then is_utf8 l1
      else match l1 with
      | [] => false
      | b :: l2 =>
          if in_range 194 223 byte then tail b && is_utf8 l2
          else match l2 with
          | [] => false
          | c :: l3 =>
              if in_range 224 239 byte then
                (if byte =? 224 then in_range 160 191 (byte_val b)
                 else if byte =? 237 then in_range 128 159 (byte_val b) else tail b)
                && tail c && is_utf8 l3
              else match l3 with
              | [] => false
              | d :: l4 =>
                  in_range 240 244 byte
                  && (if byte =? 240 then in_range 144 191 (byte_val b)
                      else if byte =? 244 then in_range 128 143 (byte_val b) else tail b)
                  && tail c && tail d && is_utf8 l4
              end
          end
      end
  end.

Definition parse_header (content : string) : result RuntimeError (option Qcow2Header) :=
  let l := bytes content in
  if (length l <? HEADER_BYTES)%nat || negb (bool_decide (take 4 l = QCOW2_MAGIC)) then Ok None
  else if read_u32 l 4 <? 2 then Ok None
  else
    let backing_offset := read_u64 l 8 in
    let backing_size := read_u32 l 16 in
    let virtual_bytes := read_u64 l 24 in
    if (backing_offset =? 0) || (backing_size =? 0)
    then Ok (Some {| qh_virtual_bytes := virtual_bytes; qh_backing_file := None |})
    else if 4096 <? backing_size
    then Err (manifest_error "qcow2 backing filename length is out of range")
    else if u64_max <? backing_offset + backing_size
    then Err (manifest_error "qcow2 backing filename overflows")
    else if Z.of_nat (length l) <? backing_offset + backing_size
    then Err (manifest_error "qcow2 backing filename is outside the header")
    else
      let name := take (Z.to_nat backing_size) (drop (Z.to_nat backing_offset) l) in
      if negb (is_utf8 name) then Err (manifest_error "qcow2 backing filename is not UTF-8")
      else if bool_decide (name = []) || existsb is_ascii_control name
      then Err (manifest_error "qcow2 backing filename is unsafe")
      else Ok (Some {| qh_virtual_bytes := virtual_bytes; qh_backing_file := Some (text name) |}).

(** One segment of a path: [segments] is the stack of those kept, last first. *)
Definition normalize_step (segments : list string) (segment : string) : list string :=
  if bool_decide (segment = "") || bool_decide (segment = ".") then segments
  else if bool_decide (segment = "..") then tail segments
  else segment :: segments.

Definition normalize_path (value : string) : string :=
  let segments := reverse (foldl normalize_step [] (split "/" value)) in
  (if starts_with value "/" then "/" else "") +:+ String.concat "/" segments.

(** ** The helper's side ([actor/guest/quiesce.rs], [actor/storage/warm]) *)

Record WarmCaptureRequest := {
  wc_manifest : OwnershipManifest;
  wc_profile : string;
  wc_capture_id : Uuid;
  wc_generation : Z;
  wc_virtual_bytes : Z;
}.

Record WarmVerifyRequest := {
  wv_profile : string;
  wv_capture_id : Uuid;
  wv_generation : Z;
  wv_produced_at_unix : Z;
  wv_virtual_bytes : Z;
}.

Record BackingInventory := { bi_paths : gset string; bi_keys : gset string }.

Definition empty_inventory : BackingInventory := {| bi_paths := ∅; bi_keys := ∅ |}.
Definition add_path (path : string) (i : BackingInventory) : BackingInventory :=
  {| bi_paths := {[ normalize_path path ]} ∪ bi_paths i; bi_keys := bi_keys i |}.
Definition add_key (key : string) (i : BackingInventory) : BackingInventory :=
  {| bi_paths := bi_paths i; bi_keys := {[ key ]} ∪ bi_keys i |}.

Definition is_backing_referenced (i : BackingInventory) (key path : string) : bool :=
  bool_decide (key ∈ bi_keys i) || bool_decide (normalize_path path ∈ bi_paths i).

Definition reconcile_views (recorded declared : option string) : result RuntimeError (option string) :=
  let disagree := Err (ownership_error "volume backing-file views disagree; refusing to prove anything unreferenced") in
  match recorded, declared with
  | None, None => Ok None
  | Some recorded, Some declared =>
      if bool_decide (normalize_path recorded = normalize_path declared) then Ok (Some recorded) else disagree
  | _, _ => disagree
  end.

Definition MAX_XML_BYTES : Z := 1048576.
Definition MAX_VOLUMES : nat := 4096.
Definition MAX_DOMAINS : nat := 4096.
Definition MAX_CHAIN_DEPTH : nat := 8.

Section documents.
Context {PE : ParserErrors} {XT : XmlTree}.

Definition xml_document (complaint xml : string) : result RuntimeError Xml :=
  if MAX_XML_BYTES <? len xml then Err (ownership_error complaint)
  else ok_or (xml_tree xml) (ownership_error (xml_error xml)).

Definition xml_backing_path (xml : string) : result RuntimeError (option string) :=
  document ← xml_document "volume XML is oversized" xml;
  Ok (store ← List.find (has_tag_name "backingStore") (descendants document);
      path ← List.find (has_tag_name "path") (children store);
      text_of path).

Record DomainDisks := { dk_paths : list string; dk_volumes : list (string * string) }.

Definition parse_domain_disks (xml : string) : result RuntimeError DomainDisks :=
  document ← xml_document "domain XML is oversized" xml;
  let sources := List.filter (has_tag_name "source") (descendants document) in
  Ok {| dk_paths := omap (fun node => match attribute_of node "file" with
                                      | Some path => Some path
                                      | None => attribute_of node "dev"
                                      end) sources;
        dk_volumes := omap (fun node => pool ← attribute_of node "pool";
                                        volume ← attribute_of node "volume";
                                        Some (pool, volume)) sources |}.
End documents.

Definition NOT_A_DIRECTORY : string := "Not a directory (os error 20)".

Section helper.
Context {H : Type} {LH : LibvirtHost H} {LV : LibvirtVolumes H} {PE : ParserErrors} {XC : XmlCodec} {XT : XmlTree}.
Context {JC : JsonCodec VolumeCheckpoint} {UC : UuidCodec}.
Local Abbreviation W := (HostWorld H).

Definition ensure_inactive (m : OwnershipManifest) : Fut W (result RuntimeError unit) :=
  domain ←! exact_domain m;
  active ← virt "domain state" (lh_dom_is_active domain);
  _ ←! free_domain domain;
  active ←! mret active;
  mret (if active : bool then Err (ownership_error "refusing to capture a running guest") else Ok tt).

Definition shutdown_gracefully (fuel : nat) (d : Dom) (deadline : Z) : Fut W (result RuntimeError unit) :=
  active ←! virt "domain state" (lh_dom_is_active d);
  if negb active then mret (Ok tt)
  else
    _ ←! virt "domain shutdown" (lh_dom_shutdown d);
    stopped ←! await_stopped fuel d deadline;
    mret (if stopped : bool then Ok tt else Err EDeadline).

Definition quiesce (fuel : nat) (m : OwnershipManifest) (deadline : Z) : Fut W (result RuntimeError unit) :=
  _ ←! mret (as_manifest (ensure_ownership_valid m));
  _ ←! mret (ensure_recovery_artifacts m);
  domain ←! exact_domain m;
  result ← shutdown_gracefully fuel domain deadline;
  _ ←! free_domain domain;
  mret result.

(** [HelperRequest::WarmQuiesce]. *)
Definition quiesce_request (m : OwnershipManifest) (timeout_seconds : Z) : Fut W (result RuntimeError unit) :=
  now ← host lh_now;
  quiesce (stop_fuel timeout_seconds) m (now + timeout_seconds * 1000000000).

(** [download_prefix]'s loop: the bytes so far, and those still asked for. *)
Fixpoint receive (fuel : nat) (stream : nat) (got : string) (length : Z) : Fut W (result RuntimeError string) :=
  match fuel with
  | O => fun w => (Dropped false, w)
  | S fuel =>
      if length <=? len got then mret (Ok got)
      else
        read ← call (lh_recv stream (Z.min (length - len got) HEADER_WINDOW_BYTES));
        match read with
        | Err error =>
            _ ← call (lh_abort stream);
            mret (Err (libvirt_error "volume prefix read" (ve_message error)))
        | Ok chunk => if is_empty chunk then mret (Ok got) else receive fuel stream (got +:+ chunk) length
        end
  end.

Definition download_prefix (volume : Vol) (length : Z) : Fut W (result RuntimeError string) :=
  if length =? 0 then mret (Ok "")
  else
    stream ←! virt "volume prefix stream" lh_stream;
    _ ←! virt "volume prefix download" (lh_download volume stream length);
    got ←! receive (S (Z.to_nat length)) stream "" length;
    _ ← call (lh_abort stream);
    mret (Ok got).

Definition backing_path (volume : Vol) : Fut W (result RuntimeError (option string)) :=
  info ←! virt "retirement volume info" (lh_vol_info volume);
  prefix ←! download_prefix volume (Z.min (vi_allocation info) HEADER_WINDOW_BYTES);
  header ←! mret (parse_header prefix);
  xml ←! virt "retirement volume XML" (lh_vol_xml volume);
  declared ←! mret (xml_backing_path xml);
  mret (reconcile_views (header ≫= qh_backing_file) declared).

(** [BackingInventory::insert]. *)
Definition insert_path (path : string) (i : BackingInventory) : Fut W (result RuntimeError BackingInventory) :=
  found ← call (lh_vol_by_path path);
  match found with
  | Ok volume =>
      key ← virt "backing volume key" (lh_vol_key volume);
      _ ←! free_volume volume;
      key ←! mret key;
      mret (Ok (add_key key (add_path path i)))
  | Err error =>
      mret (if bool_decide (ve_code error = NoStorageVolume) then Ok (add_path path i)
            else Err (libvirt_error "backing volume lookup" (ve_message error)))
  end.

(** [BackingInventory::insert_volume]. *)
Definition insert_volume (pool_name volume_name : string) (i : BackingInventory) :
    Fut W (result RuntimeError (option string * BackingInventory)) :=
  pool ← call (lh_pool_lookup pool_name);
  match pool with
  | Err error =>
      mret (if bool_decide (ve_code error = NoStoragePool) then Ok (None, i)
            else Err (libvirt_error "disk pool lookup" (ve_message error)))
  | Ok pool =>
      volume ← call (lh_vol_lookup pool volume_name);
      match volume with
      | Err error =>
          if bool_decide (ve_code error = NoStorageVolume)
          then _ ←! free_pool pool; mret (Ok (None, i))
          else _ ← free_pool pool; mret (Err (libvirt_error "disk volume lookup" (ve_message error)))
      | Ok volume =>
          identity ← (key ←! virt "disk volume identity" (lh_vol_key volume);
                      path ←! virt "disk volume identity" (lh_vol_path volume);
                      mret (Ok (key, path)));
          _ ←! free_volume volume;
          _ ←! free_pool pool;
          identity ←! mret identity;
          let '(key, path) := identity in
          mret (Ok (Some path, add_path path (add_key key i)))
      end
  end.

Definition resolved_backing_path (path : string) : Fut W (result RuntimeError (option string)) :=
  found ← call (lh_vol_by_path path);
  match found with
  | Ok volume => backing ← backing_path volume; _ ←! free_volume volume; mret backing
  | Err error =>
      mret (if bool_decide (ve_code error = NoStorageVolume) then Ok None
            else Err (libvirt_error "disk volume lookup" (ve_message error)))
  end.

Fixpoint chain_walked (depth : nat) (current : string) (i : BackingInventory) :
    Fut W (result RuntimeError BackingInventory) :=
  match depth with
  | O => mret (Err (ownership_error "domain disk backing chain is too deep to prove"))
  | S depth =>
      parent ←! resolved_backing_path current;
      match parent with
      | None => mret (Ok i)
      | Some parent => i ←! insert_path parent i; chain_walked depth parent i
      end
  end.

Definition ensure_chain_walked (path : string) (i : BackingInventory) : Fut W (result RuntimeError BackingInventory) :=
  chain_walked MAX_CHAIN_DEPTH path i.

Fixpoint free_volumes (volumes : list Vol) : Fut W (result RuntimeError unit) :=
  match volumes with
  | [] => mret (Ok tt)
  | v :: volumes => _ ←! free_volume v; free_volumes volumes
  end.

Fixpoint free_domains (domains : list Dom) : Fut W (result RuntimeError unit) :=
  match domains with
  | [] => mret (Ok tt)
  | d :: domains => _ ←! free_domain d; free_domains domains
  end.

(** The loop of [referenced_backing_paths]. *)
Fixpoint volumes_walked (volumes : list Vol) (i : BackingInventory) : Fut W (result RuntimeError BackingInventory) :=
  match volumes with
  | [] => mret (Ok i)
  | v :: volumes =>
      path ←! backing_path v;
      match path with
      | None => volumes_walked volumes i
      | Some path => i ←! insert_path path i; volumes_walked volumes i
      end
  end.

Definition referenced_backing_paths (pool_name : string) : Fut W (result RuntimeError BackingInventory) :=
  pool ←! virt "retirement pool lookup" (lh_pool_lookup pool_name);
  listed ← (_ ←! virt "retirement pool refresh" (lh_pool_refresh pool);
            virt "retirement volume inventory" (lh_list_volumes pool));
  match listed with
  | Err error => _ ← free_pool pool; mret (Err error)
  | Ok volumes =>
      result ← (if (MAX_VOLUMES <? length volumes)%nat
                then mret (Err (libvirt_error "retirement volume inventory" "pool returned too many volumes"))
                else volumes_walked volumes empty_inventory);
      _ ←! free_volumes volumes;
      _ ←! free_pool pool;
      mret result
  end.

(** One domain's disks: those named by path, those named in a pool. *)
Fixpoint paths_walked (paths : list string) (i : BackingInventory) : Fut W (result RuntimeError BackingInventory) :=
  match paths with
  | [] => mret (Ok i)
  | path :: paths =>
      i ←! insert_path path i;
      i ←! ensure_chain_walked path i;
      paths_walked paths i
  end.

Fixpoint disks_walked (disks : list (string * string)) (i : BackingInventory) : Fut W (result RuntimeError BackingInventory) :=
  match disks with
  | [] => mret (Ok i)
  | (pool, volume) :: disks =>
      inserted ←! insert_volume pool volume i;
      let '(path, i) := inserted in
      match path with
      | Some path => i ←! ensure_chain_walked path i; disks_walked disks i
      | None => disks_walked disks i
      end
  end.

Definition domain_disks (d : Dom) : Fut W (result RuntimeError DomainDisks) :=
  xml ←! virt "retirement domain XML" (lh_dom_xml d);
  mret (parse_domain_disks xml).

Fixpoint domains_walked (domains : list Dom) (i : BackingInventory) : Fut W (result RuntimeError BackingInventory) :=
  match domains with
  | [] => mret (Ok i)
  | d :: domains =>
      disks ←! domain_disks d;
      i ←! paths_walked (dk_paths disks) i;
      i ←! disks_walked (dk_volumes disks) i;
      domains_walked domains i
  end.

Definition ensure_domains_walked (i : BackingInventory) : Fut W (result RuntimeError BackingInventory) :=
  domains ←! virt "retirement domain inventory" lh_list_domains;
  result ← (if (MAX_DOMAINS <? length domains)%nat
            then mret (Err (libvirt_error "retirement domain inventory" "host returned too many domains"))
            else domains_walked domains i);
  _ ←! free_domains domains;
  mret result.

(** The closure of [delete_if_unreferenced]. *)
Definition delete_checked (candidate : VolumePointer) (i : BackingInventory) (volume : Vol) : Fut W (result RuntimeError bool) :=
  key ←! virt "retirement volume key" (lh_vol_key volume);
  path ←! virt "retirement volume path" (lh_vol_path volume);
  if negb (bool_decide (key = vp_volume_key candidate))
  then mret (Err (ownership_error "retirement candidate disagrees with the configured-pool volume"))
  else if is_backing_referenced i key path then mret (Ok false)
  else _ ←! virt "retirement volume deletion" (lh_vol_delete volume); mret (Ok true).

Definition delete_if_unreferenced (config : HelperConfig) (candidate : VolumePointer) (i : BackingInventory) :
    Fut W (result RuntimeError bool) :=
  pool ←! virt "retirement pool lookup" (lh_pool_lookup (hcf_pool config));
  volume ← call (lh_vol_lookup pool (vp_volume_name candidate));
  match volume with
  | Err error =>
      if bool_decide (ve_code error = NoStorageVolume) then _ ←! free_pool pool; mret (Ok true)
      else _ ← free_pool pool; mret (Err (libvirt_error "retirement volume lookup" (ve_message error)))
  | Ok volume =>
      result ← delete_checked candidate i volume;
      _ ←! free_volume volume;
      _ ←! free_pool pool;
      mret result
  end.

Fixpoint ensure_retirable (config : HelperConfig) (candidates protected : list VolumePointer) : result RuntimeError unit :=
  match candidates with
  | [] => Ok tt
  | candidate :: candidates =>
      if negb (bool_decide (vp_pool candidate = hcf_pool config))
      then Err (ownership_error "retirement candidate belongs to another storage pool")
      else if existsb (fun pointer => is_same_volume pointer candidate) protected
      then Err (ownership_error "retirement candidate is a protected generation")
      else ensure_retirable config candidates protected
  end.

Fixpoint delete_unreferenced (config : HelperConfig) (candidates : list VolumePointer) (i : BackingInventory)
    (deleted : list string) : Fut W (result RuntimeError (list string)) :=
  match candidates with
  | [] => mret (Ok deleted)
  | candidate :: candidates =>
      is_deleted ←! delete_if_unreferenced config candidate i;
      delete_unreferenced config candidates i
        (if is_deleted : bool then deleted ++ [vp_volume_key candidate] else deleted)
  end.

Definition retire_volumes (config : HelperConfig) (candidates protected : list VolumePointer) :
    Fut W (result RuntimeError (list string)) :=
  _ ←! mret (ensure_retirable config candidates protected);
  i ←! referenced_backing_paths (hcf_pool config);
  i ←! ensure_domains_walked i;
  delete_unreferenced config candidates i [].

(** *** Capture and verification *)

Definition warm_xml (name : string) (capacity : Z) : string :=
  "<volume><name>" +:+ escape name +:+ "</name><capacity " +:+ attr "unit" "B" +:+ ">" +:+ decimal capacity
  +:+ "</capacity><target><format " +:+ attr "type" "qcow2" +:+ "/></target></volume>".

Definition warm_capture_dir (state_dir : PathBuf) : PathBuf :=
  join (lsp_warm (libvirt_state_paths state_dir)) "captures".

Definition warm_path (state_dir : PathBuf) (capture_id : Uuid) : PathBuf :=
  join (warm_capture_dir state_dir) ("capture-" +:+ capture_id +:+ ".volume-checkpoint.json").

(** [DirBuilder::create] with [recursive]: a directory and those above it. *)
Fixpoint lineage (fuel : nat) (path : PathBuf) : list PathBuf :=
  match fuel with
  | O => []
  | S fuel => if is_empty path then [] else path :: from_option (lineage fuel) [] (parent path)
  end.

Definition create_directories (path : PathBuf) : Fut W (result string unit) := fun w =>
  let '(turn, h) := lh_turn (hw_host w) in
  let above := lineage (S (String.length path)) path in
  let blocked := existsb (fun p => bool_decide (is_Some (hw_files w !! p))) above in
  let after applied :=
    let w := w <| hw_host := h |> in
    if (applied : bool) && negb blocked then w <| hw_dirs := list_to_set above ∪ hw_dirs w |> else w in
  match turn with
  | Works => (Done (if blocked then Err NOT_A_DIRECTORY else Ok tt), after true)
  | Fails applied message => (Done (Err message), after applied)
  | Stops applied => (Crashed, after applied)
  end.

(** [warm::ensure_private_directory]. *)
Definition ensure_warm_directory (path : PathBuf) : Fut W (result RuntimeError unit) :=
  found ←! on_file (look (fun files dirs =>
    (bool_decide (path ∈ dirs), bool_decide (is_Some (files !! path)))));
  match found with
  | (true, _) => mret (Ok tt)
  | (false, true) => mret (Err (manifest_error "warm state path is not a private directory"))
  | (false, false) => on_file (create_directories path)
  end.

(** [VolumeJournal::warm]. *)
Definition journal_warm (config : HelperConfig) (profile : string) (capture_id : Uuid) :
    Fut W (result RuntimeError VolumeJournal) :=
  checkpoint ←! mret (as_manifest (checkpoint_new (hcf_service_instance config) (hcf_pool config)
                                     (OwnerWarm profile capture_id)));
  _ ←! ensure_warm_directory (warm_capture_dir (hcf_state_dir config));
  begin_journal checkpoint (warm_path (hcf_state_dir config) capture_id).

Definition create_flattened (pool volume_name overlay_name : string) (virtual_bytes : Z) (journal : VolumeJournal) :
    Fut W (result RuntimeError string) :=
  overlay ←! virt "warm source lookup" (lh_vol_lookup pool overlay_name);
  created ← virt "warm capture" (lh_vol_create_from pool (warm_xml volume_name virtual_bytes) overlay);
  _ ←! free_volume overlay;
  volume ←! mret created;
  result ← (recorded ←! record_created journal RoleWarm volume_name volume "warm capture key";
            mret (Ok recorded.1));
  _ ← (if is_ok result then mret (Ok tt) else call (lh_vol_delete volume));
  _ ←! free_volume volume;
  mret result.

Definition capture (config : HelperConfig) (request : WarmCaptureRequest) : Fut W (result RuntimeError VolumePointer) :=
  let m := wc_manifest request in
  _ ←! mret (as_manifest (ensure_ownership_valid m));
  _ ←! mret (ensure_recovery_artifacts m);
  _ ←! ensure_inactive m;
  overlay_key ←! mret (ok_or (art_key (om_overlay m)) (ownership_error "overlay key is absent"));
  _ ←! ensure_pool_volume (hcf_pool config) overlay_key (art_name (om_overlay m));
  pool ←! active_pool config (wc_virtual_bytes request);
  journal ←! journal_warm config (wc_profile request) (wc_capture_id request);
  let volume_name := warm_volume_name (wc_capture_id request) in
  result ← create_flattened pool volume_name (art_name (om_overlay m)) (wc_virtual_bytes request) journal;
  _ ←! free_pool pool;
  key ←! mret result;
  now ← host lh_unix_time;
  mret (as_manifest (pointer_new (hcf_pool config) volume_name key (wc_virtual_bytes request)
                       (wc_generation request) (match now with Ok now => now | Err _ => 0 end))).

(** The closure of [ensure_standalone]. *)
Definition standalone_checked (volume : Vol) (expected_key : string) (virtual_bytes : Z) : Fut W (result RuntimeError unit) :=
  key ←! virt "warm verification key" (lh_vol_key volume);
  info ←! virt "warm verification capacity" (lh_vol_info volume);
  if negb (bool_decide (key = expected_key)) || negb (vi_capacity info =? virtual_bytes)
  then mret (Err (ownership_error "captured warm volume disagrees with its checkpoint"))
  else
    xml ←! virt "warm verification XML" (lh_vol_xml volume);
    document ←! mret (xml_document "warm volume XML is oversized" xml);
    if existsb (has_tag_name "backingStore") (descendants document)
    then mret (Err (manifest_error "captured warm volume still declares a backing store"))
    else
      prefix ←! download_prefix volume (Z.min (vi_allocation info) HEADER_WINDOW_BYTES);
      header ←! mret (header ← parse_header prefix;
                      ok_or header (manifest_error "captured warm volume is not a qcow2 image"));
      mret (if bool_decide (is_Some (qh_backing_file header)) || negb (qh_virtual_bytes header =? virtual_bytes)
            then Err (manifest_error "captured warm image virtual size or backing-file state is wrong")
            else Ok tt).

Definition ensure_standalone (pool volume_name expected_key : string) (virtual_bytes : Z) :
    Fut W (result RuntimeError unit) :=
  volume ←! virt "warm verification lookup" (lh_vol_lookup pool volume_name);
  result ← standalone_checked volume expected_key virtual_bytes;
  _ ←! free_volume volume;
  mret result.

Definition verify (config : HelperConfig) (request : WarmVerifyRequest) : Fut W (result RuntimeError VolumePointer) :=
  found ←! load_checkpoint (warm_path (hcf_state_dir config) (wv_capture_id request));
  checkpoint ←! mret (ok_or found (ownership_error "warm capture has no durable checkpoint"));
  _ ←! mret (as_ownership (ensure_warm_binding checkpoint (hcf_service_instance config) (hcf_pool config)
                             (wv_profile request) (wv_capture_id request)));
  recorded ←! mret (ok_or (find_volume RoleWarm checkpoint) (ownership_error "warm checkpoint records no volume key"));
  let volume_name := warm_volume_name (wv_capture_id request) in
  if negb (bool_decide (cv_name recorded = volume_name))
  then mret (Err (ownership_error "warm checkpoint names another volume"))
  else
    pool ←! virt "warm verification pool lookup" (lh_pool_lookup (hcf_pool config));
    result ← (_ ←! virt "warm verification pool refresh" (lh_pool_refresh pool);
              ensure_standalone pool volume_name (cv_key recorded) (wv_virtual_bytes request));
    _ ←! free_pool pool;
    _ ←! mret result;
    mret (as_manifest (pointer_new (hcf_pool config) volume_name (cv_key recorded) (wv_virtual_bytes request)
                         (wv_generation request) (wv_produced_at_unix request))).
End helper.
