(* ===== verification/VirtWarmSpec.v ===== *)
(** * What is kept of warm volumes

    For every host that keeps [LawfulVolumes], besides [LawfulLibvirt]:
    [retire_spares], the helper deletes only candidates, each under its recorded
    key, that nothing protects, that no volume of the pool names as its backing
    file and on which no domain's disk rests; [capture_additive], a capture adds
    one volume that its checkpoint already names; [verified_standalone], what
    verification accepts needs no other volume.  [SimVolumes] makes the
    executable host of [VirtSpec] such a host. *)

From S2P Require Import Prelude Rust Text Identifiers Images Guest Allocation Config ConfigValidate Convert Admission Reaper Manager Futures Wire Virt VirtSpec VirtWorker VirtAuthority VirtWarm.

Open Scope Z_scope.
Open Scope stdpp_scope.

(** ** What libvirt documents of them *)

(** Calls that only look at what is there. *)
Inductive surveying {H : Type} {LH : LibvirtHost H} {LV : LibvirtVolumes H} : forall {A}, (H -> Call A * H) -> Prop :=
| surveys_pool_lookup name : surveying (lh_pool_lookup name)
| surveys_pool_free pool : surveying (lh_pool_free pool)
| surveys_pool_refresh pool : surveying (lh_pool_refresh pool)
| surveys_list_volumes pool : surveying (lh_list_volumes pool)
| surveys_list_domains : surveying lh_list_domains
| surveys_vol_lookup pool name : surveying (lh_vol_lookup pool name)
| surveys_vol_by_path path : surveying (lh_vol_by_path path)
| surveys_vol_key v : surveying (lh_vol_key v)
| surveys_vol_path v : surveying (lh_vol_path v)
| surveys_vol_info v : surveying (lh_vol_info v)
| surveys_vol_xml v : surveying (lh_vol_xml v)
| surveys_vol_free v : surveying (lh_vol_free v)
| surveys_dom_xml d : surveying (lh_dom_xml d)
| surveys_dom_free d : surveying (lh_dom_free d)
| surveys_stream : surveying lh_stream
| surveys_download v stream length : surveying (lh_download v stream length)
| surveys_recv stream length : surveying (lh_recv stream length)
| surveys_abort stream : surveying (lh_abort stream).

Create HintDb surveying.
#[export] Hint Constructors surveying : surveying.

Class LawfulVolumes (H : Type) {LH : LibvirtHost H} {LL : LawfulLibvirt H} {LV : LibvirtVolumes H} := {
  contents : H -> string * string -> string;
  allocated_bytes : H -> string * string -> Z;
  (** The volume a path leads to. *)
  located : H -> string -> option (string * string);
  (** The documents of the domains, as they are read back. *)
  definitions : H -> gmap Uuid string;
  (** What a stream still has to give. *)
  unread : H -> nat -> string;
  lv_survey A (c : H -> Call A * H) h : surveying c ->
    volumes (c h).2 = volumes h /\ domains (c h).2 = domains h /\ contents (c h).2 = contents h /\
    allocated_bytes (c h).2 = allocated_bytes h /\ located (c h).2 = located h /\ definitions (c h).2 = definitions h;
  lv_no_pool name h : refuses (lh_pool_lookup name) h (fun code =>
    code = NoStoragePool -> forall volume, volumes h !! (name, volume) = None);
  lv_by_path path h : answers (lh_vol_by_path path) h (fun v _ =>
    located h path = Some (vol_pool v, vol_name v));
  lv_no_path path h : refuses (lh_vol_by_path path) h (fun code =>
    code = NoStorageVolume -> located h path = None);
  lv_listed pool h : answers (lh_list_volumes pool) h (fun l _ =>
    forall name vol, volumes h !! (pool, name) = Some vol ->
      {| vol_pool := pool; vol_name := name; vol_key := v_key vol |} ∈ l);
  lv_domains_listed h : answers lh_list_domains h (fun l _ =>
    forall uuid xml, definitions h !! uuid = Some xml -> exists d, d ∈ l /\ dom_uuid d = uuid);
  lv_dom_xml d h : answers (lh_dom_xml d) h (fun xml _ => definitions h !! dom_uuid d = Some xml);
  lv_vol_path v h : answers (lh_vol_path v) h (fun path _ =>
    exists vol, volumes h !! (vol_pool v, vol_name v) = Some vol /\ path = v_path vol);
  lv_vol_info v h : answers (lh_vol_info v) h (fun info _ =>
    0 <= vi_allocation info /\ vi_allocation info = allocated_bytes h (vol_pool v, vol_name v));
  lv_download v stream length h : answers (lh_download v stream length) h (fun _ h' =>
    unread h' stream = text (take (Z.to_nat length) (bytes (contents h (vol_pool v, vol_name v)))));
  (** The state directory is elsewhere. *)
  lv_turn h : contents (lh_turn h).2 = contents h /\ allocated_bytes (lh_turn h).2 = allocated_bytes h /\
    located (lh_turn h).2 = located h /\ definitions (lh_turn h).2 = definitions h;
  lv_create_from pool xml source h :
    domains (lh_vol_create_from pool xml source h).2 = domains h /\
    (volumes (lh_vol_create_from pool xml source h).2 = volumes h \/
     exists name vol, read_volume xml = Some name /\ volumes h !! (pool, name) = None /\
       volumes (lh_vol_create_from pool xml source h).2 = <[(pool, name) := vol]> (volumes h));
  lv_created_from pool xml source h : answers (lh_vol_create_from pool xml source) h (fun v h' =>
    exists name vol, read_volume xml = Some name /\ volumes h !! (pool, name) = None /\
      volumes h' = <[(pool, name) := vol]> (volumes h) /\
      v = {| vol_pool := pool; vol_name := name; vol_key := v_key vol |});
  (** An empty answer is the end of the stream. *)
  lv_recv stream length h : answers (lh_recv stream length) h (fun chunk h' =>
    unread h stream = chunk +:+ unread h' stream /\ (chunk = "" -> unread h' stream = ""));
}.

(** ** A survey changes nothing it looks at *)

Lemma refuses_mono {H A} (c : H -> Call A * H) h (P Q : ErrorNumber -> Prop) :
  refuses c h P -> (forall code, P code -> Q code) -> refuses c h Q.
Proof. unfold refuses. destruct (c h) as [[] ?]; auto. Qed.

Record Survey := mkSurvey {
  su_view : View;
  su_contents : string * string -> string;
  su_allocated : string * string -> Z;
  su_located : string -> option (string * string);
  su_definitions : gmap Uuid string;
}.

Section survey.
Context {H : Type} {LH : LibvirtHost H} {LL : LawfulLibvirt H} {LV : LibvirtVolumes H} {LS : LawfulVolumes H}.
Context {PE : ParserErrors} {XC : XmlCodec} {XT : XmlTree}.
Local Abbreviation W := (HostWorld H).

Definition survey (w : W) : Survey :=
  mkSurvey (view w) (contents (hw_host w)) (allocated_bytes (hw_host w)) (located (hw_host w))
    (definitions (hw_host w)).

Context (x : Survey).

(** The survey stays [x] however the step ends, and its answer satisfies [R]. *)
Definition sees {A} (c : Fut W A) (R : A -> Prop) : Prop := forall w, survey w = x ->
  wp c (fun a w => survey w = x /\ R a) (fun w => survey w = x) (fun w => survey w = x) w.

Lemma sees_ret {A} (a : A) (R : A -> Prop) : R a -> sees (mret a) R.
Proof. by intros Ha w Hw. Qed.

Lemma sees_bind {A B} (c : Fut W A) (k : A -> Fut W B) R Q :
  sees c R -> (forall a, R a -> sees (k a) Q) -> sees (x ← c; k x) Q.
Proof.
  intros Hc Hk w Hw. apply wp_bind. eapply wp_mono; [by apply Hc| |done|done]. intros a w' [Hw' Ha]. by apply Hk.
Qed.

Lemma sees_try {E A B} (c : Fut W (result E A)) (k : A -> Fut W (result E B)) R Q :
  sees c (on_ok R) -> (forall a, R a -> sees (k a) (on_ok Q)) -> sees (fut_try c k) (on_ok Q).
Proof. intros Hc Hk. eapply sees_bind; [exact Hc|]. intros [a|e] Hr; [by apply Hk|by apply sees_ret]. Qed.

Lemma sees_mono {A} (c : Fut W A) (R Q : A -> Prop) : sees c R -> (forall a, R a -> Q a) -> sees c Q.
Proof. intros Hc HQ w Hw. eapply wp_mono; [by apply Hc| |done|done]. intros a w' []. auto. Qed.

Lemma survey_call {A} (c : H -> Call A * H) w : surveying c -> survey (w <| hw_host := (c (hw_host w)).2 |>) = survey w.
Proof.
  intros Hc. destruct (lv_survey A c (hw_host w) Hc) as (Hv & Hd & Hk & Ha & Hl & Hf).
  unfold survey, view. simpl. by rewrite Hv, Hd, Hk, Ha, Hl, Hf.
Qed.

Lemma sees_call {A} (c : H -> Call A * H) (R : A -> Prop) :
  surveying c -> (forall w, survey w = x -> answers c (hw_host w) (fun a _ => R a)) -> sees (call c) (on_ok R).
Proof.
  intros Hc HR w Hw. specialize (HR w Hw). pose proof (survey_call c w Hc) as Hs. unfold wp, call, answers in *.
  destruct (c (hw_host w)) as [[a|e|] h]; simpl in *; by rewrite Hs.
Qed.

(** A call whose refusal is looked at. *)
Lemma sees_reply {A} (c : H -> Call A * H) (R : A -> Prop) (N : ErrorNumber -> Prop) :
  surveying c -> (forall w, survey w = x -> answers c (hw_host w) (fun a _ => R a)) ->
  (forall w, survey w = x -> refuses c (hw_host w) N) ->
  sees (call c) (fun r => match r with Ok a => R a | Err e => N (ve_code e) end).
Proof.
  intros Hc HR HN w Hw. specialize (HR w Hw). specialize (HN w Hw). pose proof (survey_call c w Hc) as Hs.
  unfold wp, call, answers, refuses in *. destruct (c (hw_host w)) as [[a|e|] h]; simpl in *; by rewrite Hs.
Qed.

Lemma sees_virt {A} operation (c : H -> Call A * H) (R : A -> Prop) :
  surveying c -> (forall w, survey w = x -> answers c (hw_host w) (fun a _ => R a)) -> sees (virt operation c) (on_ok R).
Proof.
  intros Hc HR. eapply sees_bind; [by apply sees_call|]. intros [] Hr; by apply sees_ret.
Qed.

Lemma sees_any {A} (c : H -> Call A * H) : surveying c -> sees (call c) (fun _ => True).
Proof.
  intros Hc. eapply sees_mono; [apply (sees_call c (fun _ => True) Hc)|done]. intros w _. apply answers_any.
Qed.

Lemma sees_look {A} operation (c : H -> Call A * H) : surveying c -> sees (virt operation c) (on_ok (fun _ => True)).
Proof. intros Hc. apply sees_virt; [done|]. intros w _. apply answers_any. Qed.

Lemma sees_free_volume v : sees (free_volume v) (on_ok (fun _ => True)).
Proof. apply sees_look. constructor. Qed.
Lemma sees_free_pool pool : sees (free_pool pool) (on_ok (fun _ => True)).
Proof. apply sees_look. constructor. Qed.

(** A result that outlives the releases after it. *)
Lemma sees_then_free {A B} (c : Fut W (result RuntimeError A)) (free : Fut W (result RuntimeError B))
    (k : result RuntimeError A -> Fut W (result RuntimeError A)) R :
  sees c (on_ok R) -> sees free (on_ok (fun _ => True)) ->
  (forall r, on_ok R r -> sees (k r) (on_ok R)) ->
  sees (r ← c; _ ←! free; k r) (on_ok R).
Proof.
  intros Hc Hf Hk. eapply sees_bind; [exact Hc|]. intros r Hr. eapply sees_try; [exact Hf|]. intros _ _. by apply Hk.
Qed.

(** *** Volumes *)

Definition at_of (v : Vol) : string * string := (vol_pool v, vol_name v).

(** The bytes a reader of the header gets. *)
Definition readable (at_ : string * string) : string :=
  text (take (Z.to_nat (Z.min (su_allocated x at_) HEADER_WINDOW_BYTES)) (bytes (su_contents x at_))).

(** The backing file a volume's own header names. *)
Definition recorded (at_ : string * string) : option string :=
  match parse_header (readable at_) with
  | Ok (Some header) => qh_backing_file header
  | _ => None
  end.

Lemma receive_reads fuel stream target got length w :
  survey w = x -> got +:+ unread (hw_host w) stream = target -> len target <= length ->
  wp (receive fuel stream got length) (fun r w => survey w = x /\ on_ok (fun s => s = target) r)
    (fun w => survey w = x) (fun w => survey w = x) w.
Proof.
  revert got w. induction fuel as [|fuel IH]; intros got w Hw Hgot Hlen; [done|]. cbn [receive].
  destruct (length <=? len got) eqn:E.
  { apply wp_ret. split; [done|]. simpl. apply Z.leb_le in E. rewrite <-Hgot, len_app in Hlen.
    assert (unread (hw_host w) stream = "") as Hu.
    { pose proof (len_nonneg (unread (hw_host w) stream)). destruct (unread _ _); [done|].
      exfalso. unfold len in *. simpl in *. lia. }
    by rewrite <-Hgot, Hu, string_app_nil_r. }
  set (n := Z.min _ _). apply wp_bind. pose proof (survey_call (lh_recv stream n) w (surveys_recv _ _)) as Hs.
  pose proof (lv_recv stream n (hw_host w)) as Hr. unfold answers in Hr. unfold wp at 1, call at 1.
  destruct (lh_recv stream n (hw_host w)) as [[chunk|e|] h]; simpl in *; [|apply wp_bind|by rewrite Hs].
  - destruct Hr as [Hu He]. destruct (is_empty chunk) eqn:Ee.
    + apply wp_ret. rewrite Hs. split; [done|]. simpl. apply is_empty_spec in Ee as ->.
      rewrite <-Hgot, Hu, (He eq_refl). by rewrite string_nil_app, string_app_nil_r.
    + apply IH; [by rewrite Hs| |done]. simpl. by rewrite <-string_app_assoc, <-Hu.
  - eapply wp_mono; [apply sees_any; [constructor|by rewrite Hs]| |done|done]. intros r w' [Hw' _]. by apply wp_ret.
Qed.

(** A turn that does not end the download brings a byte, so the fuel
    [download_prefix] gives is enough. *)
Lemma receive_ends fuel stream got length (w : W) :
  (Z.to_nat (length - len got) < fuel)%nat ->
  wp (receive fuel stream got length) (fun _ _ => True) (fun _ => False) (fun _ => True) w.
Proof.
  revert got w. induction fuel as [|fuel IH]; intros got w Hfuel; [lia|]. cbn [receive].
  destruct (length <=? len got) eqn:E; [by apply wp_ret|]. apply Z.leb_gt in E. apply wp_bind. unfold wp at 1, call at 1.
  destruct (lh_recv _ _ (hw_host w)) as [[chunk|e|] h]; [|apply wp_bind|done].
  - destruct (is_empty chunk) eqn:Ee; [by apply wp_ret|]. apply IH. rewrite len_app.
    assert (0 < len chunk) by (destruct chunk; [done|unfold len; simpl; lia]). lia.
  - unfold wp at 1, call. by destruct (lh_abort _ _) as [[] ?].
Qed.

Lemma download_sees v length :
  0 <= length -> sees (download_prefix v length)
    (on_ok (fun got => got = text (take (Z.to_nat length) (bytes (su_contents x (at_of v)))))).
Proof.
  intros Hlength. unfold download_prefix. destruct (length =? 0) eqn:E.
  { apply sees_ret. apply Z.eqb_eq in E as ->. done. }
  eapply sees_try; [apply sees_look; constructor|]. intros stream _. intros w Hw.
  set (target := text (take (Z.to_nat length) (bytes (su_contents x (at_of v))))).
  apply wp_try, wp_map_err. pose proof (survey_call (lh_download v stream length) w (surveys_download _ _ _)) as Hs.
  pose proof (lv_download v stream length (hw_host w)) as Hd. unfold answers in Hd. unfold wp at 1, call at 1.
  destruct (lh_download v stream length (hw_host w)) as [[[]|e|] h]; simpl in *; [|by rewrite Hs..].
  apply wp_try. eapply wp_mono.
  - apply (receive_reads (S (Z.to_nat length)) stream target); [by rewrite Hs| |].
    + simpl. rewrite string_nil_app, Hd. unfold target. by rewrite <-Hw.
    + unfold target, len. rewrite <-length_bytes, bytes_text, length_take.
      lia.
  - intros [got|e] w' [Hw' Hr]; [|by split]. simpl in Hr. subst got. apply wp_bind.
    eapply wp_mono; [apply sees_any; [constructor|done]| |done|done]. intros r w2 [Hw2 _]. by apply wp_ret.
  - done.
  - done.
Qed.

Lemma backing_sees v : sees (backing_path v) (on_ok (fun path => path = recorded (at_of v))).
Proof.
  unfold backing_path. eapply sees_try.
  { apply (sees_virt _ _ (fun info => 0 <= vi_allocation info /\ vi_allocation info = su_allocated x (at_of v)));
      [constructor|]. intros w <-. apply lv_vol_info. }
  intros info [Hpos Hinfo]. eapply sees_try; [apply download_sees; unfold HEADER_WINDOW_BYTES; lia|].
  intros prefix Hprefix. assert (prefix = readable (at_of v)) as -> by (rewrite Hprefix, Hinfo; done). clear Hprefix.
  eapply (sees_try _ _ (fun header => parse_header (readable (at_of v)) = Ok header)).
  { apply sees_ret. by destruct (parse_header _). }
  intros header Hheader. eapply sees_try; [apply sees_look; constructor|]. intros xml _.
  eapply (sees_try _ _ (fun _ => True)); [apply sees_ret; by destruct (xml_backing_path xml)|]. intros declared _.
  apply sees_ret. unfold recorded. rewrite Hheader. unfold reconcile_views.
  destruct header as [header|]; simpl; [|by destruct declared].
  destruct (qh_backing_file header), declared; simpl; try done. case_bool_decide; done.
Qed.

(** *** Inventories *)

Definition included (i j : BackingInventory) : Prop := bi_paths i ⊆ bi_paths j /\ bi_keys i ⊆ bi_keys j.

#[local] Instance included_trans : Transitive included.
Proof. intros i j k [] []. split; by etrans. Qed.

Lemma included_refl i : included i i.
Proof. done. Qed.

Definition has_path (path : string) (i : BackingInventory) : Prop := normalize_path path ∈ bi_paths i.

Lemma has_path_mono path i j : has_path path i -> included i j -> has_path path j.
Proof. unfold has_path. intros Hp [Hi _]. by apply Hi. Qed.

Lemma insert_sees path i :
  sees (insert_path path i) (on_ok (fun j => included i j /\ has_path path j)).
Proof.
  assert (forall key, included i (add_key key (add_path path i)) /\ has_path path (add_key key (add_path path i)))
    as Hkey by (intros key; unfold included, has_path; simpl; set_solver).
  unfold insert_path. eapply sees_bind; [apply sees_any; constructor|]. intros [volume|error] _.
  - eapply sees_bind; [apply sees_look; constructor|]. intros key _.
    eapply sees_try; [apply sees_free_volume|]. intros _ _.
    eapply (sees_try _ _ (fun _ => True)); [apply sees_ret; by destruct key|]. intros k _. apply sees_ret, Hkey.
  - apply sees_ret. case_bool_decide; simpl; [|done]. unfold included, has_path. simpl. set_solver.
Qed.

(** The volume at one path records the other as its backing file. *)
Definition backs (path parent : string) : Prop := exists at_, su_located x path = Some at_ /\ recorded at_ = Some parent.

Lemma resolved_sees path :
  sees (resolved_backing_path path) (on_ok (fun parent => forall q, backs path q -> parent = Some q)).
Proof.
  unfold resolved_backing_path. eapply sees_bind.
  { apply (sees_reply _ (fun v => su_located x path = Some (at_of v))
      (fun code => code = NoStorageVolume -> su_located x path = None)); [constructor| |];
      intros w <-; [apply lv_by_path|apply lv_no_path]. }
  intros [volume|error] Hr; simpl in Hr.
  - eapply sees_bind; [apply backing_sees|]. intros backing Hb. eapply sees_try; [apply sees_free_volume|].
    intros _ _. apply sees_ret. destruct backing as [parent|]; simpl in *; [|done].
    intros q (at_ & Hat & Hq). congruence.
  - apply sees_ret. case_bool_decide as Hc; simpl; [|done]. intros q (at_ & Hat & _). rewrite Hr in Hat; done.
Qed.

Definition has_all (P : string -> Prop) (i : BackingInventory) : Prop := forall path, P path -> has_path path i.

Lemma has_all_mono P i j : has_all P i -> included i j -> has_all P j.
Proof. intros Hi Hj path Hp. eapply has_path_mono; eauto. Qed.

Lemma chain_sees depth path i :
  sees (chain_walked depth path i) (on_ok (fun j => included i j /\ has_all (tc backs path) j)).
Proof.
  revert path i. induction depth as [|depth IH]; intros path i; cbn [chain_walked]; [by apply sees_ret|].
  eapply sees_try; [apply resolved_sees|]. intros [parent|] Hp.
  - eapply sees_try; [apply insert_sees|]. intros j [Hj Hpath]. eapply sees_mono; [apply IH|].
    intros [k|e]; simpl; [|done]. intros [Hk Hall]. split; [by etrans|]. intros q Hq.
    inversion Hq as [? ? Hb|? y ? Hb Hrest]; subst; specialize (Hp _ Hb) as [= ->]; [by eapply has_path_mono|by apply Hall].
  - apply sees_ret. simpl. split; [apply included_refl|]. intros q Hq.
    inversion Hq as [? ? Hb|? y ? Hb Hrest]; subst; by specialize (Hp _ Hb).
Qed.

(** A disk and all it rests on. *)
Lemma disk_sees path i j :
  included i j -> has_path path j ->
  sees (ensure_chain_walked path j) (on_ok (fun k => included i k /\ has_all (rtc backs path) k)).
Proof.
  intros Hij Hpath. eapply sees_mono; [apply chain_sees|]. intros [k|e]; simpl; [|done]. intros [Hjk Hall].
  split; [by etrans|]. intros q [->|Hq]%rtc_tc; [by eapply has_path_mono|by apply Hall].
Qed.

Lemma volumes_see volumes i :
  sees (volumes_walked volumes i) (on_ok (fun j => included i j /\
    has_all (fun path => exists v, v ∈ volumes /\ recorded (at_of v) = Some path) j)).
Proof.
  revert i. induction volumes as [|v volumes IH]; intros i; cbn [volumes_walked].
  { apply sees_ret. simpl. split; [apply included_refl|]. by intros path (v & ?%not_elem_of_nil & _). }
  eapply sees_try; [apply backing_sees|]. intros path ->. destruct (recorded (at_of v)) as [path|] eqn:E.
  - eapply sees_try; [apply insert_sees|]. intros j [Hj Hp]. eapply sees_mono; [apply IH|].
    intros [k|e]; simpl; [|done]. intros [Hk Hall]. split; [by etrans|].
    intros q (u & [->|Hu]%elem_of_cons & Hq); [|apply Hall; eauto].
    rewrite E in Hq. injection Hq as <-. by eapply has_path_mono.
  - eapply sees_mono; [apply IH|]. intros [k|e]; simpl; [|done]. intros [Hk Hall]. split; [done|].
    intros q (u & [->|Hu]%elem_of_cons & Hq); [congruence|apply Hall; eauto].
Qed.

Lemma sees_free_volumes volumes : sees (free_volumes volumes) (on_ok (fun _ => True)).
Proof.
  induction volumes as [|v volumes IH]; cbn [free_volumes]; [by apply sees_ret|].
  eapply sees_try; [apply sees_free_volume|]. by intros _ _.
Qed.

Lemma sees_free_domains domains : sees (free_domains domains) (on_ok (fun _ => True)).
Proof.
  induction domains as [|d domains IH]; cbn [free_domains]; [by apply sees_ret|].
  eapply sees_try; [apply sees_look; constructor|]. by intros _ _.
Qed.

(** The files the volumes of a pool record. *)
Definition recorded_in (pool path : string) : Prop :=
  exists name vol, vw_volumes (su_view x) !! (pool, name) = Some vol /\ recorded (pool, name) = Some path.

Lemma referenced_see pool : sees (referenced_backing_paths pool) (on_ok (has_all (recorded_in pool))).
Proof.
  unfold referenced_backing_paths. eapply sees_try.
  { apply (sees_virt _ _ (fun p => p = pool)); [constructor|]. intros w _. apply lw_pool_lookup. }
  intros ? ->. eapply sees_bind.
  { eapply sees_try; [apply sees_look; constructor|]. intros _ _.
    apply (sees_virt _ _ (fun l => forall name vol, vw_volumes (su_view x) !! (pool, name) = Some vol ->
      {| vol_pool := pool; vol_name := name; vol_key := v_key vol |} ∈ l)); [constructor|]. intros w <-. apply lv_listed. }
  intros [volumes|error] Hl; simpl in Hl.
  - eapply sees_then_free; [|apply sees_free_volumes|].
    + destruct (_ <? _)%nat; [by apply sees_ret|]. eapply sees_mono; [apply volumes_see|].
      intros [i|e]; simpl; [|done]. intros [_ Hall] path (name & vol & Hvol & Hrec). apply Hall.
      eexists. split; [by apply Hl|done].
    + intros r Hr. eapply sees_try; [apply sees_free_pool|]. intros _ _. by apply sees_ret.
  - eapply sees_bind; [apply sees_free_pool|]. intros _ _. by apply sees_ret.
Qed.

(** *** Domains *)

Lemma paths_see paths i :
  sees (paths_walked paths i) (on_ok (fun j => included i j /\
    has_all (fun path => exists disk, disk ∈ paths /\ rtc backs disk path) j)).
Proof.
  revert i. induction paths as [|disk paths IH]; intros i; cbn [paths_walked].
  { apply sees_ret. simpl. split; [apply included_refl|]. by intros path (v & ?%not_elem_of_nil & _). }
  eapply sees_try; [apply insert_sees|]. intros j [Hj Hp].
  eapply sees_try; [by apply (disk_sees disk i j)|]. intros k [Hk Hdisk]. eapply sees_mono; [apply IH|].
  intros [l|e]; simpl; [|done]. intros [Hl Hall]. split; [by etrans|].
  intros q (d & [->|Hd]%elem_of_cons & Hq); [|apply Hall; eauto]. by eapply (has_all_mono (rtc backs disk)); [exact Hdisk| |].
Qed.

(** The path of a volume that is there. *)
Definition path_at (at_ : string * string) (path : string) : Prop :=
  exists vol, vw_volumes (su_view x) !! at_ = Some vol /\ path = v_path vol.

Lemma insert_volume_sees pool name i :
  sees (insert_volume pool name i) (on_ok (fun a => let '(path, j) := a : option string * BackingInventory in
    included i j /\ (forall q, path_at (pool, name) q -> path = Some q) /\
    forall q, path = Some q -> has_path q j)).
Proof.
  unfold insert_volume. eapply sees_bind.
  { apply (sees_reply _ (fun p => p = pool) (fun code => code = NoStoragePool -> forall q, ~ path_at (pool, name) q));
      [constructor| |]; intros w Hw; [apply lw_pool_lookup|].
    eapply refuses_mono; [apply lv_no_pool|]. intros code Hc Hcode q (vol & Hvol & _).
    rewrite <-Hw in Hvol. change (volumes (hw_host w) !! (pool, name) = Some vol) in Hvol. by rewrite (Hc Hcode) in Hvol. }
  intros [p|error] Hr; simpl in Hr; [subst p|].
  2: { apply sees_ret. case_bool_decide as Hc; simpl; [|done]. split_and!; [apply included_refl| |done].
       intros q Hq. by destruct (Hr Hc q). }
  eapply sees_bind.
  { apply (sees_reply _ (fun v => at_of v = (pool, name))
      (fun code => code = NoStorageVolume -> forall q, ~ path_at (pool, name) q)); [constructor| |]; intros w Hw.
    - eapply answers_mono; [apply lw_vol_lookup|]. by intros v h (vol & _ & ->).
    - eapply refuses_mono; [apply lw_no_volume|]. intros code Hc Hcode q (vol & Hvol & _).
      rewrite <-Hw in Hvol. change (volumes (hw_host w) !! (pool, name) = Some vol) in Hvol. by rewrite (Hc Hcode) in Hvol. }
  intros [v|error] Hv; simpl in Hv.
  - eapply sees_bind.
    { eapply sees_try; [apply sees_look; constructor|]. intros key _. eapply sees_try.
      { apply (sees_virt _ _ (path_at (pool, name))); [constructor|]. intros w Hw.
        eapply answers_mono; [apply lv_vol_path|]. intros path h. fold (at_of v). rewrite Hv. unfold path_at.
        by rewrite <-Hw. }
      intros path Hpath. apply (sees_ret _ (on_ok (fun a : string * string => path_at (pool, name) a.2))). exact Hpath. }
    intros identity Hid. eapply sees_try; [apply sees_free_volume|]. intros _ _.
    eapply sees_try; [apply sees_free_pool|]. intros _ _.
    eapply sees_try; [by apply sees_ret|]. intros [key path] (vol & Hvol & Hpath). simpl in Hpath. subst path.
    apply sees_ret. simpl. split_and!.
    + unfold included. simpl. set_solver.
    + intros q (vol' & Hvol' & ->). congruence.
    + intros q [= <-]. unfold has_path. simpl. set_solver.
  - case_bool_decide as Hc.
    + eapply sees_try; [apply sees_free_pool|]. intros _ _. apply sees_ret. simpl.
      split_and!; [apply included_refl| |done]. intros q Hq. by destruct (Hv Hc q).
    + eapply sees_bind; [apply sees_free_pool|]. intros _ _. by apply sees_ret.
Qed.

Lemma disks_see disks i :
  sees (disks_walked disks i) (on_ok (fun j => included i j /\
    has_all (fun path => exists at_ disk, at_ ∈ disks /\ path_at at_ disk /\ rtc backs disk path) j)).
Proof.
  revert i. induction disks as [|[pool name] disks IH]; intros i; cbn [disks_walked].
  { apply sees_ret. simpl. split; [apply included_refl|]. by intros path (v & _ & ?%not_elem_of_nil & _). }
  eapply sees_try; [apply insert_volume_sees|]. intros [[disk|] j] (Hj & Hat & Hp).
  - eapply sees_try; [by apply (disk_sees disk i j); auto|]. intros k [Hk Hdisk]. eapply sees_mono; [apply IH|].
    intros [l|e]; simpl; [|done]. intros [Hl Hall]. split; [by etrans|].
    intros q (at_ & d & [->|Hin]%elem_of_cons & Hd & Hq); [|apply Hall; eauto 10].
    specialize (Hat _ Hd) as [= ->]. by eapply (has_all_mono (rtc backs d)); [exact Hdisk| |].
  - eapply sees_mono; [apply IH|]. intros [l|e]; simpl; [|done]. intros [Hl Hall]. split; [by etrans|].
    intros q (at_ & d & [->|Hin]%elem_of_cons & Hd & Hq); [|apply Hall; eauto 10]. by specialize (Hat _ Hd).
Qed.

(** A domain's document names the disk [path], by its path or by its volume. *)
Definition names_disk (xml path : string) : Prop := exists disks, parse_domain_disks xml = Ok disks /\
  (path ∈ dk_paths disks \/ exists at_, at_ ∈ dk_volumes disks /\ path_at at_ path).

Definition attached (domains : list Dom) (path : string) : Prop := exists d xml disk,
  d ∈ domains /\ su_definitions x !! dom_uuid d = Some xml /\ names_disk xml disk /\ rtc backs disk path.

Lemma domain_disks_see d : sees (domain_disks d) (on_ok (fun disks => forall xml,
  su_definitions x !! dom_uuid d = Some xml -> parse_domain_disks xml = Ok disks)).
Proof.
  unfold domain_disks. eapply sees_try.
  { apply (sees_virt _ _ (fun xml => su_definitions x !! dom_uuid d = Some xml)); [constructor|].
    intros w <-. apply lv_dom_xml. }
  intros xml Hxml. apply sees_ret. destruct (parse_domain_disks xml) as [disks|] eqn:E; simpl; [|done].
  intros xml' Hxml'. congruence.
Qed.

Lemma domains_see domains i :
  sees (domains_walked domains i) (on_ok (fun j => included i j /\ has_all (attached domains) j)).
Proof.
  revert i. induction domains as [|d domains IH]; intros i; cbn [domains_walked].
  { apply sees_ret. simpl. split; [apply included_refl|]. by intros path (d & ? & ? & ?%not_elem_of_nil & _). }
  eapply sees_try; [apply domain_disks_see|]. intros disks Hdisks.
  eapply sees_try; [apply paths_see|]. intros j [Hj Hpaths].
  eapply sees_try; [apply disks_see|]. intros k [Hk Hvols]. eapply sees_mono; [apply IH|].
  intros [l|e]; simpl; [|done]. intros [Hl Hall]. split; [by do 2 etrans|].
  intros q (u & xml & disk & [->|Hu]%elem_of_cons & Hxml & (disks' & Hparse & Hdisk) & Hq);
    [|apply Hall; unfold attached, names_disk; eauto 10].
  rewrite (Hdisks _ Hxml) in Hparse. injection Hparse as <-. destruct Hdisk as [Hin|(at_ & Hin & Hat)].
  - apply (has_path_mono _ j); [apply Hpaths; eauto|by etrans].
  - apply (has_path_mono _ k); [apply Hvols; eauto|done].
Qed.

(** What the pool's volumes and the host's domains need. *)
Definition in_use (pool path : string) : Prop :=
  recorded_in pool path \/
  exists uuid xml disk, su_definitions x !! uuid = Some xml /\ names_disk xml disk /\ rtc backs disk path.

Lemma ensure_domains_see pool i :
  has_all (recorded_in pool) i -> sees (ensure_domains_walked i) (on_ok (has_all (in_use pool))).
Proof.
  intros Hi. unfold ensure_domains_walked. eapply sees_try.
  { apply (sees_virt _ _ (fun l => forall uuid xml, su_definitions x !! uuid = Some xml ->
      exists d, d ∈ l /\ dom_uuid d = uuid)); [constructor|]. intros w <-. apply lv_domains_listed. }
  intros domains Hl. eapply sees_then_free; [|apply sees_free_domains|by intros r Hr; apply sees_ret].
  destruct (_ <? _)%nat; [by apply sees_ret|]. eapply sees_mono; [apply domains_see|].
  intros [j|e]; simpl; [|done]. intros [Hj Hall] path [Hrec|(uuid & xml & disk & Hxml & Hrest)].
  - apply (has_path_mono _ i); [by apply Hi|done].
  - destruct (Hl _ _ Hxml) as (d & Hd & <-). apply Hall. by exists d, xml, disk.
Qed.
End survey.

(** ** Retirement *)

Section retirement.
Context {H : Type} {LH : LibvirtHost H} {LL : LawfulLibvirt H} {LV : LibvirtVolumes H} {LS : LawfulVolumes H}.
Context {PE : ParserErrors} {XC : XmlCodec} {XT : XmlTree}.
Context (config : HelperConfig) (candidates protected : list VolumePointer) (x : Survey).
Local Abbreviation W := (HostWorld H).

Definition volume_at (candidate : VolumePointer) : string * string := (hcf_pool config, vp_volume_name candidate).

(** What may be deleted: a candidate under its recorded key, that nothing
    protects and nothing uses. *)
Definition retirable (at_ : string * string) : Prop := exists candidate vol,
  candidate ∈ candidates /\ at_ = volume_at candidate /\
  vw_volumes (su_view x) !! at_ = Some vol /\ v_key vol = vp_volume_key candidate /\
  vp_pool candidate = hcf_pool config /\
  (forall pointer, pointer ∈ protected -> is_same_volume pointer candidate = false) /\
  (forall path, in_use x (hcf_pool config) path -> normalize_path path <> normalize_path (v_path vol)).

Record spares (v : View) : Prop := {
  sp_domains : vw_domains v = vw_domains (su_view x);
  sp_files : vw_files v = vw_files (su_view x);
  sp_dirs : vw_dirs v = vw_dirs (su_view x);
  sp_volumes at_ : vw_volumes v !! at_ = vw_volumes (su_view x) !! at_ \/ vw_volumes v !! at_ = None /\ retirable at_;
}.

Lemma spares_start : spares (su_view x).
Proof. constructor; auto. Qed.

Lemma spares_delete v at_ : spares v -> retirable at_ ->
  spares (mkView (delete at_ (vw_volumes v)) (vw_domains v) (vw_files v) (vw_dirs v)).
Proof.
  intros [Hd Hf Hr Hv] Hat. constructor; simpl; [done..|]. intros at'. destruct (decide (at' = at_)) as [->|Hne].
  - right. by rewrite lookup_delete_eq.
  - rewrite lookup_delete_ne by done. apply Hv.
Qed.

Lemma ensure_retirable_ok l : ensure_retirable config l protected = Ok tt -> forall candidate, candidate ∈ l ->
  vp_pool candidate = hcf_pool config /\
  forall pointer, pointer ∈ protected -> is_same_volume pointer candidate = false.
Proof.
  induction l as [|c l IH]; simpl; [by intros _ ? ?%not_elem_of_nil|].
  case_bool_decide as Hp; simpl; [|done]. destruct (existsb _ _) eqn:E; [done|].
  intros Hok candidate [->|Hin]%elem_of_cons; [|by apply IH]. split; [done|]. intros pointer Hin.
  destruct (is_same_volume pointer c) eqn:Es; [|done].
  rewrite <-E. symmetry. apply existsb_exists. exists pointer. split; [by apply list_elem_of_In|done].
Qed.

(** An invariant of the deletions. *)
Definition deletable (I : View -> Prop) : Prop := forall v at_, I v -> spares v /\
  (retirable at_ -> I (mkView (delete at_ (vw_volumes v)) (vw_domains v) (vw_files v) (vw_dirs v))).

Definition settled (I : View -> Prop) (candidate : VolumePointer) (r : result RuntimeError bool) (v : View) : Prop :=
  I v /\ (r = Ok true -> vw_volumes v !! volume_at candidate = None).

Lemma delete_checked_spec I candidate i vol :
  deletable I -> candidate ∈ candidates -> ensure_retirable config candidates protected = Ok tt ->
  has_all (in_use x (hcf_pool config)) i ->
  spec (fun v => I v /\ vw_volumes v !! volume_at candidate = Some vol)
    (delete_checked candidate i (handle_of (volume_at candidate) vol)) (settled I candidate) I.
Proof.
  intros HI Hin Hok Hi. unfold delete_checked.
  apply (spec_try_read _ _ _ _ (fun key _ => key = v_key vol));
    [auto with reading|by intros ? []|by intros ? ? []|intros w _; apply lw_vol_key|].
  intros key. apply (spec_try_read _ _ _ _ (fun path v => exists vol, vw_volumes v !! volume_at candidate = Some vol /\ path = v_path vol));
    [auto with reading|by intros ? [[] _]|by intros ? ? [[] _]|intros w _; apply lv_vol_path|].
  intros path w [[[Hv Hvol] ->] (vol' & Hvol' & ->)]. assert (vol' = vol) as -> by congruence. clear Hvol'.
  case_bool_decide as Hkey; simpl; [|by apply wp_ret].
  destruct (is_backing_referenced _ _ _) eqn:E; [by apply wp_ret|].
  apply orb_false_iff in E as [_ E]. apply bool_decide_eq_false in E.
  assert (retirable (volume_at candidate)) as Hat.
  { destruct (ensure_retirable_ok _ Hok _ Hin) as [Hp Hpro].
    destruct (sp_volumes _ (proj1 (HI _ (volume_at candidate) Hv)) (volume_at candidate)) as [Heq|[Hn _]]; [|congruence].
    exists candidate, vol. split_and!; try done; [congruence|]. intros q Hq Hnorm. apply E. rewrite <-Hnorm. by apply Hi. }
  apply wp_try, wp_map_err. eapply wp_mono.
  - apply (delete_call_spec I (volume_at candidate) None vol); [|done|done].
    intros v vol' Hv' _ _. by apply HI.
  - intros [[]|e] w' [Hw' Hgone]; simpl; [apply wp_ret|]; split; by auto.
  - done.
  - done.
Qed.

Lemma settled_frees I candidate r volume pool :
  spec (settled I candidate r) (_ ←! free_volume (H := H) volume; _ ←! free_pool (H := H) pool; mret r) (settled I candidate) I.
Proof.
  assert (forall c : Fut W (result RuntimeError unit), (forall J, keeps J c) ->
    spec (settled I candidate r) c (fun r' v => match r' with
      | Ok _ => settled I candidate r v | Err e => settled I candidate (Err e) v end) I) as Hfree.
  { intros c Hc. eapply spec_mono; [apply keeps_spec, (Hc (settled I candidate r))|done| |by intros ? []].
    intros [a|e] v; [done|]. by intros []. }
  apply (spec_try _ _ _ (fun _ => settled I candidate r)); [apply Hfree; intros; apply keeps_free_volume|]. intros _.
  apply (spec_try _ _ _ (fun _ => settled I candidate r)); [apply Hfree; intros; apply keeps_free_pool|]. intros _.
  by intros w Hw.
Qed.

Lemma delete_if_spec I candidate i :
  deletable I -> candidate ∈ candidates -> ensure_retirable config candidates protected = Ok tt ->
  has_all (in_use x (hcf_pool config)) i ->
  spec I (delete_if_unreferenced config candidate i) (settled I candidate) I.
Proof.
  intros HI Hin Hok Hi. unfold delete_if_unreferenced.
  apply (spec_try_read _ _ _ _ (fun pool _ => pool = hcf_pool config));
    [auto with reading|done|by intros ? ? ?; split|intros w _; apply lw_pool_lookup|].
  intros pool. apply spec_fact. intros ->. eapply spec_bind.
  { apply (spec_read I _
      (fun h v => exists vol, vw_volumes v !! volume_at candidate = Some vol /\ h = handle_of (volume_at candidate) vol)
      (fun code v => code = NoStorageVolume -> vw_volumes v !! volume_at candidate = None));
      [constructor|done|intros w' _; apply lw_vol_lookup|intros w' _; apply lw_no_volume]. }
  intros [h|e] w [Hv Hr].
  - destruct Hr as (vol & Hvol & ->). apply wp_bind. eapply wp_mono; [by apply delete_checked_spec| |done|done].
    intros r w' Hw'. by apply settled_frees.
  - case_bool_decide as Hcode.
    + specialize (Hr Hcode). set (J := fun v => I v /\ vw_volumes v !! volume_at candidate = None).
      apply wp_try. eapply wp_mono; [by apply (keeps_free_pool J)| | |]; unfold J, settled.
      * intros [[]|e'] w' [Hw' Hgone]; [by apply wp_ret|done].
      * by intros w' [].
      * by intros w' [].
    + apply wp_bind. eapply wp_mono; [by apply (keeps_free_pool I)| |done|done]. intros r w' Hw'. by apply wp_ret.
Qed.

(** The keys listed are those of candidates that are gone. *)
Definition listed_gone (deleted : list string) (v : View) : Prop := forall key, key ∈ deleted ->
  exists candidate, candidate ∈ candidates /\ vp_volume_key candidate = key /\ vw_volumes v !! volume_at candidate = None.

Lemma listed_deletable deleted : deletable (fun v => spares v /\ listed_gone deleted v).
Proof.
  intros v at_ [Hv Hl]. split; [done|]. intros Hat. split; [by apply spares_delete|]. intros key Hkey.
  destruct (Hl key Hkey) as (c & Hc & Hk & Hgone). exists c. split_and!; try done. simpl.
  by apply lookup_delete_None; right.
Qed.

Lemma delete_unreferenced_spec l i deleted :
  (forall c, c ∈ l -> c ∈ candidates) -> ensure_retirable config candidates protected = Ok tt ->
  has_all (in_use x (hcf_pool config)) i ->
  spec (fun v => spares v /\ listed_gone deleted v) (delete_unreferenced config l i deleted)
    (fun r v => spares v /\ on_ok (fun deleted => listed_gone deleted v) r) spares.
Proof.
  intros Hl Hok Hi. revert deleted Hl. induction l as [|c l IH]; intros deleted Hl; cbn [delete_unreferenced].
  { by intros w []. }
  apply (spec_try _ _ _ (fun b v => (spares v /\ listed_gone deleted v) /\
    (b = true -> vw_volumes v !! volume_at c = None))).
  - eapply spec_mono; [apply (delete_if_spec _ c i (listed_deletable deleted)); [apply Hl; constructor|done|done]|done| |by intros ? []].
    intros [b|e] v [[Hv Hg] Hb]; [|by split]. split; [by split|]. intros ->. by apply Hb.
  - intros b. eapply spec_mono; [apply IH; intros c' Hc'; apply Hl; by constructor| |done|done].
    intros v [[Hv Hg] Hb]. split; [done|]. destruct b; [|done]. intros key [Hk| ->%list_elem_of_singleton]%elem_of_app; [by apply Hg|].
    exists c. split_and!; [apply Hl; constructor|done|by apply Hb].
Qed.
End retirement.

Section retire.
Context {H : Type} {LH : LibvirtHost H} {LL : LawfulLibvirt H} {LV : LibvirtVolumes H} {LS : LawfulVolumes H}.
Context {PE : ParserErrors} {XC : XmlCodec} {XT : XmlTree}.

Lemma retire_steps (config : HelperConfig) (candidates protected : list VolumePointer) (w : HostWorld H) :
  let x := survey w in
  wp (retire_volumes config candidates protected)
    (fun r w' => spares config candidates protected x (view w') /\
       on_ok (fun deleted => listed_gone config candidates deleted (view w')) r)
    (fun w' => spares config candidates protected x (view w'))
    (fun w' => spares config candidates protected x (view w')) w.
Proof.
  intros x. assert (forall w', survey w' = x -> spares config candidates protected x (view w')) as Hstart.
  { intros w' Hw'. assert (view w' = su_view x) as -> by by rewrite <-Hw'. apply spares_start. }
  apply wp_try, wp_ret. destruct (ensure_retirable _ _ _) as [[]|e] eqn:Hok; [|split; [by apply Hstart|done]].
  apply wp_try. eapply wp_mono; [by apply (referenced_see x (hcf_pool config))| |exact Hstart|exact Hstart].
  intros [i|e] w1 [Hw1 Hi]; [|split; [by apply Hstart|done]].
  apply wp_try. eapply wp_mono; [by apply (ensure_domains_see x (hcf_pool config))| |exact Hstart|exact Hstart].
  intros [j|e] w2 [Hw2 Hj]; [|split; [by apply Hstart|done]].
  eapply wp_mono; [apply (delete_unreferenced_spec config candidates protected x candidates j [])| |done|done];
    [done|done|done|split; [by apply Hstart|by intros ? ?%not_elem_of_nil]|done].
Qed.

(** C8: retirement deletes only what it may, whether it ends, fails or is cut
    off: domains and files stay, and a volume that is gone was a candidate of
    the configured pool under its recorded key, the same volume as no protected
    pointer, and at a path that no volume of the pool records as its backing
    file and no domain's disk rests on, however deep.  The keys answered are
    those of candidates whose volumes are gone. *)
Theorem retire_spares (config : HelperConfig) (candidates protected : list VolumePointer) (w : HostWorld H) :
  let run := retire_volumes config candidates protected w in
  spares config candidates protected (survey w) (view run.2) /\
  forall deleted, run.1 = Done (Ok deleted) -> listed_gone config candidates deleted (view run.2).
Proof.
  intros run. pose proof (retire_steps config candidates protected w) as Hwp.
  unfold wp in Hwp. unfold run. destruct (retire_volumes _ _ _ w) as [[r|d|] w']; simpl in *; [|by split..].
  destruct Hwp as [Hs Hr]. split; [done|]. by intros deleted [= ->].
Qed.
End retire.

(** ** Capture *)

Section capture.
Context {H : Type} {LH : LibvirtHost H} {LL : LawfulLibvirt H} {LV : LibvirtVolumes H} {LS : LawfulVolumes H}.
Context {PE : ParserErrors} {XC : XmlCodec} {JC : JsonCodec VolumeCheckpoint} {UC : UuidCodec}.
Context (config : HelperConfig) (profile : string) (capture_id : Uuid) (v0 : View).
Local Abbreviation W := (HostWorld H).
Implicit Types P I : View -> Prop.

Definition warm_at : string * string := (hcf_pool config, warm_volume_name capture_id).
Definition warm_file : PathBuf := warm_path (hcf_state_dir config) capture_id.
Definition warm_checkpoint (volumes : list CheckpointVolume) : VolumeCheckpoint :=
  mkCheckpoint 1 (hcf_service_instance config) (hcf_pool config) (OwnerWarm profile capture_id) volumes.
Definition warm_entry (key : string) : CheckpointVolume :=
  {| cv_role := RoleWarm; cv_name := warm_volume_name capture_id; cv_key := key |}.

(** Nothing changes but one volume and its checkpoint, and the volume is never
    there without the checkpoint. *)
Record captures (v : View) : Prop := {
  cp_domains : vw_domains v = vw_domains v0;
  cp_dirs : vw_dirs v0 ⊆ vw_dirs v;
  cp_volumes at_ : at_ <> warm_at -> vw_volumes v !! at_ = vw_volumes v0 !! at_;
  cp_kept vol : vw_volumes v0 !! warm_at = Some vol -> vw_volumes v !! warm_at = Some vol;
  cp_files path : path <> warm_file -> vw_files v !! path = vw_files v0 !! path;
  cp_journal : vw_volumes v !! warm_at = vw_volumes v0 !! warm_at \/
    exists volumes, vw_files v !! warm_file = Some (to_json (warm_checkpoint volumes));
}.

Definition intended (v : View) : Prop :=
  captures v /\ exists volumes, vw_files v !! warm_file = Some (to_json (warm_checkpoint volumes)).

Definition holds_new (vol : Volume) (v : View) : Prop :=
  intended v /\ vw_volumes v0 !! warm_at = None /\ vw_volumes v !! warm_at = Some vol.

Definition journalled_new (key : string) (v : View) : Prop := exists vol,
  holds_new vol v /\ v_key vol = key /\ vw_files v !! warm_file = Some (to_json (warm_checkpoint [warm_entry key])).

Lemma captures_start : captures v0.
Proof. constructor; auto. Qed.

Lemma captures_insert volumes v : captures v -> intended (with_files (insert warm_file (to_json (warm_checkpoint volumes))) v).
Proof.
  intros [Hd Hr Hv Hk Hf Hj]. assert (insert warm_file (to_json (warm_checkpoint volumes)) (vw_files v) !! warm_file =
    Some (to_json (warm_checkpoint volumes))) as Hins by apply lookup_insert_eq.
  split; [|simpl; eauto]. constructor; simpl; eauto. intros path Hne. rewrite lookup_insert_ne by done. by apply Hf.
Qed.

Lemma captures_create v vol : intended v -> vw_volumes v !! warm_at = None ->
  holds_new vol (mkView (<[warm_at := vol]> (vw_volumes v)) (vw_domains v) (vw_files v) (vw_dirs v)).
Proof.
  intros [[Hd Hr Hv Hk Hf Hj] Hint] Hfree.
  assert (vw_volumes v0 !! warm_at = None) as Hnew by (destruct (vw_volumes v0 !! warm_at); [by rewrite (Hk _ eq_refl) in Hfree|done]).
  split_and!; [split; [|done]|done|simpl; apply lookup_insert_eq]. constructor; simpl; auto; [|congruence].
  intros at_ Hne. rewrite lookup_insert_ne by done. by apply Hv.
Qed.

Lemma captures_delete v : vw_volumes v0 !! warm_at = None -> captures v ->
  captures (mkView (delete warm_at (vw_volumes v)) (vw_domains v) (vw_files v) (vw_dirs v)).
Proof.
  intros Hnew [Hd Hr Hv Hk Hf Hj]. constructor; simpl; auto; [|congruence|].
  - intros at_ Hne. rewrite lookup_delete_ne by done. by apply Hv.
  - left. by rewrite lookup_delete_eq.
Qed.

(** A result that waits for a release. *)
Lemma does_released {A B C} P I (c : Fut W (result RuntimeError A)) (free : Fut W (result RuntimeError C))
    (k : A -> Fut W (result RuntimeError B)) R Q :
  does P I c R -> (forall J, keeps J free) -> (forall a v, R a v -> I v) -> (forall a, does (R a) I (k a) Q) ->
  does P I (r ← c; _ ←! free; a ←! mret r; k a) Q.
Proof.
  intros Hc Hf HR Hk w HP. apply wp_bind. eapply wp_mono; [by apply Hc| |done|done].
  intros [a|e] w1 [HI Hr].
  - specialize (Hr a eq_refl). apply wp_try. eapply wp_mono; [by apply (Hf (R a))| | |]; [|intros ? Hw2; exact (HR a _ Hw2)..].
    intros [b|e] w2 Hw2; [|split; [exact (HR a _ Hw2)|done]]. apply wp_try, wp_ret. by apply Hk.
  - apply wp_try. eapply wp_mono; [by apply (Hf I)| |done|done]. intros [b|e'] w2 Hw2; [|by split].
    by apply wp_try, wp_ret.
Qed.

Lemma does_write_checkpoint P I c path replacing (Q : View -> Prop) :
  (forall v, P v -> I v) ->
  (forall v, P v -> I (with_files (insert path (to_json c)) v) /\ Q (with_files (insert path (to_json c)) v)) ->
  does P I (write_checkpoint (H := H) c path replacing) (fun _ => Q).
Proof.
  intros HP Hw. unfold write_checkpoint. apply does_try_ret; [done|]. intros bytes Hb.
  apply map_err_ok, encode_document_ok in Hb as (_ & _ & ->).
  apply does_try_ret; [done|]. intros directory _.
  apply does_try_after; [unfold ensure_private_directory, on_file; keeps|done|]. intros _.
  destruct replacing; [by apply does_map_err, does_change|].
  apply does_try_after; [unfold on_file; keeps|done|]. intros []; [by apply does_fail|]. by apply does_map_err, does_change.
Qed.

Lemma keeps_captures_directory path : keeps captures (ensure_warm_directory (H := H) path).
Proof.
  assert (keeps captures (create_directories (H := H) path)).
  { intros w Hw. pose proof (view_turn w) as Hv. unfold wp, create_directories.
    destruct (lh_turn (hw_host w)) as [turn h]; simpl in *. rewrite <-Hv in Hw.
    assert (forall dirs, captures (view (w <| hw_host := h |> <| hw_dirs := dirs ∪ hw_dirs w |>))) as Hdirs.
    { intros dirs. destruct Hw as [Hd Hr Hvol Hk Hf Hj]. constructor; try done. simpl in *. set_solver. }
    destruct turn as [|[] m|[]], (existsb _ _); simpl; done || apply Hdirs. }
  unfold ensure_warm_directory, on_file. keeps.
Qed.

Lemma does_journal_warm :
  does captures captures (journal_warm (H := H) config profile capture_id)
    (fun j v => intended v /\ j = {| vj_checkpoint := warm_checkpoint []; vj_path := warm_file |}).
Proof.
  unfold journal_warm. apply does_try_ret; [done|]. intros c Hc. apply map_err_ok in Hc. unfold checkpoint_new in Hc.
  apply result_bind_ok in Hc as ([] & _ & [= <-]). fold (warm_checkpoint []) warm_file.
  apply does_try_after; [apply keeps_captures_directory|done|]. intros _. unfold begin_journal.
  apply does_try_after; [apply keeps_load_checkpoint|done|]. intros [?|]; [by apply does_fail|].
  eapply does_try.
  - apply (does_write_checkpoint captures captures _ _ _ intended); [done|]. intros v Hv.
    pose proof (captures_insert [] v Hv) as Hi. split; [apply Hi|exact Hi].
  - intros ?. apply does_ret. intros v Hv. split; [apply Hv|done].
Qed.

Context (Hsafe : is_safe_name (warm_volume_name capture_id) MAX_SAFE_NAME_BYTES = true).

Lemma read_warm capacity : read_volume (warm_xml (warm_volume_name capture_id) capacity) = Some (warm_volume_name capture_id).
Proof. unfold warm_xml. rewrite (escape_safe _ _ Hsafe). by apply lw_read_volume. Qed.

Lemma does_create_from operation capacity source :
  does intended captures
    (virt operation (lh_vol_create_from (hcf_pool config) (warm_xml (warm_volume_name capture_id) capacity) source))
    (fun volume v => exists vol, holds_new vol v /\ volume = handle_of warm_at vol).
Proof.
  apply does_map_err. apply spec_call. intros w Hw. set (xml := warm_xml _ _).
  destruct (lv_create_from (hcf_pool config) xml source (hw_host w)) as [Hd Hv].
  pose proof (lv_created_from (hcf_pool config) xml source (hw_host w)) as Ha. unfold answers in Ha.
  assert (forall name, read_volume xml = Some name -> name = warm_volume_name capture_id) as Hname
    by (intros name; unfold xml; rewrite read_warm; congruence).
  assert (captures (view (w <| hw_host := (lh_vol_create_from (hcf_pool config) xml source (hw_host w)).2 |>))) as Hc.
  { unfold view. simpl. rewrite Hd. destruct Hv as [->|(name & vol & ->%Hname & Hfree & ->)]; [apply Hw|].
    by apply (captures_create (view w) vol). }
  destruct (lh_vol_create_from _ _ _ _) as [[volume|e|] h]; simpl in *; [|by split|done].
  destruct Ha as (name & vol & ->%Hname & Hfree & Hvols & ->). split; [done|]. intros ? [= <-]. exists vol. split; [|done].
  unfold view. simpl. rewrite Hd, Hvols. by apply (captures_create (view w) vol).
Qed.

Lemma does_record_warm operation vol :
  does (holds_new vol) captures
    (record_created {| vj_checkpoint := warm_checkpoint []; vj_path := warm_file |} RoleWarm
       (warm_volume_name capture_id) (handle_of warm_at vol) operation)
    (fun recorded => journalled_new recorded.1).
Proof.
  assert (forall v, holds_new vol v -> captures v) as Hcap by by intros v [[? _] _].
  unfold record_created. apply (does_try _ _ _ _ (fun key v => holds_new vol v /\ key = v_key vol)).
  { apply does_map_err. eapply spec_mono; [apply (spec_read (holds_new vol) _ (fun key _ => key = v_key vol) (fun _ _ => True)
      captures)|done| |done]; [constructor|done|intros w _; apply lw_vol_key| |].
    - intros w _. unfold refuses. by destruct (lh_vol_key _ _) as [[] ?].
    - intros [key|e] v [Hv Hk]; (split; [by apply Hcap|]); by intros ? [= <-]. }
  intros key. apply spec_fact. intros ->. unfold journal_record, record_volume. simpl.
  change (mkCheckpoint 1 _ _ _ _) with (warm_checkpoint [warm_entry (v_key vol)]).
  destruct (ensure_checkpoint_valid (warm_checkpoint _)); simpl; [|intros w Hw; split; [by apply Hcap|done]].
  eapply does_try.
  - apply does_try_ret; [done|]. intros _ _. eapply does_try.
    + apply (does_write_checkpoint (holds_new vol) captures _ _ _ (journalled_new (v_key vol))); [done|].
      intros v [Hi [Hnew Hvol]]. pose proof (captures_insert [warm_entry (v_key vol)] v (proj1 Hi)) as Hins.
      split; [apply Hins|]. exists vol. split_and!; [split_and!; done|done|simpl; apply lookup_insert_eq].
    + intros ?. apply (does_ret _ _ _ (fun _ => journalled_new (v_key vol))). intros v (vol' & Hv & Hrest).
      split; [apply Hv|]. by exists vol'.
  - intros ?. apply does_ret. intros v (vol' & Hv & Hrest). split; [apply Hv|]. by exists vol'.
Qed.

Lemma keeps_delete_warm vol : vw_volumes v0 !! warm_at = None -> keeps captures (call (lh_vol_delete (handle_of warm_at vol))).
Proof.
  intros Hnew. eapply yields_keeps, (yields_call _ _ (fun _ => True)). intros w HI.
  split; [|apply answers_any]. destruct (lw_vol_delete (handle_of warm_at vol) (hw_host w)) as [Hd Hv].
  unfold view. simpl. rewrite Hd. destruct Hv as [->| ->]; [exact HI|]. by apply (captures_delete (view w)).
Qed.

Lemma does_create_flattened overlay_name virtual_bytes :
  does intended captures
    (create_flattened (hcf_pool config) (warm_volume_name capture_id) overlay_name virtual_bytes
       {| vj_checkpoint := warm_checkpoint []; vj_path := warm_file |})
    journalled_new.
Proof.
  assert (forall v, intended v -> captures v) as Hcap by by intros v [? _].
  unfold create_flattened. apply does_try_after; [by keeps|done|]. intros overlay.
  eapply does_released; [apply does_create_from|intros J; apply keeps_free_volume|by intros a v (vol & [[? _] _] & _)|].
  intros volume w (vol & Hv & ->). pose proof (proj1 (proj2 Hv)) as Hnew.
  apply wp_bind. eapply wp_mono; [apply (does_try (holds_new vol) captures _ _ (fun recorded => journalled_new recorded.1) journalled_new)| |done|done].
  - apply does_record_warm.
  - intros recorded. apply (does_ret _ _ _ journalled_new). intros v (vol' & Hv' & Hrest). split; [apply Hv'|]. by exists vol'.
  - exact Hv.
  - intros [key|e] w1 [Hc Hk]; apply wp_bind; simpl.
    + apply wp_ret, wp_try. specialize (Hk key eq_refl).
      assert (forall v, journalled_new key v -> captures v) as Hj by by intros v (? & [[? _] _] & _).
      eapply wp_mono; [by apply (keeps_free_volume (journalled_new key))| | |]; [|intros w' Hw'; by apply Hj..].
      intros [b|e] w2 Hw2; [apply wp_ret|]; (split; [by apply Hj|]); by intros ? [= <-].
    + eapply wp_mono; [by apply keeps_delete_warm| |done|done]. intros ? w2 Hw2. apply wp_try.
      eapply wp_mono; [by apply (keeps_free_volume captures)| |done|done]. intros [b|e'] w3 Hw3; [apply wp_ret|]; by split.
Qed.

Lemma keeps_inactive I m : keeps I (ensure_inactive (H := H) m).
Proof.
  pose proof (keeps_ensure_domain I). pose proof (keeps_free_domain I). unfold ensure_inactive, exact_domain. keeps.
Qed.

Lemma does_capture request :
  wc_profile request = profile -> wc_capture_id request = capture_id ->
  does captures captures (capture config request) (fun pointer v =>
    journalled_new (vp_volume_key pointer) v /\ vp_pool pointer = hcf_pool config /\
    vp_volume_name pointer = warm_volume_name capture_id /\ vp_virtual_bytes pointer = wc_virtual_bytes request /\
    vp_generation pointer = wc_generation request).
Proof.
  intros Hprofile Hid. unfold capture. rewrite Hprofile, Hid.
  do 2 (apply does_try_ret; [done|]; intros [] _).
  apply does_try_after; [apply keeps_inactive|done|]. intros _. apply does_try_ret; [done|]. intros overlay_key _.
  apply does_try_after; [apply keeps_ensure_pool_volume|done|]. intros _.
  apply (does_try _ _ _ _ (fun pool v => captures v /\ pool = hcf_pool config)).
  { intros w Hw. eapply wp_mono; [by apply (yields_active_pool captures)| |done|done].
    intros r w1 [Hw1 Hp]. split; [done|]. intros pool ->. by split. }
  intros pool. apply spec_fact. intros ->. eapply does_try; [apply does_journal_warm|].
  intros journal. apply spec_fact. intros ->.
  eapply does_released; [eapply does_mono; [apply does_create_flattened|done|done|]| | |].
  - intros key v _ Hv. exact Hv.
  - intros J. apply keeps_free_pool.
  - by intros key v (vol & [[? _] _] & _).
  - intros key. apply does_after; [apply keeps_host, quiet_unix_time|by intros v (vol & [[? _] _] & _)|].
    intros now w Hw. apply wp_ret. pose proof Hw as (vol & [[Hc _] _] & _). split; [done|].
    intros pointer Hp%map_err_ok. unfold pointer_new in Hp. apply result_bind_ok in Hp as ([] & _ & [= <-]). done.
Qed.
End capture.

Section capturing.
Context {H : Type} {LH : LibvirtHost H} {LL : LawfulLibvirt H} {LV : LibvirtVolumes H} {LS : LawfulVolumes H}.
Context {PE : ParserErrors} {XC : XmlCodec} {JC : JsonCodec VolumeCheckpoint} {UC : UuidCodec}.

(** C11: a capture is additive however it ends: domains, other volumes and other
    files stay, the captured volume is one that was not there, and it is never
    there without a durable checkpoint that names its capture.  Where the
    capture succeeds the pointer it answers names that volume, by the key the
    checkpoint records. *)
Theorem capture_additive (config : HelperConfig) (request : WarmCaptureRequest) (w : HostWorld H) :
  is_safe_name (warm_volume_name (wc_capture_id request)) MAX_SAFE_NAME_BYTES = true ->
  let run := capture config request w in
  captures config (wc_profile request) (wc_capture_id request) (view w) (view run.2) /\
  forall pointer, run.1 = Done (Ok pointer) ->
    journalled_new config (wc_profile request) (wc_capture_id request) (view w) (vp_volume_key pointer) (view run.2) /\
    vp_pool pointer = hcf_pool config /\ vp_volume_name pointer = warm_volume_name (wc_capture_id request) /\
    vp_virtual_bytes pointer = wc_virtual_bytes request /\ vp_generation pointer = wc_generation request.
Proof.
  intros Hsafe. refine (does_end _ _ _ _ w (does_capture config _ _ (view w) Hsafe request eq_refl eq_refl) _).
  apply captures_start.
Qed.
End capturing.

(** ** Verification *)

Section verification.
Context {H : Type} {LH : LibvirtHost H} {LL : LawfulLibvirt H} {LV : LibvirtVolumes H} {LS : LawfulVolumes H}.
Context {PE : ParserErrors} {XC : XmlCodec} {XT : XmlTree} {JC : JsonCodec VolumeCheckpoint} {UC : UuidCodec}.
Context (x : Survey).

Lemma sees_turn {A} (f : gmap string string -> gset string -> A) :
  sees x (look (H := H) f) (on_ok (fun a => a = f (vw_files (su_view x)) (vw_dirs (su_view x)))).
Proof.
  intros w Hw. pose proof (view_turn w) as Hv. destruct (lv_turn (hw_host w)) as (Hc & Ha & Hl & Hd).
  assert (survey (w <| hw_host := (lh_turn (hw_host w)).2 |>) = x) as Hs
    by (rewrite <-Hw; unfold survey; simpl; by rewrite Hv, Hc, Ha, Hl, Hd).
  unfold wp, look. destruct (lh_turn (hw_host w)) as [[|applied m|applied] h]; simpl in *; try done.
  split; [done|]. by rewrite <-Hw.
Qed.

(** The checkpoint on disk. *)
Definition on_disk (path : PathBuf) (c : VolumeCheckpoint) : Prop :=
  exists content, vw_files (su_view x) !! path = Some content /\ parse_checkpoint content = Ok c.

Lemma sees_checkpoint path :
  sees x (load_checkpoint (H := H) path) (on_ok (fun found => forall c, found = Some c -> on_disk path c)).
Proof.
  unfold load_checkpoint, read_private_bounded_regular_optional, on_file.
  eapply (sees_try _ _ _ (fun found => forall content, found = Some content -> vw_files (su_view x) !! path = Some content)).
  - eapply (sees_try _ _ _ (fun found => found = vw_files (su_view x) !! path)).
    + eapply sees_bind; [apply (sees_turn (fun files _ => files !! path))|]. intros [] Hr; apply sees_ret; by simpl in *.
    + intros found ->. apply sees_ret. destruct (vw_files (su_view x) !! path) as [content|]; [|done].
      case_match; [done|]. by intros ? [= <-].
  - intros [content|] Hf; apply sees_ret; [|done]. specialize (Hf _ eq_refl).
    destruct (parse_checkpoint content) as [c|] eqn:E; simpl; [|done]. intros ? [= <-]. by exists content.
Qed.

(** A volume that stands on its own. *)
Definition standalone (at_ : string * string) (key : string) (virtual_bytes : Z) : Prop :=
  exists vol, vw_volumes (su_view x) !! at_ = Some vol /\ v_key vol = key /\
    parse_header (readable x at_) = Ok (Some {| qh_virtual_bytes := virtual_bytes; qh_backing_file := None |}).

Lemma standalone_sees v vol key virtual_bytes :
  vw_volumes (su_view x) !! at_of v = Some vol -> vol_key v = v_key vol ->
  sees x (standalone_checked v key virtual_bytes) (on_ok (fun _ => standalone (at_of v) key virtual_bytes)).
Proof.
  intros Hvol Hv. unfold standalone_checked. eapply sees_try.
  { apply (sees_virt _ _ _ (fun k => k = vol_key v)); [constructor|]. intros w _. apply lw_vol_key. }
  intros k ->. eapply sees_try.
  { apply (sees_virt _ _ _ (fun info => 0 <= vi_allocation info /\ vi_allocation info = su_allocated x (at_of v)));
      [constructor|]. intros w <-. apply lv_vol_info. }
  intros info [Hpos Hinfo]. case_bool_decide as Hk; simpl; [|by apply sees_ret].
  destruct (vi_capacity info =? virtual_bytes); simpl; [|by apply sees_ret].
  eapply sees_try; [apply sees_look; constructor|]. intros xml _.
  eapply (sees_try _ _ _ (fun _ => True)); [apply sees_ret; by destruct (xml_document _ xml)|]. intros document _.
  destruct (existsb _ _); [by apply sees_ret|].
  eapply sees_try; [apply download_sees; unfold HEADER_WINDOW_BYTES; lia|].
  intros prefix Hprefix. assert (prefix = readable x (at_of v)) as -> by (rewrite Hprefix, Hinfo; done).
  eapply (sees_try _ _ _ (fun header => parse_header (readable x (at_of v)) = Ok (Some header))).
  { apply sees_ret. destruct (parse_header _) as [[]|] eqn:E; done. }
  intros [bytes file] Hheader. apply sees_ret. destruct file; simpl; [done|].
  destruct (Z.eqb_spec bytes virtual_bytes) as [->|]; simpl; [|done]. exists vol. by rewrite <-Hv, Hk.
Qed.

Lemma ensure_standalone_sees pool name key virtual_bytes :
  sees x (ensure_standalone pool name key virtual_bytes) (on_ok (fun _ => standalone (pool, name) key virtual_bytes)).
Proof.
  unfold ensure_standalone. eapply sees_try.
  { apply (sees_virt _ _ _ (fun v => exists vol, vw_volumes (su_view x) !! (pool, name) = Some vol /\
      v = handle_of (pool, name) vol)); [constructor|]. intros w <-. apply lw_vol_lookup. }
  intros v (vol & Hvol & ->). eapply sees_then_free; [|apply sees_free_volume|by intros r Hr; apply sees_ret].
  by apply (standalone_sees (handle_of (pool, name) vol) vol).
Qed.

Lemma verify_sees config request :
  sees x (verify config request) (on_ok (fun pointer =>
    standalone (hcf_pool config, warm_volume_name (wv_capture_id request)) (vp_volume_key pointer) (wv_virtual_bytes request) /\
    pointer = {| vp_pool := hcf_pool config; vp_volume_name := warm_volume_name (wv_capture_id request);
                 vp_volume_key := vp_volume_key pointer; vp_virtual_bytes := wv_virtual_bytes request;
                 vp_generation := wv_generation request; vp_produced_at_unix := wv_produced_at_unix request |} /\
    exists c recorded, on_disk (warm_path (hcf_state_dir config) (wv_capture_id request)) c /\
      vc_owner c = OwnerWarm (wv_profile request) (wv_capture_id request) /\
      vc_service_instance c = hcf_service_instance config /\
      find_volume RoleWarm c = Some recorded /\ cv_key recorded = vp_volume_key pointer)).
Proof.
  unfold verify. eapply sees_try; [apply sees_checkpoint|]. intros found Hfound.
  eapply (sees_try _ _ _ (fun c => found = Some c)); [apply sees_ret; by destruct found|]. intros c ->.
  specialize (Hfound c eq_refl).
  eapply (sees_try _ _ _ (fun u => ensure_warm_binding c (hcf_service_instance config) (hcf_pool config)
    (wv_profile request) (wv_capture_id request) = Ok u)).
  { apply sees_ret. by destruct (ensure_warm_binding _ _ _ _ _). }
  intros [] (_ & Hinstance & _ & Howner & _)%binding_ok.
  eapply (sees_try _ _ _ (fun recorded => find_volume RoleWarm c = Some recorded)).
  { apply sees_ret. by destruct (find_volume RoleWarm c). }
  intros recorded Hrec. case_bool_decide as Hname; simpl; [|by apply sees_ret].
  eapply sees_try.
  { apply (sees_virt _ _ _ (fun p => p = hcf_pool config)); [constructor|]. intros w _. apply lw_pool_lookup. }
  intros ? ->. eapply sees_bind.
  { eapply sees_try; [apply sees_look; constructor|]. intros _ _. apply ensure_standalone_sees. }
  intros result Hr. eapply sees_try; [apply sees_free_pool|]. intros _ _.
  eapply sees_try; [apply sees_ret, Hr|]. intros ? Hstand. apply sees_ret.
  destruct (as_manifest _) as [pointer|] eqn:Hp; [|done]. apply map_err_ok in Hp. unfold pointer_new in Hp.
  apply result_bind_ok in Hp as ([] & _ & [= <-]). split_and!; [exact Hstand|done|]. by exists c, recorded.
Qed.
End verification.

Section verifying.
Context {H : Type} {LH : LibvirtHost H} {LL : LawfulLibvirt H} {LV : LibvirtVolumes H} {LS : LawfulVolumes H}.
Context {PE : ParserErrors} {XC : XmlCodec} {XT : XmlTree} {JC : JsonCodec VolumeCheckpoint} {UC : UuidCodec}.

(** Verification only looks, however it ends, and the pointer it answers is
    to a volume that is there under the key the capture's own checkpoint
    recorded, whose header names no backing file and the requested size. *)
Theorem verified_standalone (config : HelperConfig) (request : WarmVerifyRequest) (w : HostWorld H) :
  let run := verify config request w in
  survey run.2 = survey w /\
  forall pointer, run.1 = Done (Ok pointer) ->
    standalone (survey w) (hcf_pool config, warm_volume_name (wv_capture_id request)) (vp_volume_key pointer)
      (wv_virtual_bytes request) /\
    pointer = {| vp_pool := hcf_pool config; vp_volume_name := warm_volume_name (wv_capture_id request);
                 vp_volume_key := vp_volume_key pointer; vp_virtual_bytes := wv_virtual_bytes request;
                 vp_generation := wv_generation request; vp_produced_at_unix := wv_produced_at_unix request |} /\
    exists c recorded, on_disk (survey w) (warm_path (hcf_state_dir config) (wv_capture_id request)) c /\
      vc_owner c = OwnerWarm (wv_profile request) (wv_capture_id request) /\
      vc_service_instance c = hcf_service_instance config /\
      find_volume RoleWarm c = Some recorded /\ cv_key recorded = vp_volume_key pointer.
Proof.
  intros run. pose proof (verify_sees (survey w) config request w eq_refl) as Hwp. unfold wp in Hwp. unfold run.
  destruct (verify config request w) as [[r|d|] w']; simpl in *; [|by split..].
  destruct Hwp as [Hs Hr]. split; [done|]. by intros pointer [= ->].
Qed.
End verifying.

(** ** A host to run on *)

Module SimVolumes.
Import SimVirt.

Definition content (h : Host) (at_ : string * string) : string := default "" (h_contents h !! at_).

Definition find_path (h : Host) (path : string) : option (string * string * Volume) :=
  List.find (fun entry => bool_decide (v_path entry.2 = path)) (map_to_list (h_volumes h)).

Definition host_by_path (path : string) (h : Host) : Call Vol * Host :=
  match find_path h path with
  | None => refused NoStorageVolume h
  | Some (at_, vol) => reply (handle_of at_ vol) h
  end.

Definition list_volumes (pool : string) (h : Host) : list Vol :=
  omap (fun entry => if bool_decide (entry.1.1 = pool) then Some (handle_of entry.1 entry.2) else None)
    (map_to_list (h_volumes h)).

Definition list_domains (h : Host) : list Dom :=
  map (fun entry => {| dom_uuid := entry.1; dom_name := from_option dd_name "" (h_domains h !! entry.1) |})
    (map_to_list (h_documents h)).

(** The document of a volume, as far as its header tells. *)
Definition volume_document (content : string) : string :=
  match parse_header content with
  | Ok (Some {| qh_backing_file := Some path |}) => "backing:" +:+ path
  | _ => "volume"
  end.

(** A copy of an image that needs no other. *)
Definition flatten (content : string) : string :=
  text (take 8 (bytes content) ++ replicate 12 (ascii_of_nat 0) ++ drop 20 (bytes content)).

Definition create_from (pool xml : string) (source : Vol) (h : Host) : Call Vol * Host :=
  match SimVirt.read_volume xml with
  | None => refused (OtherError 1) h
  | Some name =>
      match h_volumes h !! (pool, name) with
      | Some _ => refused StorageVolExist h
      | None =>
          let vol := {| v_key := "/" +:+ pool +:+ "/" +:+ name; v_path := "/" +:+ pool +:+ "/" +:+ name;
                        v_capacity := from_option v_capacity 0 (h_volumes h !! at_of source) |} in
          (Answered (handle_of (pool, name) vol),
           h <| h_volumes := <[(pool, name) := vol]> (h_volumes h) |>
             <| h_contents := <[(pool, name) := flatten (content h (at_of source))]> (h_contents h) |>)
      end
  end.

#[export] Instance volumes : LibvirtVolumes Host := {
  lh_pool_refresh _ := step (reply tt);
  lh_list_volumes pool := step (fun h => reply (list_volumes pool h) h);
  lh_list_domains := step (fun h => reply (list_domains h) h);
  lh_vol_xml v := step (fun h => reply (volume_document (content h (at_of v))) h);
  lh_vol_by_path path := step (host_by_path path);
  lh_vol_create_from pool xml source := step (create_from pool xml source);
  lh_dom_xml d := step (fun h =>
    match h_documents h !! dom_uuid d with None => refused NoDomain h | Some xml => reply xml h end);
  lh_download v _ length := step (fun h =>
    (Answered tt, h <| h_unread := text (take (Z.to_nat length) (bytes (content h (at_of v)))) |>));
  lh_recv _ length := step (fun h =>
    let n := Z.to_nat (Z.max 1 length) in
    (Answered (text (take n (bytes (h_unread h)))), h <| h_unread := text (drop n (bytes (h_unread h))) |>));
}.

(** What a look leaves alone. *)
Definition alike (h h' : Host) : Prop :=
  h_volumes h' = h_volumes h /\ h_domains h' = h_domains h /\ content h' = content h /\
  (fun at_ => len (content h' at_)) = (fun at_ => len (content h at_)) /\
  find_path h' = find_path h /\ h_documents h' = h_documents h.

Lemma surveying_alike A (c : Host -> Call A * Host) h : surveying c -> alike h (c h).2.
Proof.
  assert (alike h h) as Hrefl by done.
  intros Hc. destruct Hc; apply (step_state _ h (alike h)); try done; intros calls;
    unfold host_lookup, host_info, host_path, host_by_path; simpl; repeat case_match; done.
Qed.

#[local] Obligation Tactic := idtac.

#[export] Program Instance lawful_volumes : LawfulVolumes Host := {
  contents := content;
  allocated_bytes h at_ := len (content h at_);
  located h path := fst <$> find_path h path;
  definitions := h_documents;
  unread h _ := h_unread h;
}.
Next Obligation.
  intros A c h Hc. destruct (surveying_alike A c h Hc) as (Hv & Hd & Hk & Hl & Hf & Hx). split_and!; try done. by rewrite Hf.
Qed.
Next Obligation. intros name h. apply step_refusal. by intros calls. Qed.
Next Obligation.
  intros path h. apply step_answers. intros calls. unfold answers, host_by_path, find_path. simpl.
  destruct (List.find _ _) as [[[] ?]|]; done.
Qed.
Next Obligation.
  intros path h. apply step_refusal. intros calls. unfold refuses, host_by_path, find_path. simpl.
  destruct (List.find _ _) as [[[] ?]|]; done.
Qed.
Next Obligation.
  intros pool h. apply step_answers. intros calls. unfold answers. simpl. intros name vol Hvol.
  apply list_elem_of_omap. exists ((pool, name), vol). split; [by apply elem_of_map_to_list|]. simpl.
  by rewrite bool_decide_eq_true_2.
Qed.
Next Obligation.
  intros h. apply step_answers. intros calls. unfold answers. simpl. intros uuid xml Hxml.
  eexists. split; [apply list_elem_of_fmap; exists (uuid, xml); split; [done|by apply elem_of_map_to_list]|done].
Qed.
Next Obligation.
  intros d h. apply step_answers. intros calls. unfold answers. simpl. by destruct (h_documents h !! dom_uuid d) eqn:E.
Qed.
Next Obligation.
  intros v h. apply step_answers. intros calls. unfold answers, host_path. simpl.
  destruct (h_volumes h !! _) as [vol|]; simpl; [|done]. by exists vol.
Qed.
Next Obligation.
  intros v h. apply step_answers. intros calls. unfold answers, host_info. simpl.
  destruct (h_volumes h !! _) as [vol|]; simpl; [|done]. split; [apply len_nonneg|done].
Qed.
Next Obligation. intros v stream length h. by apply step_answers. Qed.
Next Obligation. intros h. simpl. by destruct (h_turns h) as [[]|]. Qed.
Next Obligation.
  intros pool xml source h. apply (step_state _ h (fun h' => h_domains h' = h_domains h /\ (h_volumes h' = h_volumes h \/
    exists name vol, SimVirt.read_volume xml = Some name /\ h_volumes h !! (pool, name) = None /\
      h_volumes h' = <[(pool, name) := vol]> (h_volumes h)))); [by auto|].
  intros calls. unfold create_from, refused. repeat case_match; simplify_eq/=; eauto 10.
Qed.
Next Obligation.
  intros pool xml source h. apply step_answers. intros calls. unfold answers, create_from, refused. simpl.
  repeat case_match; simplify_eq/=; eauto 10.
Qed.
Next Obligation.
  intros stream length h. apply step_answers. intros calls. unfold answers. simpl.
  set (n := Z.to_nat (Z.max 1 length)). split.
  - rewrite <-text_app, take_drop. by rewrite text_bytes.
  - intros He. assert (bytes (h_unread h) = []) as Hb.
    { assert (n = S (pred n)) as Hn by (unfold n; lia). destruct (bytes (h_unread h)); [done|]. by rewrite Hn in He. }
    by rewrite Hb, drop_nil.
Qed.

(** Documents that say one thing each. *)
#[export] Instance tree : XmlTree := {
  xml_tree xml := Some (
    match strip_prefix xml "backing:", strip_prefix xml "disk:" with
    | Some path, _ => XElement "volume" [] [XElement "backingStore" [] [XElement "path" [] [XText path]]]
    | None, Some path => XElement "domain" [] [XElement "source" [("file", path)] []]
    | None, None => XElement "document" [] []
    end) }.

Fixpoint big_endian (width : nat) (n : Z) : list ascii :=
  match width with
  | O => []
  | S width => big_endian width (n / 256) ++ [ascii_of_nat (Z.to_nat (n mod 256))]
  end.

Definition qcow2 (virtual_bytes : Z) (backing : string) : string :=
  text (QCOW2_MAGIC ++ big_endian 4 3 ++ big_endian 8 (if is_empty backing then 0 else 32)
        ++ big_endian 4 (len backing) ++ big_endian 4 16 ++ big_endian 8 virtual_bytes ++ bytes backing).

Definition volume_named (name : string) : (string * string) * Volume :=
  (("flanforge", name), {| v_key := "/flanforge/" +:+ name; v_path := "/flanforge/" +:+ name; v_capacity := 1 |}).

Definition pointer_to (name : string) (generation : Z) : VolumePointer := {|
  vp_pool := "flanforge"; vp_volume_name := name; vp_volume_key := "/flanforge/" +:+ name;
  vp_virtual_bytes := 1; vp_generation := generation; vp_produced_at_unix := 1 |}.

(** Four warm generations: one that nothing uses, one under an overlay, one
    that is a domain's disk, and the current one.  The overlay is a stopped
    guest's. *)
Definition overlay : string := art_name (om_overlay manifest).

Definition warm_world (calls : option nat) : HostWorld Host := {|
  hw_host := mkHost
    (list_to_map (map volume_named ["warm-1"; "warm-2"; "warm-3"; "warm-4"; overlay]))
    {[ om_domain_uuid manifest := {| dd_name := om_domain_name manifest;
         dd_metadata := match allocation_metadata allocated with Ok metadata => metadata | Err _ => "" end |} ]}
    0 calls None
    (list_to_map [(("flanforge", "warm-1"), qcow2 1 ""); (("flanforge", "warm-2"), qcow2 1 "");
                  (("flanforge", overlay), qcow2 1 "/flanforge/warm-2")])
    ""
    {[ om_domain_uuid manifest := "disk:/flanforge/./warm-3" ]}
    {[ om_domain_uuid manifest ]};
  hw_files := ∅;
  hw_dirs := ∅;
  hw_claimed := ∅ |}.
End SimVolumes.

(** ** Witnesses *)

Section witnesses.
Import SimVirt SimVolumes.

Definition superseded_warm : list VolumePointer := map (fun name => pointer_to name 1) ["warm-1"; "warm-2"; "warm-3"].

(** One of three candidates is unused: it goes, and the two in use stay. *)
Lemma retire_spares_witness :
  let w := warm_world None in
  let run := retire_volumes config superseded_warm [pointer_to "warm-4" 2] w in
  run.1 = Done (Ok ["/flanforge/warm-1"]) /\
  spares config superseded_warm [pointer_to "warm-4" 2] (survey w) (view run.2) /\
  listed_gone config superseded_warm ["/flanforge/warm-1"] (view run.2) /\
  map (fun name => bool_decide (is_Some (h_volumes (hw_host run.2) !! ("flanforge", name))))
    ["warm-1"; "warm-2"; "warm-3"; "warm-4"] = [false; true; true; true].
Proof.
  intros w run. assert (run.1 = Done (Ok ["/flanforge/warm-1"])) as Hrun by (vm_compute; reflexivity).
  destruct (retire_spares config superseded_warm [pointer_to "warm-4" 2] w) as [Hs Hl].
  split; [exact Hrun|]. split; [exact Hs|]. split; [apply Hl, Hrun|]. vm_compute; reflexivity.
Defined.

Definition capture_request : WarmCaptureRequest := {|
  wc_manifest := allocated; wc_profile := "ci"; wc_capture_id := id; wc_generation := 5; wc_virtual_bytes := 1 |}.

(** The helper is killed right after libvirt made the volume: the checkpoint
    that names the capture is there. *)
Lemma capture_additive_witness :
  let w := warm_world (Some 20%nat) in
  let run := capture config capture_request w in
  run.1 = Crashed /\
  h_volumes (hw_host run.2) !! warm_at config id <> None /\
  captures config "ci" id (view w) (view run.2).
Proof.
  intros w run. split; [vm_compute; reflexivity|]. split; [vm_compute; discriminate|].
  destruct (capture_additive config capture_request w) as [Hc _]; [vm_compute; reflexivity|]. exact Hc.
Defined.

Definition verify_request : WarmVerifyRequest := {|
  wv_profile := "ci"; wv_capture_id := id; wv_generation := 5; wv_produced_at_unix := 7; wv_virtual_bytes := 1 |}.

Lemma verified_standalone_witness :
  let w := (capture config capture_request (warm_world None)).2 in
  exists pointer, (verify config verify_request w).1 = Done (Ok pointer) /\
    standalone (survey w) (warm_at config id) (vp_volume_key pointer) 1.
Proof.
  intros w. destruct (verified_standalone config verify_request w) as [_ Hv].
  eexists. split; [vm_compute; reflexivity|]. apply Hv. vm_compute; reflexivity.
Defined.
End witnesses.
