(* ===== verification/VirtGenerations.v ===== *)
(** * Warm generations of the libvirt backend
      ([crates/flanforge-runtime-libvirt/src/warm])

    The worker's side of warm images: the document of each profile in the state
    directory, the promotion of a capture and its rollback, the sweep of
    superseded generations, the recovery of interrupted captures and the
    answers a boot asks for.  The helper's side is [VirtWarm]. *)

From S2P Require Import Prelude Rust Text Identifiers Images Guest Allocation Config ConfigValidate Convert Admission Reaper Manager Futures Wire Virt VirtWorker VirtWarm.

Open Scope Z_scope.
Open Scope stdpp_scope.

(** ** The documents ([warm/pointer.rs]) *)

Definition SUFFIX : string := ".warm.json".
Definition MAX_ENTRIES : nat := 4096.

Definition pointer_directory (state_dir : PathBuf) : PathBuf := lsp_warm (libvirt_state_paths state_dir).
Definition pointer_path (state_dir : PathBuf) (profile : ProfileName) : PathBuf :=
  join (pointer_directory state_dir) (profile +:+ SUFFIX).

Definition profile_from_file_name (file_name : string) : option ProfileName :=
  stem ← strip_suffix file_name SUFFIX;
  match profile_name_new stem with
  | Ok profile => if bool_decide (profile +:+ SUFFIX = file_name) then Some profile else None
  | Err _ => None
  end.

Definition warm_capture_id {UC : UuidCodec} (file_name : string) : option Uuid :=
  value ← strip_prefix file_name "capture-";
  value ← strip_suffix value ".volume-checkpoint.json";
  not_nil value.

Definition publication_path (directory : PathBuf) (logical_name : VmName) : PathBuf :=
  join directory (logical_name +:+ ".published.json").

Section documents.
Context {H : Type} {LH : LibvirtHost H} {LD : LibvirtDaemon H} {PE : ParserErrors}.
Context {JW : JsonCodec PublishedWarm} {JB : JsonCodec PublishedBase} {UC : UuidCodec} {WC : WireCodec}.
Local Abbreviation W := (HostWorld H).

(** [std::fs::read_dir]: the names in a directory, where there is one. *)
Definition read_entries (directory : PathBuf) : Fut W (result RuntimeError (option (list string))) :=
  on_file (look (fun files dirs =>
    if bool_decide (directory ∈ dirs)
    then Some (ld_read_dir (omap (fun p => match rsplit_once "/" p with
           | Some (above, name) => if bool_decide (above = directory) then Some name else None
           | None => None
           end) ((map_to_list files).*1 ++ elements dirs)))
    else None)).

(** A bounded scan: an absent directory is empty. *)
Definition scan (directory : PathBuf) (complaint : string) : Fut W (result RuntimeError (list string)) :=
  found ←! read_entries directory;
  let entries := default [] found in
  mret (if (MAX_ENTRIES <? length entries)%nat then Err (manifest_error complaint) else Ok entries).

(** [with_extension("json.corrupt")], and the rename. *)
Definition quarantine (path : PathBuf) : Fut W unit :=
  _ ← change (fun files => match files !! path with
                           | Some bytes => <[path +:+ ".corrupt" := bytes]> (delete path files)
                           | None => files
                           end);
  mret tt.

Definition load_pointer (state_dir : PathBuf) (profile : ProfileName) :
    Fut W (result RuntimeError (option PublishedWarm)) :=
  let path := pointer_path state_dir profile in
  found ←! read_private_bounded_regular_optional path MAX_PUBLISHED_WARM_BYTES "published warm pointer";
  match found with
  | None => mret (Ok None)
  | Some bytes =>
      match parse_warm bytes with
      | Ok document =>
          if bool_decide (pw_profile document = profile) then mret (Ok (Some document))
          else _ ← quarantine path; mret (Ok None)
      | Err _ => _ ← quarantine path; mret (Ok None)
      end
  end.

(** The loop of [load_all]. *)
Fixpoint load_pointers_named (state_dir : PathBuf) (names : list string) : Fut W (result RuntimeError (list PublishedWarm)) :=
  match names with
  | [] => mret (Ok [])
  | name :: names =>
      match profile_from_file_name name with
      | None => load_pointers_named state_dir names
      | Some profile =>
          document ←! load_pointer state_dir profile;
          documents ←! load_pointers_named state_dir names;
          mret (Ok (option_list document ++ documents))
      end
  end.

Definition load_all (state_dir : PathBuf) : Fut W (result RuntimeError (list PublishedWarm)) :=
  entries ←! scan (pointer_directory state_dir) "warm pointer state has too many entries";
  load_pointers_named state_dir entries.

Definition ensure_published (state_dir : PathBuf) (document : PublishedWarm) : Fut W (result RuntimeError unit) :=
  profile ←! mret (map_err (fun e => manifest_error (identifier_text e)) (profile_name_new (pw_profile document)));
  bytes ←! mret (as_manifest (encode_warm document));
  _ ←! ensure_warm_directory (pointer_directory state_dir);
  on_file (change (fun files => <[pointer_path state_dir profile := bytes]> files)).

(** [ensure_removed]. *)
Definition remove_pointer (state_dir : PathBuf) (profile : ProfileName) : Fut W (result RuntimeError unit) :=
  let path := pointer_path state_dir profile in
  found ←! on_file (look (fun files _ => bool_decide (is_Some (files !! path))));
  if negb found then mret (Ok tt)
  else
    _ ←! on_file (change (delete path));
    directory ←! mret (ok_or (parent path) (manifest_error "publication path has no parent"));
    on_file (sync_directory directory).

(** ** Published bases ([image/publication.rs], [warm/retire.rs]) *)

Definition read_bounded_regular (path : PathBuf) (maximum_bytes : Z) (description : string) :
    Fut W (result RuntimeError string) :=
  found ←! read_private_bounded_regular_optional path maximum_bytes description;
  mret (ok_or found (manifest_error (description +:+ " is absent"))).

Definition load_published (directory : PathBuf) (logical_name : VmName) : Fut W (result RuntimeError PublishedBase) :=
  bytes ←! read_bounded_regular (publication_path directory logical_name) MAX_PUBLISHED_BASE_BYTES "published base pointer";
  publication ←! mret (as_manifest (parse_published bytes));
  mret (if bool_decide (pb_logical_name publication = logical_name) then Ok publication
        else Err (manifest_error "published base pointer names another logical image")).

(** By volume name, a later entry replacing an earlier one. *)
Fixpoint bases_named (directory : PathBuf) (names : list string) (pointers : gmap string VolumePointer) :
    Fut W (result RuntimeError (gmap string VolumePointer)) :=
  match names with
  | [] => mret (Ok pointers)
  | name :: names =>
      match strip_suffix name ".published.json" ≫= (fun logical => ok (vm_name_new logical)) with
      | None => bases_named directory names pointers
      | Some logical =>
          base ←! load_published directory logical;
          pointer ←! mret (as_manifest (published_pointer base));
          bases_named directory names (<[pb_volume_name base := pointer]> pointers)
      end
  end.

Definition published_base_pointers (directory : PathBuf) : Fut W (result RuntimeError (list VolumePointer)) :=
  entries ←! scan directory "published base directory has too many entries";
  pointers ←! bases_named directory entries ∅;
  mret (Ok (map_to_list pointers).*2).
End documents.

(** ** Requests ([actor/client/operations]) *)

(** What happens in the guest and in the manager during a promotion: the
    marker and the generalization under a budget, nothing when it runs out, and
    the manager's record of the image. *)
Class WarmDaemon (H : Type) := {
  wd_marker : Z -> H -> option (result WorkerError unit) * H;
  wd_generalize : Z -> H -> option (result WorkerError unit) * H;
  wd_record : WarmImageRecord -> H -> result string unit * H;
  wd_revert : ProfileName -> VmName -> option WarmGeneration -> H -> result string unit * H;
}.

Definition WARM_RETIREMENT_AGE_SECONDS : Z := 3600.
Definition RETIREMENT_TIMEOUT : Z := from_secs 120.
Definition RECOVERY_TIMEOUT : Z := from_secs 60.
Definition AVAILABILITY_TIMEOUT : Z := from_secs 15.
Definition DRY_RUN : string := "dry run; nothing was deleted".
Definition RETIRED : string := "proven unreferenced and deleted".
Definition PINNED : string := "pinned by a live or recoverable overlay".
Definition TOO_YOUNG : string := "younger than the retirement age floor".

Record WarmRequest := {
  wq_allocation : Allocation;
  wq_profile : ProfileName;
  wq_warm_template : VmName;
  wq_base_fingerprint : BaseFingerprint;
  wq_generation : Z;
  wq_previous : option WarmGeneration;
  wq_manifest : OwnershipManifest;
  wq_virtual_bytes : Z;
}.

Record Stopped := {
  st_phase : RetentionPhase;
  st_result : RetentionResult;
  st_reason : string;
  st_is_record_staged : bool;
}.

Definition stopped (phase : RetentionPhase) (result : RetentionResult) (reason : string) : Stopped :=
  {| st_phase := phase; st_result := result; st_reason := reason; st_is_record_staged := false |}.
Definition stopped_staged (phase : RetentionPhase) (result : RetentionResult) (reason : string) : Stopped :=
  {| st_phase := phase; st_result := result; st_reason := reason; st_is_record_staged := true |}.

Definition ensure_retirement_headroom (published : option PublishedWarm) : result Stopped unit :=
  let retained := from_option (fun document => Z.of_nat (length (pw_superseded document))) 0 published in
  if retained <? MAX_RETAINED_WARM_GENERATIONS then Ok tt
  else Err (stopped Stage Skipped
    ("warm production is halted: " +:+ decimal retained +:+ " generation(s) are pinned by live or recoverable overlays")).

Definition repoint (request : WarmRequest) (published : option PublishedWarm) (current : VolumePointer) :
    result RuntimeError PublishedWarm :=
  let logical := wq_warm_template request in
  let produced_at := vp_produced_at_unix current in
  as_manifest (match published with
    | Some document => repointed document logical (a_id (wq_allocation request)) produced_at current
    | None => warm_new (wq_profile request) logical (a_id (wq_allocation request)) produced_at current
    end).

(** ** Retirement ([warm/retire.rs]) *)

Definition candidates (document : PublishedWarm) (request : ImageSweep) (profile : ProfileName) : list VolumePointer :=
  let superseded := pw_superseded document in
  let is_declared := from_option (fun warm => bool_decide (warm = pw_logical_name document)) false
                       (sw_declared request !! profile) in
  if bool_decide (superseded = []) && negb is_declared && negb (bool_decide (profile ∈ sw_claimed request))
  then [pw_current document] else superseded.

Definition is_old_enough (now : Z) (pointer : VolumePointer) : bool :=
  negb (vp_produced_at_unix pointer =? 0)
  && (WARM_RETIREMENT_AGE_SECONDS <=? sat_sub now (vp_produced_at_unix pointer)).

Definition report (profile : ProfileName) (pointer : VolumePointer) (now : Z) (is_deleted : bool) (reason : string) :
    RetiredImage :=
  {| ri_profile := profile; ri_generation := vp_generation pointer;
     ri_age_seconds := sat_sub now (vp_produced_at_unix pointer);
     ri_is_deleted := is_deleted; ri_reason := reason |}.

(** The protected pointers a request carries: those no candidate names. *)
Definition shielded (aged protected : list VolumePointer) : list VolumePointer :=
  List.filter (fun pointer => negb (existsb (fun candidate => is_same_volume candidate pointer) aged)) protected.

Section generations.
Context {H : Type} {LH : LibvirtHost H} {LV : LibvirtVolumes H} {LD : LibvirtDaemon H} {WD : WarmDaemon H}.
Context {PE : ParserErrors} {XC : XmlCodec} {XT : XmlTree} {JC : JsonCodec VolumeCheckpoint} {JR : JsonCodec HelperRequest}.
Context {JW : JsonCodec PublishedWarm} {JB : JsonCodec PublishedBase} {UC : UuidCodec} {WC : WireCodec}.
Context (wk : LibvirtWorker) (image_manifest_dir : PathBuf).
Local Abbreviation W := (HostWorld H).
Local Abbreviation config := (lw_config wk).
Local Abbreviation state_dir := (lw_state_dir wk).

(** [request_read_only] and [request_unlocked_mutation]: no ordering lock. *)
Definition request_unlocked {A} (timeout : Z) (request : HelperRequest) (op : Fut W (result RuntimeError A)) :
    Fut W (result RuntimeError A) :=
  started ← host lh_now;
  now ← host lh_now;
  if started + timeout - now <=? 0 then mret (Err EDeadline)
  else
    _ ←! mret (map_err (fun e => helper_error (wire_text e)) (encode_request request));
    run_helper wk op.

Definition actor_check_source (pointer : VolumePointer) (timeout : Z) : Fut W (result RuntimeError unit) :=
  request_unlocked timeout (HCheckSource config pointer)
    (_ ←! check_source_pointer config pointer; mret (Ok tt)).

Definition actor_delete_volume (key : option string) (name : string) (timeout : Z) : Fut W (result RuntimeError unit) :=
  request_with wk timeout (fun _ =>
    Ok (HDeleteVolume config key name, delete_exact (hcf_pool config) key name)).

Definition actor_warm_quiesce (m : OwnershipManifest) (timeout : Z) : Fut W (result RuntimeError unit) :=
  request_with wk timeout (fun remaining =>
    seconds ← inner_timeout_seconds remaining CLEANUP_REPLY_SLACK 600 "warm quiesce";
    Ok (HWarmQuiesce config m seconds, quiesce_request m seconds)).

Definition actor_warm_capture (request : WarmCaptureRequest) (timeout : Z) : Fut W (result RuntimeError VolumePointer) :=
  request_unlocked timeout
    (HWarmCapture config (wc_manifest request) (wc_profile request) (wc_capture_id request) (wc_generation request)
       (wc_virtual_bytes request))
    (capture config request).

Definition actor_warm_verify (request : WarmVerifyRequest) (timeout : Z) : Fut W (result RuntimeError VolumePointer) :=
  request_with wk timeout (fun _ =>
    Ok (HWarmVerify config (wv_profile request) (wv_capture_id request) (wv_generation request)
          (wv_produced_at_unix request) (wv_virtual_bytes request),
        verify config request)).

Definition actor_warm_retire (aged protected : list VolumePointer) (timeout : Z) : Fut W (result RuntimeError (list string)) :=
  request_with wk timeout (fun _ => Ok (HWarmRetire config aged protected, retire_volumes config aged protected)).

Definition worker_unix_time : Fut W Z :=
  now ← host lh_unix_time; mret (match now with Ok now => now | Err _ => 0 end).

Definition protected_pointers (documents : list PublishedWarm) : Fut W (result WorkerError (list VolumePointer)) :=
  bases ←! into_worker (published_base_pointers image_manifest_dir);
  mret (Ok (concat (map pointers documents) ++ bases)).

Fixpoint without_all (document : PublishedWarm) (deleted : list string) : result RuntimeError PublishedWarm :=
  match deleted with
  | [] => Ok document
  | key :: deleted => document ← as_manifest (without_superseded document key); without_all document deleted
  end.

Definition ensure_pointer_updated (document : PublishedWarm) (profile : ProfileName) (deleted : list string) :
    Fut W (result WorkerError unit) :=
  if bool_decide (deleted = []) then mret (Ok tt)
  else if existsb (fun key => bool_decide (key = vp_volume_key (pw_current document))) deleted
  then into_worker (remove_pointer state_dir profile)
  else into_worker (updated ←! mret (without_all document deleted); ensure_published state_dir updated).

(** One document's turn in a sweep. *)
Definition retire_document (request : ImageSweep) (protected : list VolumePointer) (now : Z) (document : PublishedWarm) :
    Fut W (result WorkerError (list RetiredImage)) :=
  match profile_name_new (pw_profile document) with
  | Err _ => mret (Ok [])
  | Ok profile =>
      let found := candidates document request profile in
      let aged := List.filter (is_old_enough now) found in
      let young := List.filter (fun pointer => negb (is_old_enough now pointer)) found in
      let too_young := map (fun pointer => report profile pointer now false TOO_YOUNG) young in
      if bool_decide (aged = []) then mret (Ok too_young)
      else if sw_is_dry_run request
      then mret (Ok (too_young ++ map (fun pointer => report profile pointer now false DRY_RUN) aged))
      else
        deleted ←! into_worker (actor_warm_retire aged (shielded aged protected) RETIREMENT_TIMEOUT);
        let is_deleted pointer := existsb (fun key => bool_decide (key = vp_volume_key pointer)) deleted in
        _ ←! ensure_pointer_updated document profile deleted;
        mret (Ok (too_young ++ map (fun pointer =>
          report profile pointer now (is_deleted pointer) (if is_deleted pointer then RETIRED else PINNED)) aged))
  end.

Fixpoint retire_documents (request : ImageSweep) (protected : list VolumePointer) (now : Z) (documents : list PublishedWarm) :
    Fut W (result WorkerError (list RetiredImage)) :=
  match documents with
  | [] => mret (Ok [])
  | document :: documents =>
      reported ←! retire_document request protected now document;
      others ←! retire_documents request protected now documents;
      mret (Ok (reported ++ others))
  end.

Definition ensure_superseded_retired (request : ImageSweep) : Fut W (result WorkerError (list RetiredImage)) :=
  documents ←! into_worker (load_all state_dir);
  protected ←! protected_pointers documents;
  now ← worker_unix_time;
  retire_documents request protected now documents.

Definition retained_generations (profile : ProfileName) : Fut W (option Z) :=
  loaded ← into_worker (load_pointer state_dir profile);
  mret (match loaded with
        | Ok (Some document) =>
            let retained := Z.of_nat (length (pw_superseded document)) in
            if retained <=? u32_max then Some retained else None
        | _ => None
        end).

(** ** Recovery ([warm/recovery.rs]) *)

Definition referenced_volume_keys : Fut W (result WorkerError (gset string)) :=
  documents ←! into_worker (load_all state_dir);
  mret (Ok (list_to_set (concat (map (fun pointer => [vp_volume_key pointer; vp_volume_name pointer])
                                   (concat (map pointers documents)))))).

Definition pending_captures : Fut W (result WorkerError (list Uuid)) :=
  into_worker (entries ←! scan (warm_capture_dir state_dir) "warm capture state has too many entries";
               mret (Ok (omap warm_capture_id entries))).

Definition reconcile_capture (capture_id : Uuid) (referenced : gset string) : Fut W (result WorkerError unit) :=
  let path := warm_path state_dir capture_id in
  found ←! into_worker (load_checkpoint path);
  match found with
  | None => mret (Ok tt)
  | Some checkpoint =>
      let name := warm_volume_name capture_id in
      let key := cv_key <$> find_volume RoleWarm checkpoint in
      let is_published := bool_decide (name ∈ referenced)
                          || from_option (fun key => bool_decide (key ∈ referenced)) false key in
      _ ←! (if is_published then mret (Ok tt)
            else into_worker (actor_delete_volume key name RECOVERY_TIMEOUT));
      into_worker (remove_checkpoint path)
  end.

Fixpoint reconcile_captures (captures : list Uuid) (referenced : gset string) : Fut W (result WorkerError unit) :=
  match captures with
  | [] => mret (Ok tt)
  | capture_id :: captures =>
      _ ←! reconcile_capture capture_id referenced;
      reconcile_captures captures referenced
  end.

(** [ensure_warm_recovered], before it turns to image imports. *)
Definition ensure_captures_recovered : Fut W (result WorkerError unit) :=
  referenced ←! referenced_volume_keys;
  captures ←! pending_captures;
  reconcile_captures captures referenced.

(** ** Availability ([warm/availability.rs]) *)

Definition warm_pointer_availability (record : WarmImageRecord) : Fut W (result WorkerError WarmAvailability) :=
  found ←! into_worker (load_pointer state_dir (wi_profile record));
  match found with
  | None => mret (Ok WAbsent)
  | Some document =>
      if negb (pw_generation document =? wi_generation record)
         || negb (bool_decide (pw_logical_name document = wi_warm_template record))
      then mret (Ok WAbsent)
      else
        checked ← actor_check_source (pw_current document) AVAILABILITY_TIMEOUT;
        mret (Ok (if is_ok checked then WReady else WAbsent))
  end.

Definition ensure_pointer_restored (record : WarmImageRecord) : Fut W (result WorkerError unit) :=
  found ←! into_worker (load_pointer state_dir (wi_profile record));
  match found, wi_previous record with
  | None, _ => mret (Err (worker_error_new "no warm pointer survives this profile; allocations boot cold"))
  | Some _, None =>
      mret (Err (worker_error_new "no earlier generation survives this profile; leaving the pointer untouched"))
  | Some document, Some previous =>
      if pw_generation document =? wg_generation previous then mret (Ok tt)
      else match restored document (wg_generation previous) with
      | Err _ =>
          mret (Err (worker_error_new "no superseded generation matches the record; leaving the pointer untouched"))
      | Ok restored => into_worker (ensure_published state_dir restored)
      end
  end.

(** ** Promotion ([warm/capture.rs], [warm/capture/]) *)

(** A failure as the promotion reports it. *)
Definition stops {A} (make : string -> Stopped) (c : Fut W (result WorkerError A)) : Fut W (result Stopped A) :=
  fut_map_err (fun e => make (worker_message e)) c.

Definition stops_runtime {A} (make : string -> Stopped) (c : Fut W (result RuntimeError A)) : Fut W (result Stopped A) :=
  fut_map_err (fun e => make (runtime_text e)) c.

Definition left_until (deadline : Z) : Fut W (result Stopped Z) :=
  now ← host lh_now;
  mret (if deadline - now <=? 0 then Err (stopped Stage RFailed "warm capture exceeded its budget")
        else Ok (deadline - now)).

(** A step in the guest, under what is left of the budget. *)
Definition in_guest (step : Z -> H -> option (result WorkerError unit) * H) (deadline : Z) (overrun : string) :
    Fut W (result Stopped unit) :=
  budget ←! left_until deadline;
  ended ← host (step budget);
  mret (match ended with
        | None => Err (stopped Verify RFailed overrun)
        | Some (Err error) => Err (stopped Verify RFailed (worker_message error))
        | Some (Ok _) => Ok tt
        end).

Definition record_image (request : WarmRequest) (state : WarmImageState) : Fut W (result WorkerError unit) :=
  now ← worker_unix_time;
  recorded ← host (wd_record {|
    wi_profile := wq_profile request; wi_warm_template := wq_warm_template request;
    wi_generation := wq_generation request; wi_base_fingerprint := wq_base_fingerprint request;
    wi_produced_by := a_id (wq_allocation request); wi_produced_at_unix := now;
    wi_state := state; wi_previous := wq_previous request |});
  mret (map_err worker_error_new recorded).

Definition forget_capture (capture_id : Uuid) : Fut W (result WorkerError unit) :=
  into_worker (remove_checkpoint (warm_path state_dir capture_id)).

Definition promote_capture (request : WarmRequest) (capture_id : Uuid) (deadline : Z) : Fut W (result Stopped unit) :=
  published ←! stops (stopped Stage RFailed) (into_worker (load_pointer state_dir (wq_profile request)));
  _ ←! mret (ensure_retirement_headroom published);
  _ ←! in_guest wd_marker deadline "workflow completion marker verification exceeded its timeout";
  _ ←! in_guest wd_generalize deadline "guest clone identity generalization exceeded its timeout";
  budget ←! left_until deadline;
  _ ←! stops_runtime (stopped Stop RFailed) (actor_warm_quiesce (wq_manifest request) budget);
  budget ←! left_until deadline;
  staged ←! stops_runtime (stopped Stage RFailed) (actor_warm_capture {|
    wc_manifest := wq_manifest request; wc_profile := wq_profile request; wc_capture_id := capture_id;
    wc_generation := wq_generation request; wc_virtual_bytes := wq_virtual_bytes request |} budget);
  budget ←! left_until deadline;
  verified ←! stops_runtime (stopped Verify Rejected) (actor_warm_verify {|
    wv_profile := wq_profile request; wv_capture_id := capture_id; wv_generation := wq_generation request;
    wv_produced_at_unix := vp_produced_at_unix staged; wv_virtual_bytes := wq_virtual_bytes request |} budget);
  _ ←! stops (stopped_staged Verify RFailed) (record_image request Staging);
  published ←! stops (stopped_staged Promote RFailed) (into_worker (load_pointer state_dir (wq_profile request)));
  document ←! stops_runtime (stopped_staged Promote RFailed) (mret (repoint request published verified));
  _ ←! stops (stopped_staged Promote RFailed) (into_worker (ensure_published state_dir document));
  _ ←! stops (stopped_staged Promote RFailed) (record_image request Promoted);
  _ ← forget_capture capture_id;
  mret (Ok tt).

Definition rollback_capture (request : WarmRequest) (capture_id : Uuid) (ended : Stopped) : Fut W unit :=
  _ ← (if st_is_record_staged ended
       then reverted ← host (wd_revert (wq_profile request) (wq_warm_template request) (wq_previous request)); mret tt
       else mret tt);
  let name := warm_volume_name capture_id in
  loaded ← load_checkpoint (warm_path state_dir capture_id);
  let key := match loaded with
             | Ok (Some checkpoint) => cv_key <$> find_volume RoleWarm checkpoint
             | _ => None
             end in
  removed ← actor_delete_volume key name (from_secs LIBVIRT_MIN_CLEANUP_TIMEOUT_SECONDS);
  match removed with
  | Err _ => mret tt
  | Ok _ => _ ← forget_capture capture_id; mret tt
  end.

Definition retain_capture (request : WarmRequest) (warm_capture_timeout : Z) : Fut W RetentionOutcome :=
  capture_id ← host lh_uuid;
  now ← host lh_now;
  let deadline := now + warm_capture_timeout in
  promoted ← promote_capture request capture_id deadline;
  match promoted with
  | Ok _ => mret (retention_outcome_new RPromoted Promote "warm image promoted" (Some (wq_generation request)))
  | Err ended =>
      _ ← (if bool_decide (st_result ended = Skipped) then mret tt else rollback_capture request capture_id ended);
      mret (retention_outcome_new (st_result ended) (st_phase ended) (st_reason ended) (Some (wq_generation request)))
  end.
End generations.
