(* ===== verification/VirtGenerationsSpec.v ===== *)
(** * What is kept of warm generations

    [recovery_keeps_published]: recovering interrupted captures deletes no
    volume that a profile's document names.  [sweep_collects]: a sweep deletes
    only aged candidates of the documents on disk, and in a dry run nothing.
    [failed_record_dangles] and [shield_is_vacuous] are where the code does
    less than its comments say. *)

From S2P Require Import Prelude Rust Text Identifiers Images Guest Allocation Config ConfigValidate Convert Admission Reaper Manager Futures Wire Virt VirtSpec VirtWorker VirtAuthority VirtWarm VirtWarmSpec VirtGenerations.

Open Scope Z_scope.
Open Scope stdpp_scope.

(** A directory's listing leaves nothing out. *)
Class LawfulListing (H : Type) {LD : LibvirtDaemon H} := {
  ll_listed l name : name ∈ l -> name ∈ ld_read_dir (H := H) l;
}.

(** ** The documents of a state directory *)

Section documents.
Context {H : Type} {LH : LibvirtHost H} {LL : LawfulLibvirt H} {LD : LibvirtDaemon H} {LG : LawfulListing H}.
Context {PE : ParserErrors} {JW : JsonCodec PublishedWarm} {UC : UuidCodec} {WC : WireCodec}.
Context (state_dir : PathBuf).
Local Abbreviation W := (HostWorld H).

(** The document a profile's file holds. *)
Definition published_in (v : View) (profile : ProfileName) (document : PublishedWarm) : Prop :=
  exists content, vw_files v !! pointer_path state_dir profile = Some content /\
    parse_warm content = Ok document /\ pw_profile document = profile.

Lemma last_byte_ne (a b s t : string) x y : x <> y ->
  a +:+ s +:+ String x "" <> b +:+ t +:+ String y "".
Proof.
  intros Hne Heq. apply (f_equal bytes) in Heq. rewrite !bytes_app, !app_assoc in Heq.
  by apply app_inj_tail in Heq as [_ [= ->]].
Qed.

Lemma corrupt_not_pointer (profile other : ProfileName) :
  pointer_path state_dir profile +:+ ".corrupt" <> pointer_path state_dir other.
Proof.
  unfold pointer_path, SUFFIX. destruct (join_suffix (pointer_directory state_dir) (other +:+ ".warm.json")) as [q ->].
  change ".corrupt" with (".corrup" +:+ "t"). change ".warm.json" with (".warm.jso" +:+ "n").
  rewrite (string_app_assoc q). by apply last_byte_ne.
Qed.

Lemma pointer_path_inj (profile other : ProfileName) :
  pointer_path state_dir profile = pointer_path state_dir other -> profile = other.
Proof.
  unfold pointer_path, join. case_match; intros Heq; [by apply string_app_inj_l, string_app_inj_r in Heq|].
  by apply string_app_inj_l, string_app_inj_l, string_app_inj_r in Heq.
Qed.

Lemma rsplit_once_none sep s : sep ∉ bytes s -> rsplit_once sep s = None.
Proof.
  induction s as [|c s IH]; simpl; [done|]. intros [Hc Hs]%not_elem_of_cons. rewrite IH by done.
  destruct (Ascii.eqb_spec c sep); [by subst|done].
Qed.

Lemma rsplit_once_last sep a b : sep ∉ bytes b -> rsplit_once sep (a +:+ String sep b) = Some (a, b).
Proof.
  intros Hb. induction a as [|c a IH]; simpl.
  - rewrite rsplit_once_none by done. by rewrite Ascii.eqb_refl.
  - by rewrite IH.
Qed.

Lemma pointer_path_split profile :
  profile_name_new profile = Ok profile ->
  rsplit_once "/" (pointer_path state_dir profile) = Some (pointer_directory state_dir, profile +:+ SUFFIX).
Proof.
  intros Hp. assert (is_empty (pointer_directory state_dir) || ends_with (pointer_directory state_dir) "/" = false) as Hdir.
  { unfold pointer_directory. simpl. destruct (join_suffix (join state_dir "libvirt") "warm") as [q ->]. apply orb_false_iff. split.
    - apply not_true_iff_false. rewrite is_empty_spec. by destruct q.
    - apply not_true_iff_false. rewrite ends_with_spec. intros [rest Heq].
      change "warm" with ("war" +:+ "m") in Heq. change (rest +:+ "/") with (rest +:+ "" +:+ "/") in Heq.
      by apply last_byte_ne in Heq. }
  unfold pointer_path, join. rewrite Hdir. apply rsplit_once_last. rewrite bytes_app, not_elem_of_app. split.
  - unfold profile_name_new in Hp. apply identifier_new_ok in Hp as (_ & _ & _ & Hall).
    intros Hin. pose proof (all_bytes_elem _ _ _ Hall Hin) as Hb. by vm_compute in Hb.
  - apply (bool_decide_unpack _). vm_compute. exact I.
Qed.

(** Reading may quarantine a document that cannot be trusted, and no other. *)
Record reads_only (v0 v : View) : Prop := {
  ro_volumes : vw_volumes v = vw_volumes v0;
  ro_doms : vw_domains v = vw_domains v0;
  ro_dirs : vw_dirs v = vw_dirs v0;
  ro_back profile content : vw_files v !! pointer_path state_dir profile = Some content ->
    vw_files v0 !! pointer_path state_dir profile = Some content;
  ro_good profile document : published_in v0 profile document -> published_in v profile document;
}.

Lemma reads_only_refl v : reads_only v v.
Proof. constructor; auto. Qed.

Definition trusted (profile : ProfileName) (content : string) : Prop :=
  exists document, parse_warm content = Ok document /\ pw_profile document = profile.

Lemma keeps_quarantine v0 profile content :
  ~ trusted profile content ->
  spec (fun v => reads_only v0 v /\ vw_files v !! pointer_path state_dir profile = Some content)
    (quarantine (H := H) (pointer_path state_dir profile)) (fun _ => reads_only v0) (reads_only v0).
Proof.
  intros Hbad. unfold quarantine. set (path := pointer_path state_dir profile). set (f := fun files : gmap string string => _).
  assert (forall v, reads_only v0 v /\ vw_files v !! path = Some content -> reads_only v0 v /\ reads_only v0 (with_files f v)) as Hf.
  { intros v [Hv Hfile]. split; [done|]. destruct Hv as [Hvol Hdom Hdirs Hback Hgood].
    assert (forall other, vw_files (with_files f v) !! pointer_path state_dir other =
      if decide (other = profile) then None else vw_files v !! pointer_path state_dir other) as Hl.
    { intros other. simpl. unfold f. rewrite Hfile. rewrite lookup_insert_ne by apply corrupt_not_pointer.
      case_decide as Ho; [subst; apply lookup_delete_eq|]. rewrite lookup_delete_ne; [done|].
      intros Heq%pointer_path_inj. by subst. }
    constructor; try done.
    - intros other c. rewrite Hl. case_decide; [done|]. apply Hback.
    - intros other d Hd. destruct (Hgood other d Hd) as (c & Hc & Hparse & Hprof). exists c. rewrite Hl.
      case_decide as Ho; [|done]. exfalso. apply Hbad. exists d. rewrite Ho in Hc, Hprof. fold path in Hc.
      assert (c = content) as -> by congruence. done. }
  intros w Hw. apply wp_bind. eapply wp_mono.
  - eapply (does_change (fun v => reads_only v0 v /\ vw_files v !! path = Some content) (reads_only v0) f (reads_only v0));
      [by intros v []|intros v Hv; destruct (Hf v Hv); by split|exact Hw].
  - intros r w' [Hw' _]. by apply wp_ret.
  - done.
  - done.
Qed.

Definition loads (v0 : View) (profile : ProfileName) (found : option PublishedWarm) (v : View) : Prop :=
  reads_only v0 v /\ forall document, found = Some document <-> published_in v0 profile document.

Lemma does_load_pointer v0 profile :
  does (reads_only v0) (reads_only v0) (load_pointer (H := H) state_dir profile) (loads v0 profile).
Proof.
  unfold load_pointer, read_private_bounded_regular_optional. set (path := pointer_path state_dir profile).
  apply (does_try _ _ _ _ (fun found v => reads_only v0 v /\ vw_files v !! path = found)).
  { apply (does_try _ _ _ _ (fun found v => reads_only v0 v /\ vw_files v !! path = found)).
    - apply does_map_err. eapply does_mono; [by apply (does_look (reads_only v0))|done|done|]. by intros a v _ [Hv ->].
    - intros found w [Hw Hf]. apply wp_ret. split; [done|]. intros a. destruct found as [bytes|]; [|by intros [= <-]].
      case_match; [done|]. by intros [= <-]. }
  intros [bytes|].
  - assert (forall d v, reads_only v0 v -> vw_files v !! path = Some bytes -> published_in v0 profile d ->
      parse_warm bytes = Ok d /\ pw_profile d = profile) as Hpub.
    { intros d v Hv Hf (c & Hc & Hp & Hd)%(ro_good _ _ Hv). fold path in Hc. assert (c = bytes) as -> by congruence. done. }
    assert (~ trusted profile bytes -> does (fun v => reads_only v0 v /\ vw_files v !! path = Some bytes) (reads_only v0)
      (_ ← quarantine (H := H) path; mret (Ok None : result RuntimeError (option PublishedWarm))) (loads v0 profile)) as Hq.
    { intros Hbad w Hw. apply wp_bind. eapply wp_mono; [by apply (keeps_quarantine v0 profile bytes Hbad)| |done|done].
      intros [] w' Hw'. apply wp_ret. split; [done|]. intros a [= <-]. split; [done|]. intros d. split; [done|].
      intros Hd. destruct Hw as [Hr Hf]. destruct (Hpub _ _ Hr Hf Hd). exfalso. apply Hbad. by exists d. }
    destruct (parse_warm bytes) as [document|e] eqn:Hparse.
    + case_bool_decide as Hprof.
      * intros w [Hw Hf]. apply wp_ret. split; [done|]. intros a [= <-]. split; [done|]. intros d. split.
        -- intros [= <-]. exists bytes. split; [by apply (ro_back _ _ Hw)|done].
        -- intros Hd. destruct (Hpub _ _ Hw Hf Hd) as [Hp _]. by injection Hp as ->.
      * apply Hq. intros (d & Hd & Hp). rewrite Hparse in Hd. injection Hd as ->. done.
    + apply Hq. intros (d & Hd & _). by rewrite Hparse in Hd.
  - intros w [Hw Hf]. apply wp_ret. split; [done|]. intros a [= <-]. split; [done|]. intros d. split; [done|].
    intros (c & Hc & _)%(ro_good _ _ Hw). fold path in Hc. congruence.
Qed.

Definition named (names : list string) (profile : ProfileName) : Prop :=
  exists name, name ∈ names /\ profile_from_file_name name = Some profile.

Definition loads_all (v0 : View) (listed : ProfileName -> Prop) (documents : list PublishedWarm) (v : View) : Prop :=
  reads_only v0 v /\
  (forall document, document ∈ documents -> exists profile, profile_name_new profile = Ok profile /\ published_in v0 profile document) /\
  (forall profile document, listed profile -> published_in v0 profile document -> document ∈ documents).

Lemma profile_of_name name profile :
  profile_from_file_name name = Some profile <-> profile_name_new profile = Ok profile /\ name = profile +:+ SUFFIX.
Proof.
  unfold profile_from_file_name. destruct (strip_suffix name SUFFIX) as [stem|] eqn:Hs; simpl.
  - apply strip_suffix_spec in Hs as ->. destruct (profile_name_new stem) as [p|e] eqn:Hp.
    + pose proof Hp as Hp'. unfold profile_name_new in Hp'. apply identifier_new_ok in Hp' as [-> _].
      rewrite bool_decide_eq_true_2 by done. split; [by intros [= <-]|]. by intros [_ ->%string_app_inj_r].
    + split; [done|]. intros [Hok ->%string_app_inj_r]. congruence.
  - split; [done|]. intros [_ ->]. assert (strip_suffix (profile +:+ SUFFIX) SUFFIX = Some profile) by by apply strip_suffix_spec.
    congruence.
Qed.

Lemma does_load_named v0 names :
  does (reads_only v0) (reads_only v0) (load_pointers_named (H := H) state_dir names) (loads_all v0 (named names)).
Proof.
  induction names as [|name names IH]; cbn [load_pointers_named].
  { apply does_ret. intros v Hv. split; [done|]. split_and!; [done|by intros d ?%not_elem_of_nil|].
    by intros p d (n & ?%not_elem_of_nil & _). }
  destruct (profile_from_file_name name) as [profile|] eqn:Hname.
  - apply (does_try _ _ _ _ (loads v0 profile)); [apply does_load_pointer|]. intros found.
    apply (does_from (loads v0 profile found)). intros v1 [Hv1 Hfound].
    apply (does_try _ _ _ _ (loads_all v0 (named names))); [eapply does_mono; [exact IH|by intros v <-|done|done]|].
    intros documents w (Hw & Hin & Hall). apply wp_ret. split; [done|]. intros ds [= <-]. split_and!; [done| |].
    + intros d [Hd|Hd]%elem_of_app; [|by apply Hin]. exists profile. split; [by apply profile_of_name in Hname as []|].
      apply Hfound. destruct found as [d'|]; simpl in Hd; [|by apply not_elem_of_nil in Hd].
      by apply list_elem_of_singleton in Hd as ->.
    + intros p d (n & [->|Hn]%elem_of_cons & Hp) Hd; apply elem_of_app.
      * left. assert (p = profile) as -> by congruence. apply Hfound in Hd as ->. simpl. by apply list_elem_of_singleton.
      * right. apply (Hall p); [by exists n|done].
  - eapply does_mono; [exact IH|done|done|]. intros ds v _ (Hv & Hin & Hall). split_and!; [done|done|].
    intros p d (n & [->|Hn]%elem_of_cons & Hp) Hd; [congruence|]. apply (Hall p); [by exists n|done].
Qed.

(** Every profile whose document can be listed. *)
Definition listable (v0 : View) (profile : ProfileName) : Prop :=
  profile_name_new profile = Ok profile /\ pointer_directory state_dir ∈ vw_dirs v0.

Lemma does_load_all v0 :
  does (eq v0) (reads_only v0) (load_all (H := H) state_dir) (loads_all v0 (listable v0)).
Proof.
  assert (forall v, v0 = v -> reads_only v0 v) as Hrefl by (intros v <-; apply reads_only_refl).
  unfold load_all, scan, read_entries. set (directory := pointer_directory state_dir).
  eapply (does_try _ _ _ _ (fun entries v => v0 = v /\ forall profile document,
    listable v0 profile -> published_in v0 profile document -> named entries profile)).
  - eapply does_try.
    + apply does_map_err. by apply (does_look (eq v0)).
    + intros found w [Hw ->]. apply wp_ret. split; [by apply Hrefl|]. intros entries. rewrite <-Hw.
      case_match; [done|]. intros [= <-]. split; [done|]. intros p d [Hp Hdir] (content & Hc & _).
      rewrite bool_decide_eq_true_2 by done. simpl. exists (p +:+ SUFFIX). split; [|by apply profile_of_name].
      apply ll_listed, list_elem_of_omap. exists (pointer_path state_dir p). split.
      * apply elem_of_app. left. apply list_elem_of_fmap. exists (pointer_path state_dir p, content). split; [done|].
        by apply elem_of_map_to_list.
      * rewrite pointer_path_split by done. by rewrite bool_decide_eq_true_2.
  - intros entries. apply does_fact. intros Hnamed.
    eapply does_mono; [apply does_load_named|exact Hrefl|done|]. intros ds v _ (Hv & Hin & Hall). split_and!; [done|done|].
    intros p d Hp Hd. apply (Hall p); [by apply (Hnamed p d)|done].
Qed.
End documents.

(** ** Recovery *)

Section recovery.
Context {H : Type} {LH : LibvirtHost H} {LL : LawfulLibvirt H} {LD : LibvirtDaemon H} {LW : LawfulDaemon H} {LG : LawfulListing H}.
Context {PE : ParserErrors} {XC : XmlCodec} {JC : JsonCodec VolumeCheckpoint} {JR : JsonCodec HelperRequest}.
Context {JW : JsonCodec PublishedWarm} {UC : UuidCodec} {WC : WireCodec} (wk : LibvirtWorker) (v0 : View).
Local Abbreviation W := (HostWorld H).
Local Abbreviation state_dir := (lw_state_dir wk).

(** A document on disk names a volume. *)
Definition names_volume (name : string) : Prop := exists profile document pointer,
  listable state_dir v0 profile /\ published_in state_dir v0 profile document /\
  pointer ∈ pointers document /\ vp_volume_name pointer = name.

Record recovers_only (v : View) : Prop := {
  rv_domains : vw_domains v = vw_domains v0;
  rv_volumes at_ : vw_volumes v !! at_ = vw_volumes v0 !! at_ \/
    vw_volumes v !! at_ = None /\ exists capture_id,
      at_ = (hcf_pool (lw_config wk), warm_volume_name capture_id) /\ ~ names_volume (warm_volume_name capture_id);
}.

Lemma reads_recovers v : reads_only state_dir v0 v -> recovers_only v.
Proof. intros [Hv Hd _ _ _]. constructor; [done|]. intros at_. left. by rewrite Hv. Qed.

Lemma recovers_files f v : recovers_only v -> recovers_only (with_files f v).
Proof. by intros [Hd Hv]. Qed.

Lemma does_referenced :
  does (eq v0) recovers_only (referenced_volume_keys (H := H) wk) (fun referenced v =>
    recovers_only v /\ forall name, names_volume name -> name ∈ referenced).
Proof.
  unfold referenced_volume_keys. eapply does_try.
  - apply does_map_err. eapply does_mono; [apply (does_load_all state_dir v0)|done|apply reads_recovers|].
    intros documents v _ Hv. exact Hv.
  - intros documents w (Hw & _ & Hall). apply wp_ret. apply reads_recovers in Hw. split; [done|].
    intros referenced [= <-]. split; [done|]. intros name (profile & document & pointer & Hp & Hd & Hin & <-).
    apply elem_of_list_to_set, list_elem_of_In, in_concat. exists [vp_volume_key pointer; vp_volume_name pointer].
    split; [|by right; left]. apply in_map_iff. exists pointer. split; [done|]. apply in_concat. exists (pointers document).
    split; [|by apply list_elem_of_In]. apply in_map. apply list_elem_of_In. by eapply Hall.
Qed.

Lemma keeps_reconcile capture_id referenced :
  (forall name, names_volume name -> name ∈ referenced) ->
  keeps recovers_only (reconcile_capture (H := H) wk capture_id referenced).
Proof.
  intros Href. unfold reconcile_capture, into_worker. set (path := warm_path state_dir capture_id).
  assert (keeps recovers_only (remove_checkpoint (H := H) path)) by by apply keeps_remove_checkpoint; intros; apply recovers_files.
  apply maintains_try; [apply maintains_map_err, keeps_load_checkpoint|]. intros [checkpoint|]; [|apply maintains_ret].
  apply maintains_try; [|intros ?; by apply maintains_map_err].
  case_bool_decide as Hname; simpl; [apply maintains_ret|]. case_match; [apply maintains_ret|]. apply maintains_map_err.
  assert (does recovers_only recovers_only (actor_delete_volume (H := H) wk (cv_key <$> find_volume RoleWarm checkpoint)
    (warm_volume_name capture_id) RECOVERY_TIMEOUT) (fun _ => recovers_only)) as Hd; [|by eapply keeps_does].
  apply does_request; [done|]. intros remaining b [= <-]. simpl.
  eapply spec_mono; [apply (delete_exact_spec recovers_only)|done| |done].
  - intros v vol [Hdom Hv] _ _. constructor; [done|]. intros at_. simpl.
    destruct (decide (at_ = (hcf_pool (lw_config wk), warm_volume_name capture_id))) as [->|Hne].
    + right. split; [apply lookup_delete_eq|]. exists capture_id. split; [done|]. intros Hn. by apply Hname, Href.
    + rewrite lookup_delete_ne by done. apply Hv.
  - intros r v [Hv _]. by split.
Qed.

Lemma keeps_reconcile_all captures referenced :
  (forall name, names_volume name -> name ∈ referenced) ->
  keeps recovers_only (reconcile_captures (H := H) wk captures referenced).
Proof.
  intros Href. induction captures as [|capture_id captures IH]; cbn [reconcile_captures]; [apply maintains_ret|].
  apply maintains_try; [by apply keeps_reconcile|done].
Qed.

Lemma keeps_pending I : keeps I (pending_captures (H := H) wk).
Proof. unfold pending_captures, scan, read_entries, into_worker, on_file. keeps. Qed.

Lemma keeps_recovery : does (eq v0) recovers_only (ensure_captures_recovered (H := H) wk) (fun _ _ => True).
Proof.
  unfold ensure_captures_recovered. eapply does_try; [apply does_referenced|]. intros referenced.
  apply does_fact. intros Href. apply does_try_after; [apply keeps_pending|done|]. intros captures.
  eapply does_mono; [apply (does_keeps recovers_only recovers_only)|done|done|done]; [by apply keeps_reconcile_all|done].
Qed.
End recovery.

Section recovering.
Context {H : Type} {LH : LibvirtHost H} {LL : LawfulLibvirt H} {LD : LibvirtDaemon H} {LW : LawfulDaemon H} {LG : LawfulListing H}.
Context {PE : ParserErrors} {XC : XmlCodec} {JC : JsonCodec VolumeCheckpoint} {JR : JsonCodec HelperRequest}.
Context {JW : JsonCodec PublishedWarm} {UC : UuidCodec} {WC : WireCodec}.

(** C10: recovering interrupted captures at start, wherever it stops, changes no
    domain and deletes no volume but one of a capture's own name, and never one
    whose name a profile's trusted document on disk holds, current or
    superseded. *)
Theorem recovery_keeps_published (wk : LibvirtWorker) (w : HostWorld H) :
  let w' := (ensure_captures_recovered wk w).2 in
  recovers_only wk (view w) (view w') /\
  forall profile document pointer,
    pointer_directory (lw_state_dir wk) ∈ hw_dirs w -> profile_name_new profile = Ok profile ->
    published_in (lw_state_dir wk) (view w) profile document -> pointer ∈ pointers document ->
    volumes (hw_host w') !! (hcf_pool (lw_config wk), vp_volume_name pointer) =
    volumes (hw_host w) !! (hcf_pool (lw_config wk), vp_volume_name pointer).
Proof.
  intros w'. destruct (does_end _ _ _ _ w (keeps_recovery wk (view w)) eq_refl) as [Hr _]. fold w' in Hr.
  split; [done|]. intros profile document pointer Hdir Hp Hd Hin.
  destruct (rv_volumes _ _ _ Hr (hcf_pool (lw_config wk), vp_volume_name pointer)) as [Heq|(_ & id & [= Hname] & Hnot)]; [done|].
  destruct Hnot. exists profile, document, pointer. by rewrite <-Hname.
Qed.
End recovering.

(** ** Sweeps *)

Section sweep.
Context {H : Type} {LH : LibvirtHost H} {LL : LawfulLibvirt H} {LV : LibvirtVolumes H} {LS : LawfulVolumes H}.
Context {LD : LibvirtDaemon H} {LW : LawfulDaemon H} {LG : LawfulListing H}.
Context {PE : ParserErrors} {XC : XmlCodec} {XT : XmlTree} {JC : JsonCodec VolumeCheckpoint} {JR : JsonCodec HelperRequest}.
Context {JW : JsonCodec PublishedWarm} {JB : JsonCodec PublishedBase} {UC : UuidCodec} {WC : WireCodec}.
Context (wk : LibvirtWorker) (request : ImageSweep) (v0 : View) (now : Z).
Local Abbreviation W := (HostWorld H).
Local Abbreviation config := (lw_config wk).
Local Abbreviation state_dir := (lw_state_dir wk).

(** What a sweep whose clock read [now] may delete: the volume of a candidate
    of a document on disk, under the key the document records, with a known
    date at least an hour before [now]. *)
Definition collectable (at_ : string * string) : Prop := exists profile document pointer vol,
  sw_is_dry_run request = false /\ published_in state_dir v0 profile document /\
  pointer ∈ candidates document request profile /\
  vp_produced_at_unix pointer <> 0 /\ vp_produced_at_unix pointer + 3600 <= now /\
  vp_pool pointer = hcf_pool config /\ at_ = (hcf_pool config, vp_volume_name pointer) /\
  vw_volumes v0 !! at_ = Some vol /\ v_key vol = vp_volume_key pointer.

Record collects_only (v : View) : Prop := {
  co_domains : vw_domains v = vw_domains v0;
  co_volumes at_ : vw_volumes v !! at_ = vw_volumes v0 !! at_ \/ vw_volumes v !! at_ = None /\ collectable at_;
}.

Lemma collects_files f v : collects_only v -> collects_only (with_files f v).
Proof. by intros [Hd Hv]. Qed.

Lemma collects_reads v : reads_only state_dir v0 v -> collects_only v.
Proof. intros [Hv Hd _ _ _]. constructor; [done|]. intros at_. left. by rewrite Hv. Qed.

Lemma old_enough pointer :
  is_old_enough now pointer = true ->
  vp_produced_at_unix pointer <> 0 /\ vp_produced_at_unix pointer + 3600 <= now.
Proof.
  unfold is_old_enough. rewrite andb_true_iff, negb_true_iff, Z.eqb_neq, Z.leb_le.
  unfold WARM_RETIREMENT_AGE_SECONDS, sat_sub. lia.
Qed.

Lemma keeps_retire_aged profile document protected timeout :
  sw_is_dry_run request = false -> published_in state_dir v0 profile document ->
  keeps collects_only (actor_warm_retire (H := H) wk (List.filter (is_old_enough now) (candidates document request profile))
                         protected timeout).
Proof.
  intros Hdry Hdoc. set (aged := List.filter _ _).
  assert (does collects_only collects_only (actor_warm_retire (H := H) wk aged protected timeout) (fun _ => collects_only)) as Hd;
    [|by eapply keeps_does].
  apply does_request; [done|]. intros remaining b [= <-] w Hw. simpl.
  assert (forall v, spares config aged protected (survey w) v -> collects_only v) as Hs.
  { intros v [Hdom _ _ Hvol]. destruct Hw as [Hd0 Hv0]. constructor; [by rewrite Hdom|]. intros at_.
    destruct (Hvol at_) as [->|[Hgone (pointer & vol & Hin & -> & Hthere & Hkey & Hpool & _)]]; [apply Hv0|].
    right. split; [done|]. apply list_elem_of_In, filter_In in Hin as [Hin Hold]. apply list_elem_of_In in Hin.
    assert (vw_volumes v0 !! volume_at config pointer = Some vol) as Hvol0.
    { destruct (Hv0 (volume_at config pointer)) as [Heq|[Hn _]]; change (vw_volumes (view w)) with (vw_volumes (su_view (survey w))) in *; congruence. }
    exists profile, document, pointer, vol. apply old_enough in Hold as [Hdated Hold]. by split_and!. }
  eapply wp_mono; [apply retire_steps| | |]; [|intros w' Hw'; by apply Hs..].
  intros r w' [Hw' _]. split; [by apply Hs|]. intros ? _. by apply Hs.
Qed.

Lemma keeps_collects_change f : keeps collects_only (change (H := H) f).
Proof. apply keeps_change. intros v. apply collects_files. Qed.

Lemma keeps_collects_directories path : keeps collects_only (create_directories (H := H) path).
Proof.
  intros w Hw. pose proof (view_turn w) as Hv. unfold wp, create_directories.
  destruct (lh_turn (hw_host w)) as [turn h]; simpl in *. rewrite <-Hv in Hw.
  assert (forall dirs, collects_only (view (w <| hw_host := h |> <| hw_dirs := dirs ∪ hw_dirs w |>))) as Hdirs
    by (intros dirs; by destruct Hw as [Hd Hvol]).
  destruct turn as [|[] m|[]], (existsb _ _); simpl; done || apply Hdirs.
Qed.

Lemma keeps_collects_published document : keeps collects_only (ensure_published (H := H) state_dir document).
Proof.
  pose proof keeps_collects_change. pose proof keeps_collects_directories.
  unfold ensure_published, ensure_warm_directory, on_file. keeps.
Qed.

Lemma keeps_collects_removed profile : keeps collects_only (remove_pointer (H := H) state_dir profile).
Proof. pose proof keeps_collects_change. unfold remove_pointer, sync_directory, on_file. keeps. Qed.

Lemma keeps_document protected profile document :
  profile_name_new profile = Ok profile -> published_in state_dir v0 profile document ->
  keeps collects_only (retire_document (H := H) wk request protected now document).
Proof.
  intros Hp Hd. pose proof keeps_collects_published. pose proof keeps_collects_removed.
  unfold retire_document. assert (pw_profile document = profile) as -> by by destruct Hd as (? & _ & _ & ?). rewrite Hp.
  case_bool_decide; [apply maintains_ret|]. destruct (sw_is_dry_run request) eqn:Hdry; [apply maintains_ret|].
  apply maintains_try; [by apply maintains_map_err, keeps_retire_aged|]. intros deleted.
  apply maintains_try; [unfold ensure_pointer_updated, into_worker; keeps|]. intros ?. apply maintains_ret.
Qed.

Lemma keeps_documents protected documents :
  (forall document, document ∈ documents -> exists profile, profile_name_new profile = Ok profile /\
     published_in state_dir v0 profile document) ->
  keeps collects_only (retire_documents (H := H) wk request protected now documents).
Proof.
  induction documents as [|document documents IH]; intros Hdocs; cbn [retire_documents]; [apply maintains_ret|].
  apply maintains_try.
  - destruct (Hdocs document) as (profile & Hp & Hd); [constructor|]. by apply (keeps_document _ profile).
  - intros reported. apply maintains_try; [apply IH; intros d Hd; apply Hdocs; by constructor|].
    intros others. apply maintains_ret.
Qed.

Lemma keeps_bases (I : View -> Prop) directory : keeps I (published_base_pointers (H := H) directory).
Proof.
  assert (forall names found, keeps I (bases_named (H := H) directory names found)) as Hb.
  { induction names as [|name names IH]; intros found; cbn [bases_named]; [apply maintains_ret|].
    case_match; [|done]. unfold load_published, read_bounded_regular, read_private_bounded_regular_optional, on_file. keeps. }
  unfold published_base_pointers, scan, read_entries, on_file. keeps.
Qed.

End sweep.

Section sweeping.
Context {H : Type} {LH : LibvirtHost H} {LL : LawfulLibvirt H} {LV : LibvirtVolumes H} {LS : LawfulVolumes H}.
Context {LD : LibvirtDaemon H} {LW : LawfulDaemon H} {LG : LawfulListing H}.
Context {PE : ParserErrors} {XC : XmlCodec} {XT : XmlTree} {JC : JsonCodec VolumeCheckpoint} {JR : JsonCodec HelperRequest}.
Context {JW : JsonCodec PublishedWarm} {JB : JsonCodec PublishedBase} {UC : UuidCodec} {WC : WireCodec}.

Section reading.
Context (wk : LibvirtWorker) (image_manifest_dir : PathBuf).
Local Abbreviation W := (HostWorld H).
Local Abbreviation state_dir := (lw_state_dir wk).

(** A sweep up to its one reading of the clock: the documents it works on, the
    pointers it protects and the time it compares ages with. *)
Definition sweep_reading : Fut W (result WorkerError (list PublishedWarm * list VolumePointer * Z)) :=
  documents ←! into_worker (load_all state_dir);
  protected ←! protected_pointers image_manifest_dir documents;
  now ← worker_unix_time;
  mret (Ok (documents, protected, now)).

Lemma sweep_reads request w :
  ensure_superseded_retired wk image_manifest_dir request w =
  (r ←! sweep_reading; retire_documents wk request r.1.2 r.2 r.1.1) w.
Proof.
  unfold ensure_superseded_retired, sweep_reading, fut_try, mbind, Fut_bind.
  destruct (into_worker (load_all state_dir) w) as [[[documents|]| |] w1]; [|done..].
  destruct (protected_pointers image_manifest_dir documents w1) as [[[protected|]| |] w2]; [|done..].
  by destruct (worker_unix_time w2) as [[now| |] w3].
Qed.

Lemma does_reading v0 :
  does (eq v0) (reads_only state_dir v0) sweep_reading (fun r v => reads_only state_dir v0 v /\
    forall document, document ∈ r.1.1 -> exists profile, profile_name_new profile = Ok profile /\
      published_in state_dir v0 profile document).
Proof.
  eapply does_try.
  - apply does_map_err. eapply does_mono; [apply (does_load_all state_dir v0)|done|done|].
    intros documents v _ Hv. exact Hv.
  - intros documents. apply does_from. intros v1 (Hv1 & Hdocs & _).
    apply does_try_after; [|by intros v <-|].
    { unfold protected_pointers, into_worker. pose proof (keeps_bases (H := H) (eq v1)). keeps. }
    intros protected. apply does_after; [|by intros v <-|].
    { unfold worker_unix_time. apply maintains_bind; [apply keeps_host, quiet_unix_time|]. intros ?. apply maintains_ret. }
    intros now. apply does_ret. intros v <-. auto.
Qed.
End reading.

(** C9: a sweep of warm generations, wherever it stops, changes no domain, and
    a volume that is gone was in the configured pool under the name and key of
    a candidate of a trusted document on disk, dated at least an hour before
    the sweep's own reading of the clock: a superseded generation, or the
    current one of a profile with none left that neither the configuration
    declares nor a record claims.  A sweep that ends before that reading, and a
    dry run, delete nothing. *)
Theorem sweep_collects (wk : LibvirtWorker) (image_manifest_dir : PathBuf) (request : ImageSweep) (w : HostWorld H) :
  let w' := (ensure_superseded_retired wk image_manifest_dir request w).2 in
  match (sweep_reading wk image_manifest_dir w).1 with
  | Done (Ok (_, _, now)) => collects_only wk request (view w) now (view w')
  | _ => domains (hw_host w') = domains (hw_host w) /\ volumes (hw_host w') = volumes (hw_host w)
  end /\
  forall document profile pointer, pointer ∈ candidates document request profile ->
    pointer ∈ pw_superseded document \/
    pointer = pw_current document /\ pw_superseded document = [] /\
    sw_declared request !! profile <> Some (pw_logical_name document) /\ profile ∉ sw_claimed request.
Proof.
  intros w'. split.
  { unfold w'. rewrite sweep_reads. unfold fut_try, mbind, Fut_bind.
    destruct (does_end _ _ _ _ w (does_reading wk image_manifest_dir (view w)) eq_refl) as [Hr Hok].
    destruct (sweep_reading wk image_manifest_dir w) as [[[[[documents protected] now]|e]| |] w1] eqn:E; simpl in *;
      try (destruct Hr as [Hv Hd _ _ _]; split; [exact Hd|exact Hv]).
    destruct (Hok _ eq_refl) as [Hr1 Hdocs]. apply keeps_end; [by apply keeps_documents|].
    by apply collects_reads. }
  intros document profile pointer. unfold candidates. case_bool_decide as Hs; simpl; [|by left].
  destruct (from_option _ _ _) eqn:Hdeclared; simpl; [by left|]. case_bool_decide as Hc; simpl; [by left|].
  intros ->%list_elem_of_singleton. right. split_and!; try done. intros Hd. rewrite Hd in Hdeclared. simpl in Hdeclared.
  by rewrite bool_decide_eq_true_2 in Hdeclared.
Qed.

Lemma is_same_volume_sym p q : is_same_volume p q = is_same_volume q p.
Proof. unfold is_same_volume. f_equal; apply bool_decide_ext; split; congruence. Qed.

Lemma shielded_retirable config aged protected l :
  (forall candidate, candidate ∈ l -> candidate ∈ aged) ->
  ensure_retirable config l (shielded aged protected) = ensure_retirable config l [].
Proof.
  induction l as [|c l IH]; intros Hl; simpl; [done|].
  assert (existsb (fun pointer => is_same_volume pointer c) (shielded aged protected) = false) as ->.
  { apply existsb_false. intros pointer Hin. apply list_elem_of_In, filter_In in Hin as [_ Hp].
    rewrite negb_true_iff, existsb_false in Hp. rewrite is_same_volume_sym. apply Hp, Hl. constructor. }
  rewrite IH; [done|]. intros c' Hc'. apply Hl. by constructor.
Qed.

(** The protected pointers a sweep sends protect nothing: those that are
    the same volume as a candidate are left out, so the helper answers as if
    none were sent, published cold bases included. *)
Theorem shield_is_vacuous (config : HelperConfig) (aged protected : list VolumePointer) :
  retire_volumes (H := H) config aged (shielded aged protected) = retire_volumes config aged [].
Proof. unfold retire_volumes. by rewrite shielded_retirable. Qed.
End sweeping.

(** ** A promotion the manager does not record *)

(** The manager's record of an image is a row of its own: writing or reverting
    it changes no volume and no domain. *)
Class LawfulWarmDaemon (H : Type) {LH : LibvirtHost H} {LL : LawfulLibvirt H} {WD : WarmDaemon H} := {
  lwd_record record : quiet (wd_record (H := H) record);
  lwd_revert profile template previous : quiet (wd_revert (H := H) profile template previous);
}.

Section dangling.
Context {H : Type} {LH : LibvirtHost H} {LL : LawfulLibvirt H} {LV : LibvirtVolumes H} {LS : LawfulVolumes H}.
Context {LD : LibvirtDaemon H} {LW : LawfulDaemon H} {WD : WarmDaemon H} {LM : LawfulWarmDaemon H}.
Context {PE : ParserErrors} {XC : XmlCodec} {XT : XmlTree} {JC : JsonCodec VolumeCheckpoint} {JR : JsonCodec HelperRequest}.
Context {JW : JsonCodec PublishedWarm} {UC : UuidCodec} {WC : WireCodec}.
Context (wk : LibvirtWorker) (request : WarmRequest).
Local Abbreviation W := (HostWorld H).
Local Abbreviation config := (lw_config wk).
Local Abbreviation state_dir := (lw_state_dir wk).
Local Abbreviation profile := (wq_profile request).

(** [promote_capture] up to the published document. *)
Definition publication (capture_id : Uuid) (deadline : Z) : Fut W (result Stopped PublishedWarm) :=
  published ←! stops (stopped Stage RFailed) (into_worker (load_pointer state_dir (wq_profile request)));
  _ ←! mret (ensure_retirement_headroom published);
  _ ←! in_guest wd_marker deadline "workflow completion marker verification exceeded its timeout";
  _ ←! in_guest wd_generalize deadline "guest clone identity generalization exceeded its timeout";
  budget ←! left_until deadline;
  _ ←! stops_runtime (stopped Stop RFailed) (actor_warm_quiesce wk (wq_manifest request) budget);
  budget ←! left_until deadline;
  staged ←! stops_runtime (stopped Stage RFailed) (actor_warm_capture wk {|
    wc_manifest := wq_manifest request; wc_profile := wq_profile request; wc_capture_id := capture_id;
    wc_generation := wq_generation request; wc_virtual_bytes := wq_virtual_bytes request |} budget);
  budget ←! left_until deadline;
  verified ←! stops_runtime (stopped Verify Rejected) (actor_warm_verify wk {|
    wv_profile := wq_profile request; wv_capture_id := capture_id; wv_generation := wq_generation request;
    wv_produced_at_unix := vp_produced_at_unix staged; wv_virtual_bytes := wq_virtual_bytes request |} budget);
  _ ←! stops (stopped_staged Verify RFailed) (record_image request Staging);
  published ←! stops (stopped_staged Promote RFailed) (into_worker (load_pointer state_dir (wq_profile request)));
  document ←! stops_runtime (stopped_staged Promote RFailed) (mret (repoint request published verified));
  _ ←! stops (stopped_staged Promote RFailed) (into_worker (ensure_published state_dir document));
  mret (Ok document).

Lemma fut_try_assoc {E A B C} (c : Fut W (result E A)) (k : A -> Fut W (result E B)) (l : B -> Fut W (result E C)) w :
  fut_try (fut_try c k) l w = fut_try c (fun a => fut_try (k a) l) w.
Proof. unfold fut_try, mbind, Fut_bind. by destruct (c w) as [[[a|e]| |] w1]. Qed.

Lemma fut_try_ext {E A B} (c : Fut W (result E A)) (k l : A -> Fut W (result E B)) w :
  (forall a w, k a w = l a w) -> fut_try c k w = fut_try c l w.
Proof. intros Heq. unfold fut_try, mbind, Fut_bind. destruct (c w) as [[[a|e]| |] w1]; by rewrite ?Heq. Qed.

Lemma promote_publishes capture_id deadline w :
  promote_capture wk request capture_id deadline w =
  (document ←! publication capture_id deadline;
   _ ←! stops (stopped_staged Promote RFailed) (record_image request Promoted);
   _ ← forget_capture wk capture_id;
   mret (Ok tt)) w.
Proof.
  unfold promote_capture, publication.
  do 14 (rewrite fut_try_assoc; apply fut_try_ext; clear w; intros ? w). done.
Qed.

(** A retention up to the published document. *)
Definition retention_published (timeout : Z) : Fut W (result Stopped (Uuid * PublishedWarm)) :=
  capture_id ← host lh_uuid;
  now ← host lh_now;
  document ←! publication capture_id (now + timeout);
  mret (Ok (capture_id, document)).

(** A rollback up to the answer about the volume. *)
Definition rollback_removal (capture_id : Uuid) (ended : Stopped) : Fut W (result RuntimeError unit) :=
  _ ← (if st_is_record_staged ended
       then reverted ← host (wd_revert (wq_profile request) (wq_warm_template request) (wq_previous request)); mret tt
       else mret tt);
  loaded ← load_checkpoint (warm_path state_dir capture_id);
  actor_delete_volume wk (match loaded with
                          | Ok (Some checkpoint) => cv_key <$> find_volume RoleWarm checkpoint
                          | _ => None
                          end) (warm_volume_name capture_id) (from_secs LIBVIRT_MIN_CLEANUP_TIMEOUT_SECONDS).

Lemma rollback_removes capture_id ended w :
  rollback_capture wk request capture_id ended w =
  (removed ← rollback_removal capture_id ended;
   match removed with Err _ => mret tt | Ok _ => _ ← forget_capture wk capture_id; mret tt end) w.
Proof.
  unfold rollback_capture, rollback_removal, mbind, Fut_bind.
  match goal with |- context [match ?c w with _ => _ end] => destruct (c w) as [[[]| |] w1] end; [|done..].
  by destruct (load_checkpoint (warm_path state_dir capture_id) w1) as [[loaded| |] w2].
Qed.

(** *** What is published *)

Lemma does_any {E A} P (c : Fut W (result E A)) : does P (fun _ => True) c (fun _ _ => True).
Proof. intros w _. unfold wp. by destruct (c w) as [[] ?]. Qed.

Lemma does_publishes document (empty : rejects_empty JW) :
  does (fun _ => True) (fun _ => True) (ensure_published (H := H) state_dir document)
    (fun _ v => published_in state_dir v (pw_profile document) document).
Proof.
  unfold ensure_published. apply does_try_ret; [done|]. intros p Hp. apply map_err_ok in Hp.
  unfold profile_name_new in Hp. apply identifier_new_ok in Hp as [-> _].
  apply does_try_ret; [done|]. intros bytes Hb. apply map_err_ok in Hb.
  eapply does_try; [apply does_any|]. intros ?. apply does_map_err, does_change; [done|]. intros v _. split; [done|].
  exists bytes. simpl. rewrite lookup_insert_eq. split_and!; [done| |done].
  by eapply encoded_reads_back.
Qed.

Lemma does_verified verify_request timeout :
  does (fun _ => True) (fun _ => True) (actor_warm_verify (H := H) wk verify_request timeout)
    (fun pointer _ => True /\ vp_volume_name pointer = warm_volume_name (wv_capture_id verify_request)).
Proof.
  apply does_request; [done|]. intros remaining b [= <-] w _. simpl.
  pose proof (verify_sees (survey w) config verify_request w eq_refl) as Hwp.
  eapply wp_mono; [exact Hwp| |done|done]. intros r w' [_ Hr]. split; [done|]. intros p ->.
  destruct Hr as (_ & -> & _). by split.
Qed.

Lemma repoint_current published pointer document :
  repoint request published pointer = Ok document ->
  (forall d, published = Some d -> pw_profile d = profile) ->
  pw_current document = pointer /\ pw_profile document = profile.
Proof.
  unfold repoint, warm_new, repointed, warm_document. intros Hr%map_err_ok Hp.
  destruct published as [d|]; apply result_bind_ok in Hr as ([] & _ & [= <-]); simpl; [|done].
  split; [done|]. by apply Hp.
Qed.

Lemma does_publication capture_id deadline (empty : rejects_empty JW) :
  does (fun _ => True) (fun _ => True) (publication capture_id deadline) (fun document v =>
    published_in state_dir v profile document /\ vp_volume_name (pw_current document) = warm_volume_name capture_id).
Proof.
  unfold publication. do 9 (eapply does_try; [apply does_any|intros ?]).
  eapply does_try; [apply does_map_err, does_verified|]. intros verified. apply does_fact. intros Hname.
  eapply does_try; [apply does_any|]. intros ?. apply does_from. intros v1 _.
  eapply does_try.
  { apply does_map_err, does_map_err. eapply does_mono; [apply (does_load_pointer state_dir v1)| | |];
      [intros v <-; apply reads_only_refl|done|]. intros found v _ Hv. exact Hv. }
  intros published. apply does_from. intros v2 [_ Hpub]. apply does_try_ret; [done|]. intros document Hd.
  apply map_err_ok in Hd. apply repoint_current in Hd as [Hc Hp]; [|intros d (_ & _ & _ & Hpd)%Hpub; exact Hpd].
  eapply does_try.
  { do 2 apply does_map_err. eapply does_mono; [by apply (does_publishes document)|done|done|].
    intros ? v _ Hv. exact Hv. }
  intros ? w Hw. apply wp_ret. split; [done|]. intros d [= <-]. rewrite Hp in Hw. by rewrite Hc.
Qed.

(** *** What a rollback leaves *)

Lemma capture_not_pointer capture_id other : warm_path state_dir capture_id <> pointer_path state_dir other.
Proof.
  unfold warm_path, pointer_path, SUFFIX.
  destruct (join_suffix (warm_capture_dir state_dir) ("capture-" +:+ capture_id +:+ ".volume-checkpoint.json")) as [p ->].
  destruct (join_suffix (pointer_directory state_dir) (other +:+ ".warm.json")) as [q ->].
  change ".volume-checkpoint.json" with (".volume-checkpoin" +:+ "t" +:+ ".json").
  change ".warm.json" with (".war" +:+ "m" +:+ ".json").
  rewrite !string_app_assoc. intros Heq%string_app_inj_r. rewrite <-!string_app_assoc in Heq.
  revert Heq. rewrite !string_app_assoc, <-(string_app_assoc _ _ "t"), <-(string_app_assoc _ _ "m").
  by apply last_byte_ne.
Qed.

Section rolled_back.
Context (document : PublishedWarm) (capture_id : Uuid).
Local Abbreviation at_ := (hcf_pool config, warm_volume_name capture_id).

Definition stays (v : View) : Prop := published_in state_dir v profile document.

Definition dangles (v : View) : Prop :=
  stays v /\ vw_volumes v !! (hcf_pool config, warm_volume_name capture_id) = None.

Lemma does_removal ended :
  does stays stays (rollback_removal capture_id ended) (fun _ => dangles).
Proof.
  unfold rollback_removal. apply does_after; [|done|].
  { destruct (st_is_record_staged ended); [|apply maintains_ret].
    apply maintains_bind; [apply keeps_host, lwd_revert|].
    intros ?. apply maintains_ret. }
  intros _. apply does_after; [apply keeps_load_checkpoint|done|]. intros loaded.
  apply does_request; [done|]. intros remaining b [= <-]. simpl.
  eapply spec_mono; [apply (delete_exact_spec stays)|done| |done]; [by intros v vol Hv _ _|].
  intros r v [Hv Hgone]. split; [done|]. intros [] ->. by split; [|apply Hgone].
Qed.

Lemma keeps_forget : keeps dangles (forget_capture (H := H) wk capture_id).
Proof.
  apply maintains_map_err, keeps_remove_checkpoint. intros v [(content & Hc & Hd) Hv]. split; [|done].
  exists content. split; [|done]. simpl. rewrite lookup_delete_ne; [done|]. apply capture_not_pointer.
Qed.

(** A source whose volume is not there does not check. *)
Lemma yields_missing_source (I : View -> Prop) pointer :
  (forall v, I v -> vw_volumes v !! (hcf_pool config, vp_volume_name pointer) = None) ->
  yields I (check_source_pointer (H := H) config pointer) (on_ok (fun _ => False)).
Proof.
  intros Hgone. unfold check_source_pointer. apply yields_try_ret. intros ? _.
  apply yields_if; [by apply yields_pure|]. eapply yields_try; [apply yields_pool_lookup|]. intros pool ->.
  eapply (yields_try _ _ _ (fun _ => False)); [|by intros ? []]. apply yields_virt, yields_call. intros w HI. split.
  - by rewrite view_reading by constructor.
  - eapply answers_mono; [apply lw_vol_lookup|]. intros v h (vol & Hvol & _).
    apply Hgone in HI. simpl in HI. congruence.
Qed.

Lemma yields_does {E A} (I J : View -> Prop) (c : Fut W (result E A)) R :
  (forall v, I v -> J v) -> yields I c (on_ok R) -> does I J c (fun a _ => R a).
Proof.
  intros HJ Hc w HI. eapply wp_mono; [by apply Hc| |intros w'; apply HJ..].
  intros r w' [HI' Hr]. split; [by apply HJ|]. by intros a ->.
Qed.

Lemma does_unavailable record :
  wi_profile record = profile -> vp_volume_name (pw_current document) = warm_volume_name capture_id ->
  does dangles (fun _ => True)
    (warm_pointer_availability (H := H) wk record) (fun answer _ => answer <> WReady).
Proof.
  intros Hp Hname. apply does_from. intros v [Hdoc Hgone]. unfold warm_pointer_availability. rewrite Hp. eapply does_try.
  { apply does_map_err. eapply does_mono; [apply (does_load_pointer state_dir v)| | |];
      [intros ? <-; apply reads_only_refl|done|]. intros found v' _ Hv. exact Hv. }
  intros found. apply does_from. intros v1 [Hr Hfound]. apply Hfound in Hdoc as ->.
  destruct (_ || _); [by apply does_ret|].
  assert (does (eq v1) (fun _ => True) (actor_check_source (H := H) wk (pw_current document) AVAILABILITY_TIMEOUT)
    (fun _ _ => False)) as Hcheck.
  { unfold actor_check_source, request_unlocked. do 2 (apply does_after; [apply keeps_host, quiet_now|done|]; intros ?).
    case_match; [by apply does_fail|]. apply does_try_ret; [done|]. intros ? _. apply does_run_helper; [done|].
    eapply (does_try _ _ _ _ (fun _ _ => False)); [|by intros ? ? []]. apply yields_does; [done|].
    apply yields_missing_source. intros v' <-. by rewrite (ro_volumes _ _ _ Hr), Hname. }
  intros w Hw. apply wp_bind. eapply wp_mono; [by apply Hcheck| |done|done].
  intros [a|e] w' [_ Hc]; [by destruct (Hc a)|]. apply wp_ret. split; [done|]. by intros ? [= <-].
Qed.
End rolled_back.

Lemma retention_published_inv timeout (w w1 : W) capture_id document :
  retention_published timeout w = (Done (Ok (capture_id, document)), w1) ->
  exists now wa wb, host lh_uuid w = (Done capture_id, wa) /\ host lh_now wa = (Done now, wb) /\
    publication capture_id (now + timeout) wb = (Done (Ok document), w1).
Proof.
  unfold retention_published, mbind, Fut_bind.
  destruct (host lh_uuid w) as [[id| |] wa] eqn:Hid; [|done..].
  destruct (host lh_now wa) as [[now| |] wb] eqn:Hnow; [|done..].
  unfold fut_try, mbind, Fut_bind. destruct (publication id (now + timeout) wb) as [[[d|]| |] wd] eqn:E; [|done..].
  intros Heq. injection Heq as -> -> ->. by exists now, wa, wb.
Qed.

Lemma rollback_forgets capture_id ended (w2 w3 : W) :
  rollback_removal capture_id ended w2 = (Done (Ok tt), w3) ->
  (rollback_capture wk request capture_id ended w2).2 = (forget_capture wk capture_id w3).2.
Proof.
  intros Hrem. rewrite rollback_removes. unfold mbind, Fut_bind. rewrite Hrem.
  by destruct (forget_capture wk capture_id w3) as [[] ?].
Qed.

(** The steps a retention takes when the last record is refused. *)
Lemma retain_rolls_back timeout (w : W) capture_id document w1 e w2 w3 :
  retention_published timeout w = (Done (Ok (capture_id, document)), w1) ->
  record_image request Promoted w1 = (Done (Err e), w2) ->
  rollback_removal capture_id (stopped_staged Promote RFailed (worker_message e)) w2 = (Done (Ok tt), w3) ->
  (retain_capture wk request timeout w).2 = (forget_capture wk capture_id w3).2.
Proof.
  intros (now & wa & wb & Huuid & Hnow & Hpub)%retention_published_inv Hrec Hrem.
  assert (promote_capture wk request capture_id (now + timeout) wb =
    (Done (Err (stopped_staged Promote RFailed (worker_message e))), w2)) as Hprom.
  { rewrite promote_publishes. unfold stops, fut_map_err, fut_try, mbind, Fut_bind. by rewrite Hpub, Hrec. }
  apply rollback_forgets in Hrem. rewrite <-Hrem.
  unfold retain_capture, mbind, Fut_bind. rewrite Huuid, Hnow, Hprom. simpl.
  by destruct (rollback_capture wk request capture_id _ w2) as [[] ?].
Qed.

(** C12: a promotion the manager does not record leaves a document that names
    a deleted volume.  Take any retention whose document is published and
    whose last record the manager refuses, with a rollback whose delete request
    succeeds.  Then the profile's document is still there and names the
    capture's volume as current, that volume is gone, and as long as this
    stays so no record of the profile is ever found ready to boot. *)
Theorem failed_record_dangles timeout (w : W) capture_id document w1 e w2 w3 :
  rejects_empty JW ->
  retention_published timeout w = (Done (Ok (capture_id, document)), w1) ->
  record_image request Promoted w1 = (Done (Err e), w2) ->
  rollback_removal capture_id (stopped_staged Promote RFailed (worker_message e)) w2 = (Done (Ok tt), w3) ->
  let w' := (retain_capture wk request timeout w).2 in
  vp_volume_name (pw_current document) = warm_volume_name capture_id /\
  published_in state_dir (view w') profile document /\
  volumes (hw_host w') !! (hcf_pool config, warm_volume_name capture_id) = None /\
  forall (later : W) record,
    published_in state_dir (view later) profile document ->
    volumes (hw_host later) !! (hcf_pool config, warm_volume_name capture_id) = None ->
    wi_profile record = profile ->
    (warm_pointer_availability wk record later).1 <> Done (Ok WReady).
Proof.
  intros Hempty Hpub Hrec Hrem w'.
  pose proof (retain_rolls_back _ _ _ _ _ _ _ _ Hpub Hrec Hrem) as Hw'. fold w' in Hw'.
  apply retention_published_inv in Hpub as (now & wa & wb & _ & _ & Hpub).
  destruct (does_end _ _ _ _ wb (does_publication capture_id (now + timeout) Hempty) I) as [_ Hdone].
  rewrite Hpub in Hdone. destruct (Hdone document eq_refl) as [Hd Hname].
  assert (keeps (stays document) (record_image (H := H) request Promoted)) as Hk.
  { unfold record_image, worker_unix_time. apply maintains_bind.
    - apply maintains_bind; [apply keeps_host, quiet_unix_time|]. intros ?. apply maintains_ret.
    - intros ?. apply maintains_bind; [apply keeps_host, lwd_record|]. intros ?. apply maintains_ret. }
  pose proof (keeps_end _ _ w1 Hk Hd) as Hstay. rewrite Hrec in Hstay.
  destruct (does_end _ _ _ _ w2 (does_removal document capture_id
    (stopped_staged Promote RFailed (worker_message e))) Hstay) as [_ Hgone].
  rewrite Hrem in Hgone. specialize (Hgone tt eq_refl).
  pose proof (keeps_end _ _ w3 (keeps_forget document capture_id) Hgone) as [Hs Hv]. rewrite <-Hw' in Hs, Hv.
  split_and!; [done|done|done|]. intros later record Hl Hgl Hp Hready.
  destruct (does_end _ _ _ _ later (does_unavailable document capture_id record Hp Hname) (conj Hl Hgl)) as [_ Hno].
  by apply Hno in Hready.
Qed.
End dangling.

(** ** Runs *)

Module SimGenerations.
Import SimVirt SimVolumes SimWorker.

Definition pointer_texts (p : VolumePointer) : list (option string) :=
  [Some (vp_pool p); Some (vp_volume_name p); Some (vp_volume_key p)].
Definition pointer_numbers (p : VolumePointer) : list Z :=
  [vp_virtual_bytes p; vp_generation p; vp_produced_at_unix p].

Fixpoint pointers_of (texts : list (option string)) (numbers : list Z) : list VolumePointer :=
  match texts, numbers with
  | pool :: name :: key :: texts, bytes :: generation :: produced :: numbers =>
      {| vp_pool := default "" pool; vp_volume_name := default "" name; vp_volume_key := default "" key;
         vp_virtual_bytes := bytes; vp_generation := generation; vp_produced_at_unix := produced |}
      :: pointers_of texts numbers
  | _, _ => []
  end.

Lemma pointers_of_to l : pointers_of (concat (map pointer_texts l)) (concat (map pointer_numbers l)) = l.
Proof. induction l as [|[] l IH]; [done|]. simpl. by rewrite IH. Qed.

Definition warm_to (d : PublishedWarm) : fields :=
  ([Some (pw_profile d); Some (pw_logical_name d); Some (pw_produced_by d)] ++ concat (map pointer_texts (pointers d)),
   [pw_schema_version d; pw_generation d; pw_produced_at_unix d] ++ concat (map pointer_numbers (pointers d))).

Definition warm_of (f : fields) : PublishedWarm :=
  let s i := default "" (mjoin (f.1 !! i)) in
  let z i := default 0 (f.2 !! i) in
  let l := pointers_of (drop 3 f.1) (drop 3 f.2) in
  mkWarm (z 0%nat) (s 0%nat) (s 1%nat) (z 1%nat) (s 2%nat) (z 2%nat)
    (default (pointer_to "" 0) (head l)) (tail l).

Lemma warm_of_to d : warm_of (warm_to d) = d.
Proof.
  assert (pointers_of (drop 3 (warm_to d).1) (drop 3 (warm_to d).2) = pointers d) as Hl by exact (pointers_of_to (pointers d)).
  unfold warm_of. rewrite Hl. by destruct d.
Qed.

#[export] Instance warms : JsonCodec PublishedWarm := json_via warm_to warm_of warm_of_to.

Definition base_to (b : PublishedBase) :=
  (pb_schema_version b, pb_logical_name b, pb_pool b, pb_volume_name b, pb_volume_key b, image_to (pb_manifest b)).
Definition base_of b : PublishedBase :=
  let '(a, b, c, d, e, f) := b in
  {| pb_schema_version := a; pb_logical_name := b; pb_pool := c; pb_volume_name := d; pb_volume_key := e;
     pb_manifest := image_of f |}.
Lemma base_of_to b : base_of (base_to b) = b.
Proof. destruct b as [a b c d e m]. unfold base_of, base_to. cbn -[image_of image_to]. by rewrite image_of_to. Qed.
#[export] Instance bases : JsonCodec PublishedBase := json_via base_to base_of base_of_to.

#[export] Instance full_listing : LawfulListing Host.
Proof. by split. Qed.

(** The guest does as it is asked; the store refuses the last record. *)
#[export] Instance warm_daemon : WarmDaemon Host := {
  wd_marker _ h := (Some (Ok tt), h);
  wd_generalize _ h := (Some (Ok tt), h);
  wd_record record h :=
    (if bool_decide (wi_state record = Promoted) then Err "database is locked" else Ok tt, h);
  wd_revert _ _ _ h := (Ok tt, h);
}.

#[export] Instance lawful_warm_daemon : LawfulWarmDaemon Host.
Proof. by split. Qed.

Definition ci_document : PublishedWarm :=
  mkWarm 1 "ci" "flanforge-warm" 4 id 1 (pointer_to "warm-4" 4) (map (fun n => pointer_to n.1 n.2) [("warm-3", 3); ("warm-2", 2); ("warm-1", 1)]).

Definition state_path : PathBuf := "/var/lib/flanforge".
Definition images_path : PathBuf := "/etc/flanforge/images".

Definition published_world : HostWorld Host :=
  warm_world None <| hw_files := {[ pointer_path state_path "ci" := to_json ci_document ]} |>
    <| hw_dirs := {[ pointer_directory state_path ]} |>.

Definition idle_sweep : ImageSweep := {| sw_is_dry_run := false; sw_declared := ∅; sw_claimed := ∅ |}.

Definition request : WarmRequest := {|
  wq_allocation := allocation; wq_profile := "ci"; wq_warm_template := "flanforge-warm";
  wq_base_fingerprint := "fingerprint"; wq_generation := 5; wq_previous := None;
  wq_manifest := VirtSpec.allocated; wq_virtual_bytes := 1 |}.
End SimGenerations.

(** ** Witnesses *)

Section witnesses.
Import SimVirt SimVolumes SimWorker SimGenerations.

Lemma pair_fst {A B} (p : A * B) a : p.1 = a -> p = (a, p.2).
Proof. destruct p. by intros [= ->]. Qed.

(** A retention through to its refused record: the document is on disk and the
    volume it names is gone. *)
Lemma failed_record_dangles_witness :
  let run := retain_capture worker SimGenerations.request (from_secs 3600) (warm_world None) in
  let capture_id := (lh_uuid (hw_host (warm_world None))).1 in
  (exists outcome, run.1 = Done outcome /\ ro_outcome outcome = RFailed /\ ro_phase outcome = Promote) /\
  h_volumes (hw_host run.2) !! (hcf_pool config, warm_volume_name capture_id) = None /\
  exists document, published_in state_path (view run.2) "ci" document /\
    vp_volume_name (pw_current document) = warm_volume_name capture_id /\
    (warm_pointer_availability worker {|
       wi_profile := "ci"; wi_warm_template := pw_logical_name document; wi_generation := pw_generation document;
       wi_base_fingerprint := "fingerprint"; wi_produced_by := id; wi_produced_at_unix := 1;
       wi_state := Promoted; wi_previous := None |} run.2).1 <> Done (Ok WReady).
Proof.
  intros run capture_id. split; [eexists; split_and!; vm_compute; reflexivity|].
  split; [vm_compute; reflexivity|].
  set (run1 := retention_published worker SimGenerations.request (from_secs 3600) (warm_world None)).
  set (run2 := record_image SimGenerations.request Promoted run1.2).
  set (run3 := rollback_removal worker SimGenerations.request capture_id
    (stopped_staged Promote RFailed (worker_message (worker_error_new "database is locked"))) run2.2).
  assert (exists document, run1.1 = Done (Ok (capture_id, document))) as [document E1]
    by (eexists; vm_compute; reflexivity).
  assert (run2.1 = Done (Err (worker_error_new "database is locked"))) as E2 by (vm_compute; reflexivity).
  assert (run3.1 = Done (Ok tt)) as E3 by (vm_compute; reflexivity).
  destruct (failed_record_dangles worker SimGenerations.request (from_secs 3600) (warm_world None)
    capture_id document run1.2 _ run2.2 run3.2
    (eq_refl : rejects_empty warms) (pair_fst _ _ E1) (pair_fst _ _ E2) (pair_fst _ _ E3)) as (Hname & Hdoc & Hgone & Hnever).
  exists document. split; [exact Hdoc|]. split; [exact Hname|]. apply Hnever; [exact Hdoc|exact Hgone|reflexivity].
Defined.

Lemma sweep_collects_witness :
  let w' := (ensure_superseded_retired worker images_path idle_sweep published_world).2 in
  (exists now, (sweep_reading worker images_path published_world).1 =
       Done (Ok ([ci_document], pointers ci_document, now)) /\
     collects_only worker idle_sweep (view published_world) now (view w')) /\
  map (fun name => bool_decide (is_Some (h_volumes (hw_host w') !! ("flanforge", name))))
    ["warm-1"; "warm-2"; "warm-3"; "warm-4"] = [false; true; true; true].
Proof.
  intros w'. split; [|vm_compute; reflexivity].
  destruct (sweep_collects worker images_path idle_sweep published_world) as [Hc _].
  destruct (sweep_reading worker images_path published_world) as [r w1] eqn:E. simpl in Hc.
  assert (r = (sweep_reading worker images_path published_world).1) as Hr by (rewrite E; reflexivity).
  vm_compute in Hr. subst r. eexists. split; [reflexivity|]. exact Hc.
Defined.

(** A capture was cut short: its volume goes, the published ones stay. *)
Definition interrupted : HostWorld Host :=
  again None (capture config capture_request
    (published_world <| hw_host := hw_host published_world <| h_calls := Some 20%nat |> |>)).2.

Lemma recovery_keeps_published_witness :
  let w' := (ensure_captures_recovered worker interrupted).2 in
  h_volumes (hw_host interrupted) !! (hcf_pool config, warm_volume_name id) <> None /\
  h_volumes (hw_host w') !! (hcf_pool config, warm_volume_name id) = None /\
  h_volumes (hw_host w') !! (hcf_pool config, "warm-4") = h_volumes (hw_host interrupted) !! (hcf_pool config, "warm-4").
Proof.
  intros w'. split; [vm_compute; discriminate|]. split; [vm_compute; reflexivity|].
  destruct (recovery_keeps_published worker interrupted) as [_ Hkept].
  refine (Hkept "ci" ci_document (pointer_to "warm-4" 4) _ _ _ _).
  - apply (bool_decide_unpack _). vm_compute. exact I.
  - vm_compute. reflexivity.
  - exists (to_json ci_document). split; [vm_compute; reflexivity|]. split; vm_compute; reflexivity.
  - left.
Defined.
End witnesses.
